(** * Trade-leadership matching engine: a shallow embedding

    The scripts [compareTraders.ts], the leader finder and the first-trader
    finder are embedded as Rocq functions and their specification is checked
    against them.

    Conventions of the embedding.
    - Unix timestamps and counters are integers ([Z]).
    - A number is exact, rounding is not modelled: a rational ([Q]) where
      it is only carried, a [JsNum.double] where the script adds or
      compares values that can be [NaN] or infinite (the usd value of a
      trade and the volumes of the leader finder).  A quotient computed by
      the scripts is a [number]: a rational or the result of dividing by
      zero.  A field that a script only passes on and prints is kept as
      the value that was received ([Js.value]).
    - A JavaScript [Map] is an association list in insertion order, which is
      the order its iterators follow.
    - [Array.prototype.sort] is stable; it is modelled by a stable insertion
      sort over the comparator's sign.  For a consistent comparator every
      stable sort returns the same array ([JsArrayFacts.sort_unique]); the
      comparators of the scripts are consistent, the ranker's on total
      volumes that are numbers.
    - An access through [undefined] raises a [TypeError]; a function that can
      raise returns an [option], [None] being the exception. *)

From Stdlib Require Import ZArith QArith Lia.
From stdpp Require Import base option list sorting strings.

Local Open Scope Z_scope.

(** ** Numbers *)

(** The value of a JavaScript division: a rational, or what [x / 0]
    yields ([NaN] for [0 / 0], an infinity otherwise). *)
Inductive number : Type :=
| Num (q : Q)
| NotFinite.

Definition numAdd (a b : number) : number :=
  match a, b with
  | Num x, Num y => Num (x + y)
  | _, _ => NotFinite
  end.

Definition numMul (a b : number) : number :=
  match a, b with
  | Num x, Num y => Num (x * y)
  | _, _ => NotFinite
  end.

Definition numDiv (a b : number) : number :=
  match a, b with
  | Num x, Num y => if Qeq_bool y 0 then NotFinite else Num (x / y)
  | _, _ => NotFinite
  end.

Definition ofZ (z : Z) : number := Num (inject_Z z).

(** Equality of numbers up to the representation of the rational. *)
Definition numEq (a b : number) : Prop :=
  match a, b with
  | Num x, Num y => Qeq x y
  | NotFinite, NotFinite => True
  | _, _ => False
  end.

(** Sum and arithmetic mean of a list of integer samples. *)
Definition sumZ (l : list Z) : Z := foldr Z.add 0 l.

Definition mean (l : list Z) : Q :=
  match l with
  | [] => 0%Q
  | _ :: _ => (inject_Z (sumZ l) / inject_Z (Z.of_nat (length l)))%Q
  end.

(** Sum and arithmetic mean of a list of rational samples. *)
Definition sumQ (l : list Q) : Q := foldr Qplus 0%Q l.

Definition meanQ (l : list Q) : Q :=
  match l with
  | [] => 0%Q
  | _ :: _ => (sumQ l / inject_Z (Z.of_nat (length l)))%Q
  end.

(** ** Numbers where a comparison or a test of truth reads them *)

Module JsNum.

(** A JavaScript number with the infinities and [NaN] told apart;
    rounding is not modelled. *)
Inductive double : Type :=
| Fin (q : Q)
| PosInf
| NegInf
| NaN.

(** [a + b] *)
Definition add (a b : double) : double :=
  match a, b with
  | NaN, _ | _, NaN => NaN
  | Fin x, Fin y => Fin (x + y)
  | PosInf, NegInf | NegInf, PosInf => NaN
  | PosInf, _ | _, PosInf => PosInf
  | NegInf, _ | _, NegInf => NegInf
  end.

(** [a * b]: an infinity times zero is [NaN]. *)
Definition mul (a b : double) : double :=
  let timesInf (q : Q) (positive : bool) : double :=
    match (q ?= 0)%Q with
    | Eq => NaN
    | Gt => if positive then PosInf else NegInf
    | Lt => if positive then NegInf else PosInf
    end in
  match a, b with
  | NaN, _ | _, NaN => NaN
  | Fin x, Fin y => Fin (x * y)
  | Fin x, PosInf | PosInf, Fin x => timesInf x true
  | Fin x, NegInf | NegInf, Fin x => timesInf x false
  | PosInf, PosInf | NegInf, NegInf => PosInf
  | PosInf, NegInf | NegInf, PosInf => NegInf
  end.

(** [a >= b]: false when either side is [NaN]. *)
Definition ge (a b : double) : bool :=
  match a, b with
  | NaN, _ | _, NaN => false
  | Fin x, Fin y => Qle_bool y x
  | PosInf, _ => true
  | _, NegInf => true
  | Fin _, PosInf => false
  | NegInf, _ => false
  end.

(** The truth of a number: [0] and [NaN] are false. *)
Definition truthy (a : double) : bool :=
  match a with
  | Fin q => negb (Qeq_bool q 0)
  | PosInf | NegInf => true
  | NaN => false
  end.

(** The sign of [b - a] as [Array.prototype.sort] reads it: a difference
    that is [NaN] counts as [0]. *)
Definition signOfDiff (b a : double) : Z :=
  match b, a with
  | NaN, _ | _, NaN => 0
  | Fin x, Fin y =>
      match (x ?= y)%Q with
      | Lt => -1
      | Eq => 0
      | Gt => 1
      end
  | PosInf, PosInf | NegInf, NegInf => 0
  | PosInf, _ => 1
  | _, PosInf => -1
  | _, NegInf => 1
  | NegInf, _ => -1
  end.

(** A number that is not [NaN]. *)
Inductive extended : Type :=
| Real (q : Q)
| PlusInf
| MinusInf.

Definition toDouble (a : extended) : double :=
  match a with
  | Real q => Fin q
  | PlusInf => PosInf
  | MinusInf => NegInf
  end.

(** [a || 0] on a number: never [NaN]. *)
Definition orZero (a : double) : extended :=
  if truthy a then
    match a with
    | Fin q => Real q
    | PosInf => PlusInf
    | NegInf => MinusInf
    | NaN => Real 0
    end
  else Real 0.

End JsNum.

(** ** Arrays: [Array.prototype.sort] *)

Module JsArray.
Section Sort.
Context {A : Type}.
Variable compareFn : A -> A -> Z.

(** [x] stood before every element of [l], so it stays in front of the
    first element that does not compare strictly below it. *)
Fixpoint insert (x : A) (l : list A) : list A :=
  match l with
  | [] => [x]
  | y :: r => if 0 <? compareFn x y then y :: insert x r else x :: y :: r
  end.

Fixpoint sort (l : list A) : list A :=
  match l with
  | [] => []
  | x :: r => insert x (sort r)
  end.

End Sort.

(** A comparator is consistent when "does not compare above" is a total
    preorder. *)
Record consistent {A : Type} (compareFn : A -> A -> Z) : Prop := {
  cmp_total : forall a b, 0 < compareFn a b -> compareFn b a <= 0;
  cmp_trans : forall a b c,
    compareFn a b <= 0 -> compareFn b c <= 0 -> compareFn a c <= 0
}.

(** Two elements that the comparator does not order. *)
Definition ties {A : Type} (compareFn : A -> A -> Z) (x y : A) : bool :=
  (compareFn x y <=? 0) && (compareFn y x <=? 0).

(** [Math.min(...l)]; [None] is [Infinity], the minimum of no argument. *)
Definition mathMin (l : list Z) : option Z :=
  match l with
  | [] => None
  | x :: r => Some (foldr Z.min x r)
  end.

End JsArray.

(** ** Maps: [Map<string, V>] in insertion order *)

Module JsMap.
Section Ops.
Context {V : Type}.

Local Abbreviation map := (list (string * V)).

Fixpoint get (k : string) (m : map) : option V :=
  match m with
  | [] => None
  | (k', v) :: r => if String.eqb k k' then Some v else get k r
  end.

Definition has (k : string) (m : map) : bool :=
  match get k m with Some _ => true | None => false end.

(** [m.set(k, v)]: an existing key keeps its place, a new one goes last. *)
Fixpoint set (k : string) (v : V) (m : map) : map :=
  match m with
  | [] => [(k, v)]
  | (k', v') :: r =>
      if String.eqb k k' then (k', v) :: r else (k', v') :: set k v r
  end.

(** [if (!m.has(k)) m.set(k, d)] *)
Definition ensure (k : string) (d : V) (m : map) : map :=
  if has k m then m else set k d m.

(** The object stored under [k] is mutated in place by [f]. *)
Fixpoint mutate (k : string) (f : V -> V) (m : map) : map :=
  match m with
  | [] => []
  | (k', v) :: r =>
      if String.eqb k k' then (k', f v) :: r else (k', v) :: mutate k f r
  end.

Definition size (m : map) : Z := Z.of_nat (length m).
Definition keys (m : map) : list string := m.*1.
Definition values (m : map) : list V := m.*2.

(** The map with every value read through [f]; the keys and their order
    stay. *)
Definition mapValues {W : Type} (f : V -> W) (m : map) : list (string * W) :=
  (fun e => (e.1, f e.2)) <$> m.

End Ops.

(** The type [Map<string, V>]. *)
Abbreviation t V := (list (string * V)).
End JsMap.

(** ** Loosely typed records of the data API *)

Module Js.

(** A JSON value as the scripts read it from [response.data]. *)
Inductive value : Type :=
| JUndefined
| JNull
| JBool (b : bool)
| JNumber (q : Q)
| JString (s : string).

Definition truthy (v : value) : bool :=
  match v with
  | JUndefined | JNull => false
  | JBool b => b
  | JNumber q => negb (Qeq_bool q 0)
  | JString s => negb (String.eqb s "")
  end.

(** [a || b] *)
Definition orElse (a b : value) : value := if truthy a then a else b.

Definition lowerAscii (c : Ascii.ascii) : Ascii.ascii :=
  let n := Ascii.nat_of_ascii c in
  if ((65 <=? n) && (n <=? 90))%nat then Ascii.ascii_of_nat (n + 32) else c.

(** [String.prototype.toLowerCase], on ASCII text. *)
Fixpoint toLowerCase (s : string) : string :=
  match s with
  | EmptyString => EmptyString
  | String c r => String (lowerAscii c) (toLowerCase r)
  end.

(** [v?.toLowerCase()]: [undefined] when [v] is nullish, a [TypeError]
    ([None]) when [v] has no such method. *)
Definition toLowerCaseOpt (v : value) : option value :=
  match v with
  | JUndefined | JNull => Some JUndefined
  | JString s => Some (JString (toLowerCase s))
  | JBool _ | JNumber _ => None
  end.

Section ToDouble.
(** The numeric reading of a string ([StringToNumber]), a primitive of the
    language. *)
Variable StringToDouble : string -> JsNum.double.

Definition ToDouble (v : value) : JsNum.double :=
  match v with
  | JUndefined => JsNum.NaN
  | JNull => JsNum.Fin 0
  | JBool b => JsNum.Fin (if b then 1 else 0)
  | JNumber q => JsNum.Fin q
  | JString s => StringToDouble s
  end.

(** [a * b] *)
Definition mul (a b : value) : JsNum.double :=
  JsNum.mul (ToDouble a) (ToDouble b).

End ToDouble.

(** A record of [data-api.polymarket.com/trades]. *)
Record RawTrade : Type := mkRawTrade {
  r_transactionHash : value;
  r_id : value;
  r_timestamp : value;
  r_maker : value;
  r_taker : value;
  r_side : value;
  r_price : value;
  r_size : value;
  r_asset : value;
  r_proxyWallet : value
}.

(** The readings of a run-time value at the types of the interfaces. *)
Definition asString (v : value) : option string :=
  match v with JString s => Some s | _ => None end.

Definition asOptString (v : value) : option (option string) :=
  match v with
  | JUndefined => Some None
  | JString s => Some (Some s)
  | _ => None
  end.

Definition asNumber (v : value) : option Q :=
  match v with JNumber q => Some q | _ => None end.

Definition asInteger (v : value) : option Z :=
  match v with
  | JNumber q => if (Qden q =? 1)%positive then Some (Qnum q) else None
  | _ => None
  end.

Definition asFinite (n : JsNum.double) : option Q :=
  match n with JsNum.Fin q => Some q | _ => None end.

(** The trader identifier of a record is absent. *)
Definition lacksTrader (t : RawTrade) : Prop :=
  r_proxyWallet t = JUndefined \/ r_proxyWallet t = JNull.

(** A value that is a string or absent. *)
Definition stringOrAbsent (v : value) : Prop :=
  match v with
  | JUndefined | JNull | JString _ => True
  | JBool _ | JNumber _ => False
  end.

(** An upper-case letter of ASCII. *)
Definition isUpper (c : Ascii.ascii) : Prop :=
  (65 <= Ascii.nat_of_ascii c <= 90)%nat.

End Js.

(** ** compareTraders.ts *)

Module CompareTraders.

Inductive Side : Type := BUY | SELL.

(** The fields that the script compares or computes with are read at
    their declared types; [price], [usdcSize] and [size], which it only
    passes on and prints, are kept as they were received. *)
Record Trade : Type := mkTrade {
  id : string;
  timestamp : Z;
  market : string;
  conditionId : string;
  asset : string;
  side : Side;
  price : Js.value;
  usdcSize : Js.value;
  size : Js.value;
  outcome : string;
  transactionHash : option string
}.

Record TraderTrades : Type := mkTraderTrades {
  address : string;
  trades : list Trade
}.

(** An element of [MatchedTrade.traderTrades]. *)
Record TraderFirst : Type := mkTraderFirst {
  tf_address : string;
  tf_trade : Trade;
  tf_timestamp : Z;
  tf_side : Side;
  tf_price : Js.value;
  tf_usdcSize : Js.value
}.

(** An element of [MatchedTrade.timeDiffs]. *)
Record TimeDiff : Type := mkTimeDiff {
  trader1 : string;
  trader2 : string;
  diffSeconds : Z;
  leader : string
}.

Record MatchedTrade : Type := mkMatchedTrade {
  m_conditionId : string;
  m_market : string;
  m_outcome : string;
  traderTrades : list TraderFirst;
  timeDiffs : list TimeDiff
}.

Record ComparisonSummary : Type := mkComparisonSummary {
  trader : string;
  totalTrades : Z;
  matchedTrades : Z;
  timesFirst : Z;
  avgLeadTimeSeconds : number;
  avgFollowTimeSeconds : number
}.

Section Config.
(** [parseInt(process.env.COMPARE_TIME_WINDOW_HOURS || '24')] *)
Variable TIME_WINDOW_HOURS : Z.

(** [(a, b) => a.timestamp - b.timestamp] *)
Definition byTimestamp (a b : Trade) : Z := timestamp a - timestamp b.

(** The body of the grouping loop for one trade of one trader. *)
Definition groupTrade (addr : string)
    (tradesByCondition : JsMap.t (JsMap.t (list Trade))) (trade : Trade)
    : JsMap.t (JsMap.t (list Trade)) :=
  JsMap.mutate (conditionId trade)
    (fun conditionMap =>
       JsMap.mutate addr (fun arr => arr ++ [trade])
         (JsMap.ensure addr [] conditionMap))
    (JsMap.ensure (conditionId trade) [] tradesByCondition).

Definition groupTrader (tradesByCondition : JsMap.t (JsMap.t (list Trade)))
    (tr : TraderTrades) : JsMap.t (JsMap.t (list Trade)) :=
  foldl (groupTrade (address tr)) tradesByCondition (trades tr).

Definition groupTrades (traderData : list TraderTrades)
    : JsMap.t (JsMap.t (list Trade)) :=
  foldl groupTrader [] traderData.

(** The first trade of one trader for the condition; [None] when the array
    is empty and [firstTradeForCondition.timestamp] raises. *)
Definition firstTradeEntry (e : string * list Trade) : option TraderFirst :=
  firstTradeForCondition ← head (JsArray.sort byTimestamp e.2);
  Some {| tf_address := e.1;
          tf_trade := firstTradeForCondition;
          tf_timestamp := timestamp firstTradeForCondition;
          tf_side := side firstTradeForCondition;
          tf_price := price firstTradeForCondition;
          tf_usdcSize := usdcSize firstTradeForCondition |}.

Definition timeWindowSeconds : Z := TIME_WINDOW_HOURS * 3600.

(** The body of the inner pair loop: what it pushes to [timeDiffs]. *)
Definition timeDiff (t1 t2 : TraderFirst) : list TimeDiff :=
  let diff := tf_timestamp t2 - tf_timestamp t1 in
  if Z.abs diff <=? timeWindowSeconds then
    [ {| trader1 := tf_address t1;
         trader2 := tf_address t2;
         diffSeconds := diff;
         leader := if diff <=? 0 then tf_address t2 else tf_address t1 |} ]
  else [].

(** [for i ... for j = i + 1 ...] over [allTraderTrades]. *)
Fixpoint pairDiffs (allTraderTrades : list TraderFirst) : list TimeDiff :=
  match allTraderTrades with
  | [] => []
  | t1 :: rest => flat_map (timeDiff t1) rest ++ pairDiffs rest
  end.

(** One iteration of the loop over [tradesByCondition.entries()]: the
    records it pushes to [matched]. *)
Definition matchCondition (e : string * JsMap.t (list Trade))
    : option (list MatchedTrade) :=
  let '(cid, traderMap) := e in
  if JsMap.size traderMap <? 2 then Some []
  else
    first0 ← head (JsMap.keys traderMap);
    arr0 ← JsMap.get first0 traderMap;
    firstTrade ← head arr0;
    allTraderTrades ← mapM firstTradeEntry traderMap;
    let diffs := pairDiffs allTraderTrades in
    Some (if 0 <? Z.of_nat (length diffs) then
            [ {| m_conditionId := cid;
                 m_market := market firstTrade;
                 m_outcome := outcome firstTrade;
                 traderTrades := allTraderTrades;
                 timeDiffs := diffs |} ]
          else []).

(** [Math.min(...m.traderTrades.map((t) => t.timestamp))] *)
Definition earliest (m : MatchedTrade) : option Z :=
  JsArray.mathMin (tf_timestamp <$> traderTrades m).

(** [bTime - aTime], as the sign the sort reads: [Infinity - x] is
    positive, [Infinity - Infinity] is [NaN] and counts as [0]. *)
Definition mostRecentFirst (a b : MatchedTrade) : Z :=
  match earliest b, earliest a with
  | Some bTime, Some aTime => bTime - aTime
  | None, Some _ => 1
  | Some _, None => -1
  | None, None => 0
  end.

Definition findMatchingTrades (traderData : list TraderTrades)
    : option (list MatchedTrade) :=
  matched ← mapM matchCondition (groupTrades traderData);
  Some (JsArray.sort mostRecentFirst (concat matched)).

(** The accumulators of one iteration of the loop over [traderData] in
    [calculateSummaries]. *)
Record Tally : Type := mkTally {
  c_timesFirst : Z;
  c_totalLeadTime : Z;
  c_leadCount : Z;
  c_totalFollowTime : Z;
  c_followCount : Z;
  c_matchedTradeCount : Z
}.

Definition tally0 : Tally := mkTally 0 0 0 0 0 0.

(** The body of the loop over [match.timeDiffs]. *)
Definition tallyDiff (addr : string) (c : Tally) (diff : TimeDiff) : Tally :=
  if negb (String.eqb (trader1 diff) addr) && negb (String.eqb (trader2 diff) addr)
  then c
  else if String.eqb (leader diff) addr then
    let leadTime := Z.abs (diffSeconds diff) in
    {| c_timesFirst := c_timesFirst c + 1;
       c_totalLeadTime := c_totalLeadTime c + leadTime;
       c_leadCount := c_leadCount c + 1;
       c_totalFollowTime := c_totalFollowTime c;
       c_followCount := c_followCount c;
       c_matchedTradeCount := c_matchedTradeCount c |}
  else
    let followTime := Z.abs (diffSeconds diff) in
    {| c_timesFirst := c_timesFirst c;
       c_totalLeadTime := c_totalLeadTime c;
       c_leadCount := c_leadCount c;
       c_totalFollowTime := c_totalFollowTime c + followTime;
       c_followCount := c_followCount c + 1;
       c_matchedTradeCount := c_matchedTradeCount c |}.

(** The body of the loop over [matched]. *)
Definition tallyMatch (addr : string) (c : Tally) (m : MatchedTrade) : Tally :=
  match List.find (fun t => String.eqb (tf_address t) addr) (traderTrades m) with
  | None => c
  | Some _ =>
      foldl (tallyDiff addr)
        {| c_timesFirst := c_timesFirst c;
           c_totalLeadTime := c_totalLeadTime c;
           c_leadCount := c_leadCount c;
           c_totalFollowTime := c_totalFollowTime c;
           c_followCount := c_followCount c;
           c_matchedTradeCount := c_matchedTradeCount c + 1 |}
        (timeDiffs m)
  end.

Definition summarize (matched : list MatchedTrade) (tr : TraderTrades)
    : ComparisonSummary :=
  let c := foldl (tallyMatch (address tr)) tally0 matched in
  {| trader := address tr;
     totalTrades := Z.of_nat (length (trades tr));
     matchedTrades := c_matchedTradeCount c;
     timesFirst := c_timesFirst c;
     avgLeadTimeSeconds :=
       if 0 <? c_leadCount c
       then numDiv (ofZ (c_totalLeadTime c)) (ofZ (c_leadCount c))
       else ofZ 0;
     avgFollowTimeSeconds :=
       if 0 <? c_followCount c
       then numDiv (ofZ (c_totalFollowTime c)) (ofZ (c_followCount c))
       else ofZ 0 |}.

(** [(a, b) => b.timesFirst - a.timesFirst] *)
Definition byTimesFirst (a b : ComparisonSummary) : Z :=
  timesFirst b - timesFirst a.

Definition calculateSummaries (matched : list MatchedTrade)
    (traderData : list TraderTrades) : list ComparisonSummary :=
  JsArray.sort byTimesFirst (summarize matched <$> traderData).

End Config.

(** *** The aggregator in the words of the specification *)

(** All gap records of all matched markets. *)
Definition allGaps (matched : list MatchedTrade) : list TimeDiff :=
  flat_map timeDiffs matched.

Definition appearsIn (addr : string) (d : TimeDiff) : bool :=
  String.eqb (trader1 d) addr || String.eqb (trader2 d) addr.

(** The gap records in which the trader is the leader. *)
Definition leadGaps (addr : string) (matched : list MatchedTrade) : list TimeDiff :=
  List.filter (fun d => String.eqb (leader d) addr) (allGaps matched).

(** The gap records in which the trader appears but is not the leader. *)
Definition followGaps (addr : string) (matched : list MatchedTrade) : list TimeDiff :=
  List.filter (fun d => appearsIn addr d && negb (String.eqb (leader d) addr))
    (allGaps matched).

(** [abs(delta_seconds)] of each gap record. *)
Definition gapSeconds (ds : list TimeDiff) : list Z :=
  (fun d => Z.abs (diffSeconds d)) <$> ds.

(** *** Properties of the matcher's data *)

(** Keys are distinct at both levels, no trader map is empty and no array
    of trades is empty. *)
Definition traderMapOk (traderMap : JsMap.t (list Trade)) : Prop :=
  NoDup (JsMap.keys traderMap) /\ traderMap <> [] /\
  Forall (fun b => b.2 <> []) traderMap.

Definition groupsOk (g : JsMap.t (JsMap.t (list Trade))) : Prop :=
  NoDup (JsMap.keys g) /\ Forall (fun e => traderMapOk e.2) g.

(** What [allTraderTrades] holds for one binding of the trader map: the
    trader's address and an earliest trade of that trader's array. *)
Definition firstOf (b : string * list Trade) (t : TraderFirst) : Prop :=
  tf_address t = b.1 /\
  tf_timestamp t = timestamp (tf_trade t) /\
  tf_trade t ∈ b.2 /\
  Forall (fun x => tf_timestamp t <= timestamp x) b.2.

(** The rule of a gap record [d] of the record [m]: it comes from a pair
    of the participants, [trader1] before [trader2] in their order, and its
    leader is the one with the strictly earlier first trade, [trader2] on
    equal timestamps. *)
Definition leaderRule (m : MatchedTrade) (d : TimeDiff) : Prop :=
  exists i j t1 t2,
    (i < j)%nat /\ traderTrades m !! i = Some t1 /\ traderTrades m !! j = Some t2 /\
    trader1 d = tf_address t1 /\ trader2 d = tf_address t2 /\
    tf_address t1 <> tf_address t2 /\
    diffSeconds d = tf_timestamp t2 - tf_timestamp t1 /\
    (tf_timestamp t1 < tf_timestamp t2 -> leader d = tf_address t1) /\
    (tf_timestamp t2 < tf_timestamp t1 -> leader d = tf_address t2) /\
    (tf_timestamp t1 = tf_timestamp t2 -> leader d = tf_address t2).

(** A record whose gap records only name its own participants. *)
Definition gapsNameParticipants (m : MatchedTrade) : Prop :=
  forall d, d ∈ timeDiffs m ->
    trader1 d ∈ (tf_address <$> traderTrades m) /\
    trader2 d ∈ (tf_address <$> traderTrades m) /\
    (leader d = trader1 d \/ leader d = trader2 d).

(** *** The trades of [traderData] by condition and trader *)

(** The trades of the condition that are supplied under the address, in
    the order of supply. *)
Definition tradesIn (cid addr : string) (traderData : list TraderTrades)
    : list Trade :=
  traderData ≫= fun tr =>
    if String.eqb (address tr) addr
    then List.filter (fun t => String.eqb (conditionId t) cid) (trades tr)
    else [].

(** The timestamp of the earliest of them; [None] when there is none. *)
Definition firstTradeTime (cid addr : string) (traderData : list TraderTrades)
    : option Z :=
  JsArray.mathMin (timestamp <$> tradesIn cid addr traderData).

(** The element of [traderData] has a trade of the condition. *)
Definition touches (cid : string) (tr : TraderTrades) : bool :=
  existsb (fun t => String.eqb (conditionId t) cid) (trades tr).

(** In the order of supply, some element at address [a1] with a trade of
    the condition stands before the first element at address [a2] that has
    one. *)
Definition suppliedBefore (cid a1 a2 : string) (traderData : list TraderTrades)
    : Prop :=
  exists before tr2 after,
    traderData = before ++ tr2 :: after /\
    address tr2 = a2 /\ touches cid tr2 = true /\
    Forall (fun tr => address tr = a2 -> touches cid tr = false) before /\
    Exists (fun tr => address tr = a1 /\ touches cid tr = true) before.

(** The array grouped under a condition and an address, and the addresses
    grouped under a condition, in the order of the map. *)
Definition arrayAt (cid addr : string) (g : JsMap.t (JsMap.t (list Trade)))
    : list Trade :=
  default [] (JsMap.get cid g ≫= JsMap.get addr).

Definition keysAt (cid : string) (g : JsMap.t (JsMap.t (list Trade)))
    : list string :=
  default [] (JsMap.keys <$> JsMap.get cid g).

(** [a] joins [ks] at the end unless it is there. *)
Definition addOnce (ks : list string) (a : string) : list string :=
  if bool_decide (a ∈ ks) then ks else ks ++ [a].

(** The tests of the accumulator loop. *)
Definition leadsHere (addr : string) (d : TimeDiff) : bool :=
  appearsIn addr d && String.eqb (leader d) addr.

Definition followsHere (addr : string) (d : TimeDiff) : bool :=
  appearsIn addr d && negb (String.eqb (leader d) addr).

(** *** The scenarios of the specification

    Addresses are lower-cased by [main] before any trade is fetched. *)

Definition tradeAt (cid : string) (ts : Z) : Trade :=
  {| id := ""; timestamp := ts; market := cid; conditionId := cid;
     asset := ""; side := BUY; price := Js.JNumber 0; usdcSize := Js.JNumber 0;
     size := Js.JNumber 0;
     outcome := "Yes"; transactionHash := None |}.

(** [0xAAA] trades [M1] at 100, [0xBBB] at 160. *)
Definition scenarioLead : list TraderTrades :=
  [ {| address := "0xaaa"; trades := [tradeAt "M1" 100] |};
    {| address := "0xbbb"; trades := [tradeAt "M1" 160] |} ].

Definition scenarioLeadGap : TimeDiff :=
  {| trader1 := "0xaaa"; trader2 := "0xbbb"; diffSeconds := 60; leader := "0xaaa" |}.

Definition scenarioLeadMatch : MatchedTrade :=
  {| m_conditionId := "M1"; m_market := "M1"; m_outcome := "Yes";
     traderTrades :=
       [ mkTraderFirst "0xaaa" (tradeAt "M1" 100) 100 BUY (Js.JNumber 0) (Js.JNumber 0);
         mkTraderFirst "0xbbb" (tradeAt "M1" 160) 160 BUY (Js.JNumber 0) (Js.JNumber 0) ];
     timeDiffs := [scenarioLeadGap] |}.

(** The same pair, [0xBBB] at 4000. *)
Definition scenarioFar : list TraderTrades :=
  [ {| address := "0xaaa"; trades := [tradeAt "M1" 100] |};
    {| address := "0xbbb"; trades := [tradeAt "M1" 4000] |} ].

(** Both first trades at 100, in the two orders of supply. *)
Definition scenarioTie : list TraderTrades :=
  [ {| address := "0xaaa"; trades := [tradeAt "M1" 100] |};
    {| address := "0xbbb"; trades := [tradeAt "M1" 100] |} ].

Definition scenarioTieSwapped : list TraderTrades :=
  [ {| address := "0xbbb"; trades := [tradeAt "M1" 100] |};
    {| address := "0xaaa"; trades := [tradeAt "M1" 100] |} ].

(** [0xAAA] leads in [M1] and [M2] and follows both others in [M3], by 90
    and by 30 seconds. *)
Definition scenarioFollow : list TraderTrades :=
  [ {| address := "0xaaa";
       trades := [tradeAt "M1" 100; tradeAt "M2" 200; tradeAt "M3" 1090] |};
    {| address := "0xbbb"; trades := [tradeAt "M1" 160; tradeAt "M3" 1000] |};
    {| address := "0xccc"; trades := [tradeAt "M2" 260; tradeAt "M3" 1060] |} ].

(** What the matcher returns for it, with a window of one hour. *)
Definition scenarioFollowMatched : list MatchedTrade :=
  Eval vm_compute in default [] (findMatchingTrades 1 scenarioFollow).

End CompareTraders.

(** ** compareTraders.ts over a store of arrays

    The arrays of trades are objects: [traderData] holds references to
    them, and [findMatchingTrades] creates, fills and sorts arrays of the
    same type.  Here the arrays live in a store and the matcher is a
    computation over it.  The maps it builds are its own and are kept as
    values; a trade is never written to and is kept as a value. *)

Module CompareTradersHeap.
Import CompareTraders.

Abbreviation loc := nat.

(** The arrays of trades that exist, by address. *)
Abbreviation heap := (list (list Trade)).

Record TraderTradesRef : Type := mkTraderTradesRef {
  r_address : string;
  r_trades : loc
}.

(** A computation over the store that may raise. *)
Definition M (A : Type) : Type := heap -> option (A * heap).

Definition ret {A : Type} (a : A) : M A := fun h => Some (a, h).

Definition bind {A B : Type} (c : M A) (k : A -> M B) : M B :=
  fun h => match c h with
           | Some (a, h') => k a h'
           | None => None
           end.

Notation "x <- c ;; k" := (bind c (fun x => k))
  (at level 100, c at next level, right associativity).
Notation "c ;;; k" := (bind c (fun _ => k))
  (at level 100, right associativity).

(** An access that raises when the value is [undefined]. *)
Definition lift {A : Type} (o : option A) : M A :=
  fun h => match o with Some a => Some (a, h) | None => None end.

(** The literal [[]]: a new array, at an address not in use. *)
Definition newArray : M loc := fun h => Some (length h, h ++ [[]]).

Definition readArray (l : loc) : M (list Trade) :=
  fun h => match h !! l with Some a => Some (a, h) | None => None end.

(** [arr.push(trade)] *)
Definition push (l : loc) (trade : Trade) : M unit :=
  fun h => match h !! l with
           | Some a => Some (tt, <[l := a ++ [trade]]> h)
           | None => None
           end.

(** [arr.sort(compareFn)]: sorts the array where it is and returns it. *)
Definition sortInPlace (compareFn : Trade -> Trade -> Z) (l : loc) : M (list Trade) :=
  fun h => match h !! l with
           | Some a => let sorted := JsArray.sort compareFn a in
                       Some (sorted, <[l := sorted]> h)
           | None => None
           end.

Fixpoint foldM {A B : Type} (f : A -> B -> M A) (a : A) (l : list B) : M A :=
  match l with
  | [] => ret a
  | x :: r => a' <- f a x ;; foldM f a' r
  end.

Fixpoint forM {A B : Type} (f : A -> M B) (l : list A) : M (list B) :=
  match l with
  | [] => ret []
  | x :: r => y <- f x ;; ys <- forM f r ;; ret (y :: ys)
  end.

Section Config.
Variable TIME_WINDOW_HOURS : Z.

(** The body of the grouping loop for one trade of one trader. *)
Definition groupTrade (addr : string)
    (tradesByCondition : JsMap.t (JsMap.t loc)) (trade : Trade)
    : M (JsMap.t (JsMap.t loc)) :=
  let tradesByCondition := JsMap.ensure (conditionId trade) [] tradesByCondition in
  conditionMap <- lift (JsMap.get (conditionId trade) tradesByCondition) ;;
  conditionMap <- (if JsMap.has addr conditionMap then ret conditionMap
                   else l <- newArray ;; ret (JsMap.set addr l conditionMap)) ;;
  l <- lift (JsMap.get addr conditionMap) ;;
  push l trade ;;;
  ret (JsMap.set (conditionId trade) conditionMap tradesByCondition).

(** The loop over [trader.trades]; the array is read when the loop
    starts. *)
Definition groupTrader (tradesByCondition : JsMap.t (JsMap.t loc))
    (tr : TraderTradesRef) : M (JsMap.t (JsMap.t loc)) :=
  arr <- readArray (r_trades tr) ;;
  foldM (groupTrade (r_address tr)) tradesByCondition arr.

Definition groupTrades (traderData : list TraderTradesRef)
    : M (JsMap.t (JsMap.t loc)) :=
  foldM groupTrader [] traderData.

Definition firstTradeEntry (e : string * loc) : M TraderFirst :=
  sorted <- sortInPlace byTimestamp e.2 ;;
  firstTradeForCondition <- lift (head sorted) ;;
  ret {| tf_address := e.1;
         tf_trade := firstTradeForCondition;
         tf_timestamp := timestamp firstTradeForCondition;
         tf_side := side firstTradeForCondition;
         tf_price := price firstTradeForCondition;
         tf_usdcSize := usdcSize firstTradeForCondition |}.

Definition matchCondition (e : string * JsMap.t loc) : M (list MatchedTrade) :=
  let '(cid, traderMap) := e in
  if JsMap.size traderMap <? 2 then ret []
  else
    first0 <- lift (head (JsMap.keys traderMap)) ;;
    l0 <- lift (JsMap.get first0 traderMap) ;;
    arr0 <- readArray l0 ;;
    firstTrade <- lift (head arr0) ;;
    allTraderTrades <- forM firstTradeEntry traderMap ;;
    let diffs := pairDiffs TIME_WINDOW_HOURS allTraderTrades in
    ret (if 0 <? Z.of_nat (length diffs) then
           [ {| m_conditionId := cid;
                m_market := market firstTrade;
                m_outcome := outcome firstTrade;
                traderTrades := allTraderTrades;
                timeDiffs := diffs |} ]
         else []).

Definition findMatchingTrades (traderData : list TraderTradesRef)
    : M (list MatchedTrade) :=
  tradesByCondition <- groupTrades traderData ;;
  matched <- forM matchCondition tradesByCondition ;;
  ret (JsArray.sort mostRecentFirst (concat matched)).

End Config.

(** *** The maps of the run as maps of arrays *)

(** The array at an address. *)
Definition arrayAt (h : heap) (l : loc) : list Trade := default [] (h !! l).

Definition view (h : heap) (m : JsMap.t loc) : JsMap.t (list Trade) :=
  JsMap.mapValues (arrayAt h) m.

Definition views (h : heap) (g : JsMap.t (JsMap.t loc))
    : JsMap.t (JsMap.t (list Trade)) :=
  JsMap.mapValues (view h) g.

(** The addresses held by the maps, in their order. *)
Definition locsOf (g : JsMap.t (JsMap.t loc)) : list loc :=
  g ≫= (fun e => e.2.*2).

(** *** Properties of a run *)

(** How a run may change the store, seen from the arrays that existed
    below address [n0]: nothing is removed, the arrays below [n0] are as
    they were, and an array that held a trade still holds one. *)
Definition step (n0 : nat) (h h' : heap) : Prop :=
  (length h <= length h')%nat /\
  (forall l, (l < n0)%nat -> h' !! l = h !! l) /\
  (forall l a, h !! l = Some a -> a <> [] -> exists a', h' !! l = Some a' /\ a' <> []).

(** The computation returns, changing the store by [step] and
    establishing [Q]. *)
Definition ok {A : Type} (n0 : nat) (c : M A) (Q : A -> heap -> Prop) (h : heap) : Prop :=
  exists a h', c h = Some (a, h') /\ step n0 h h' /\ Q a h'.

(** The arrays of a trader map are new ones and hold a trade each. *)
Definition locsOk (n0 : nat) (h : heap) (m : JsMap.t loc) : Prop :=
  Forall (fun e => (n0 <= e.2)%nat /\ exists a, h !! e.2 = Some a /\ a <> []) m.

(** The maps of the grouping pass over the store. *)
Definition storeOk (n0 : nat) (g : JsMap.t (JsMap.t loc)) (h : heap) : Prop :=
  (n0 <= length h)%nat /\ Forall (fun e => locsOk n0 h e.2) g.

(** The maps of the grouping pass never share a key or an array. *)
Definition separate (g : JsMap.t (JsMap.t loc)) : Prop :=
  NoDup (JsMap.keys g) /\ NoDup (locsOf g).

(** The input as the matcher of [CompareTraders] takes it. *)
Definition deref (h : heap) (tr : TraderTradesRef) : TraderTrades :=
  {| address := r_address tr; trades := arrayAt h (r_trades tr) |}.

(** The scenario with first trades at 100 and 160, the two arrays at
    addresses 0 and 1. *)
Definition scenarioHeap : heap := [ [tradeAt "M1" 100]; [tradeAt "M1" 160] ].

Definition scenarioRefs : list TraderTradesRef :=
  [ {| r_address := "0xaaa"; r_trades := 0%nat |};
    {| r_address := "0xbbb"; r_trades := 1%nat |} ].

End CompareTradersHeap.

(** ** The leader finder *)

Module FindLeaders.

Record Market : Type := mkMarket {
  conditionId : string;
  slug : string;
  question : string;
  volume : Q;
  liquidity : Q;
  active : bool
}.

(** [price] and [size], which the script only passes on, are kept as
    they were received; [usdcSize] is their product, a number that can be
    [NaN]. *)
Record Trade : Type := mkTrade {
  id : string;
  timestamp : Z;
  maker : option string;
  taker : option string;
  side : string;
  price : Js.value;
  size : Js.value;
  usdcSize : JsNum.double;
  market : string;
  asset : string;
  owner : option string
}.

(** A value of [traderFirstTrade]. *)
Record FirstTrade : Type := mkFirstTrade {
  ft_timestamp : Z;
  ft_volume : JsNum.double;
  ft_position : Z
}.

Record TraderStats : Type := mkTraderStats {
  address : string;
  timesFirst : Z;
  timesInTopN : Z;
  totalVolume : JsNum.double;
  avgPositionInMarket : number;
  marketsTraded : list string;
  avgTimeToMarket : number;
  tradeCount : Z
}.

(** *** The record normalizer *)

(** The object that [fetchMarketTrades] builds from one record: the fields
    it copies are whatever the record held. *)
Record TradeObj : Type := mkTradeObj {
  o_id : Js.value;
  o_timestamp : Js.value;
  o_maker : Js.value;
  o_taker : Js.value;
  o_side : Js.value;
  o_price : Js.value;
  o_size : Js.value;
  o_usdcSize : JsNum.double;
  o_market : string;
  o_asset : Js.value;
  o_owner : Js.value
}.

Section Normalizer.
Variable StringToNumber : string -> JsNum.double.

(** The callback of [response.data.map]. *)
Definition normalizeTrade (cid : string) (t : Js.RawTrade) : option TradeObj :=
  mk ← Js.toLowerCaseOpt (Js.r_maker t);
  tk ← Js.toLowerCaseOpt (Js.r_taker t);
  ow ← Js.toLowerCaseOpt (Js.r_proxyWallet t);
  Some {| o_id := Js.orElse (Js.r_transactionHash t) (Js.r_id t);
          o_timestamp := Js.r_timestamp t;
          o_maker := mk;
          o_taker := tk;
          o_side := Js.r_side t;
          o_price := Js.r_price t;
          o_size := Js.r_size t;
          o_usdcSize := Js.mul StringToNumber (Js.r_size t) (Js.r_price t);
          o_market := cid;
          o_asset := Js.r_asset t;
          o_owner := ow |}.

(** [response] is [None] when the request fails; any exception ends in
    [return []]. *)
Definition fetchMarketTrades (cid : string) (response : option (list Js.RawTrade))
    : list TradeObj :=
  match response with
  | None => []
  | Some data => default [] (mapM (normalizeTrade cid) data)
  end.

End Normalizer.

(** The object read at the type [Trade] that [fetchMarketTrades] declares
    for it; the price, the size and the usd value stay as they are. *)
Definition asTrade (o : TradeObj) : option Trade :=
  i ← Js.asString (o_id o);
  ts ← Js.asInteger (o_timestamp o);
  mk ← Js.asOptString (o_maker o);
  tk ← Js.asOptString (o_taker o);
  sd ← Js.asString (o_side o);
  a ← Js.asString (o_asset o);
  ow ← Js.asOptString (o_owner o);
  Some {| id := i; timestamp := ts; maker := mk; taker := tk; side := sd;
          price := o_price o; size := o_size o; usdcSize := o_usdcSize o;
          market := o_market o; asset := a; owner := ow |}.

(** *** The grouper *)

(** [(a, b) => a.timestamp - b.timestamp] *)
Definition byTimestamp (a b : Trade) : Z := timestamp a - timestamp b.

(** The trader of a trade, when [!trader] does not skip it. *)
Definition traderOf (trade : Trade) : option string :=
  match owner trade with
  | Some trader => if String.eqb trader "" then None else Some trader
  | None => None
  end.

(** The body of the loop over [sortedTrades]. *)
Definition firstTradeStep (traderFirstTrade : JsMap.t FirstTrade) (trade : Trade)
    : JsMap.t FirstTrade :=
  match traderOf trade with
  | None => traderFirstTrade
  | Some trader =>
      if negb (JsMap.has trader traderFirstTrade) then
        let position := JsMap.size traderFirstTrade + 1 in
        JsMap.set trader
          {| ft_timestamp := timestamp trade;
             ft_volume := usdcSize trade;
             ft_position := position |}
          traderFirstTrade
      else
        JsMap.mutate trader
          (fun existing =>
             {| ft_timestamp := ft_timestamp existing;
                ft_volume := JsNum.add (ft_volume existing) (usdcSize trade);
                ft_position := ft_position existing |})
          traderFirstTrade
  end.

Definition firstTrades (sortedTrades : list Trade) : JsMap.t FirstTrade :=
  foldl firstTradeStep [] sortedTrades.

(** *** The aggregator *)

Section Config.
(** [parseInt(process.env.LEADER_TOP_N || '5')] *)
Variable TOP_N_THRESHOLD : Z.
(** [parseInt(process.env.LEADER_MIN_FIRST || '3')] *)
Variable MIN_FIRST_COUNT : Z.

Definition newStats (trader : string) : TraderStats :=
  {| address := trader;
     timesFirst := 0;
     timesInTopN := 0;
     totalVolume := JsNum.Fin 0;
     avgPositionInMarket := ofZ 0;
     marketsTraded := [];
     avgTimeToMarket := ofZ 0;
     tradeCount := 0 |}.

(** [Set.prototype.add] *)
Definition setAdd (x : string) (s : list string) : list string :=
  if existsb (String.eqb x) s then s else s ++ [x].

(** [avg = (avg * (n - 1) + sample) / n] *)
Definition onlineAverage (avg : number) (n : Z) (sample : Q) : number :=
  numDiv (numAdd (numMul avg (ofZ (n - 1))) (Num sample)) (ofZ n).

(** What the loop over [traderFirstTrade.entries()] does to the stats
    object of the trader. *)
Definition updateStats (cid : string) (firstTradeTime : Z) (data : FirstTrade)
    (stats : TraderStats) : TraderStats :=
  let tradeCount' := tradeCount stats + 1 in
  let timeToMarket := ft_timestamp data - firstTradeTime in
  {| address := address stats;
     timesFirst :=
       if ft_position data =? 1 then timesFirst stats + 1 else timesFirst stats;
     timesInTopN :=
       if ft_position data <=? TOP_N_THRESHOLD
       then timesInTopN stats + 1 else timesInTopN stats;
     totalVolume := JsNum.add (totalVolume stats) (ft_volume data);
     avgPositionInMarket :=
       onlineAverage (avgPositionInMarket stats) tradeCount'
         (inject_Z (ft_position data));
     marketsTraded := setAdd cid (marketsTraded stats);
     avgTimeToMarket :=
       onlineAverage (avgTimeToMarket stats) tradeCount' (inject_Z timeToMarket);
     tradeCount := tradeCount' |}.

Definition statsStep (cid : string) (firstTradeTime : Z)
    (traderStats : JsMap.t TraderStats) (e : string * FirstTrade)
    : JsMap.t TraderStats :=
  JsMap.mutate e.1 (updateStats cid firstTradeTime e.2)
    (JsMap.ensure e.1 (newStats e.1) traderStats).

(** [sortedTrades[0]?.timestamp || 0] *)
Definition firstTradeTimeOf (sortedTrades : list Trade) : Z :=
  match sortedTrades with
  | [] => 0
  | t :: _ => timestamp t
  end.

(** One iteration of the loop over [markets], given the trades fetched for
    the market. *)
Definition analyzeMarket (traderStats : JsMap.t TraderStats)
    (fetched : Market * list Trade) : JsMap.t TraderStats :=
  let '(mkt, trades) := fetched in
  if Z.of_nat (length trades) =? 0 then traderStats
  else
    let sortedTrades := JsArray.sort byTimestamp trades in
    let firstTradeTime := firstTradeTimeOf sortedTrades in
    foldl (statsStep (conditionId mkt) firstTradeTime) traderStats
      (firstTrades sortedTrades).

Definition analyzeMarkets (fetched : list (Market * list Trade))
    : JsMap.t TraderStats :=
  foldl analyzeMarket [] fetched.

(** *** The ranker *)

Definition qualifies (t : TraderStats) : bool :=
  (MIN_FIRST_COUNT <=? timesFirst t) || (MIN_FIRST_COUNT * 2 <=? timesInTopN t).

(** The comparator of [rankTraders]. *)
Definition rankCompare (a b : TraderStats) : Z :=
  if negb (timesFirst b =? timesFirst a) then timesFirst b - timesFirst a
  else if negb (timesInTopN b =? timesInTopN a) then timesInTopN b - timesInTopN a
  else JsNum.signOfDiff (totalVolume b) (totalVolume a).

Definition rankTraders (traderStats : JsMap.t TraderStats) : list TraderStats :=
  JsArray.sort rankCompare (List.filter qualifies (JsMap.values traderStats)).

End Config.

(** *** Properties of the grouper, the aggregator and the ranker *)

(** The trades of one trader, in the order of the array. *)
Definition tradesOf (trader : string) (l : list Trade) : list Trade :=
  List.filter (fun t => bool_decide (traderOf t = Some trader)) l.

(** A later trade of the trader: only the volume grows. *)
Definition addVolume (r : FirstTrade) (t : Trade) : FirstTrade :=
  {| ft_timestamp := ft_timestamp r;
     ft_volume := JsNum.add (ft_volume r) (usdcSize t);
     ft_position := ft_position r |}.

(** What one market contributes to the statistics of a trader: the
    trader's first-trade record there and the time of the market's first
    trade. *)
Record Contribution : Type := mkContribution {
  c_conditionId : string;
  c_firstTradeTime : Z;
  c_data : FirstTrade
}.

Definition contributionOf (trader : string) (fetched : Market * list Trade)
    : option Contribution :=
  if Z.of_nat (length fetched.2) =? 0 then None
  else
    let sortedTrades := JsArray.sort byTimestamp fetched.2 in
    mkContribution (conditionId fetched.1) (firstTradeTimeOf sortedTrades)
      <$> JsMap.get trader (firstTrades sortedTrades).

Definition contributions (trader : string) (fetched : list (Market * list Trade))
    : list Contribution :=
  omap (contributionOf trader) fetched.

(** The two samples that a contribution folds into the averages. *)
Definition timeToMarket (c : Contribution) : Q :=
  inject_Z (ft_timestamp (c_data c) - c_firstTradeTime c).

Definition positionInMarket (c : Contribution) : Q :=
  inject_Z (ft_position (c_data c)).

Definition applyContribution (TOP_N_THRESHOLD : Z) (stats : TraderStats)
    (c : Contribution) : TraderStats :=
  updateStats TOP_N_THRESHOLD (c_conditionId c) (c_firstTradeTime c) (c_data c) stats.

(** The update formula on its own: the stored average and the count. *)
Definition foldSample (st : number * Z) (sample : Q) : number * Z :=
  (onlineAverage st.1 (st.2 + 1) sample, st.2 + 1).

(** [a] ranks before [b] or ties with it: more firsts, then more top-N
    appearances, then more volume. *)
Definition ranksBefore (a b : TraderStats) : Prop :=
  timesFirst b < timesFirst a \/
  (timesFirst b = timesFirst a /\
   (timesInTopN b < timesInTopN a \/
    (timesInTopN b = timesInTopN a /\
     JsNum.ge (totalVolume a) (totalVolume b) = true))).

(** A total volume that is [NaN] read as [-Infinity]. *)
Definition orLeast (v : JsNum.double) : JsNum.double :=
  match v with
  | JsNum.NaN => JsNum.NegInf
  | _ => v
  end.

(** The comparator of [rankTraders] on total volumes that are numbers:
    the two agree on traders whose total volume is not [NaN]. *)
Definition rankCompareNumeric (a b : TraderStats) : Z :=
  if negb (timesFirst b =? timesFirst a) then timesFirst b - timesFirst a
  else if negb (timesInTopN b =? timesInTopN a) then timesInTopN b - timesInTopN a
  else JsNum.signOfDiff (orLeast (totalVolume b)) (orLeast (totalVolume a)).

(** Equal on the three keys. *)
Definition tied (t a : TraderStats) : bool :=
  (timesFirst a =? timesFirst t) && (timesInTopN a =? timesInTopN t)
  && JsNum.ge (totalVolume a) (totalVolume t)
  && JsNum.ge (totalVolume t) (totalVolume a).

(** What the leader finder's normalizer makes of one record. *)
Definition normalizedFrom (StringToNumber : string -> JsNum.double) (cid : string)
    (t : Js.RawTrade) (o : TradeObj) : Prop :=
  o_timestamp o = Js.r_timestamp t /\
  o_price o = Js.r_price t /\
  o_size o = Js.r_size t /\
  o_usdcSize o = Js.mul StringToNumber (Js.r_size t) (Js.r_price t) /\
  o_market o = cid /\
  (forall s, Js.r_proxyWallet t = Js.JString s ->
     o_owner o = Js.JString (Js.toLowerCase s)) /\
  (Js.lacksTrader t -> o_owner o = Js.JUndefined).

(** Three traders of the leader finder, none of them first three times or
    in the top five six times. *)
Definition fewFirsts : JsMap.t TraderStats :=
  [ ("0xaaa",
     mkTraderStats "0xaaa" 2 5 (JsNum.Fin 100) (ofZ 1) ["M1"; "M2"] (ofZ 0) 2);
    ("0xbbb", mkTraderStats "0xbbb" 0 3 (JsNum.Fin 250) (ofZ 2) ["M1"] (ofZ 30) 1);
    ("0xccc", mkTraderStats "0xccc" 1 1 (JsNum.Fin 10) (ofZ 1) ["M2"] (ofZ 0) 1) ].

(** *** Records for the normalizer *)

(** A record whose price is not numeric. *)
Definition rawTextPrice : Js.RawTrade :=
  {| Js.r_transactionHash := Js.JString "0xh1"; Js.r_id := Js.JUndefined;
     Js.r_timestamp := Js.JNumber 100;
     Js.r_maker := Js.JUndefined; Js.r_taker := Js.JUndefined;
     Js.r_side := Js.JString "BUY";
     Js.r_price := Js.JString "abc"; Js.r_size := Js.JNumber 10;
     Js.r_asset := Js.JString "a1"; Js.r_proxyWallet := Js.JString "0xABC" |}.

(** A record without a price. *)
Definition rawNoPrice : Js.RawTrade :=
  {| Js.r_transactionHash := Js.JString "0xh2"; Js.r_id := Js.JUndefined;
     Js.r_timestamp := Js.JNumber 100;
     Js.r_maker := Js.JUndefined; Js.r_taker := Js.JUndefined;
     Js.r_side := Js.JString "BUY";
     Js.r_price := Js.JUndefined; Js.r_size := Js.JNumber 10;
     Js.r_asset := Js.JString "a1"; Js.r_proxyWallet := Js.JString "0xABC" |}.

(** A record without a trader identifier. *)
Definition rawNoTrader : Js.RawTrade :=
  {| Js.r_transactionHash := Js.JString "0xh3"; Js.r_id := Js.JUndefined;
     Js.r_timestamp := Js.JNumber 40;
     Js.r_maker := Js.JUndefined; Js.r_taker := Js.JUndefined;
     Js.r_side := Js.JString "SELL";
     Js.r_price := Js.JNumber (1 # 2); Js.r_size := Js.JNumber 10;
     Js.r_asset := Js.JString "a1"; Js.r_proxyWallet := Js.JUndefined |}.

(** A record of the trader at [wallet], of size 1 at the given price. *)
Definition rawWorth (wallet : string) (price : Js.value) : Js.RawTrade :=
  {| Js.r_transactionHash := Js.JString "0xh"; Js.r_id := Js.JUndefined;
     Js.r_timestamp := Js.JNumber 100;
     Js.r_maker := Js.JUndefined; Js.r_taker := Js.JUndefined;
     Js.r_side := Js.JString "BUY";
     Js.r_price := price; Js.r_size := Js.JNumber 1;
     Js.r_asset := Js.JString "a1"; Js.r_proxyWallet := Js.JString wallet |}.

(** Every string that is not a numeral reads as [NaN]. *)
Definition notNumeral (_ : string) : JsNum.double := JsNum.NaN.

Definition marketM1 : Market :=
  {| conditionId := "M1"; slug := "m1"; question := "Q"; volume := 5000;
     liquidity := 100; active := true |}.

Definition tradeOf (ow : option string) (ts : Z) : Trade :=
  {| id := "t"; timestamp := ts; maker := None; taker := None; side := "BUY";
     price := Js.JNumber (1 # 2); size := Js.JNumber 10; usdcSize := JsNum.Fin 5;
     market := "M1";
     asset := "a1";
     owner := ow |}.

(** Trades of one market in ascending order of timestamp. *)
Definition sortedSample : list Trade :=
  [ tradeOf (Some "0xa") 100; tradeOf None 110; tradeOf (Some "0xb") 120;
    tradeOf (Some "0xa") 150 ].

Definition marketAt (cid : string) : Market :=
  {| conditionId := cid; slug := cid; question := "Q"; volume := 5000;
     liquidity := 100; active := true |}.

(** A market with the trades that [fetchMarketTrades] returns for the
    records. *)
Definition fetchedFrom (cid : string) (data : list Js.RawTrade)
    : Market * list Trade :=
  (marketAt cid, omap asTrade (fetchMarketTrades notNumeral cid (Some data))).

(** Three markets with one trade each; the record of the second trade has
    no price. *)
Definition nanFetched : list (Market * list Trade) :=
  [ fetchedFrom "M1" [rawWorth "0xaaa" (Js.JNumber 1)];
    fetchedFrom "M2" [rawWorth "0xbbb" Js.JUndefined];
    fetchedFrom "M3" [rawWorth "0xccc" (Js.JNumber 2)] ].

(** The same markets with a price of 3 for the second trade. *)
Definition numericFetched : list (Market * list Trade) :=
  [ fetchedFrom "M1" [rawWorth "0xaaa" (Js.JNumber 1)];
    fetchedFrom "M2" [rawWorth "0xbbb" (Js.JNumber 3)];
    fetchedFrom "M3" [rawWorth "0xccc" (Js.JNumber 2)] ].

End FindLeaders.

(** ** The first-trader finder *)

Module FindFirst.

Record Trade : Type := mkTrade {
  id : string;
  timestamp : Z;
  proxyWallet : option string;
  side : string;
  price : Q;
  size : Q;
  usdcSize : Q
}.

(** A value of [traderOrder]. *)
Record TraderEntry : Type := mkTraderEntry {
  firstTrade : Trade;
  totalVolume : Q;
  tradeCount : Z
}.

Record TradeObj : Type := mkTradeObj {
  o_id : Js.value;
  o_timestamp : Js.value;
  o_proxyWallet : Js.value;
  o_side : Js.value;
  o_price : Js.value;
  o_size : Js.value;
  o_usdcSize : JsNum.double
}.

Section Normalizer.
Variable StringToNumber : string -> JsNum.double.

(** The callback of [response.data.map]. *)
Definition normalizeTrade (t : Js.RawTrade) : option TradeObj :=
  pw ← Js.toLowerCaseOpt (Js.r_proxyWallet t);
  Some {| o_id := Js.orElse (Js.r_transactionHash t) (Js.r_id t);
          o_timestamp := Js.r_timestamp t;
          o_proxyWallet := pw;
          o_side := Js.r_side t;
          o_price := Js.r_price t;
          o_size := Js.r_size t;
          o_usdcSize := Js.mul StringToNumber (Js.r_size t) (Js.r_price t) |}.

Definition fetchMarketTrades (response : option (list Js.RawTrade))
    : list TradeObj :=
  match response with
  | None => []
  | Some data => default [] (mapM normalizeTrade data)
  end.

End Normalizer.

Definition asTrade (o : TradeObj) : option Trade :=
  i ← Js.asString (o_id o);
  ts ← Js.asInteger (o_timestamp o);
  pw ← Js.asOptString (o_proxyWallet o);
  sd ← Js.asString (o_side o);
  p ← Js.asNumber (o_price o);
  sz ← Js.asNumber (o_size o);
  u ← Js.asFinite (o_usdcSize o);
  Some {| id := i; timestamp := ts; proxyWallet := pw; side := sd;
          price := p; size := sz; usdcSize := u |}.

(** [(a, b) => a.timestamp - b.timestamp] *)
Definition byTimestamp (a b : Trade) : Z := timestamp a - timestamp b.

Definition traderOf (trade : Trade) : option string :=
  match proxyWallet trade with
  | Some trader => if String.eqb trader "" then None else Some trader
  | None => None
  end.

(** The body of the loop over [sortedTrades] in [main]. *)
Definition orderStep (traderOrder : JsMap.t TraderEntry) (trade : Trade)
    : JsMap.t TraderEntry :=
  match traderOf trade with
  | None => traderOrder
  | Some trader =>
      if negb (JsMap.has trader traderOrder) then
        JsMap.set trader
          {| firstTrade := trade; totalVolume := usdcSize trade; tradeCount := 1 |}
          traderOrder
      else
        JsMap.mutate trader
          (fun data =>
             {| firstTrade := firstTrade data;
                totalVolume := (totalVolume data + usdcSize trade)%Q;
                tradeCount := tradeCount data + 1 |})
          traderOrder
  end.

Definition traderOrderOf (sortedTrades : list Trade) : JsMap.t TraderEntry :=
  foldl orderStep [] sortedTrades.

(** The trades of one trader, in the order of the array. *)
Definition entriesOf (trader : string) (l : list Trade) : list Trade :=
  List.filter (fun t => bool_decide (traderOf t = Some trader)) l.

(** A later trade of the trader: volume and count grow, the first trade
    stays. *)
Definition addTrade (data : TraderEntry) (t : Trade) : TraderEntry :=
  {| firstTrade := firstTrade data;
     totalVolume := (totalVolume data + usdcSize t)%Q;
     tradeCount := tradeCount data + 1 |}.

(** What the first-trader finder's normalizer makes of one record. *)
Definition normalizedFrom (StringToNumber : string -> JsNum.double)
    (t : Js.RawTrade) (o : TradeObj) : Prop :=
  o_timestamp o = Js.r_timestamp t /\
  o_price o = Js.r_price t /\
  o_size o = Js.r_size t /\
  o_usdcSize o = Js.mul StringToNumber (Js.r_size t) (Js.r_price t) /\
  (forall s, Js.r_proxyWallet t = Js.JString s ->
     o_proxyWallet o = Js.JString (Js.toLowerCase s)) /\
  (Js.lacksTrader t -> o_proxyWallet o = Js.JUndefined).

(** Trades of one market in ascending order of timestamp. *)
Definition sortedSample : list Trade :=
  [ {| id := "t1"; timestamp := 100; proxyWallet := Some "0xa"; side := "BUY";
       price := 1 # 2; size := 10; usdcSize := 5 |};
    {| id := "t2"; timestamp := 120; proxyWallet := Some "0xb"; side := "SELL";
       price := 1 # 4; size := 8; usdcSize := 2 |};
    {| id := "t3"; timestamp := 150; proxyWallet := Some "0xa"; side := "SELL";
       price := 3 # 4; size := 4; usdcSize := 3 |} ].

End FindFirst.

(** ** Arrays and strings: [slice] *)

Module JsSlice.

(** An index argument of [slice]: counted from the end when negative, and
    kept within the length. *)
Definition relativeIndex (len i : Z) : Z :=
  if i <? 0 then Z.max (len + i) 0 else Z.min i len.

(** [l.slice(start, end)]; [end] is [None] when it is left out. *)
Definition slice {A : Type} (start : Z) (end_ : option Z) (l : list A) : list A :=
  let len := Z.of_nat (length l) in
  let k := relativeIndex len start in
  let final :=
    match end_ with
    | Some e => relativeIndex len e
    | None => len
    end in
  take (Z.to_nat (final - k)) (drop (Z.to_nat k) l).

(** [s.slice(start, end)] on a string. *)
Definition sliceString (start : Z) (end_ : option Z) (s : string) : string :=
  String.string_of_list_ascii (slice start end_ (String.list_ascii_of_string s)).

(** [formatAddress]: the first six characters, three dots, the last four. *)
Definition formatAddress (address : string) : string :=
  sliceString 0 (Some 6) address +:+ "..." +:+ sliceString (-4) None address.

(** [address.slice(6, -4)], which the two finders print after
    [formatAddress(address)]. *)
Definition middleOf (address : string) : string := sliceString 6 (Some (-4)) address.

End JsSlice.

(** ** compareTraders.ts: fetching the trade history *)

Module CompareTradersFetch.
Import CompareTraders.

(** An item of [data-api.polymarket.com/activity]. *)
Record RawActivity : Type := mkRawActivity {
  a_id : Js.value;
  a_timestamp : Js.value;
  a_slug : Js.value;
  a_title : Js.value;
  a_market : Js.value;
  a_conditionId : Js.value;
  a_asset : Js.value;
  a_side : Js.value;
  a_price : Js.value;
  a_usdcSize : Js.value;
  a_size : Js.value;
  a_outcome : Js.value;
  a_transactionHash : Js.value
}.

(** The object that [fetchBatch] builds from one item. *)
Record TradeObj : Type := mkTradeObj {
  o_id : Js.value;
  o_timestamp : Js.value;
  o_market : Js.value;
  o_conditionId : Js.value;
  o_asset : Js.value;
  o_side : Js.value;
  o_price : Js.value;
  o_usdcSize : Js.value;
  o_size : Js.value;
  o_outcome : Js.value;
  o_transactionHash : Js.value
}.

(** The callback of [response.data.map]. *)
Definition normalizeItem (item : RawActivity) : TradeObj :=
  {| o_id := a_id item;
     o_timestamp := a_timestamp item;
     o_market :=
       Js.orElse (Js.orElse (Js.orElse (a_slug item) (a_title item)) (a_market item))
         (Js.JString "Unknown");
     o_conditionId := a_conditionId item;
     o_asset := a_asset item;
     o_side := a_side item;
     o_price := a_price item;
     o_usdcSize := a_usdcSize item;
     o_size := a_size item;
     o_outcome := Js.orElse (a_outcome item) (Js.JString "Unknown");
     o_transactionHash := a_transactionHash item |}.

Section Batch.
Variable StringToDouble : string -> JsNum.double.

(** [t.timestamp >= sinceTimestamp] *)
Definition recent (sinceTimestamp : Z) (t : TradeObj) : bool :=
  JsNum.ge (Js.ToDouble StringToDouble (o_timestamp t))
    (JsNum.Fin (inject_Z sinceTimestamp)).

(** [fetchBatch], given what the request resolves to: [None] when it
    fails, and then the [catch] returns [[]]. *)
Definition fetchBatch (response : option (list RawActivity)) (sinceTimestamp : Z)
    : list TradeObj :=
  match response with
  | None => []
  | Some data => List.filter (recent sinceTimestamp) (normalizeItem <$> data)
  end.

End Batch.

(** The object read at the type [Trade]; the price, the usd value and the
    size stay as they were received. *)
Definition asSide (v : Js.value) : option Side :=
  match v with
  | Js.JString "BUY" => Some BUY
  | Js.JString "SELL" => Some SELL
  | _ => None
  end.

Definition asTrade (o : TradeObj) : option Trade :=
  i ← Js.asString (o_id o);
  ts ← Js.asInteger (o_timestamp o);
  m ← Js.asString (o_market o);
  c ← Js.asString (o_conditionId o);
  a ← Js.asString (o_asset o);
  sd ← asSide (o_side o);
  oc ← Js.asString (o_outcome o);
  tx ← Js.asOptString (o_transactionHash o);
  Some {| id := i; timestamp := ts; market := m; conditionId := c; asset := a;
          side := sd; price := o_price o; usdcSize := o_usdcSize o;
          size := o_size o; outcome := oc; transactionHash := tx |}.

(** *** [fetchTraderActivity] *)

(** The variables of the paging loop. *)
Record Paging : Type := mkPaging {
  allTrades : list Trade;
  offset : Z;
  hasMore : bool
}.

Definition batchSize : Z := 100.
Definition maxParallel : Z := 3.

(** The loop over [results]: a batch with trades is appended, and the
    first batch shorter than [batchSize] ends the paging. *)
Fixpoint addBatches (results : list (list Trade)) (st : list Trade * Z * bool)
    : list Trade * Z * bool :=
  match results with
  | [] => st
  | batch :: rest =>
      let '(allTrades, addedCount, hasMore) := st in
      let '(allTrades, addedCount) :=
        if 0 <? Z.of_nat (length batch)
        then (allTrades ++ batch, addedCount + Z.of_nat (length batch))
        else (allTrades, addedCount) in
      if Z.of_nat (length batch) <? batchSize then (allTrades, addedCount, false)
      else addBatches rest (allTrades, addedCount, hasMore)
  end.

Section Activity.
(** [parseInt(process.env.COMPARE_HISTORY_DAYS || '30')] *)
Variable HISTORY_DAYS : Z.
(** [parseInt(process.env.COMPARE_MAX_TRADES || '1000')] *)
Variable MAX_TRADES_LIMIT : Z.
(** What [fetchBatch(traderAddress, offset, limit, sinceTimestamp)] resolves
    to, by offset, limit and [sinceTimestamp], for the trader at hand. *)
Variable fetchBatchOf : Z -> Z -> Z -> list Trade.

(** [Math.floor((Date.now() - HISTORY_DAYS * 24 * 60 * 60 * 1000) / 1000)] *)
Definition sinceTimestampAt (now : Z) : Z :=
  (now - HISTORY_DAYS * 24 * 60 * 60 * 1000) / 1000.

(** The requests of one pass of the loop. *)
Definition promises (sinceTimestamp offset : Z) : list (list Trade) :=
  (fun i => fetchBatchOf (offset + i * batchSize) batchSize sinceTimestamp)
    <$> seqZ 0 maxParallel.

(** The body of the [while] loop. *)
Definition pagingStep (sinceTimestamp : Z) (st : Paging) : Paging :=
  let results := promises sinceTimestamp (offset st) in
  let '(allTrades, addedCount, hasMore) :=
    addBatches results (allTrades st, 0, hasMore st) in
  let hasMore := if addedCount =? 0 then false else hasMore in
  let '(allTrades, hasMore) :=
    if MAX_TRADES_LIMIT <=? Z.of_nat (length allTrades)
    then (JsSlice.slice 0 (Some MAX_TRADES_LIMIT) allTrades, false)
    else (allTrades, hasMore) in
  {| allTrades := allTrades;
     offset := offset st + maxParallel * batchSize;
     hasMore := hasMore |}.

(** [while (hasMore && allTrades.length < MAX_TRADES_LIMIT)], with a bound
    on the number of passes; [None] when the bound is reached first. *)
Fixpoint paging (fuel : nat) (sinceTimestamp : Z) (st : Paging) : option Paging :=
  if hasMore st && (Z.of_nat (length (allTrades st)) <? MAX_TRADES_LIMIT) then
    match fuel with
    | O => None
    | S fuel => paging fuel sinceTimestamp (pagingStep sinceTimestamp st)
    end
  else Some st.

(** The trades gathered before the final sort. *)
Definition gathered (fuel : nat) (now : Z) : option (list Trade) :=
  let sinceTimestamp := sinceTimestampAt now in
  let firstBatch := fetchBatchOf 0 100 sinceTimestamp in
  if Z.of_nat (length firstBatch) =? 100 then
    allTrades <$>
      paging fuel sinceTimestamp
        {| allTrades := firstBatch; offset := 100; hasMore := true |}
  else Some firstBatch.

Definition fetchTraderActivity (fuel : nat) (now : Z) : option (list Trade) :=
  JsArray.sort byTimestamp <$> gathered fuel now.

(** The page of the history at position [i], as the loop asks for it. *)
Definition page (now : Z) (i : Z) : list Trade :=
  fetchBatchOf (i * batchSize) batchSize (sinceTimestampAt now).

(** The first [k] pages, one after the other. *)
Definition firstPages (now : Z) (k : Z) : list Trade :=
  seqZ 0 k ≫= page now.

(** A page with as many trades as were asked for, or more. *)
Definition fullPage (now : Z) (i : Z) : Prop :=
  batchSize <= Z.of_nat (length (page now i)).

(** What the loop gathers, in three cases.  No further page is asked for
    when the first one does not hold exactly 100 trades or the limit is at
    most 100.  Otherwise the first [k] pages are gathered, the first of 100
    trades and each of them full but possibly the last: all their trades
    when the last page is short, and their first [MAX_TRADES_LIMIT] trades
    when the limit is reached. *)
Definition gatheredPages (now : Z) (all : list Trade) : Prop :=
  exists k,
    1 <= k /\
    (forall i, 0 <= i < k - 1 -> fullPage now i) /\
    ((k = 1 /\ all = page now 0 /\
      (Z.of_nat (length (page now 0)) <> 100 \/ MAX_TRADES_LIMIT <= 100)) \/
     (1 < k /\ Z.of_nat (length (page now 0)) = 100 /\
      all = firstPages now k /\
      Z.of_nat (length (page now (k - 1))) < batchSize /\
      Z.of_nat (length all) < MAX_TRADES_LIMIT) \/
     (1 < k /\ Z.of_nat (length (page now 0)) = 100 /\
      100 < MAX_TRADES_LIMIT <= Z.of_nat (length (firstPages now k)) /\
      all = take (Z.to_nat MAX_TRADES_LIMIT) (firstPages now k))).

(** The state of a loop that goes on: [k] full pages have been gathered. *)
Definition goingOn (now : Z) (k : Z) (st : Paging) : Prop :=
  1 <= k /\ offset st = k * batchSize /\ allTrades st = firstPages now k /\
  Z.of_nat (length (page now 0)) = 100 /\
  (forall i, 0 <= i < k -> fullPage now i) /\
  hasMore st = true /\
  (k = 1 \/ Z.of_nat (length (allTrades st)) < MAX_TRADES_LIMIT).

End Activity.

(** A history of 250 trades served in pages, one trade a second. *)
Definition samplePages (offset limit since : Z) : list Trade :=
  List.filter (fun t => since <=? timestamp t)
    ((fun i => tradeAt "M1" (1000 + i))
       <$> seqZ offset (Z.min limit (250 - offset))).

(** A time of the run at which the history of 30 days starts at second
    1000, and what [fetchTraderActivity] returns for the sample then. *)
Definition sampleNow : Z := 2593000000.

Definition sampleHistory : list Trade :=
  Eval vm_compute in
    default [] (fetchTraderActivity 30 1000 samplePages 10 sampleNow).

End CompareTradersFetch.

(** ** compareTraders.ts: what [printResults] computes *)

Module CompareTradersReport.
Import CompareTraders.

(** *** The rows of a matched market *)

(** [(a, b) => a.timestamp - b.timestamp] on the participants. *)
Definition byFirstTimestamp (a b : TraderFirst) : Z := tf_timestamp a - tf_timestamp b.

(** A line of a matched market: the participant, whether the line is
    marked [FIRST], and the time after the first participant that it
    shows. *)
Record Row : Type := mkRow {
  row_trade : TraderFirst;
  isFirst : bool;
  timeSinceFirst : option Z
}.

(** [v.toFixed(digits)]: a [TypeError] ([None]) unless [v] is a number;
    the digits it prints are not modelled. *)
Definition toFixed (v : Js.value) : option unit :=
  match v with
  | Js.JNumber _ => Some ()
  | _ => None
  end.

(** The greatest time value of a [Date], in milliseconds. *)
Definition maxTimeValue : Z := 8640000000000000.

(** [formatTimestamp(ts)]: [new Date(ts * 1000).toISOString()] raises a
    [RangeError] ([None]) when [ts * 1000] is not a time value; the text
    it prints is not modelled. *)
Definition formatTimestamp (ts : Z) : option unit :=
  if Z.abs (ts * 1000) <=? maxTimeValue then Some () else None.

(** The body of the loop over [sortedTrades], at index [j]. *)
Definition rowAt (sortedTrades : list TraderFirst) (j : nat) (t : TraderFirst)
    : option Row :=
  let isFirst := bool_decide (j = 0%nat) in
  timeSinceFirst ←
    (if bool_decide (0 < j)%nat
     then first ← sortedTrades !! 0%nat;
          Some (Some (tf_timestamp t - tf_timestamp first))
     else Some None);
  _ ← toFixed (tf_usdcSize t);
  _ ← toFixed (tf_price t);
  _ ← formatTimestamp (tf_timestamp t);
  Some {| row_trade := t; isFirst := isFirst; timeSinceFirst := timeSinceFirst |}.

(** A participant whose line can be printed: the usd value and the price
    are numbers and the timestamp is within the range of [Date]. *)
Definition printable (t : TraderFirst) : Prop :=
  (exists q, tf_usdcSize t = Js.JNumber q) /\
  (exists q, tf_price t = Js.JNumber q) /\
  Z.abs (tf_timestamp t * 1000) <= 8640000000000000.

(** The line at index [j] when the first participant is [first]. *)
Definition rowOf (first : TraderFirst) (j : nat) (t : TraderFirst) : Row :=
  {| row_trade := t;
     isFirst := bool_decide (j = 0%nat);
     timeSinceFirst :=
       if bool_decide (0 < j)%nat
       then Some (tf_timestamp t - tf_timestamp first) else None |}.

(** The lines of one matched market; the participants are sorted in a
    copy.  [None] when printing a line raises. *)
Definition rowsOf (m : MatchedTrade) : option (list Row) :=
  let sortedTrades := JsArray.sort byFirstTimestamp (traderTrades m) in
  mapM (fun jt => rowAt sortedTrades jt.1 jt.2) (imap pair sortedTrades).

(** *** The time difference analysis *)

(** An element of [allDiffs]. *)
Record GapEntry : Type := mkGapEntry {
  diff : Z;
  g_market : string
}.

Definition allDiffs (matched : list MatchedTrade) : list GapEntry :=
  matched ≫= (fun m =>
    (fun d => {| diff := Z.abs (diffSeconds d); g_market := m_market m |})
      <$> timeDiffs m).

(** [(a, b) => a.diff - b.diff] *)
Definition byDiff (a b : GapEntry) : Z := diff a - diff b.

Record GapAnalysis : Type := mkGapAnalysis {
  total : Z;
  median : Z;
  avg : number;
  min : Z;
  max : Z;
  under1min : Z;
  under5min : Z;
  under1hour : Z
}.

(** [allDiffs.filter((d) => d.diff < bound).length] *)
Definition under (bound : Z) (allDiffs : list GapEntry) : Z :=
  Z.of_nat (length (List.filter (fun d => diff d <? bound) allDiffs)).

(** The block under [if (allDiffs.length > 0)]: [Some None] when it is
    skipped, [None] when reading an element raises. *)
Definition gapAnalysis (matched : list MatchedTrade) : option (option GapAnalysis) :=
  let allDiffs := allDiffs matched in
  if 0 <? Z.of_nat (length allDiffs) then
    let allDiffs := JsArray.sort byDiff allDiffs in
    let length := Z.of_nat (length allDiffs) in
    medianEntry ← allDiffs !! Z.to_nat (length / 2);
    let avg :=
      numDiv (ofZ (foldl (fun sum d => sum + diff d) 0 allDiffs)) (ofZ length) in
    minEntry ← allDiffs !! 0%nat;
    maxEntry ← allDiffs !! Z.to_nat (length - 1);
    Some (Some {| total := length;
                  median := diff medianEntry;
                  avg := avg;
                  min := diff minEntry;
                  max := diff maxEntry;
                  under1min := under 60 allDiffs;
                  under5min := under 300 allDiffs;
                  under1hour := under 3600 allDiffs |})
  else Some None.

(** *** Properties of the summaries *)

(** The trader takes part in the matched market. *)
Definition takesPart (addr : string) (m : MatchedTrade) : bool :=
  bool_decide (addr ∈ tf_address <$> traderTrades m).

(** The traders of the grouping maps are among [S]. *)
Definition tradersWithin (S : list string) (g : JsMap.t (JsMap.t (list Trade)))
    : Prop :=
  Forall (fun e => forall a, a ∈ JsMap.keys e.2 -> a ∈ S) g.

(** Three traders in one market, the first two at the same second. *)
Definition scenarioThree : list TraderTrades :=
  [ {| address := "0xaaa"; trades := [tradeAt "M1" 100] |};
    {| address := "0xbbb"; trades := [tradeAt "M1" 100] |};
    {| address := "0xccc"; trades := [tradeAt "M1" 130] |} ].

Definition scenarioThreeFirst : TraderFirst :=
  mkTraderFirst "0xaaa" (tradeAt "M1" 100) 100 BUY (Js.JNumber 0) (Js.JNumber 0).

Definition scenarioThreeTie : TimeDiff :=
  {| trader1 := "0xaaa"; trader2 := "0xbbb"; diffSeconds := 0; leader := "0xbbb" |}.

Definition scenarioThreeMatch : MatchedTrade :=
  {| m_conditionId := "M1"; m_market := "M1"; m_outcome := "Yes";
     traderTrades :=
       [ scenarioThreeFirst;
         mkTraderFirst "0xbbb" (tradeAt "M1" 100) 100 BUY (Js.JNumber 0) (Js.JNumber 0);
         mkTraderFirst "0xccc" (tradeAt "M1" 130) 130 BUY (Js.JNumber 0) (Js.JNumber 0) ];
     timeDiffs :=
       [ scenarioThreeTie;
         {| trader1 := "0xaaa"; trader2 := "0xccc"; diffSeconds := 30;
            leader := "0xaaa" |};
         {| trader1 := "0xbbb"; trader2 := "0xccc"; diffSeconds := 30;
            leader := "0xbbb" |} ] |}.

(** The same market when the activity of [0xbbb] came without a price. *)
Definition scenarioNoPrice : MatchedTrade :=
  {| m_conditionId := "M1"; m_market := "M1"; m_outcome := "Yes";
     traderTrades :=
       [ scenarioThreeFirst;
         mkTraderFirst "0xbbb" (tradeAt "M1" 100) 100 BUY Js.JUndefined (Js.JNumber 0) ];
     timeDiffs := [ scenarioThreeTie ] |}.

Definition scenarioThreeRows : list Row :=
  Eval vm_compute in default [] (rowsOf scenarioThreeMatch).

End CompareTradersReport.

(** ** The leader finder: properties of the statistics *)

Module FindLeadersStats.
Import FindLeaders.

(** The record at index [i] of the map holds position [i + 1]. *)
Definition positioned (m : JsMap.t FirstTrade) : Prop :=
  forall i e, m !! i = Some e -> ft_position e.2 = Z.of_nat i + 1.

(** The first-trade timestamps of the records, in the order of the map. *)
Definition firstTimes (m : JsMap.t FirstTrade) : list Z :=
  (fun e => ft_timestamp e.2) <$> m.


(** The first rate that [printResults] and [saveResults] compute:
    [t.timesFirst / t.marketsTraded.size]. *)
Definition firstRate (t : TraderStats) : number :=
  numDiv (ofZ (timesFirst t)) (ofZ (Z.of_nat (length (marketsTraded t)))).

(** Two markets, each with two traders. *)
Definition sampleFetched : list (Market * list Trade) :=
  [ (marketM1, sortedSample);
    ({| conditionId := "M2"; slug := "m2"; question := "Q2"; volume := 7000;
        liquidity := 50; active := true |},
     [ tradeOf (Some "0xb") 300; tradeOf (Some "0xa") 310 ]) ].

Definition sampleStats : TraderStats :=
  Eval vm_compute in
    default (newStats "") (JsMap.get "0xa" (analyzeMarkets 5 sampleFetched)).

End FindLeadersStats.

(** ** The first-trader finder: [main] *)

Module FindFirstMain.
Import FindFirst.

Record MarketInfo : Type := mkMarketInfo {
  mi_conditionId : string;
  question : string;
  slug : string
}.

(** [findMarketBySlug] and [findMarketByConditionId], given what the
    request resolves to: the first market of the response, [null] when
    there is none or the request fails. *)
Definition findMarket (response : option (list MarketInfo)) : option MarketInfo :=
  match response with
  | Some (m :: _) =>
      Some {| mi_conditionId := mi_conditionId m;
              question := question m;
              slug := slug m |}
  | _ => None
  end.

(** [a || b] on what may be a string. *)
Definition orString (a b : option string) : option string :=
  match a with
  | Some s => if String.eqb s "" then b else a
  | None => b
  end.

(** [sortedTrades[0]?.timestamp || 0] *)
Definition firstTradeTimeOf (sortedTrades : list Trade) : Z :=
  match sortedTrades with
  | [] => 0
  | t :: _ => timestamp t
  end.

(** A line of the table: the position, the trader, the entry and the
    delay. *)
Record Line : Type := mkLine {
  position : Z;
  l_address : string;
  data : TraderEntry;
  delay : Z
}.

(** The loop over [traderOrder.entries()], which stops after 20 lines. *)
Fixpoint linesFrom (position : Z) (firstTradeTime : Z)
    (entries : list (string * TraderEntry)) : list Line :=
  match entries with
  | [] => []
  | (address, data) :: rest =>
      let position := position + 1 in
      if 20 <? position then []
      else
        {| position := position;
           l_address := address;
           data := data;
           delay := timestamp (firstTrade data) - firstTradeTime |}
        :: linesFrom position firstTradeTime rest
  end.

(** What [main] shows. *)
Record Report : Type := mkReport {
  market : option MarketInfo;
  conditionId : string;
  totalTrades : Z;
  uniqueTraders : Z;
  lines : list Line;
  winner : option (string * TraderEntry)
}.

Inductive Outcome : Type :=
| Exit (code : Z)
| Shown (report : Report).

Section Main.
(** What the two lookups and [fetchMarketTrades] resolve to, by their
    argument. *)
Variable marketBySlug : string -> option (list MarketInfo).
Variable marketByConditionId : string -> option (list MarketInfo).
Variable marketTrades : string -> list Trade.

(** [argv2] is [process.argv[2]] and [env] is [process.env.MARKET_ID]. *)
Definition main (argv2 env : option string) : Outcome :=
  match orString argv2 env with
  | None => Exit 1
  | Some input =>
      if String.eqb input "" then Exit 1
      else
        let market :=
          if String.prefix "0x" input
          then findMarket (marketByConditionId input)
          else findMarket (marketBySlug input) in
        let conditionId :=
          default input (orString (mi_conditionId <$> market) (Some input)) in
        let trades := marketTrades conditionId in
        if Z.of_nat (length trades) =? 0 then Exit 1
        else
          let sortedTrades := JsArray.sort byTimestamp trades in
          let traderOrder := traderOrderOf sortedTrades in
          let firstTradeTime := firstTradeTimeOf sortedTrades in
          Shown {| market := market;
                   conditionId := conditionId;
                   totalTrades := Z.of_nat (length sortedTrades);
                   uniqueTraders := JsMap.size traderOrder;
                   lines := linesFrom 0 firstTradeTime traderOrder;
                   winner := head traderOrder |}
  end.

End Main.

(** A trade that names its trader. *)
Definition named (t : Trade) : bool := bool_decide (traderOf t <> None).

(** The line that the loop prints for the entry at index [i], when it
    started counting at [from]. *)
Definition lineOf (from firstTradeTime : Z) (i : nat) (e : string * TraderEntry)
    : Line :=
  {| position := from + Z.of_nat i + 1;
     l_address := e.1;
     data := e.2;
     delay := timestamp (firstTrade e.2) - firstTradeTime |}.

(** The first-trade timestamps of the entries, in the order of the map. *)
Definition firstTimes (m : JsMap.t TraderEntry) : list Z :=
  (fun e => timestamp (firstTrade e.2)) <$> m.

(** A market found by its slug, with the sample trades. *)
Definition sampleMarket : MarketInfo :=
  {| mi_conditionId := "0xc1"; question := "Q"; slug := "some-market" |}.

Definition sampleBySlug (slug : string) : option (list MarketInfo) :=
  if String.eqb slug "some-market" then Some [sampleMarket] else Some [].

Definition sampleTrades (conditionId : string) : list Trade :=
  if String.eqb conditionId "0xc1" then sortedSample else [].

Definition sampleReport : Report :=
  Eval vm_compute in
    match main sampleBySlug (fun _ => None) sampleTrades (Some "some-market") None with
    | Shown r => r
    | Exit _ => mkReport None "" 0 0 [] None
    end.

End FindFirstMain.

(** ** The leader finder: [fetchActiveMarkets] *)

Module FindLeadersMarkets.
Import JsNum.

(** A market of an event of [gamma-api.polymarket.com/events]. *)
Record RawMarket : Type := mkRawMarket {
  m_conditionId : Js.value;
  m_slug : Js.value;
  m_question : Js.value;
  m_volume : Js.value;
  m_liquidity : Js.value;
  m_active : Js.value;
  m_closed : Js.value
}.

(** An event; [e_markets] is [None] when the event has no [markets]. *)
Record RawEvent : Type := mkRawEvent {
  e_slug : Js.value;
  e_title : Js.value;
  e_markets : option (list RawMarket)
}.

(** The object that [fetchActiveMarkets] pushes for a market. *)
Record MarketObj : Type := mkMarketObj {
  o_conditionId : Js.value;
  o_slug : Js.value;
  o_question : Js.value;
  o_volume : extended;
  o_liquidity : extended;
  o_active : Js.value
}.

(** [v?.slice(0, 50)]: [undefined] when [v] is nullish, a [TypeError]
    ([None]) when [v] has no such method. *)
Definition sliceOpt (v : Js.value) : option Js.value :=
  match v with
  | Js.JUndefined | Js.JNull => Some Js.JUndefined
  | Js.JString s => Some (Js.JString (JsSlice.sliceString 0 (Some 50) s))
  | Js.JBool _ | Js.JNumber _ => None
  end.

(** [m.slug || event.slug || m.question?.slice(0, 50) || 'Unknown'] *)
Definition slugOf (event : RawEvent) (m : RawMarket) : option Js.value :=
  let s := Js.orElse (m_slug m) (e_slug event) in
  if Js.truthy s then Some s
  else
    q ← sliceOpt (m_question m);
    Some (Js.orElse q (Js.JString "Unknown")).

(** [(a, b) => b.volume - a.volume] *)
Definition byVolume (a b : MarketObj) : Z :=
  signOfDiff (toDouble (o_volume b)) (toDouble (o_volume a)).

Section Config.
(** [parseFloat(process.env.LEADER_MIN_VOLUME || '1000')] and
    [parseInt(process.env.LEADER_MAX_MARKETS || '100')]. *)
Variable MIN_MARKET_VOLUME : double.
Variable MAX_MARKETS : Z.
(** The numeric reading of a string and [parseFloat] on a string,
    primitives of the language. *)
Variable StringToDouble : string -> double.
Variable parseFloatString : string -> double.

(** [parseFloat(v)]: [v] is read through its string; the string of a
    number reads as that number. *)
Definition parseFloat (v : Js.value) : double :=
  match v with
  | Js.JString s => parseFloatString s
  | Js.JNumber q => Fin q
  | Js.JUndefined | Js.JNull | Js.JBool _ => NaN
  end.

(** [m.volume >= MIN_MARKET_VOLUME && m.active && !m.closed] *)
Definition wanted (m : RawMarket) : bool :=
  ge (Js.ToDouble StringToDouble (m_volume m)) MIN_MARKET_VOLUME
  && Js.truthy (m_active m) && negb (Js.truthy (m_closed m)).

Definition marketOf (event : RawEvent) (m : RawMarket) : option MarketObj :=
  slug ← slugOf event m;
  Some {| o_conditionId := m_conditionId m;
          o_slug := slug;
          o_question :=
            Js.orElse (Js.orElse (m_question m) (e_title event))
              (Js.JString "Unknown");
          o_volume := orZero (parseFloat (m_volume m));
          o_liquidity := orZero (parseFloat (m_liquidity m));
          o_active := m_active m |}.

(** The markets that one pass of the loop over the events pushes; [None]
    when it raises. *)
Definition eventMarkets (event : RawEvent) : option (list MarketObj) :=
  match e_markets event with
  | None => Some []
  | Some markets => mapM (marketOf event) (List.filter wanted markets)
  end.

(** [response] is [None] when the request fails. *)
Definition fetchActiveMarkets (response : option (list RawEvent))
    : list MarketObj :=
  match response with
  | None => []
  | Some data =>
      match mapM eventMarkets data with
      | None => []
      | Some markets =>
          JsSlice.slice 0 (Some MAX_MARKETS) (JsArray.sort byVolume (concat markets))
      end
  end.

End Config.

(** An event with a market above the threshold, a market below it and a
    closed one. *)
Definition sampleRead (s : string) : double :=
  if String.eqb s "5000" then Fin 5000
  else if String.eqb s "2000" then Fin 2000
  else if String.eqb s "10" then Fin 10
  else NaN.

Definition sampleEvents : list RawEvent :=
  [ {| e_slug := Js.JString "event-one";
       e_title := Js.JString "Event one";
       e_markets :=
         Some [ mkRawMarket (Js.JString "0xc1") Js.JUndefined (Js.JString "Q1")
                  (Js.JString "2000") (Js.JString "10") (Js.JBool true)
                  (Js.JBool false);
                mkRawMarket (Js.JString "0xc2") (Js.JString "m2") Js.JUndefined
                  (Js.JString "10") Js.JUndefined (Js.JBool true) (Js.JBool false);
                mkRawMarket (Js.JString "0xc3") (Js.JString "m3") (Js.JString "Q3")
                  (Js.JString "5000") (Js.JNumber 7) (Js.JBool true)
                  (Js.JBool false);
                mkRawMarket (Js.JString "0xc4") (Js.JString "m4") (Js.JString "Q4")
                  (Js.JString "5000") (Js.JNumber 7) (Js.JBool true)
                  (Js.JBool true) ] |};
    {| e_slug := Js.JUndefined; e_title := Js.JUndefined; e_markets := None |} ].

Definition sampleMarkets : list MarketObj :=
  Eval vm_compute in
    fetchActiveMarkets (Fin 1000) 100 sampleRead sampleRead (Some sampleEvents).

Definition sampleTop : MarketObj :=
  Eval vm_compute in
    default (mkMarketObj Js.JUndefined Js.JUndefined Js.JUndefined (Real 0) (Real 0)
               Js.JUndefined)
      (head sampleMarkets).

End FindLeadersMarkets.

(** * Facts about the array and map primitives *)

Module JsArrayFacts.
Import JsArray.
Section SortFacts.
Context {A : Type}.
Variable compareFn : A -> A -> Z.

Abbreviation le := (fun a b : A => compareFn a b <= 0).

Lemma insert_perm (x : A) (l : list A) : insert compareFn x l ≡ₚ x :: l.
Proof.
  induction l as [|y r IH]; simpl; [done|].
  destruct (0 <? compareFn x y); [|done].
  rewrite IH. apply Permutation_swap.
Qed.

Lemma sort_perm (l : list A) : sort compareFn l ≡ₚ l.
Proof.
  induction l as [|x r IH]; simpl; [done|].
  by rewrite insert_perm, IH.
Qed.

Lemma sort_length (l : list A) : length (sort compareFn l) = length l.
Proof. apply Permutation_length, sort_perm. Qed.

Lemma sort_nil_inv (l : list A) : sort compareFn l = [] -> l = [].
Proof.
  intros H. apply (f_equal length) in H. rewrite sort_length in H.
  by destruct l.
Qed.

Lemma elem_of_sort (x : A) (l : list A) : x ∈ sort compareFn l <-> x ∈ l.
Proof. by rewrite sort_perm. Qed.

(** Elements that the comparator ties among themselves keep their order. *)
Lemma insert_stable (P : A -> bool) (x : A) (l : list A) :
  (forall y, P x = true -> P y = true -> compareFn x y <= 0) ->
  List.filter P (insert compareFn x l) = List.filter P (x :: l).
Proof.
  intros Htie. induction l as [|y r IH]; [done|].
  simpl insert. destruct (0 <? compareFn x y) eqn:E; [|done].
  apply Z.ltb_lt in E.
  change (List.filter P (y :: insert compareFn x r))
    with (if P y then y :: List.filter P (insert compareFn x r)
          else List.filter P (insert compareFn x r)).
  rewrite IH. simpl.
  destruct (P x) eqn:Px, (P y) eqn:Py; try done.
  specialize (Htie y eq_refl Py). lia.
Qed.

Lemma sort_stable (P : A -> bool) (l : list A) :
  (forall x y, P x = true -> P y = true -> compareFn x y <= 0) ->
  List.filter P (sort compareFn l) = List.filter P l.
Proof.
  intros Htie. induction l as [|x r IH]; [done|].
  simpl sort. rewrite insert_stable by (intros; by apply Htie).
  simpl. by rewrite IH.
Qed.

Lemma insert_sorted_head (x : A) (l : list A) :
  Forall (le x) l -> insert compareFn x l = x :: l.
Proof.
  intros H. destruct l as [|y r]; [done|]. simpl.
  apply Forall_cons in H as [H _].
  by destruct (Z.ltb_spec 0 (compareFn x y)); [lia|].
Qed.

(** A sorted array is left as it is: sorting twice is sorting once. *)
Lemma sort_sorted (l : list A) :
  StronglySorted le l -> sort compareFn l = l.
Proof.
  induction 1 as [|x r Hs IH Hx]; [done|].
  simpl. rewrite IH. by apply insert_sorted_head.
Qed.

Hypothesis Hcons : consistent compareFn.

Lemma insert_sorted (x : A) (l : list A) :
  StronglySorted le l -> StronglySorted le (insert compareFn x l).
Proof.
  induction 1 as [|y r Hs IH Hy]; simpl.
  - repeat constructor.
  - destruct (Z.ltb_spec 0 (compareFn x y)) as [Hlt|Hge].
    + constructor; [done|].
      rewrite insert_perm. constructor; [|done].
      by apply (cmp_total _ Hcons).
    + constructor; [by constructor|].
      constructor; [done|].
      eapply Forall_impl; [exact Hy|].
      intros z Hz. simpl in *. by apply (cmp_trans _ Hcons x y z).
Qed.

Lemma sort_sorts (l : list A) : StronglySorted le (sort compareFn l).
Proof.
  induction l as [|x r IH]; simpl; [constructor|].
  by apply insert_sorted.
Qed.

Lemma sort_idempotent (l : list A) :
  sort compareFn (sort compareFn l) = sort compareFn l.
Proof. apply sort_sorted, sort_sorts. Qed.

Lemma ties_refl (x : A) : ties compareFn x x = true.
Proof.
  unfold ties. assert (compareFn x x <= 0).
  { destruct (Z.le_gt_cases (compareFn x x) 0) as [|Hgt]; [done|].
    apply (cmp_total _ Hcons). lia. }
  apply andb_true_intro. split; by apply Z.leb_le.
Qed.

Lemma ties_class (x u v : A) :
  ties compareFn x u = true -> ties compareFn x v = true -> compareFn u v <= 0.
Proof.
  unfold ties. intros [Hxu Hux]%andb_prop [Hxv Hvx]%andb_prop.
  apply Z.leb_le in Hxu, Hux, Hxv, Hvx. by apply (cmp_trans _ Hcons u x v).
Qed.

(** The sorted array is the only arrangement of the elements that is in
    order and keeps the elements that tie in the order they had: whatever
    stable algorithm sorts, it returns [sort compareFn l]. *)
Lemma sorted_stable_unique (l1 l2 : list A) :
  l1 ≡ₚ l2 -> StronglySorted le l1 -> StronglySorted le l2 ->
  (forall x, List.filter (ties compareFn x) l1 = List.filter (ties compareFn x) l2) ->
  l1 = l2.
Proof.
  revert l2. induction l1 as [|a r1 IH]; intros l2 Hp Hs1 Hs2 Hst.
  - by apply Permutation_nil_l in Hp.
  - destruct l2 as [|b r2]; [by apply Permutation_nil_r in Hp|].
    apply StronglySorted_inv in Hs1 as [Hs1 Ha], Hs2 as [Hs2 Hb].
    assert (Hab : compareFn a b <= 0).
    { assert (Hin : b ∈ a :: r1) by (rewrite Hp; by left).
      apply elem_of_cons in Hin as [->|Hin].
      - pose proof (ties_refl a) as [H _]%andb_prop. by apply Z.leb_le in H.
      - rewrite Forall_forall in Ha. by apply Ha. }
    assert (Hba : compareFn b a <= 0).
    { assert (Hin : a ∈ b :: r2) by (rewrite <- Hp; by left).
      apply elem_of_cons in Hin as [->|Hin].
      - pose proof (ties_refl b) as [H _]%andb_prop. by apply Z.leb_le in H.
      - rewrite Forall_forall in Hb. by apply Hb. }
    pose proof (Hst a) as Hfa. simpl in Hfa. rewrite ties_refl in Hfa.
    assert (Htie : ties compareFn a b = true).
    { unfold ties. apply andb_true_intro. split; by apply Z.leb_le. }
    rewrite Htie in Hfa. injection Hfa as <- _. f_equal.
    apply IH; [by apply Permutation_cons_inv with a|done..|].
    intros x. specialize (Hst x). simpl in Hst.
    destruct (ties compareFn x a); [by injection Hst|done].
Qed.

Lemma sort_unique (l l' : list A) :
  l' ≡ₚ l -> StronglySorted le l' ->
  (forall x, List.filter (ties compareFn x) l' = List.filter (ties compareFn x) l) ->
  l' = sort compareFn l.
Proof.
  intros Hp Hs Hst. apply sorted_stable_unique.
  - by rewrite sort_perm.
  - done.
  - apply sort_sorts.
  - intros x. rewrite Hst. symmetry. apply sort_stable. apply ties_class.
Qed.

(** The first element of the sorted array does not compare above any
    element of the array. *)
Lemma sort_head_least (l : list A) (x : A) :
  head (sort compareFn l) = Some x -> x ∈ l /\ Forall (le x) l.
Proof.
  intros Hh. pose proof (sort_sorts l) as Hs.
  destruct (sort compareFn l) as [|y r] eqn:E; [done|].
  simpl in Hh. injection Hh as ->.
  assert (Hp : x :: r ≡ₚ l) by (rewrite <- E; apply sort_perm).
  split.
  - rewrite <- Hp. by left.
  - rewrite <- Hp. apply StronglySorted_inv in Hs as [_ Hs].
    constructor; [|done].
    destruct (Z.le_gt_cases (compareFn x x) 0) as [|Hgt]; [done|].
    apply (cmp_total _ Hcons). lia.
Qed.

End SortFacts.

(** Two comparators that agree on the elements of an array sort it alike. *)
Lemma insert_ext_on {A : Type} (c c' : A -> A -> Z) (x : A) (l : list A) :
  (forall y, y ∈ l -> c x y = c' x y) -> insert c x l = insert c' x l.
Proof.
  induction l as [|y r IH]; intros H; simpl; [done|].
  rewrite <- (H y) by (by left). destruct (0 <? c x y); [|done].
  f_equal. apply IH. intros z Hz. apply H. by right.
Qed.

Lemma sort_ext_on {A : Type} (c c' : A -> A -> Z) (l : list A) :
  (forall x y, x ∈ l -> y ∈ l -> c x y = c' x y) -> sort c l = sort c' l.
Proof.
  induction l as [|x r IH]; intros H; simpl; [done|].
  rewrite <- IH by (intros y z Hy Hz; apply H; by right).
  apply insert_ext_on. intros y Hy. apply elem_of_sort in Hy.
  apply H; [by left|by right].
Qed.

Lemma StronglySorted_lookup {A : Type} (R : A -> A -> Prop) (l : list A) i j a b :
  StronglySorted R l -> (i < j)%nat ->
  l !! i = Some a -> l !! j = Some b -> R a b.
Proof.
  intros Hs. revert i j. induction Hs as [|x r Hs IH Hx]; intros i j Hij Hi Hj.
  - done.
  - destruct j as [|j]; [lia|]. destruct i as [|i]; simpl in *.
    + injection Hi as ->. rewrite Forall_forall in Hx. apply Hx.
      apply list_elem_of_lookup. by exists j.
    + apply (IH i j); [lia|done..].
Qed.

Lemma StronglySorted_impl {A : Type} (R R' : A -> A -> Prop) (l : list A) :
  (forall a b, R a b -> R' a b) -> StronglySorted R l -> StronglySorted R' l.
Proof.
  intros HR. induction 1 as [|x r Hs IH Hx]; constructor; [done|].
  eapply Forall_impl; [exact Hx|]. intros; by apply HR.
Qed.

Lemma mathMin_Some (l : list Z) (z : Z) :
  mathMin l = Some z -> z ∈ l /\ Forall (fun x => z <= x) l.
Proof.
  destruct l as [|x r]; [done|]. simpl. intros [= <-].
  induction r as [|y r [IHin IHle]]; simpl.
  - split; [by left|]. constructor; [lia|constructor].
  - apply Forall_cons in IHle as [Hx Hr]. split.
    + destruct (Z.min_spec y (foldr Z.min x r)) as [[_ ->]|[_ ->]].
      * right. by left.
      * apply elem_of_cons in IHin as [->|?]; [by left|]. right. by right.
    + repeat constructor; [lia..|].
      eapply Forall_impl; [exact Hr|]. simpl. lia.
Qed.

Lemma mathMin_is_Some (l : list Z) : l <> [] -> is_Some (mathMin l).
Proof. destruct l; [done|]. by eexists. Qed.

Lemma mathMin_least (l : list Z) (z : Z) :
  z ∈ l -> Forall (fun x => z <= x) l -> mathMin l = Some z.
Proof.
  intros Hz Hle. destruct (mathMin_is_Some l) as [z' Hz'].
  { intros ->. by apply not_elem_of_nil in Hz. }
  destruct (mathMin_Some _ _ Hz') as [Hin' Hle']. rewrite Hz'. f_equal.
  rewrite Forall_forall in Hle, Hle'.
  specialize (Hle z' Hin'). specialize (Hle' z Hz). lia.
Qed.

Lemma sort_head_is_Some {A : Type} (compareFn : A -> A -> Z) (l : list A) :
  l <> [] -> is_Some (head (sort compareFn l)).
Proof.
  intros Hne. destruct (sort compareFn l) eqn:E; [|by eexists].
  by apply sort_nil_inv in E.
Qed.

End JsArrayFacts.

Module JsMapFacts.
Import JsMap.
Section MapFacts.
Context {V : Type}.
Implicit Types (m : JsMap.t V) (k : string) (v d : V) (f : V -> V).

Lemma has_true k m : has k m = true <-> is_Some (get k m).
Proof. unfold has. destruct (get k m); split; (done || by eexists || by intros []). Qed.

Lemma has_false k m : has k m = false <-> get k m = None.
Proof. unfold has. by destruct (get k m). Qed.

Lemma get_Some_elem k v m : get k m = Some v -> (k, v) ∈ m.
Proof.
  induction m as [|[k' v'] r IH]; simpl; [done|].
  destruct (String.eqb_spec k k') as [->|Hne].
  - intros [= ->]. by left.
  - intros H. right. by apply IH.
Qed.

Lemma get_None_keys k m : get k m = None <-> k ∉ keys m.
Proof.
  unfold keys. induction m as [|[k' v'] r IH]; simpl.
  - split; [intros _; apply not_elem_of_nil|done].
  - rewrite not_elem_of_cons.
    destruct (String.eqb_spec k k') as [->|Hne].
    + split; [done|]. by intros [? _].
    + rewrite IH. split; [done|]. by intros [_ ?].
Qed.

Lemma get_is_Some_keys k m : is_Some (get k m) <-> k ∈ keys m.
Proof.
  destruct (get k m) eqn:E.
  - split; [intros _|by eexists].
    apply get_Some_elem in E. unfold keys.
    apply list_elem_of_fmap. by exists (k, v).
  - apply get_None_keys in E. split; [by intros []|done].
Qed.

Lemma set_absent k v m : get k m = None -> set k v m = m ++ [(k, v)].
Proof.
  induction m as [|[k' v'] r IH]; simpl; [done|].
  destruct (String.eqb k k'); [done|]. intros H. by rewrite IH.
Qed.

Lemma mutate_absent k f m : get k m = None -> mutate k f m = m.
Proof.
  induction m as [|[k' v'] r IH]; simpl; [done|].
  destruct (String.eqb k k'); [done|]. intros H. by rewrite IH.
Qed.

Lemma mutate_app_absent k f m m' :
  get k m = None -> mutate k f (m ++ m') = m ++ mutate k f m'.
Proof.
  induction m as [|[k' v'] r IH]; simpl; [done|].
  destruct (String.eqb k k'); [done|]. intros H. by rewrite IH.
Qed.

(** The idiom [if (!m.has(k)) m.set(k, d); mutate(m.get(k))]. *)
Lemma mutate_ensure k d f m :
  mutate k f (ensure k d m)
  = if has k m then mutate k f m else m ++ [(k, f d)].
Proof.
  unfold ensure. destruct (has k m) eqn:E; [done|].
  apply has_false in E. rewrite set_absent, mutate_app_absent by done.
  simpl. by rewrite String.eqb_refl.
Qed.

Lemma keys_mutate k f m : keys (mutate k f m) = keys m.
Proof.
  unfold keys. induction m as [|[k' v'] r IH]; simpl; [done|].
  destruct (String.eqb k k'); [done|]. rewrite fmap_cons. by f_equal.
Qed.

Lemma keys_set_present k v m : is_Some (get k m) -> keys (set k v m) = keys m.
Proof.
  unfold keys. induction m as [|[k' v'] r IH]; simpl; [by intros []|].
  destruct (String.eqb k k'); [done|]. intros H. rewrite fmap_cons.
  f_equal. by apply IH.
Qed.

Lemma get_mutate k f m : get k (mutate k f m) = f <$> get k m.
Proof.
  induction m as [|[k' v'] r IH]; simpl; [done|].
  destruct (String.eqb k k') eqn:E; simpl; by rewrite E.
Qed.

Lemma get_mutate_ne k k' f m : k <> k' -> get k' (mutate k f m) = get k' m.
Proof.
  intros Hne. induction m as [|[k0 v0] r IH]; simpl; [done|].
  destruct (String.eqb_spec k k0) as [->|]; simpl.
  - by destruct (String.eqb_spec k' k0).
  - by rewrite IH.
Qed.

Lemma get_app k m m' :
  get k (m ++ m') = match get k m with Some v => Some v | None => get k m' end.
Proof.
  induction m as [|[k0 v0] r IH]; simpl; [done|].
  by destruct (String.eqb k k0).
Qed.

Lemma get_ensure k d m : get k (ensure k d m) = Some (default d (get k m)).
Proof.
  unfold ensure. destruct (has k m) eqn:E.
  - apply has_true in E as [v ->]. done.
  - apply has_false in E. rewrite set_absent, get_app, E by done.
    simpl. by rewrite String.eqb_refl.
Qed.

Lemma get_ensure_ne k k' d m : k <> k' -> get k' (ensure k d m) = get k' m.
Proof.
  intros Hne. unfold ensure. destruct (has k m) eqn:E; [done|].
  apply has_false in E. rewrite set_absent, get_app by done.
  destruct (get k' m); [done|]. simpl.
  by destruct (String.eqb_spec k' k).
Qed.

Lemma get_set k v m : get k (set k v m) = Some v.
Proof.
  induction m as [|[k' v'] r IH]; simpl; [by rewrite String.eqb_refl|].
  destruct (String.eqb k k') eqn:E; simpl; by rewrite E.
Qed.

Lemma get_set_ne k k' v m : k <> k' -> get k' (set k v m) = get k' m.
Proof.
  intros Hne. induction m as [|[k0 v0] r IH]; simpl.
  - by destruct (String.eqb_spec k' k).
  - destruct (String.eqb_spec k k0) as [->|]; simpl.
    + by destruct (String.eqb_spec k' k0).
    + by rewrite IH.
Qed.

Lemma NoDup_keys_set k v m : NoDup (keys m) -> NoDup (keys (set k v m)).
Proof.
  intros Hnd. destruct (get k m) eqn:E.
  - by rewrite keys_set_present.
  - rewrite set_absent by done. apply get_None_keys in E. unfold keys in *.
    rewrite fmap_app. apply NoDup_app. split_and!; [done| |apply NoDup_singleton].
    by intros x Hx ->%list_elem_of_singleton.
Qed.

Lemma NoDup_keys_mutate_ensure k d f m :
  NoDup (keys m) -> NoDup (keys (mutate k f (ensure k d m))).
Proof.
  intros Hnd. rewrite mutate_ensure. destruct (has k m) eqn:E.
  - by rewrite keys_mutate.
  - apply has_false, get_None_keys in E. unfold keys in *.
    rewrite fmap_app. apply NoDup_app. split_and!; [done| |].
    + intros x Hx ->%list_elem_of_singleton. done.
    + simpl. apply NoDup_singleton.
Qed.

(** What holds of every binding survives the idiom when [f] keeps it. *)
Lemma Forall_mutate_ensure (P : string * V -> Prop) k d f m :
  Forall P m ->
  (forall v, (k, v) ∈ m -> P (k, f v)) ->
  P (k, f d) ->
  Forall P (mutate k f (ensure k d m)).
Proof.
  intros Hm Hf Hd. rewrite mutate_ensure. destruct (has k m).
  - clear Hd. induction m as [|[k' v'] r IH]; simpl; [done|].
    apply Forall_cons in Hm as [Hh Ht].
    destruct (String.eqb_spec k k') as [->|Hne].
    + constructor; [|done]. apply Hf. by left.
    + constructor; [done|]. apply IH; [done|].
      intros v Hv. apply Hf. by right.
  - apply Forall_app. split; [done|]. by constructor.
Qed.

Lemma set_get_id k v m : get k m = Some v -> set k v m = m.
Proof.
  induction m as [|[k' v'] r IH]; simpl; [done|].
  destruct (String.eqb_spec k k') as [->|]; [by intros [= ->]|].
  intros H. by rewrite IH.
Qed.

Lemma mutate_set k f v m : get k m = Some v -> mutate k f m = set k (f v) m.
Proof.
  induction m as [|[k' v'] r IH]; simpl; [done|].
  destruct (String.eqb_spec k k') as [->|]; [by intros [= ->]|].
  intros H. by rewrite IH.
Qed.

Lemma NoDup_keys_ensure k d m : NoDup (keys m) -> NoDup (keys (ensure k d m)).
Proof.
  intros Hnd. unfold ensure. destruct (has k m); [done|]. by apply NoDup_keys_set.
Qed.

Lemma elem_of_set k v m e : e ∈ set k v m -> e ∈ m \/ e = (k, v).
Proof.
  induction m as [|[k' v'] r IH]; simpl.
  - intros ->%list_elem_of_singleton. by right.
  - destruct (String.eqb_spec k k') as [->|].
    + intros [->|H]%elem_of_cons; [by right|left; by right].
    + intros [->|H]%elem_of_cons; [left; by left|].
      destruct (IH H) as [?|?]; [left; by right|by right].
Qed.

End MapFacts.

(** With distinct keys a binding of the map is what [get] returns. *)
Lemma elem_get {V : Type} k (v : V) (m : JsMap.t V) :
  NoDup (keys m) -> (k, v) ∈ m -> get k m = Some v.
Proof.
  induction m as [|[k0 v0] m IH]; intros Hnd Hin; [by apply elem_of_nil in Hin|].
  unfold keys in Hnd. rewrite fmap_cons in Hnd. apply NoDup_cons in Hnd as [Hk0 Hnd].
  simpl. apply elem_of_cons in Hin as [[= -> ->]|Hin].
  - by rewrite String.eqb_refl.
  - destruct (String.eqb_spec k k0) as [->|_]; [|by apply IH].
    destruct Hk0. apply list_elem_of_fmap. by exists (k0, v).
Qed.

Lemma keys_ensure {V : Type} k (d : V) (m : JsMap.t V) :
  keys (ensure k d m) = if has k m then keys m else keys m ++ [k].
Proof.
  unfold ensure. destruct (has k m) eqn:E; [done|].
  apply has_false in E. rewrite set_absent by done. unfold keys.
  by rewrite fmap_app.
Qed.

Section MapValues.
Context {V W : Type}.
Implicit Types (m : JsMap.t V) (k : string) (f : V -> W).

Lemma get_mapValues f k m : get k (mapValues f m) = f <$> get k m.
Proof.
  induction m as [|[k' v'] r IH]; simpl; [done|].
  by destruct (String.eqb k k').
Qed.

Lemma has_mapValues f k m : has k (mapValues f m) = has k m.
Proof. unfold has. rewrite get_mapValues. by destruct (get k m). Qed.

Lemma set_mapValues f k v m : set k (f v) (mapValues f m) = mapValues f (set k v m).
Proof.
  induction m as [|[k' v'] r IH]; simpl; [done|].
  destruct (String.eqb k k'); [done|]. unfold mapValues in *. simpl. by rewrite IH.
Qed.

Lemma ensure_mapValues f k d m :
  ensure k (f d) (mapValues f m) = mapValues f (ensure k d m).
Proof.
  unfold ensure. rewrite has_mapValues. destruct (has k m); [done|].
  apply set_mapValues.
Qed.

Lemma keys_mapValues f m : keys (mapValues f m) = keys m.
Proof.
  unfold keys, mapValues. rewrite <- list_fmap_compose. by apply list_fmap_ext.
Qed.

Lemma size_mapValues f m : JsMap.size (mapValues f m) = JsMap.size m.
Proof. unfold JsMap.size, mapValues. by rewrite length_fmap. Qed.

Lemma mapValues_ext f f' m :
  (forall e, e ∈ m -> f e.2 = f' e.2) -> mapValues f m = mapValues f' m.
Proof.
  intros H. unfold mapValues. induction m as [|e r IH]; [done|].
  rewrite !fmap_cons, (H e) by (by left). f_equal. apply IH.
  intros e' He'. apply H. by right.
Qed.

(** Setting [k] hides what the two readings make of its binding. *)
Lemma set_mapValues_agree f f' k (x : W) m :
  NoDup (keys m) ->
  (forall e, e ∈ m -> e.1 <> k -> f e.2 = f' e.2) ->
  set k x (mapValues f m) = set k x (mapValues f' m).
Proof.
  intros Hnd H. induction m as [|[k' v'] r IH]; simpl; [done|].
  unfold keys in Hnd. rewrite fmap_cons in Hnd. apply NoDup_cons in Hnd as [Hk Hnd].
  destruct (String.eqb_spec k k') as [->|Hne].
  - f_equal. apply mapValues_ext. intros e He. apply H; [by right|].
    intros Heq. apply Hk. simpl. rewrite <- Heq.
    apply list_elem_of_fmap. by exists e.
  - assert (Hv : f v' = f' v').
    { apply (H (k', v')); [by left|simpl; congruence]. }
    rewrite Hv. f_equal.
    apply IH; [done|]. intros e He. apply H. by right.
Qed.

End MapValues.
End JsMapFacts.

(** * compareTraders.ts: the matcher *)

Module CompareTradersFacts.
Import JsArray JsMap JsArrayFacts JsMapFacts CompareTraders.

Lemma byTimestamp_consistent : consistent byTimestamp.
Proof. split; unfold byTimestamp; intros; lia. Qed.

(** ** The grouping pass *)

Lemma mutate_ensure_nonempty {V : Type} k (d : V) f (m : JsMap.t V) :
  mutate k f (ensure k d m) <> [].
Proof.
  rewrite mutate_ensure. destruct (has k m) eqn:E.
  - apply has_true in E as [v Hv]. destruct m as [|[k' v'] r]; [done|].
    simpl. by destruct (String.eqb k k').
  - by destruct m.
Qed.

Lemma groupTrade_ok addr g trade : groupsOk g -> groupsOk (groupTrade addr g trade).
Proof.
  intros [Hnd Hall]. unfold groupTrade. split.
  - by apply NoDup_keys_mutate_ensure.
  - assert (Hstep : forall tm, (tm = [] \/ traderMapOk tm) ->
      traderMapOk (mutate addr (fun arr => arr ++ [trade]) (ensure addr [] tm))).
    { intros tm Htm. split_and!.
      - apply NoDup_keys_mutate_ensure.
        destruct Htm as [->|[? _]]; [constructor|done].
      - apply mutate_ensure_nonempty.
      - apply Forall_mutate_ensure.
        + destruct Htm as [->|(_ & _ & ?)]; [constructor|done].
        + intros v _. simpl. by destruct v.
        + done. }
    apply Forall_mutate_ensure.
    + done.
    + intros tm Htm. apply Hstep. right.
      rewrite Forall_forall in Hall. by apply (Hall _ Htm).
    + apply (Hstep []). by left.
Qed.

Lemma groupTrader_ok g tr : groupsOk g -> groupsOk (groupTrader g tr).
Proof.
  unfold groupTrader. generalize (trades tr) as l. intros l. revert g.
  induction l as [|x l IH]; intros g Hg; simpl; [done|].
  by apply IH, groupTrade_ok.
Qed.

Lemma groupTrades_ok traderData : groupsOk (groupTrades traderData).
Proof.
  unfold groupTrades.
  assert (H0 : groupsOk []) by (split; constructor).
  revert H0. generalize (@nil (string * JsMap.t (list Trade))) as g.
  induction traderData as [|tr l IH]; intros g Hg; simpl; [done|].
  by apply IH, groupTrader_ok.
Qed.

(** ** What the grouping pass holds, in terms of [traderData] *)

Lemma groupTrade_arrayAt cid addr a g trade :
  arrayAt cid addr (groupTrade a g trade)
  = arrayAt cid addr g
    ++ (if String.eqb (conditionId trade) cid && String.eqb a addr
        then [trade] else []).
Proof.
  unfold arrayAt, groupTrade.
  destruct (String.eqb_spec (conditionId trade) cid) as [<-|Hc]; simpl.
  - rewrite get_mutate, get_ensure. simpl.
    destruct (String.eqb_spec a addr) as [<-|Ha].
    + rewrite get_mutate, get_ensure. simpl.
      by destruct (get (conditionId trade) g) as [tm|]; simpl;
        [destruct (get a tm)|].
    + rewrite get_mutate_ne, get_ensure_ne, app_nil_r by done.
      by destruct (get (conditionId trade) g).
  - by rewrite get_mutate_ne, get_ensure_ne, app_nil_r.
Qed.

Lemma groupTrader_arrayAt cid addr g tr :
  arrayAt cid addr (groupTrader g tr)
  = arrayAt cid addr g
    ++ (if String.eqb (address tr) addr
        then List.filter (fun t => String.eqb (conditionId t) cid) (trades tr)
        else []).
Proof.
  unfold groupTrader. generalize (trades tr) as l. intros l. revert g.
  induction l as [|t l IH]; intros g; simpl.
  - by destruct (String.eqb (address tr) addr); rewrite app_nil_r.
  - rewrite IH, groupTrade_arrayAt, <- app_assoc. f_equal.
    by destruct (String.eqb (conditionId t) cid), (String.eqb (address tr) addr).
Qed.

(** The array that the grouping pass holds under a condition and an
    address is made of the trades of the condition supplied under the
    address. *)
Lemma groupTrades_arrayAt cid addr traderData :
  arrayAt cid addr (groupTrades traderData) = tradesIn cid addr traderData.
Proof.
  unfold groupTrades, tradesIn.
  assert (H : forall g,
    arrayAt cid addr (foldl groupTrader g traderData)
    = arrayAt cid addr g
      ++ (traderData ≫= fun tr =>
            if String.eqb (address tr) addr
            then List.filter (fun t => String.eqb (conditionId t) cid) (trades tr)
            else [])).
  { induction traderData as [|tr l IH]; intros g; simpl.
    - by rewrite app_nil_r.
    - by rewrite IH, groupTrader_arrayAt, app_assoc. }
  by rewrite H.
Qed.

Lemma groupTrades_get cid (traderMap : JsMap.t (list Trade)) traderData :
  (cid, traderMap) ∈ groupTrades traderData <->
  get cid (groupTrades traderData) = Some traderMap.
Proof.
  split; [|apply get_Some_elem].
  apply elem_get. apply groupTrades_ok.
Qed.

(** The array of a participant of a condition. *)
Lemma groupTrades_array cid (traderMap : JsMap.t (list Trade)) addr arr traderData :
  (cid, traderMap) ∈ groupTrades traderData -> (addr, arr) ∈ traderMap ->
  arr = tradesIn cid addr traderData /\ arr <> [].
Proof.
  intros He Ha. destruct (groupTrades_ok traderData) as [_ Hall].
  rewrite Forall_forall in Hall. destruct (Hall _ He) as (Hnd & _ & Harr).
  simpl in *. rewrite Forall_forall in Harr. split; [|by apply (Harr _ Ha)].
  rewrite <- groupTrades_arrayAt. unfold arrayAt.
  apply groupTrades_get in He. rewrite He. simpl.
  by rewrite (elem_get _ _ _ Hnd Ha).
Qed.

(** An address with a trade of the condition is a participant of it. *)
Lemma groupTrades_participant cid addr traderData :
  tradesIn cid addr traderData <> [] ->
  exists traderMap : JsMap.t (list Trade),
    (cid, traderMap) ∈ groupTrades traderData /\
    (addr, tradesIn cid addr traderData) ∈ traderMap.
Proof.
  rewrite <- groupTrades_arrayAt. unfold arrayAt. intros Hne.
  destruct (get cid (groupTrades traderData)) as [tm|] eqn:E; [|done].
  simpl in *. destruct (get addr tm) as [arr|] eqn:Ea; [|done]. simpl in *.
  exists tm. split; [by apply groupTrades_get|by apply get_Some_elem].
Qed.

Lemma groupTrades_participants cid (traderMap : JsMap.t (list Trade)) addr
    traderData :
  (cid, traderMap) ∈ groupTrades traderData ->
  addr ∈ keys traderMap <-> tradesIn cid addr traderData <> [].
Proof.
  intros He. split.
  - intros [arr Harr]%get_is_Some_keys. apply get_Some_elem in Harr.
    by destruct (groupTrades_array _ _ _ _ _ He Harr) as [<- ?].
  - intros Hne. destruct (groupTrades_participant _ _ _ Hne) as (tm & He' & Ha).
    apply groupTrades_get in He, He'. assert (tm = traderMap) as -> by congruence.
    unfold keys. apply list_elem_of_fmap. by eexists (_, _).
Qed.

(** *** The order of the participants *)

Lemma addOnce_idem ks a : addOnce (addOnce ks a) a = addOnce ks a.
Proof.
  unfold addOnce. destruct (decide (a ∈ ks)) as [H|H].
  - by rewrite !(bool_decide_true (a ∈ ks)) by done.
  - rewrite (bool_decide_false (a ∈ ks)) by done.
    rewrite bool_decide_true; [done|]. apply elem_of_app. right. by left.
Qed.

Lemma groupTrade_keysAt cid a g trade :
  keysAt cid (groupTrade a g trade)
  = if String.eqb (conditionId trade) cid then addOnce (keysAt cid g) a
    else keysAt cid g.
Proof.
  unfold keysAt, groupTrade.
  destruct (String.eqb_spec (conditionId trade) cid) as [<-|Hc].
  - rewrite get_mutate, get_ensure. simpl. rewrite keys_mutate, keys_ensure.
    unfold addOnce.
    assert (Hk : forall tm : JsMap.t (list Trade),
              has a tm = bool_decide (a ∈ keys tm)).
    { intros tm. case_bool_decide as H.
      - apply has_true. by apply get_is_Some_keys.
      - apply has_false. by apply get_None_keys. }
    rewrite Hk. by destruct (get (conditionId trade) g).
  - by rewrite get_mutate_ne, get_ensure_ne.
Qed.

Lemma groupTrader_keysAt cid g tr :
  keysAt cid (groupTrader g tr)
  = if touches cid tr then addOnce (keysAt cid g) (address tr) else keysAt cid g.
Proof.
  unfold groupTrader, touches. generalize (trades tr) as l. intros l. revert g.
  induction l as [|t l IH]; intros g; simpl; [done|].
  rewrite IH, groupTrade_keysAt.
  destruct (String.eqb (conditionId t) cid); simpl; [|done].
  rewrite addOnce_idem. by destruct (existsb _ l).
Qed.

Lemma groupTrades_snoc traderData tr :
  groupTrades (traderData ++ [tr]) = groupTrader (groupTrades traderData) tr.
Proof. unfold groupTrades. by rewrite foldl_app. Qed.

Lemma suppliedBefore_snoc cid a1 a2 traderData tr :
  suppliedBefore cid a1 a2 traderData ->
  suppliedBefore cid a1 a2 (traderData ++ [tr]).
Proof.
  intros (before & tr2 & after & -> & ? & ? & ? & ?).
  exists before, tr2, (after ++ [tr]). split_and!; try done.
  by rewrite <- app_assoc.
Qed.

(** The addresses grouped under a condition are those of the elements
    with a trade of the condition, each at the place of its first such
    element. *)
Lemma groupTrades_keysAt cid traderData :
  (forall a, a ∈ keysAt cid (groupTrades traderData) <->
     exists tr, tr ∈ traderData /\ address tr = a /\ touches cid tr = true) /\
  (forall i j a1 a2,
     (i < j)%nat ->
     keysAt cid (groupTrades traderData) !! i = Some a1 ->
     keysAt cid (groupTrades traderData) !! j = Some a2 ->
     suppliedBefore cid a1 a2 traderData).
Proof.
  induction traderData as [|tr l [IHin IHord]] using rev_ind.
  - split.
    + intros a. split; [by intros ?%not_elem_of_nil|].
      by intros (tr & ?%not_elem_of_nil & _).
    + by intros i j a1 a2 _ ?.
  - rewrite groupTrades_snoc, groupTrader_keysAt.
    set (ks := keysAt cid (groupTrades l)) in *.
    assert (Hold : forall a,
              (exists tr', tr' ∈ l ++ [tr] /\ address tr' = a /\
                           touches cid tr' = true) <->
              a ∈ ks \/ (address tr = a /\ touches cid tr = true)).
    { intros a. rewrite IHin. split.
      - intros (tr' & [Hin|Hin%list_elem_of_singleton]%elem_of_app & Ha & Ht).
        + left. by exists tr'.
        + subst tr'. by right.
      - intros [(tr' & Hin & Ha & Ht)|[Ha Ht]].
        + exists tr'. split_and!; [|done..]. apply elem_of_app. by left.
        + exists tr. split_and!; [|done..]. apply elem_of_app. right. by left. }
    destruct (touches cid tr) eqn:Et.
    2: { split.
         - intros a. rewrite Hold. split; [by left|]. by intros [?|[_ ?]].
         - intros i j a1 a2 Hij Hi Hj. apply suppliedBefore_snoc.
           by apply (IHord i j). }
    unfold addOnce. case_bool_decide as Hk.
    + split.
      * intros a. rewrite Hold. split; [by left|].
        intros [?|[<- _]]; done.
      * intros i j a1 a2 Hij Hi Hj. apply suppliedBefore_snoc.
        by apply (IHord i j).
    + split.
      * intros a. rewrite Hold, elem_of_app, list_elem_of_singleton.
        split; (intros [?|?]; [by left|right]); [by subst|by destruct H].
      * intros i j a1 a2 Hij Hi Hj.
        destruct (decide (j < length ks)%nat) as [Hj'|Hj'].
        { rewrite lookup_app_l in Hj by done.
          rewrite lookup_app_l in Hi by lia.
          apply suppliedBefore_snoc. by apply (IHord i j). }
        rewrite lookup_app_r in Hj by lia.
        destruct (j - length ks)%nat as [|n] eqn:En; [|by destruct n].
        injection Hj as <-.
        assert (Hi' : ks !! i = Some a1) by (rewrite lookup_app_l in Hi; [done|lia]).
        exists l, tr, []. split_and!; try done.
        -- apply Forall_forall. intros tr' Hin Ha.
           destruct (touches cid tr') eqn:Et'; [|done]. destruct Hk.
           apply IHin. by exists tr'.
        -- apply Exists_exists.
           assert (Ha1 : a1 ∈ ks) by (apply list_elem_of_lookup; by exists i).
           apply IHin in Ha1 as (tr' & Hin & Ha & Ht). by exists tr'.
Qed.

Lemma groupTrades_keys cid (traderMap : JsMap.t (list Trade)) traderData :
  (cid, traderMap) ∈ groupTrades traderData ->
  keysAt cid (groupTrades traderData) = keys traderMap.
Proof. intros He%groupTrades_get. unfold keysAt. by rewrite He. Qed.

(** ** First trades of a condition *)

Lemma firstTradeEntry_Some b t : firstTradeEntry b = Some t -> firstOf b t.
Proof.
  unfold firstTradeEntry. destruct (head _) as [x|] eqn:E; [|done].
  simpl. intros [= <-]. apply (sort_head_least _ byTimestamp_consistent) in E.
  destruct E as [Hin Hle]. repeat split; simpl; [done|].
  eapply Forall_impl; [exact Hle|]. unfold byTimestamp. intros; simpl in *; lia.
Qed.

Lemma firstTradeEntry_is_Some b : b.2 <> [] -> is_Some (firstTradeEntry b).
Proof.
  intros Hne. unfold firstTradeEntry.
  destruct (sort_head_is_Some byTimestamp b.2 Hne) as [x ->]. by eexists.
Qed.

Lemma allTraderTrades_is_Some (traderMap : JsMap.t (list Trade)) :
  Forall (fun b => b.2 <> []) traderMap ->
  is_Some (mapM firstTradeEntry traderMap).
Proof.
  intros H. apply mapM_is_Some. eapply Forall_impl; [exact H|].
  intros b. apply firstTradeEntry_is_Some.
Qed.

Lemma allTraderTrades_firstOf (traderMap : JsMap.t (list Trade)) firsts :
  mapM firstTradeEntry traderMap = Some firsts ->
  Forall2 firstOf traderMap firsts.
Proof.
  intros H. apply mapM_Some in H. eapply Forall2_impl; [exact H|].
  intros b t. apply firstTradeEntry_Some.
Qed.

Lemma allTraderTrades_addresses (traderMap : JsMap.t (list Trade)) firsts :
  mapM firstTradeEntry traderMap = Some firsts ->
  tf_address <$> firsts = keys traderMap.
Proof.
  intros H. apply allTraderTrades_firstOf in H. unfold keys.
  induction H as [|b t m l [Hb _] _ IH]; [done|].
  rewrite !fmap_cons. by f_equal.
Qed.

(** ** The pair loop *)

Section Window.
Variable TIME_WINDOW_HOURS : Z.

Abbreviation window := (TIME_WINDOW_HOURS * 3600).

Lemma elem_of_timeDiff t1 t2 d :
  d ∈ timeDiff TIME_WINDOW_HOURS t1 t2 <->
  Z.abs (tf_timestamp t2 - tf_timestamp t1) <= window /\
  d = {| trader1 := tf_address t1;
         trader2 := tf_address t2;
         diffSeconds := tf_timestamp t2 - tf_timestamp t1;
         leader := if tf_timestamp t2 - tf_timestamp t1 <=? 0
                   then tf_address t2 else tf_address t1 |}.
Proof.
  unfold timeDiff, timeWindowSeconds. simpl.
  destruct (Z.leb_spec (Z.abs (tf_timestamp t2 - tf_timestamp t1)) window).
  - rewrite list_elem_of_singleton. split; [by intros ->|by intros [_ ->]].
  - split; [by intros ?%not_elem_of_nil|]. intros [? _]. lia.
Qed.

Lemma elem_of_pairDiffs (l : list TraderFirst) d :
  d ∈ pairDiffs TIME_WINDOW_HOURS l <->
  exists i j t1 t2, (i < j)%nat /\ l !! i = Some t1 /\ l !! j = Some t2 /\
    d ∈ timeDiff TIME_WINDOW_HOURS t1 t2.
Proof.
  induction l as [|t r IH]; simpl.
  - split; [by intros ?%not_elem_of_nil|]. by intros (i & j & t1 & t2 & _ & ? & _).
  - rewrite elem_of_app, IH, list_elem_of_In, in_flat_map. split.
    + intros [(t2 & Hin & Hd)|(i & j & t1 & t2 & Hij & Hi & Hj & Hd)].
      * apply list_elem_of_In, list_elem_of_lookup in Hin as [j Hj].
        exists 0%nat, (S j), t, t2. rewrite <- list_elem_of_In in Hd.
        split_and!; [lia|done..].
      * exists (S i), (S j), t1, t2. split_and!; [lia|done..].
    + intros (i & j & t1 & t2 & Hij & Hi & Hj & Hd).
      destruct j as [|j]; [lia|]. destruct i as [|i]; simpl in *.
      * injection Hi as ->. left. exists t2. rewrite <- !list_elem_of_In.
        split; [|done]. apply list_elem_of_lookup. by exists j.
      * right. exists i, j, t1, t2. split_and!; [lia|done..].
Qed.

(** With distinct addresses a gap record names its pair. *)
Lemma pairDiffs_pair (l : list TraderFirst) i j t1 t2 :
  NoDup (tf_address <$> l) ->
  (i < j)%nat -> l !! i = Some t1 -> l !! j = Some t2 ->
  (exists d, d ∈ pairDiffs TIME_WINDOW_HOURS l /\
     trader1 d = tf_address t1 /\ trader2 d = tf_address t2) <->
  Z.abs (tf_timestamp t2 - tf_timestamp t1) <= window.
Proof.
  intros Hnd Hij Hi Hj. split.
  - intros (d & Hd & H1 & H2).
    apply elem_of_pairDiffs in Hd as (i' & j' & t1' & t2' & _ & Hi' & Hj' & Hd).
    apply elem_of_timeDiff in Hd as [Hw ->]. simpl in *.
    assert (i' = i) as ->.
    { eapply NoDup_lookup; [exact Hnd| |];
        rewrite list_lookup_fmap; [rewrite Hi'|rewrite Hi]; simpl; by f_equal. }
    assert (j' = j) as ->.
    { eapply NoDup_lookup; [exact Hnd| |];
        rewrite list_lookup_fmap; [rewrite Hj'|rewrite Hj]; simpl; by f_equal. }
    congruence.
  - intros Hw. eexists. split.
    + apply elem_of_pairDiffs. exists i, j, t1, t2.
      split_and!; [done..|]. apply elem_of_timeDiff. by split.
    + done.
Qed.

Lemma pairDiffs_nonempty (l : list TraderFirst) :
  pairDiffs TIME_WINDOW_HOURS l <> [] <->
  exists i j t1 t2, (i < j)%nat /\ l !! i = Some t1 /\ l !! j = Some t2 /\
    Z.abs (tf_timestamp t2 - tf_timestamp t1) <= window.
Proof.
  split.
  - intros Hne. destruct (pairDiffs _ l) as [|d ds] eqn:E; [done|].
    assert (Hd : d ∈ pairDiffs TIME_WINDOW_HOURS l) by (rewrite E; by left).
    apply elem_of_pairDiffs in Hd as (i & j & t1 & t2 & ? & ? & ? & Hd).
    apply elem_of_timeDiff in Hd as [? _]. by exists i, j, t1, t2.
  - intros (i & j & t1 & t2 & ? & ? & ? & Hw) E.
    assert (Hd : exists d, d ∈ pairDiffs TIME_WINDOW_HOURS l).
    { eexists. apply elem_of_pairDiffs. exists i, j, t1, t2.
      split_and!; [done..|]. apply elem_of_timeDiff. by split. }
    destruct Hd as [d Hd]. rewrite E in Hd. by apply not_elem_of_nil in Hd.
Qed.

(** ** One condition *)

Lemma matchCondition_small cid (traderMap : JsMap.t (list Trade)) :
  JsMap.size traderMap < 2 ->
  matchCondition TIME_WINDOW_HOURS (cid, traderMap) = Some [].
Proof.
  intros H. unfold matchCondition.
  by destruct (Z.ltb_spec (JsMap.size traderMap) 2); [|lia].
Qed.

Lemma matchCondition_big cid (traderMap : JsMap.t (list Trade)) firsts :
  2 <= JsMap.size traderMap -> traderMapOk traderMap ->
  mapM firstTradeEntry traderMap = Some firsts ->
  exists firstTrade,
    matchCondition TIME_WINDOW_HOURS (cid, traderMap)
    = Some (if 0 <? Z.of_nat (length (pairDiffs TIME_WINDOW_HOURS firsts))
            then [ {| m_conditionId := cid;
                      m_market := market firstTrade;
                      m_outcome := outcome firstTrade;
                      traderTrades := firsts;
                      timeDiffs := pairDiffs TIME_WINDOW_HOURS firsts |} ]
            else []).
Proof.
  intros Hsz (_ & Hne & Harr) Hm. unfold matchCondition.
  destruct (Z.ltb_spec (JsMap.size traderMap) 2); [lia|].
  assert (exists a0 arr0 x, head (keys traderMap) = Some a0 /\
            get a0 traderMap = Some arr0 /\ head arr0 = Some x)
    as (a0 & arr0 & x & -> & Hg & Hx).
  { destruct traderMap as [|[a0 arr0] r]; [done|].
    apply Forall_cons in Harr as [Harr0 _]. simpl in Harr0.
    destruct arr0 as [|x arr0]; [done|].
    exists a0, (x :: arr0), x. simpl. by rewrite String.eqb_refl. }
  exists x. simpl. rewrite Hg. simpl. rewrite Hx. simpl. by rewrite Hm.
Qed.

Lemma matchCondition_is_Some cid (traderMap : JsMap.t (list Trade)) :
  traderMapOk traderMap ->
  is_Some (matchCondition TIME_WINDOW_HOURS (cid, traderMap)).
Proof.
  intros Hok. destruct (Z.lt_ge_cases (JsMap.size traderMap) 2) as [Hlt|Hge].
  - rewrite matchCondition_small by done. by eexists.
  - destruct (allTraderTrades_is_Some traderMap) as [firsts Hf]; [apply Hok|].
    destruct (matchCondition_big cid traderMap firsts Hge Hok Hf) as [ft ->].
    by eexists.
Qed.

(** ** The whole matcher *)

Lemma mostRecentFirst_consistent : consistent mostRecentFirst.
Proof.
  split; unfold mostRecentFirst; intros a b; [|intros c];
    destruct (earliest a), (earliest b); try destruct (earliest c); lia.
Qed.

Lemma findMatchingTrades_is_Some traderData :
  is_Some (findMatchingTrades TIME_WINDOW_HOURS traderData).
Proof.
  unfold findMatchingTrades.
  destruct (mapM (matchCondition TIME_WINDOW_HOURS) (groupTrades traderData))
    as [outs|] eqn:E; [by eexists|].
  assert (H : is_Some (mapM (matchCondition TIME_WINDOW_HOURS)
                         (groupTrades traderData))).
  { apply mapM_is_Some. destruct (groupTrades_ok traderData) as [_ Hall].
    eapply Forall_impl; [exact Hall|]. intros [cid tm] Hok.
    by apply matchCondition_is_Some. }
  rewrite E in H. by destruct H.
Qed.

(** A record is returned exactly when some iteration pushed it. *)
Lemma findMatchingTrades_elem traderData matched m :
  findMatchingTrades TIME_WINDOW_HOURS traderData = Some matched ->
  m ∈ matched <->
  exists e out, e ∈ groupTrades traderData /\
    matchCondition TIME_WINDOW_HOURS e = Some out /\ m ∈ out.
Proof.
  unfold findMatchingTrades.
  destruct (mapM _ (groupTrades traderData)) as [outs|] eqn:E; [|done].
  simpl. intros [= <-]. apply mapM_Some in E.
  rewrite elem_of_sort, list_elem_of_In, in_concat. split.
  - intros (out & Hout & Hm).
    apply list_elem_of_In, list_elem_of_lookup in Hout as [i Hi].
    destruct (Forall2_lookup_r _ _ _ _ _ E Hi) as (e & He & Hmc).
    exists e, out. split_and!; [|done|by apply list_elem_of_In].
    apply list_elem_of_lookup. by exists i.
  - intros (e & out & He & Hmc & Hm). apply list_elem_of_lookup in He as [i Hi].
    destruct (Forall2_lookup_l _ _ _ _ _ E Hi) as (out' & Hout & Hmc').
    assert (out' = out) as -> by congruence.
    exists out. rewrite <- !list_elem_of_In. split; [|done].
    apply list_elem_of_lookup. by exists i.
Qed.

(** The record of a condition, when it is returned, is the one built from
    the condition's trader map. *)
Lemma findMatchingTrades_of_condition traderData matched cid
    (traderMap : JsMap.t (list Trade)) firsts m :
  findMatchingTrades TIME_WINDOW_HOURS traderData = Some matched ->
  (cid, traderMap) ∈ groupTrades traderData ->
  mapM firstTradeEntry traderMap = Some firsts ->
  m ∈ matched -> m_conditionId m = cid ->
  traderTrades m = firsts /\ timeDiffs m = pairDiffs TIME_WINDOW_HOURS firsts /\
  2 <= JsMap.size traderMap /\ timeDiffs m <> [].
Proof.
  intros Hf He Hfirsts Hm Hcid.
  apply (findMatchingTrades_elem _ _ _ Hf) in Hm as ([cid' tm'] & out & He' & Hmc & Hm).
  destruct (groupTrades_ok traderData) as [Hnd Hall].
  rewrite Forall_forall in Hall. pose proof (Hall _ He') as Hok'. simpl in Hok'.
  destruct (Z.lt_ge_cases (JsMap.size tm') 2) as [Hlt|Hge].
  { rewrite matchCondition_small in Hmc by done. injection Hmc as <-.
    by apply not_elem_of_nil in Hm. }
  destruct (allTraderTrades_is_Some tm') as [firsts' Hf']; [apply Hok'|].
  destruct (matchCondition_big cid' tm' firsts' Hge Hok' Hf') as [ft Hmc'].
  rewrite Hmc' in Hmc. injection Hmc as <-.
  destruct (0 <? _) eqn:Epos; [|by apply not_elem_of_nil in Hm].
  apply list_elem_of_singleton in Hm as ->. simpl in Hcid. subst cid'.
  assert (tm' = traderMap) as ->.
  { apply list_elem_of_lookup in He as [i Hi], He' as [i' Hi'].
    assert (i' = i) as ->.
    { eapply NoDup_lookup; [exact Hnd| |]; unfold keys;
        rewrite list_lookup_fmap; [rewrite Hi'|rewrite Hi]; done. }
    congruence. }
  assert (firsts' = firsts) as -> by congruence.
  simpl. split_and!; [done..|].
  apply Z.ltb_lt in Epos. by destruct (pairDiffs _ firsts).
Qed.

Lemma findMatchingTrades_condition_present traderData matched cid
    (traderMap : JsMap.t (list Trade)) firsts :
  findMatchingTrades TIME_WINDOW_HOURS traderData = Some matched ->
  (cid, traderMap) ∈ groupTrades traderData ->
  2 <= JsMap.size traderMap ->
  mapM firstTradeEntry traderMap = Some firsts ->
  (exists m, m ∈ matched /\ m_conditionId m = cid) <->
  pairDiffs TIME_WINDOW_HOURS firsts <> [].
Proof.
  intros Hf He Hsz Hfirsts. split.
  - intros (m & Hm & Hcid).
    destruct (findMatchingTrades_of_condition _ _ _ _ _ _ Hf He Hfirsts Hm Hcid)
      as (_ & <- & _ & ?). done.
  - intros Hne. destruct (groupTrades_ok traderData) as [_ Hall].
    rewrite Forall_forall in Hall. pose proof (Hall _ He) as Hok. simpl in Hok.
    destruct (matchCondition_big cid traderMap firsts Hsz Hok Hfirsts) as [ft Hmc].
    destruct (pairDiffs _ firsts) as [|d ds] eqn:E; [done|].
    simpl in Hmc. eexists. split.
    + apply (findMatchingTrades_elem _ _ _ Hf). eexists _, _.
      split_and!; [exact He|exact Hmc|by left].
    + done.
Qed.

(** Every returned record was built from a condition that at least two
    traders touched. *)
Lemma findMatchingTrades_origin traderData matched m :
  findMatchingTrades TIME_WINDOW_HOURS traderData = Some matched ->
  m ∈ matched ->
  exists (traderMap : JsMap.t (list Trade)),
    (m_conditionId m, traderMap) ∈ groupTrades traderData /\
    2 <= JsMap.size traderMap /\
    mapM firstTradeEntry traderMap = Some (traderTrades m) /\
    timeDiffs m = pairDiffs TIME_WINDOW_HOURS (traderTrades m).
Proof.
  intros Hf Hm.
  apply (findMatchingTrades_elem _ _ _ Hf) in Hm as ([cid tm] & out & He & Hmc & Hm).
  destruct (groupTrades_ok traderData) as [_ Hall].
  rewrite Forall_forall in Hall. pose proof (Hall _ He) as Hok. simpl in Hok.
  destruct (Z.lt_ge_cases (JsMap.size tm) 2) as [Hlt|Hge].
  { rewrite matchCondition_small in Hmc by done. injection Hmc as <-.
    by apply not_elem_of_nil in Hm. }
  destruct (allTraderTrades_is_Some tm) as [firsts Hfirsts]; [apply Hok|].
  destruct (matchCondition_big cid tm firsts Hge Hok Hfirsts) as [ft Hmc'].
  rewrite Hmc' in Hmc. injection Hmc as <-.
  destruct (0 <? _); [|by apply not_elem_of_nil in Hm].
  apply list_elem_of_singleton in Hm as ->. by exists tm.
Qed.

Lemma findMatchingTrades_addresses traderData matched m :
  findMatchingTrades TIME_WINDOW_HOURS traderData = Some matched ->
  m ∈ matched -> NoDup (tf_address <$> traderTrades m) /\
                 (2 <= length (traderTrades m))%nat.
Proof.
  intros Hf Hm.
  destruct (findMatchingTrades_origin _ _ _ Hf Hm) as (tm & He & Hsz & Hfirsts & _).
  destruct (groupTrades_ok traderData) as [_ Hall].
  rewrite Forall_forall in Hall. destruct (Hall _ He) as (Hnd & _). simpl in Hnd.
  rewrite (allTraderTrades_addresses _ _ Hfirsts). split; [done|].
  apply mapM_Some, Forall2_length in Hfirsts. unfold JsMap.size in Hsz. lia.
Qed.

(** ** The records in terms of [traderData] *)

Lemma firstOf_firstTradeTime traderData cid (traderMap : JsMap.t (list Trade))
    b t :
  (cid, traderMap) ∈ groupTrades traderData -> b ∈ traderMap -> firstOf b t ->
  tf_address t = b.1 /\
  tf_trade t ∈ tradesIn cid (tf_address t) traderData /\
  firstTradeTime cid (tf_address t) traderData = Some (tf_timestamp t).
Proof.
  intros He Hb (Ha & Hts & Hin & Hle). destruct b as [addr arr]. simpl in *.
  destruct (groupTrades_array _ _ _ _ _ He Hb) as [-> _]. rewrite Ha.
  split_and!; [done..|]. unfold firstTradeTime. apply mathMin_least.
  - rewrite Hts. apply list_elem_of_fmap. by exists (tf_trade t).
  - apply Forall_fmap. eapply Forall_impl; [exact Hle|]. done.
Qed.

(** What a returned record was built from. *)
Lemma findMatchingTrades_record traderData matched m :
  findMatchingTrades TIME_WINDOW_HOURS traderData = Some matched ->
  m ∈ matched ->
  exists (traderMap : JsMap.t (list Trade)),
    (m_conditionId m, traderMap) ∈ groupTrades traderData /\
    2 <= JsMap.size traderMap /\
    mapM firstTradeEntry traderMap = Some (traderTrades m) /\
    tf_address <$> traderTrades m = keys traderMap /\
    NoDup (tf_address <$> traderTrades m) /\
    timeDiffs m = pairDiffs TIME_WINDOW_HOURS (traderTrades m) /\
    timeDiffs m <> [].
Proof.
  intros Hf Hm.
  destruct (findMatchingTrades_origin _ _ _ Hf Hm) as (tm & He & Hsz & Hfirsts & Hd).
  destruct (findMatchingTrades_addresses _ _ _ Hf Hm) as [Hnd _].
  destruct (findMatchingTrades_of_condition _ _ _ _ _ _ Hf He Hfirsts Hm eq_refl)
    as (_ & _ & _ & Hne).
  exists tm. split_and!; try done. by apply allTraderTrades_addresses.
Qed.

(** The first trade of a participant of a returned record is the
    earliest of the trades of the condition supplied under its address. *)
Lemma participant_first traderData matched m t :
  findMatchingTrades TIME_WINDOW_HOURS traderData = Some matched ->
  m ∈ matched -> t ∈ traderTrades m ->
  tf_trade t ∈ tradesIn (m_conditionId m) (tf_address t) traderData /\
  firstTradeTime (m_conditionId m) (tf_address t) traderData
  = Some (tf_timestamp t).
Proof.
  intros Hf Hm [i Hi]%list_elem_of_lookup.
  destruct (findMatchingTrades_record _ _ _ Hf Hm) as (tm & He & _ & Hfirsts & _).
  apply allTraderTrades_firstOf in Hfirsts.
  destruct (Forall2_lookup_r _ _ _ _ _ Hfirsts Hi) as (b & Hb & Hof).
  assert (Hin : b ∈ tm) by (apply list_elem_of_lookup; by exists i).
  by destruct (firstOf_firstTradeTime _ _ _ _ _ He Hin Hof) as (_ & ? & ?).
Qed.

Lemma firstTradeTime_Some cid addr traderData ts :
  firstTradeTime cid addr traderData = Some ts ->
  tradesIn cid addr traderData <> [].
Proof. unfold firstTradeTime. intros H E. by rewrite E in H. Qed.

Lemma participants_addresses traderData matched m addr :
  findMatchingTrades TIME_WINDOW_HOURS traderData = Some matched ->
  m ∈ matched ->
  addr ∈ tf_address <$> traderTrades m <->
  tradesIn (m_conditionId m) addr traderData <> [].
Proof.
  intros Hf Hm.
  destruct (findMatchingTrades_record _ _ _ Hf Hm) as (tm & He & _ & _ & -> & _).
  by apply groupTrades_participants.
Qed.

(** The participant of a returned record at an address. *)
Lemma participant_at traderData matched m addr ts :
  findMatchingTrades TIME_WINDOW_HOURS traderData = Some matched ->
  m ∈ matched ->
  firstTradeTime (m_conditionId m) addr traderData = Some ts ->
  exists i t, traderTrades m !! i = Some t /\ tf_address t = addr /\
              tf_timestamp t = ts.
Proof.
  intros Hf Hm Hts. pose proof (firstTradeTime_Some _ _ _ _ Hts) as Hne.
  apply (participants_addresses _ _ _ _ Hf Hm) in Hne.
  apply list_elem_of_fmap in Hne as (t & -> & [i Hi]%list_elem_of_lookup).
  exists i, t. split_and!; [done..|].
  destruct (participant_first _ _ m t Hf Hm) as [_ H];
    [apply list_elem_of_lookup; by exists i|].
  congruence.
Qed.

(** A gap record names its pair in the order of the participants. *)
Lemma pairDiffs_order (l : list TraderFirst) d i j t1 t2 :
  NoDup (tf_address <$> l) -> d ∈ pairDiffs TIME_WINDOW_HOURS l ->
  l !! i = Some t1 -> l !! j = Some t2 ->
  trader1 d = tf_address t1 -> trader2 d = tf_address t2 -> (i < j)%nat.
Proof.
  intros Hnd Hd Hi Hj H1 H2.
  apply elem_of_pairDiffs in Hd as (i' & j' & t1' & t2' & Hij & Hi' & Hj' & Hd).
  apply elem_of_timeDiff in Hd as [_ ->]. simpl in *.
  assert (i' = i) as ->.
  { eapply NoDup_lookup; [exact Hnd| |];
      rewrite list_lookup_fmap; [rewrite Hi'|rewrite Hi]; simpl; by f_equal. }
  assert (j' = j) as ->.
  { eapply NoDup_lookup; [exact Hnd| |];
      rewrite list_lookup_fmap; [rewrite Hj'|rewrite Hj]; simpl; by f_equal. }
  done.
Qed.

(** Two participants have a gap record, in one order or the other, exactly
    when their first trades are within the window. *)
Lemma pairDiffs_unordered (l : list TraderFirst) i j t1 t2 :
  NoDup (tf_address <$> l) -> i <> j -> l !! i = Some t1 -> l !! j = Some t2 ->
  (exists d, d ∈ pairDiffs TIME_WINDOW_HOURS l /\
     ((trader1 d = tf_address t1 /\ trader2 d = tf_address t2) \/
      (trader1 d = tf_address t2 /\ trader2 d = tf_address t1))) <->
  Z.abs (tf_timestamp t2 - tf_timestamp t1) <= window.
Proof.
  intros Hnd Hij Hi Hj.
  destruct (decide (i < j)%nat) as [Hlt|Hge].
  - rewrite <- (pairDiffs_pair l i j t1 t2 Hnd Hlt Hi Hj). split.
    + intros (d & Hd & [[H1 H2]|[H1 H2]]); [by exists d|].
      pose proof (pairDiffs_order l d j i t2 t1 Hnd Hd Hj Hi H1 H2). lia.
    + intros (d & Hd & H1 & H2). exists d. split; [done|by left].
  - assert (Hlt : (j < i)%nat) by lia.
    replace (Z.abs (tf_timestamp t2 - tf_timestamp t1))
      with (Z.abs (tf_timestamp t1 - tf_timestamp t2)) by lia.
    rewrite <- (pairDiffs_pair l j i t2 t1 Hnd Hlt Hj Hi). split.
    + intros (d & Hd & [[H1 H2]|[H1 H2]]); [|by exists d].
      pose proof (pairDiffs_order l d i j t1 t2 Hnd Hd Hi Hj H1 H2). lia.
    + intros (d & Hd & H1 & H2). exists d. split; [done|by right].
Qed.

(** A gap record of a returned record, in terms of [traderData]. *)
Lemma gap_of_traderData traderData matched m d :
  findMatchingTrades TIME_WINDOW_HOURS traderData = Some matched ->
  m ∈ matched -> d ∈ timeDiffs m ->
  trader1 d <> trader2 d /\
  exists ta tb,
    firstTradeTime (m_conditionId m) (trader1 d) traderData = Some ta /\
    firstTradeTime (m_conditionId m) (trader2 d) traderData = Some tb /\
    diffSeconds d = tb - ta /\ Z.abs (tb - ta) <= window.
Proof.
  intros Hf Hm Hd.
  destruct (findMatchingTrades_record _ _ _ Hf Hm)
    as (tm & He & _ & _ & _ & Hnd & Hdiffs & _).
  rewrite Hdiffs in Hd.
  apply elem_of_pairDiffs in Hd as (i & j & t1 & t2 & Hij & Hi & Hj & Hd).
  apply elem_of_timeDiff in Hd as [Hw ->]. simpl. split.
  - intros Heq. assert (i = j); [|lia].
    eapply NoDup_lookup; [exact Hnd| |];
      rewrite list_lookup_fmap; [rewrite Hi|rewrite Hj]; simpl; by f_equal.
  - exists (tf_timestamp t1), (tf_timestamp t2). split_and!; [| |done..].
    + apply (participant_first _ _ m t1 Hf Hm), list_elem_of_lookup. by exists i.
    + apply (participant_first _ _ m t2 Hf Hm), list_elem_of_lookup. by exists j.
Qed.

(** The pair of a gap record stands in the order of supply. *)
Lemma gap_supply_order traderData matched m d :
  findMatchingTrades TIME_WINDOW_HOURS traderData = Some matched ->
  m ∈ matched -> d ∈ timeDiffs m ->
  suppliedBefore (m_conditionId m) (trader1 d) (trader2 d) traderData.
Proof.
  intros Hf Hm Hd.
  destruct (findMatchingTrades_record _ _ _ Hf Hm)
    as (tm & He & _ & _ & Hkeys & _ & Hdiffs & _).
  rewrite Hdiffs in Hd.
  apply elem_of_pairDiffs in Hd as (i & j & t1 & t2 & Hij & Hi & Hj & Hd).
  apply elem_of_timeDiff in Hd as [_ ->]. simpl.
  destruct (groupTrades_keysAt (m_conditionId m) traderData) as [_ Hord].
  apply (Hord i j); [done| |];
    rewrite (groupTrades_keys _ _ _ He), <- Hkeys, list_lookup_fmap;
    [by rewrite Hi|by rewrite Hj].
Qed.

(** The leader of a gap record, in terms of [traderData]. *)
Lemma gap_leader traderData matched m d :
  findMatchingTrades TIME_WINDOW_HOURS traderData = Some matched ->
  m ∈ matched -> d ∈ timeDiffs m ->
  exists ta tb,
    firstTradeTime (m_conditionId m) (trader1 d) traderData = Some ta /\
    firstTradeTime (m_conditionId m) (trader2 d) traderData = Some tb /\
    diffSeconds d = tb - ta /\
    (ta < tb -> leader d = trader1 d) /\
    (tb < ta -> leader d = trader2 d) /\
    (ta = tb -> leader d = trader2 d).
Proof.
  intros Hf Hm Hd.
  destruct (findMatchingTrades_record _ _ _ Hf Hm)
    as (tm & He & _ & _ & _ & _ & Hdiffs & _).
  rewrite Hdiffs in Hd.
  apply elem_of_pairDiffs in Hd as (i & j & t1 & t2 & Hij & Hi & Hj & Hd).
  apply elem_of_timeDiff in Hd as [_ ->]. simpl.
  exists (tf_timestamp t1), (tf_timestamp t2). split_and!.
  - apply (participant_first _ _ m t1 Hf Hm), list_elem_of_lookup. by exists i.
  - apply (participant_first _ _ m t2 Hf Hm), list_elem_of_lookup. by exists j.
  - done.
  - intros. by destruct (Z.leb_spec (tf_timestamp t2 - tf_timestamp t1) 0); [lia|].
  - intros. by destruct (Z.leb_spec (tf_timestamp t2 - tf_timestamp t1) 0); [|lia].
  - intros. by destruct (Z.leb_spec (tf_timestamp t2 - tf_timestamp t1) 0); [|lia].
Qed.

Lemma two_distinct {A : Type} (l : list A) (a b : A) :
  a ∈ l -> b ∈ l -> a <> b -> (2 <= length l)%nat.
Proof.
  intros Ha Hb Hab. destruct l as [|x [|y l]]; simpl; [| |lia].
  - by apply not_elem_of_nil in Ha.
  - apply list_elem_of_singleton in Ha, Hb. congruence.
Qed.

(** A condition is returned exactly when two traders with trades of it
    have their earliest ones within the window. *)
Lemma condition_returned traderData matched cid :
  findMatchingTrades TIME_WINDOW_HOURS traderData = Some matched ->
  (exists m, m ∈ matched /\ m_conditionId m = cid) <->
  exists a b ta tb,
    a <> b /\ firstTradeTime cid a traderData = Some ta /\
    firstTradeTime cid b traderData = Some tb /\ Z.abs (tb - ta) <= window.
Proof.
  intros Hf. split.
  - intros (m & Hm & <-).
    destruct (findMatchingTrades_record _ _ _ Hf Hm) as (_ & _ & _ & _ & _ & _ & _ & Hne).
    destruct (timeDiffs m) as [|d ds] eqn:E; [done|].
    assert (Hd : d ∈ timeDiffs m) by (rewrite E; by left).
    destruct (gap_of_traderData _ _ _ _ Hf Hm Hd) as (Hab & ta & tb & Ha & Hb & _ & Hw).
    by exists (trader1 d), (trader2 d), ta, tb.
  - intros (a & b & ta & tb & Hab & Ha & Hb & Hw).
    destruct (groupTrades_participant cid a traderData) as (tm & He & Hina);
      [by eapply firstTradeTime_Some|].
    assert (Hka : a ∈ keys tm)
      by (apply (groupTrades_participants _ _ _ _ He); by eapply firstTradeTime_Some).
    assert (Hkb : b ∈ keys tm)
      by (apply (groupTrades_participants _ _ _ _ He); by eapply firstTradeTime_Some).
    destruct (groupTrades_ok traderData) as [_ Hall].
    rewrite Forall_forall in Hall. pose proof (Hall _ He) as Hok. simpl in Hok.
    destruct Hok as (Hnd & Hne & Harr).
    assert (Hsz : 2 <= JsMap.size tm).
    { pose proof (two_distinct _ _ _ Hka Hkb Hab) as H2. unfold JsMap.size.
      unfold keys in H2. rewrite length_fmap in H2. lia. }
    destruct (allTraderTrades_is_Some tm Harr) as [firsts Hfirsts].
    apply (findMatchingTrades_condition_present _ _ _ _ _ Hf He Hsz Hfirsts).
    pose proof (allTraderTrades_addresses _ _ Hfirsts) as Haddr.
    pose proof (allTraderTrades_firstOf _ _ Hfirsts) as Hof.
    assert (Hpart : forall x tx, x ∈ keys tm ->
              firstTradeTime cid x traderData = Some tx ->
              exists i t, firsts !! i = Some t /\ tf_address t = x /\
                          tf_timestamp t = tx).
    { intros x tx Hx Htx. rewrite <- Haddr in Hx.
      apply list_elem_of_fmap in Hx as (t & -> & [i Hi]%list_elem_of_lookup).
      exists i, t. split_and!; [done..|].
      destruct (Forall2_lookup_r _ _ _ _ _ Hof Hi) as (bb & Hbb & Hofb).
      assert (Hin : bb ∈ tm) by (apply list_elem_of_lookup; by exists i).
      destruct (firstOf_firstTradeTime _ _ _ _ _ He Hin Hofb) as (_ & _ & H).
      congruence. }
    destruct (Hpart a ta Hka Ha) as (i & t1 & Hi & <- & <-).
    destruct (Hpart b tb Hkb Hb) as (j & t2 & Hj & <- & <-).
    assert (Hij : i <> j) by (intros ->; congruence).
    apply pairDiffs_nonempty.
    destruct (decide (i < j)%nat) as [Hlt|Hge].
    + by exists i, j, t1, t2.
    + exists j, i, t2, t1. split_and!; [lia|done..|lia].
Qed.

End Window.

(** ** The aggregator *)

Lemma Tally_eq (c c' : Tally) :
  c_timesFirst c = c_timesFirst c' ->
  c_totalLeadTime c = c_totalLeadTime c' ->
  c_leadCount c = c_leadCount c' ->
  c_totalFollowTime c = c_totalFollowTime c' ->
  c_followCount c = c_followCount c' ->
  c_matchedTradeCount c = c_matchedTradeCount c' ->
  c = c'.
Proof. destruct c, c'; simpl; congruence. Qed.

(** The loop over the gap records of one market adds, to each accumulator,
    the count or the sum over the records the trader leads or follows. *)
Lemma tallyDiffs addr (ds : list TimeDiff) (c : Tally) :
  foldl (tallyDiff addr) c ds =
  {| c_timesFirst :=
       c_timesFirst c + Z.of_nat (length (List.filter (leadsHere addr) ds));
     c_totalLeadTime :=
       c_totalLeadTime c + sumZ (gapSeconds (List.filter (leadsHere addr) ds));
     c_leadCount :=
       c_leadCount c + Z.of_nat (length (List.filter (leadsHere addr) ds));
     c_totalFollowTime :=
       c_totalFollowTime c + sumZ (gapSeconds (List.filter (followsHere addr) ds));
     c_followCount :=
       c_followCount c + Z.of_nat (length (List.filter (followsHere addr) ds));
     c_matchedTradeCount := c_matchedTradeCount c |}.
Proof.
  revert c. induction ds as [|d ds IH]; intros c.
  - simpl. apply Tally_eq; simpl; lia.
  - simpl foldl. rewrite IH. unfold tallyDiff, leadsHere, followsHere, appearsIn.
    simpl List.filter.
    destruct (String.eqb (trader1 d) addr), (String.eqb (trader2 d) addr),
      (String.eqb (leader d) addr); simpl;
      apply Tally_eq; simpl; lia.
Qed.

Lemma find_address_None addr (l : list TraderFirst) :
  List.find (fun t => String.eqb (tf_address t) addr) l = None ->
  addr ∉ (tf_address <$> l).
Proof.
  induction l as [|t l IH]; simpl; [intros _; apply not_elem_of_nil|].
  destruct (String.eqb_spec (tf_address t) addr) as [|Hne]; [done|].
  intros H. apply not_elem_of_cons. split; [done|]. by apply IH.
Qed.

Lemma filter_nil_of_forall {A : Type} (f : A -> bool) (l : list A) :
  (forall x, x ∈ l -> f x = false) -> List.filter f l = [].
Proof.
  induction l as [|x l IH]; intros H; simpl; [done|].
  rewrite (H x) by (by left). apply IH. intros y Hy. apply H. by right.
Qed.

Lemma filter_ext_elem {A : Type} (f g : A -> bool) (l : list A) :
  (forall x, x ∈ l -> f x = g x) -> List.filter f l = List.filter g l.
Proof.
  induction l as [|x l IH]; intros H; simpl; [done|].
  rewrite (H x) by (by left). rewrite IH; [done|].
  intros y Hy. apply H. by right.
Qed.

Lemma not_appears_absent addr m d :
  gapsNameParticipants m -> addr ∉ (tf_address <$> traderTrades m) ->
  d ∈ timeDiffs m -> appearsIn addr d = false.
Proof.
  intros Hok Habs Hd. destruct (Hok d Hd) as (H1 & H2 & _). unfold appearsIn.
  destruct (String.eqb_spec (trader1 d) addr) as [<-|]; [done|].
  destruct (String.eqb_spec (trader2 d) addr) as [<-|]; done.
Qed.

(** The loop over the matched markets. *)
Lemma tallyMatches addr (matched : list MatchedTrade) (c : Tally) :
  Forall gapsNameParticipants matched ->
  let c' := foldl (tallyMatch addr) c matched in
  c_timesFirst c' =
    c_timesFirst c
    + Z.of_nat (length (List.filter (leadsHere addr) (allGaps matched))) /\
  c_totalLeadTime c' =
    c_totalLeadTime c
    + sumZ (gapSeconds (List.filter (leadsHere addr) (allGaps matched))) /\
  c_leadCount c' =
    c_leadCount c
    + Z.of_nat (length (List.filter (leadsHere addr) (allGaps matched))) /\
  c_totalFollowTime c' =
    c_totalFollowTime c
    + sumZ (gapSeconds (List.filter (followsHere addr) (allGaps matched))) /\
  c_followCount c' =
    c_followCount c
    + Z.of_nat (length (List.filter (followsHere addr) (allGaps matched))).
Proof.
  intros Hok. revert c. induction Hok as [|m matched Hm Hok IH]; intros c.
  - simpl. lia.
  - simpl foldl. specialize (IH (tallyMatch addr c m)). simpl in IH.
    destruct IH as (IH1 & IH2 & IH3 & IH4 & IH5).
    cbv zeta. rewrite IH1, IH2, IH3, IH4, IH5. clear IH1 IH2 IH3 IH4 IH5.
    unfold allGaps. simpl flat_map. fold (allGaps matched).
    rewrite !List.filter_app. unfold gapSeconds.
    rewrite !fmap_app, !length_app. fold gapSeconds.
    assert (Hsum : forall l1 l2, sumZ (l1 ++ l2) = sumZ l1 + sumZ l2).
    { intros l1 l2. induction l1 as [|x l1 IHl]; simpl; [done|]. rewrite IHl. lia. }
    rewrite !Hsum. unfold tallyMatch.
    destruct (List.find _ (traderTrades m)) eqn:Efind.
    + rewrite tallyDiffs. simpl. unfold gapSeconds. lia.
    + apply find_address_None in Efind.
      assert (Hl : List.filter (leadsHere addr) (timeDiffs m) = []).
      { apply filter_nil_of_forall. intros d Hd. unfold leadsHere.
        by rewrite (not_appears_absent addr m d). }
      assert (Hf : List.filter (followsHere addr) (timeDiffs m) = []).
      { apply filter_nil_of_forall. intros d Hd. unfold followsHere.
        by rewrite (not_appears_absent addr m d). }
      rewrite Hl, Hf. simpl. unfold gapSeconds. lia.
Qed.

Lemma findMatchingTrades_gaps_ok TIME_WINDOW_HOURS traderData matched :
  findMatchingTrades TIME_WINDOW_HOURS traderData = Some matched ->
  Forall gapsNameParticipants matched.
Proof.
  intros Hf. apply Forall_forall. intros m Hm d Hd.
  destruct (findMatchingTrades_origin _ _ _ _ Hf Hm) as (tm & _ & _ & _ & Hdiffs).
  rewrite Hdiffs in Hd.
  apply elem_of_pairDiffs in Hd as (i & j & t1 & t2 & _ & Hi & Hj & Hd).
  apply elem_of_timeDiff in Hd as [_ ->]. simpl. split_and!.
  - apply list_elem_of_fmap. exists t1. split; [done|].
    apply list_elem_of_lookup. by exists i.
  - apply list_elem_of_fmap. exists t2. split; [done|].
    apply list_elem_of_lookup. by exists j.
  - destruct (_ <=? 0); [by right|by left].
Qed.

Lemma leadsHere_leader addr (matched : list MatchedTrade) :
  Forall gapsNameParticipants matched ->
  List.filter (leadsHere addr) (allGaps matched) = leadGaps addr matched.
Proof.
  intros Hok. unfold leadGaps. apply filter_ext_elem. intros d Hd.
  unfold allGaps in Hd. apply list_elem_of_In, in_flat_map in Hd as (m & Hm & Hd).
  rewrite Forall_forall in Hok.
  apply list_elem_of_In in Hm, Hd.
  destruct (Hok m Hm d Hd) as (_ & _ & Hl).
  unfold leadsHere, appearsIn.
  destruct (String.eqb_spec (leader d) addr) as [<-|]; [|by rewrite andb_false_r].
  destruct Hl as [<-|<-]; rewrite String.eqb_refl; [done|by rewrite orb_true_r].
Qed.

Lemma followsHere_follow addr (matched : list MatchedTrade) :
  List.filter (followsHere addr) (allGaps matched) = followGaps addr matched.
Proof. reflexivity. Qed.

Lemma mean_ofZ (l : list Z) :
  numEq (if 0 <? Z.of_nat (length l)
         then numDiv (ofZ (sumZ l)) (ofZ (Z.of_nat (length l)))
         else ofZ 0)
        (Num (mean l)).
Proof.
  destruct l as [|x l]; [simpl; reflexivity|].
  destruct (Z.ltb_spec 0 (Z.of_nat (length (x :: l)))) as [Hpos|Hle];
    [|simpl in Hle; lia].
  unfold numDiv, ofZ, mean.
  destruct (Qeq_bool (inject_Z (Z.of_nat (length (x :: l)))) 0) eqn:E.
  - apply Qeq_bool_eq in E. unfold Qeq in E. simpl in E. lia.
  - simpl. reflexivity.
Qed.

Lemma summarize_spec (matched : list MatchedTrade) (tr : TraderTrades) :
  Forall gapsNameParticipants matched ->
  let s := summarize matched tr in
  trader s = address tr /\
  totalTrades s = Z.of_nat (length (trades tr)) /\
  timesFirst s = Z.of_nat (length (leadGaps (address tr) matched)) /\
  numEq (avgLeadTimeSeconds s)
        (Num (mean (gapSeconds (leadGaps (address tr) matched)))) /\
  numEq (avgFollowTimeSeconds s)
        (Num (mean (gapSeconds (followGaps (address tr) matched)))).
Proof.
  intros Hok. cbv zeta. unfold summarize.
  cbn [trader totalTrades timesFirst avgLeadTimeSeconds avgFollowTimeSeconds].
  destruct (tallyMatches (address tr) matched tally0 Hok)
    as (H1 & H2 & H3 & H4 & H5).
  simpl in H1, H2, H3, H4, H5. rewrite Z.add_0_l in H1, H2, H3, H4, H5.
  rewrite H1, H2, H3, H4, H5.
  rewrite leadsHere_leader, followsHere_follow by done.
  split_and!; [done..| |].
  - replace (length (leadGaps (address tr) matched))
      with (length (gapSeconds (leadGaps (address tr) matched)))
      by apply length_fmap.
    apply mean_ofZ.
  - replace (length (followGaps (address tr) matched))
      with (length (gapSeconds (followGaps (address tr) matched)))
      by apply length_fmap.
    apply mean_ofZ.
Qed.

End CompareTradersFacts.

(** * The matcher against its specification *)

Module MatcherSpec.
Import JsArray JsMap JsArrayFacts JsMapFacts CompareTraders CompareTradersFacts.

(** C1.  The participants of a returned record are the traders with a
    trade of its condition, each with the earliest of these trades as first
    trade.  Two participants have a gap record if and only if the absolute
    difference of their first-trade timestamps is at most
    [TIME_WINDOW_HOURS * 3600], and every gap record is that of two
    participants within the window.  A condition is returned if and only if
    two of its traders have their first trades within the window.  With
    first trades at 100 and 4000 and a window of 3600 seconds nothing is
    returned. *)
Theorem C1_window_filter (TIME_WINDOW_HOURS : Z) (traderData : list TraderTrades) :
  exists matched,
    findMatchingTrades TIME_WINDOW_HOURS traderData = Some matched /\
    (forall m, m ∈ matched ->
       NoDup (tf_address <$> traderTrades m) /\
       (forall addr,
          addr ∈ tf_address <$> traderTrades m <->
          tradesIn (m_conditionId m) addr traderData <> []) /\
       (forall t, t ∈ traderTrades m ->
          tf_trade t ∈ tradesIn (m_conditionId m) (tf_address t) traderData /\
          firstTradeTime (m_conditionId m) (tf_address t) traderData
          = Some (tf_timestamp t)) /\
       (forall a b ta tb,
          a <> b ->
          firstTradeTime (m_conditionId m) a traderData = Some ta ->
          firstTradeTime (m_conditionId m) b traderData = Some tb ->
          (exists d, d ∈ timeDiffs m /\
             ((trader1 d = a /\ trader2 d = b) \/
              (trader1 d = b /\ trader2 d = a))) <->
          Z.abs (tb - ta) <= TIME_WINDOW_HOURS * 3600) /\
       (forall d, d ∈ timeDiffs m ->
          trader1 d <> trader2 d /\
          exists ta tb,
            firstTradeTime (m_conditionId m) (trader1 d) traderData = Some ta /\
            firstTradeTime (m_conditionId m) (trader2 d) traderData = Some tb /\
            diffSeconds d = tb - ta /\
            Z.abs (tb - ta) <= TIME_WINDOW_HOURS * 3600)) /\
    (forall cid,
       (exists m, m ∈ matched /\ m_conditionId m = cid) <->
       exists a b ta tb,
         a <> b /\ firstTradeTime cid a traderData = Some ta /\
         firstTradeTime cid b traderData = Some tb /\
         Z.abs (tb - ta) <= TIME_WINDOW_HOURS * 3600) /\
    findMatchingTrades 1 scenarioFar = Some [].
Proof.
  destruct (findMatchingTrades_is_Some TIME_WINDOW_HOURS traderData) as [matched Hf].
  exists matched. split_and!; [done| | |by vm_compute].
  - intros m Hm.
    destruct (findMatchingTrades_record _ _ _ _ Hf Hm)
      as (tm & He & _ & _ & _ & Hnd & Hdiffs & _).
    split_and!.
    + done.
    + intros addr. by apply (participants_addresses TIME_WINDOW_HOURS _ matched).
    + intros t Ht. by apply (participant_first TIME_WINDOW_HOURS _ matched).
    + intros a b ta tb Hab Ha Hb.
      destruct (participant_at _ _ _ _ _ _ Hf Hm Ha) as (i & t1 & Hi & <- & <-).
      destruct (participant_at _ _ _ _ _ _ Hf Hm Hb) as (j & t2 & Hj & <- & <-).
      rewrite Hdiffs. apply (pairDiffs_unordered _ _ i j); try done.
      intros ->. congruence.
    + intros d Hd. by apply (gap_of_traderData _ _ matched).
  - intros cid. by apply condition_returned.
Qed.

(** C2, as the code has it.  Every gap record comes from a pair of the
    record's participants, [trader1] standing before [trader2] in the
    condition's participant order, and carries the difference of their
    first-trade timestamps, the earliest timestamps of the trades of the
    condition supplied under the two addresses; its leader is the
    participant with the strictly earlier first trade, and [trader2] when
    the two timestamps are equal.  The participant order follows the order
    of supply: in [traderData] an element at the address of [trader1] with
    a trade of the condition stands before the first element at the address
    of [trader2] that has one.  With first trades at 100 and 160 and a
    window of 3600 seconds the leader is [0xaaa] and the gap is 60. *)
Theorem C2_leader_of_gap (TIME_WINDOW_HOURS : Z) (traderData : list TraderTrades)
    (matched : list MatchedTrade) (m : MatchedTrade) (d : TimeDiff) :
  findMatchingTrades TIME_WINDOW_HOURS traderData = Some matched ->
  m ∈ matched -> d ∈ timeDiffs m ->
  leaderRule m d /\
  suppliedBefore (m_conditionId m) (trader1 d) (trader2 d) traderData /\
  (exists ta tb,
     firstTradeTime (m_conditionId m) (trader1 d) traderData = Some ta /\
     firstTradeTime (m_conditionId m) (trader2 d) traderData = Some tb /\
     diffSeconds d = tb - ta /\
     (ta < tb -> leader d = trader1 d) /\
     (tb < ta -> leader d = trader2 d) /\
     (ta = tb -> leader d = trader2 d)) /\
  (exists m0,
     findMatchingTrades 1 scenarioLead = Some [m0] /\
     timeDiffs m0 = [ {| trader1 := "0xaaa"; trader2 := "0xbbb";
                         diffSeconds := 60; leader := "0xaaa" |} ]).
Proof.
  intros Hf Hm Hd.
  split_and!; [|by apply (gap_supply_order TIME_WINDOW_HOURS _ matched)
               |by apply (gap_leader TIME_WINDOW_HOURS _ matched)
               |by eexists; split; vm_compute].
  destruct (findMatchingTrades_origin _ _ _ _ Hf Hm) as (tm & _ & _ & _ & Hdiffs).
  destruct (findMatchingTrades_addresses _ _ _ _ Hf Hm) as [Hnd _].
  rewrite Hdiffs in Hd.
  apply elem_of_pairDiffs in Hd as (i & j & t1 & t2 & Hij & Hi & Hj & Hd).
  apply elem_of_timeDiff in Hd as [_ ->]. unfold leaderRule. simpl.
  exists i, j, t1, t2. split_and!; try done.
  - intros Heq. assert (i = j); [|lia].
    eapply NoDup_lookup; [exact Hnd| |];
      rewrite list_lookup_fmap; [rewrite Hi|rewrite Hj]; simpl; by f_equal.
  - intros. by destruct (Z.leb_spec (tf_timestamp t2 - tf_timestamp t1) 0); [lia|].
  - intros. by destruct (Z.leb_spec (tf_timestamp t2 - tf_timestamp t1) 0); [|lia].
  - intros. by destruct (Z.leb_spec (tf_timestamp t2 - tf_timestamp t1) 0); [|lia].
Qed.

Lemma C2_leader_of_gap_witness :
  findMatchingTrades 1 scenarioLead = Some [scenarioLeadMatch] /\
  scenarioLeadMatch ∈ [scenarioLeadMatch] /\
  scenarioLeadGap ∈ timeDiffs scenarioLeadMatch /\
  leaderRule scenarioLeadMatch scenarioLeadGap.
Proof.
  assert (H1 : findMatchingTrades 1 scenarioLead = Some [scenarioLeadMatch])
    by (vm_compute; reflexivity).
  assert (H2 : scenarioLeadMatch ∈ [scenarioLeadMatch])
    by (apply list_elem_of_here).
  assert (H3 : scenarioLeadGap ∈ timeDiffs scenarioLeadMatch)
    by (apply list_elem_of_here).
  split_and!; [exact H1|exact H2|exact H3|].
  exact (proj1 (C2_leader_of_gap 1 scenarioLead [scenarioLeadMatch]
                  scenarioLeadMatch scenarioLeadGap H1 H2 H3)).
Defined.

(** C2 as stated fails: with both first trades at 100 the leader is
    [0xbbb], the lexicographically larger address, when [0xaaa] is supplied
    first, and [0xaaa] when the traders are supplied in the other order. *)
Lemma C2_tie_counterexample :
  String.ltb "0xaaa" "0xbbb" = true /\
  (exists m,
     findMatchingTrades 1 scenarioTie = Some [m] /\
     timeDiffs m = [ {| trader1 := "0xaaa"; trader2 := "0xbbb";
                        diffSeconds := 0; leader := "0xbbb" |} ]) /\
  (exists m,
     findMatchingTrades 1 scenarioTieSwapped = Some [m] /\
     timeDiffs m = [ {| trader1 := "0xbbb"; trader2 := "0xaaa";
                        diffSeconds := 0; leader := "0xaaa" |} ]).
Proof. split_and!; [done|by eexists; split; vm_compute..]. Qed.

(** C7.  The returned records are ordered by the earliest first-trade
    timestamp among their participants, most recent first: of two records
    the one that comes first has the greater or equal minimum. *)
Theorem C7_most_recent_first (TIME_WINDOW_HOURS : Z) (traderData : list TraderTrades) :
  exists matched,
    findMatchingTrades TIME_WINDOW_HOURS traderData = Some matched /\
    forall i j a b,
      (i < j)%nat -> matched !! i = Some a -> matched !! j = Some b ->
      exists aTime bTime,
        earliest a = Some aTime /\ earliest b = Some bTime /\
        (aTime ∈ tf_timestamp <$> traderTrades a) /\
        Forall (fun ts => aTime <= ts) (tf_timestamp <$> traderTrades a) /\
        (bTime ∈ tf_timestamp <$> traderTrades b) /\
        Forall (fun ts => bTime <= ts) (tf_timestamp <$> traderTrades b) /\
        bTime <= aTime.
Proof.
  destruct (findMatchingTrades_is_Some TIME_WINDOW_HOURS traderData) as [matched Hf].
  exists matched. split; [done|]. intros i j a b Hij Hi Hj.
  assert (Hearliest : forall m, m ∈ matched -> is_Some (earliest m)).
  { intros m Hm. destruct (findMatchingTrades_addresses _ _ _ _ Hf Hm) as [_ Hlen].
    apply mathMin_is_Some. destruct (traderTrades m); simpl in *; [lia|done]. }
  destruct (Hearliest a) as [aTime Ha]; [apply list_elem_of_lookup; by exists i|].
  destruct (Hearliest b) as [bTime Hb]; [apply list_elem_of_lookup; by exists j|].
  exists aTime, bTime.
  destruct (mathMin_Some _ _ Ha) as [? ?], (mathMin_Some _ _ Hb) as [? ?].
  split_and!; try done.
  assert (Hs : StronglySorted (fun a b => mostRecentFirst a b <= 0) matched).
  { unfold findMatchingTrades in Hf. destruct (mapM _ _); [|done].
    simpl in Hf. injection Hf as <-.
    apply sort_sorts, mostRecentFirst_consistent. }
  pose proof (StronglySorted_lookup _ _ _ _ _ _ Hs Hij Hi Hj) as Hab.
  simpl in Hab. unfold mostRecentFirst in Hab. rewrite Ha, Hb in Hab. lia.
Qed.

End MatcherSpec.

(** * The aggregator against its specification *)

Module AggregatorSpec.
Import JsArray JsMap JsArrayFacts JsMapFacts CompareTraders CompareTradersFacts.

(** C4.  In every summary, [avgLeadTimeSeconds] is the arithmetic mean of
    [abs(diffSeconds)] over the gap records the trader leads and
    [avgFollowTimeSeconds] the mean over those in which the trader appears
    without leading; both are numbers, and exactly [0] when there is no such
    record.  In the scenario with follow gaps of 90 and 30 seconds and two
    led markets the follow average is 60 and [timesFirst] is 2. *)
Theorem C4_averages (TIME_WINDOW_HOURS : Z) (traderData : list TraderTrades)
    (matched : list MatchedTrade) (s : ComparisonSummary) :
  findMatchingTrades TIME_WINDOW_HOURS traderData = Some matched ->
  s ∈ calculateSummaries matched traderData ->
  numEq (avgLeadTimeSeconds s)
        (Num (mean (gapSeconds (leadGaps (trader s) matched)))) /\
  numEq (avgFollowTimeSeconds s)
        (Num (mean (gapSeconds (followGaps (trader s) matched)))) /\
  timesFirst s = Z.of_nat (length (leadGaps (trader s) matched)) /\
  (leadGaps (trader s) matched = [] -> avgLeadTimeSeconds s = Num 0) /\
  (followGaps (trader s) matched = [] -> avgFollowTimeSeconds s = Num 0) /\
  (exists matched0 s0,
     findMatchingTrades 1 scenarioFollow = Some matched0 /\
     s0 ∈ calculateSummaries matched0 scenarioFollow /\
     trader s0 = "0xaaa" /\
     gapSeconds (followGaps "0xaaa" matched0) = [90; 30] /\
     numEq (avgFollowTimeSeconds s0) (Num 60) /\
     timesFirst s0 = 2).
Proof.
  intros Hf Hs.
  pose proof (findMatchingTrades_gaps_ok _ _ _ Hf) as Hok.
  unfold calculateSummaries in Hs.
  apply elem_of_sort, list_elem_of_fmap in Hs as (tr & -> & _).
  destruct (summarize_spec matched tr Hok) as (Ht & _ & Hn & Hl & Hfo).
  cbv zeta in *. rewrite Ht. split_and!; [done..| | |].
  - intros E. rewrite E in Hl. simpl in Hl.
    unfold summarize in *. simpl in *.
    destruct (0 <? _) eqn:Epos; [|done].
    apply Z.ltb_lt in Epos.
    destruct (tallyMatches (address tr) matched tally0 Hok) as (_ & _ & H3 & _).
    rewrite leadsHere_leader, E in H3 by done. simpl in H3. lia.
  - intros E. unfold summarize. simpl.
    destruct (0 <? _) eqn:Epos; [|done].
    apply Z.ltb_lt in Epos.
    destruct (tallyMatches (address tr) matched tally0 Hok) as (_ & _ & _ & _ & H5).
    rewrite followsHere_follow, E in H5.
    simpl in H5. lia.
  - eexists _, _. split; [by vm_compute|].
    split; [apply list_elem_of_here|]. by vm_compute.
Qed.

Lemma C4_averages_witness :
  let s := summarize scenarioFollowMatched
             {| address := "0xaaa";
                trades := [tradeAt "M1" 100; tradeAt "M2" 200; tradeAt "M3" 1090] |} in
  findMatchingTrades 1 scenarioFollow = Some scenarioFollowMatched /\
  s ∈ calculateSummaries scenarioFollowMatched scenarioFollow /\
  numEq (avgLeadTimeSeconds s)
        (Num (mean (gapSeconds (leadGaps (trader s) scenarioFollowMatched)))) /\
  numEq (avgFollowTimeSeconds s)
        (Num (mean (gapSeconds (followGaps (trader s) scenarioFollowMatched)))) /\
  timesFirst s = Z.of_nat (length (leadGaps (trader s) scenarioFollowMatched)).
Proof.
  intros s.
  assert (H1 : findMatchingTrades 1 scenarioFollow = Some scenarioFollowMatched)
    by (vm_compute; reflexivity).
  assert (H2 : s ∈ calculateSummaries scenarioFollowMatched scenarioFollow)
    by (vm_compute; apply list_elem_of_here).
  destruct (C4_averages 1 scenarioFollow scenarioFollowMatched s H1 H2)
    as (Hl & Hf & Hn & _).
  split_and!; [exact H1|exact H2|exact Hl|exact Hf|exact Hn].
Defined.

End AggregatorSpec.

(** * The groupers *)

Module GrouperFacts.
Import JsArray JsMap JsArrayFacts JsMapFacts.

(** ** The leader finder *)

Section Leaders.
Import FindLeaders.

Lemma leaders_byTimestamp_consistent : consistent byTimestamp.
Proof. split; unfold byTimestamp; intros; lia. Qed.

Lemma firstTradeStep_skip m t : traderOf t = None -> firstTradeStep m t = m.
Proof. unfold firstTradeStep. by intros ->. Qed.

Lemma firstTradeStep_later m t trader r :
  traderOf t = Some trader -> get trader m = Some r ->
  get trader (firstTradeStep m t) = Some (addVolume r t).
Proof.
  intros Ht Hr. unfold firstTradeStep. rewrite Ht.
  assert (has trader m = true) as -> by (apply has_true; by eexists).
  simpl. by rewrite get_mutate, Hr.
Qed.

Lemma firstTradeStep_first m t trader :
  traderOf t = Some trader -> get trader m = None ->
  get trader (firstTradeStep m t)
  = Some {| ft_timestamp := timestamp t; ft_volume := usdcSize t;
            ft_position := JsMap.size m + 1 |}.
Proof.
  intros Ht Hr. unfold firstTradeStep. rewrite Ht.
  assert (has trader m = false) as -> by (by apply has_false).
  simpl. by rewrite get_set.
Qed.

Lemma firstTradeStep_other m t trader :
  traderOf t <> Some trader ->
  get trader (firstTradeStep m t) = get trader m.
Proof.
  intros Ht. unfold firstTradeStep.
  destruct (traderOf t) as [k|]; [|done].
  assert (k <> trader) by congruence.
  destruct (has k m); simpl; [by rewrite get_mutate_ne|by rewrite get_set_ne].
Qed.

Lemma firstTradeStep_NoDup m t : NoDup (keys m) -> NoDup (keys (firstTradeStep m t)).
Proof.
  intros Hnd. unfold firstTradeStep. destruct (traderOf t) as [k|]; [|done].
  destruct (has k m); simpl; [by rewrite keys_mutate|by apply NoDup_keys_set].
Qed.

Lemma firstTrades_from_Some l m trader r :
  get trader m = Some r ->
  get trader (foldl firstTradeStep m l) = Some (foldl addVolume r (tradesOf trader l)).
Proof.
  revert m r. induction l as [|t l IH]; intros m r Hr; simpl; [done|].
  unfold tradesOf. simpl. case_bool_decide as Ht.
  - simpl. apply IH. by apply firstTradeStep_later.
  - apply IH. by rewrite firstTradeStep_other.
Qed.

Lemma firstTrades_from_None l m trader :
  get trader m = None ->
  match tradesOf trader l with
  | [] => get trader (foldl firstTradeStep m l) = None
  | t :: later =>
      exists position,
        get trader (foldl firstTradeStep m l)
        = Some (foldl addVolume
                  {| ft_timestamp := timestamp t; ft_volume := usdcSize t;
                     ft_position := position |}
                  later)
  end.
Proof.
  revert m. induction l as [|t l IH]; intros m Hr; simpl; [done|].
  unfold tradesOf. simpl. case_bool_decide as Ht.
  - exists (JsMap.size m + 1). apply firstTrades_from_Some.
    by apply firstTradeStep_first.
  - apply IH. by rewrite firstTradeStep_other.
Qed.

Lemma foldl_addVolume_timestamp r l :
  ft_timestamp (foldl addVolume r l) = ft_timestamp r.
Proof. revert r. induction l as [|x l IH]; intros r; simpl; [done|]. by rewrite IH. Qed.

Lemma foldl_addVolume_position r l :
  ft_position (foldl addVolume r l) = ft_position r.
Proof. revert r. induction l as [|x l IH]; intros r; simpl; [done|]. by rewrite IH. Qed.

Lemma foldl_addVolume_volume r l :
  ft_volume (foldl addVolume r l)
  = foldl (fun v t => JsNum.add v (usdcSize t)) (ft_volume r) l.
Proof. revert r. induction l as [|x l IH]; intros r; simpl; [done|]. by rewrite IH. Qed.

(** What the grouper records for a trader: the timestamp of the first of
    the trader's trades in the array, and the volume of all of them. *)
Lemma firstTrades_get l trader :
  match tradesOf trader l with
  | [] => get trader (firstTrades l) = None
  | t :: later =>
      exists position,
        get trader (firstTrades l)
        = Some {| ft_timestamp := timestamp t;
                  ft_volume :=
                    foldl (fun v x => JsNum.add v (usdcSize x)) (usdcSize t) later;
                  ft_position := position |}
  end.
Proof.
  unfold firstTrades. pose proof (firstTrades_from_None l [] trader eq_refl) as H.
  destruct (tradesOf trader l) as [|t later]; [done|].
  destruct H as [p ->]. exists p. f_equal.
  set (r := {| ft_timestamp := timestamp t |}).
  pose proof (foldl_addVolume_timestamp r later).
  pose proof (foldl_addVolume_position r later).
  pose proof (foldl_addVolume_volume r later).
  destruct (foldl addVolume r later). simpl in *. by subst.
Qed.

Lemma firstTrades_NoDup l : NoDup (keys (firstTrades l)).
Proof.
  unfold firstTrades.
  assert (H : NoDup (keys (@nil (string * FirstTrade)))) by constructor.
  revert H. generalize (@nil (string * FirstTrade)).
  induction l as [|t l IH]; intros m Hm; simpl; [done|].
  by apply IH, firstTradeStep_NoDup.
Qed.

(** In an array sorted by timestamp the first trade of a trader is an
    earliest one. *)
Lemma tradesOf_head_min l trader t later :
  StronglySorted (fun a b => timestamp a <= timestamp b) l ->
  tradesOf trader l = t :: later ->
  t ∈ l /\ traderOf t = Some trader /\
  forall x, x ∈ l -> traderOf x = Some trader -> timestamp t <= timestamp x.
Proof.
  induction 1 as [|y r Hs IH Hy]; [done|].
  unfold tradesOf. simpl. case_bool_decide as Hty.
  - intros [= -> <-]. split_and!; [by left|done|].
    intros x [->|Hx]%elem_of_cons _; [lia|].
    rewrite Forall_forall in Hy. by apply Hy.
  - intros Hf. destruct (IH Hf) as (Hin & Ht & Hmin). split_and!; [by right|done|].
    intros x [->|Hx]%elem_of_cons Htx; [done|]. by apply Hmin.
Qed.


Lemma sorted_byTimestamp (trades : list Trade) :
  StronglySorted (fun a b => timestamp a <= timestamp b) (sort byTimestamp trades).
Proof.
  eapply StronglySorted_impl; [|apply sort_sorts, leaders_byTimestamp_consistent].
  unfold byTimestamp. intros a b; simpl; lia.
Qed.

End Leaders.

(** ** The first-trader finder *)

Section First.
Import FindFirst.

Lemma first_byTimestamp_consistent : consistent byTimestamp.
Proof. split; unfold byTimestamp; intros; lia. Qed.

Lemma orderStep_skip m t : traderOf t = None -> orderStep m t = m.
Proof. unfold orderStep. by intros ->. Qed.

Lemma orderStep_later m t trader data :
  traderOf t = Some trader -> get trader m = Some data ->
  get trader (orderStep m t) = Some (addTrade data t).
Proof.
  intros Ht Hr. unfold orderStep. rewrite Ht.
  assert (has trader m = true) as -> by (apply has_true; by eexists).
  simpl. by rewrite get_mutate, Hr.
Qed.

Lemma orderStep_first m t trader :
  traderOf t = Some trader -> get trader m = None ->
  get trader (orderStep m t)
  = Some {| firstTrade := t; totalVolume := usdcSize t; tradeCount := 1 |}.
Proof.
  intros Ht Hr. unfold orderStep. rewrite Ht.
  assert (has trader m = false) as -> by (by apply has_false).
  simpl. by rewrite get_set.
Qed.

Lemma orderStep_other m t trader :
  traderOf t <> Some trader -> get trader (orderStep m t) = get trader m.
Proof.
  intros Ht. unfold orderStep.
  destruct (traderOf t) as [k|]; [|done].
  assert (k <> trader) by congruence.
  destruct (has k m); simpl; [by rewrite get_mutate_ne|by rewrite get_set_ne].
Qed.

Lemma traderOrder_from_Some l m trader data :
  get trader m = Some data ->
  get trader (foldl orderStep m l) = Some (foldl addTrade data (entriesOf trader l)).
Proof.
  revert m data. induction l as [|t l IH]; intros m data Hr; simpl; [done|].
  unfold entriesOf. simpl. case_bool_decide as Ht.
  - simpl. apply IH. by apply orderStep_later.
  - apply IH. by rewrite orderStep_other.
Qed.

Lemma traderOrder_from_None l m trader :
  get trader m = None ->
  get trader (foldl orderStep m l) =
  match entriesOf trader l with
  | [] => None
  | t :: later =>
      Some (foldl addTrade
              {| firstTrade := t; totalVolume := usdcSize t; tradeCount := 1 |}
              later)
  end.
Proof.
  revert m. induction l as [|t l IH]; intros m Hr; simpl; [done|].
  unfold entriesOf. simpl. case_bool_decide as Ht.
  - apply traderOrder_from_Some. by apply orderStep_first.
  - apply IH. by rewrite orderStep_other.
Qed.

Lemma foldl_addTrade data l :
  foldl addTrade data l =
  {| firstTrade := firstTrade data;
     totalVolume := foldl (fun v t => (v + usdcSize t)%Q) (totalVolume data) l;
     tradeCount := tradeCount data + Z.of_nat (length l) |}.
Proof.
  revert data. induction l as [|x l IH]; intros data.
  - destruct data. simpl. f_equal. lia.
  - simpl foldl. rewrite IH. simpl. f_equal. lia.
Qed.

(** What [traderOrder] holds for a trader. *)
Lemma traderOrderOf_get l trader :
  get trader (traderOrderOf l) =
  match entriesOf trader l with
  | [] => None
  | t :: later =>
      Some {| firstTrade := t;
              totalVolume :=
                foldl (fun v x => (v + usdcSize x)%Q) (usdcSize t) later;
              tradeCount := Z.of_nat (length (t :: later)) |}
  end.
Proof.
  unfold traderOrderOf. rewrite (traderOrder_from_None l [] trader eq_refl).
  destruct (entriesOf trader l) as [|t later]; [done|].
  rewrite foldl_addTrade. simpl. do 2 f_equal. lia.
Qed.

Lemma entriesOf_head_min l trader t later :
  StronglySorted (fun a b => timestamp a <= timestamp b) l ->
  entriesOf trader l = t :: later ->
  t ∈ l /\ traderOf t = Some trader /\
  forall x, x ∈ l -> traderOf x = Some trader -> timestamp t <= timestamp x.
Proof.
  induction 1 as [|y r Hs IH Hy]; [done|].
  unfold entriesOf. simpl. case_bool_decide as Hty.
  - intros [= -> <-]. split_and!; [by left|done|].
    intros x [->|Hx]%elem_of_cons _; [lia|].
    rewrite Forall_forall in Hy. by apply Hy.
  - intros Hf. destruct (IH Hf) as (Hin & Ht & Hmin). split_and!; [by right|done|].
    intros x [->|Hx]%elem_of_cons Htx; [done|]. by apply Hmin.
Qed.

Lemma first_sorted_byTimestamp (trades : list Trade) :
  StronglySorted (fun a b => timestamp a <= timestamp b) (sort byTimestamp trades).
Proof.
  eapply StronglySorted_impl; [|apply sort_sorts, first_byTimestamp_consistent].
  unfold byTimestamp. intros a b; simpl; lia.
Qed.

End First.
End GrouperFacts.

(** * The groupers against their specification *)

Module GrouperSpec.
Import JsArray JsMap JsArrayFacts JsMapFacts GrouperFacts.



End GrouperSpec.

(** * The aggregator of the leader finder *)

Module StatsFacts.
Import JsArray JsMap JsArrayFacts JsMapFacts FindLeaders GrouperFacts.

Lemma sumQ_snoc (l : list Q) (x : Q) : (sumQ (l ++ [x]) == sumQ l + x)%Q.
Proof.
  induction l as [|y l IH]; simpl.
  - ring.
  - rewrite IH. ring.
Qed.

Lemma numEq_Num_inv (a : number) (q : Q) :
  numEq a (Num q) -> exists p, a = Num p /\ (p == q)%Q.
Proof. destruct a as [p|]; simpl; [|done]. intros H. by exists p. Qed.

(** One update of the stored average, after [n] samples of mean [avg],
    yields the mean of the [n + 1] samples. *)
Lemma onlineAverage_step (avg : number) (l : list Q) (x : Q) :
  numEq avg (Num (meanQ l)) ->
  numEq (onlineAverage avg (Z.of_nat (length l) + 1) x) (Num (meanQ (l ++ [x]))).
Proof.
  intros (q & -> & Hq)%numEq_Num_inv. unfold onlineAverage, ofZ. simpl.
  replace (Z.of_nat (length l) + 1 - 1) with (Z.of_nat (length l)) by lia.
  assert (Hpos : (0 < inject_Z (Z.of_nat (length l) + 1))%Q).
  { rewrite <- (Zlt_Qlt 0). lia. }
  destruct (Qeq_bool _ 0) eqn:E.
  { apply Qeq_bool_eq in E. rewrite E in Hpos. by apply Qlt_irrefl in Hpos. }
  simpl. assert (Hnz : ~ (inject_Z (Z.of_nat (length l) + 1) == 0)%Q).
  { intros E'. rewrite E' in Hpos. by apply Qlt_irrefl in Hpos. }
  assert (Hmean : (meanQ (l ++ [x])
                   == (sumQ l + x) / inject_Z (Z.of_nat (length l) + 1))%Q).
  { unfold meanQ. destruct (l ++ [x]) as [|y r] eqn:El.
    { by destruct l. }
    rewrite <- El, sumQ_snoc, length_app. simpl.
    replace (Z.of_nat (length l + 1)) with (Z.of_nat (length l) + 1) by lia.
    reflexivity. }
  rewrite Hmean, Hq. unfold meanQ. destruct l as [|y l'].
  - simpl. field. exact Hnz.
  - set (n := Z.of_nat (length (y :: l'))) in *.
    assert (Hn : ~ (inject_Z n == 0)%Q).
    { intros E'. assert (0 < inject_Z n)%Q as Hlt.
      { rewrite <- (Zlt_Qlt 0). unfold n. simpl. lia. }
      rewrite E' in Hlt. by apply Qlt_irrefl in Hlt. }
    field. split; done.
Qed.

Section Stats.
Variable TOP_N_THRESHOLD : Z.

(** The loop over the entries of one market touches the stats of a trader
    once, when the trader has an entry. *)
Lemma statsSteps_get cid firstTradeTime (entries : JsMap.t FirstTrade)
    (traderStats : JsMap.t TraderStats) trader :
  NoDup (keys entries) ->
  get trader (foldl (statsStep TOP_N_THRESHOLD cid firstTradeTime) traderStats entries)
  = match get trader entries with
    | Some data =>
        Some (updateStats TOP_N_THRESHOLD cid firstTradeTime data
                (default (newStats trader) (get trader traderStats)))
    | None => get trader traderStats
    end.
Proof.
  revert traderStats. induction entries as [|[k d] rest IH]; intros ts Hnd; [done|].
  unfold keys in Hnd. rewrite fmap_cons in Hnd. apply NoDup_cons in Hnd as [Hk Hnd].
  simpl foldl. rewrite IH by done. simpl get.
  destruct (String.eqb_spec trader k) as [->|Hne].
  - assert (get k rest = None) as -> by (by apply get_None_keys).
    unfold statsStep. simpl. by rewrite get_mutate, get_ensure.
  - unfold statsStep. simpl.
    rewrite get_mutate_ne, get_ensure_ne by done. done.
Qed.

Lemma analyzeMarket_get (traderStats : JsMap.t TraderStats) fetched trader :
  get trader (analyzeMarket TOP_N_THRESHOLD traderStats fetched)
  = match contributionOf trader fetched with
    | Some c =>
        Some (applyContribution TOP_N_THRESHOLD
                (default (newStats trader) (get trader traderStats)) c)
    | None => get trader traderStats
    end.
Proof.
  destruct fetched as [mkt trades]. unfold analyzeMarket, contributionOf. simpl.
  destruct (Z.of_nat (length trades) =? 0); [done|].
  rewrite statsSteps_get by apply firstTrades_NoDup.
  by destruct (get trader (firstTrades _)).
Qed.

Lemma analyzeMarkets_get_from (traderStats : JsMap.t TraderStats) fetched trader :
  get trader (foldl (analyzeMarket TOP_N_THRESHOLD) traderStats fetched)
  = match contributions trader fetched with
    | [] => get trader traderStats
    | cs => Some (foldl (applyContribution TOP_N_THRESHOLD)
                    (default (newStats trader) (get trader traderStats)) cs)
    end.
Proof.
  revert traderStats. induction fetched as [|f l IH]; intros ts; [done|].
  simpl foldl. rewrite IH, analyzeMarket_get.
  change (contributions trader (f :: l))
    with (match contributionOf trader f with
          | Some c => c :: contributions trader l
          | None => contributions trader l
          end).
  destruct (contributionOf trader f) as [c|]; simpl; [|done].
  by destruct (contributions trader l).
Qed.

(** The stats of a trader are the fold of the trader's contributions. *)
Lemma analyzeMarkets_get fetched trader :
  get trader (analyzeMarkets TOP_N_THRESHOLD fetched)
  = match contributions trader fetched with
    | [] => None
    | cs => Some (foldl (applyContribution TOP_N_THRESHOLD) (newStats trader) cs)
    end.
Proof. unfold analyzeMarkets. by rewrite analyzeMarkets_get_from. Qed.

(** The averages after a fold are the means of the folded samples. *)
Lemma applyContributions_averages trader (cs : list Contribution) :
  let stats := foldl (applyContribution TOP_N_THRESHOLD) (newStats trader) cs in
  tradeCount stats = Z.of_nat (length cs) /\
  numEq (avgTimeToMarket stats) (Num (meanQ (timeToMarket <$> cs))) /\
  numEq (avgPositionInMarket stats) (Num (meanQ (positionInMarket <$> cs))).
Proof.
  induction cs as [|c cs IH] using rev_ind.
  - simpl. split_and!; reflexivity.
  - cbv zeta in *. rewrite foldl_app. simpl.
    destruct IH as (Hn & Ht & Hp).
    set (stats := foldl (applyContribution TOP_N_THRESHOLD) (newStats trader) cs) in *.
    rewrite !fmap_app, length_app. simpl. rewrite Hn. split_and!.
    + lia.
    + replace (Z.of_nat (length cs)) with (Z.of_nat (length (timeToMarket <$> cs)))
        by (by rewrite length_fmap).
      by apply onlineAverage_step.
    + replace (Z.of_nat (length cs))
        with (Z.of_nat (length (positionInMarket <$> cs)))
        by (by rewrite length_fmap).
      by apply onlineAverage_step.
Qed.

End Stats.

Lemma foldSamples (samples : list Q) :
  let st := foldl foldSample (ofZ 0, 0) samples in
  st.2 = Z.of_nat (length samples) /\ numEq st.1 (Num (meanQ samples)).
Proof.
  induction samples as [|x l IH] using rev_ind.
  - simpl. split; reflexivity.
  - cbv zeta in *. rewrite foldl_app. destruct IH as [Hn Hm].
    set (st := foldl foldSample (ofZ 0, 0) l) in *. simpl.
    rewrite Hn, length_app. simpl.
    split; [lia|]. by apply onlineAverage_step.
Qed.

End StatsFacts.

(** * The aggregator of the leader finder against its specification *)

Module StatsSpec.
Import JsArray JsMap JsArrayFacts JsMapFacts FindLeaders GrouperFacts StatsFacts.

(** C5.  The average kept by the update
    [avg = (avg * (n - 1) + sample) / n] equals the arithmetic mean of the
    samples folded so far, for every finite sequence of samples; it is a
    number at every step.  So the [avgTimeToMarket] and
    [avgPositionInMarket] of a trader in the result of [analyzeMarkets] are
    the means over the markets in which the trader traded, and [tradeCount]
    is their number. *)
Theorem C5_online_average :
  (forall samples : list Q,
     let st := foldl foldSample (ofZ 0, 0) samples in
     st.2 = Z.of_nat (length samples) /\ numEq st.1 (Num (meanQ samples))) /\
  (forall TOP_N_THRESHOLD (fetched : list (Market * list Trade)) trader stats,
     get trader (analyzeMarkets TOP_N_THRESHOLD fetched) = Some stats ->
     tradeCount stats = Z.of_nat (length (contributions trader fetched)) /\
     numEq (avgTimeToMarket stats)
           (Num (meanQ (timeToMarket <$> contributions trader fetched))) /\
     numEq (avgPositionInMarket stats)
           (Num (meanQ (positionInMarket <$> contributions trader fetched)))).
Proof.
  split; [apply foldSamples|].
  intros TOP fetched trader stats Hs. rewrite analyzeMarkets_get in Hs.
  destruct (contributions trader fetched) as [|c cs] eqn:E; [done|].
  injection Hs as <-. apply (applyContributions_averages TOP trader (c :: cs)).
Qed.

End StatsSpec.

(** * The ranker *)

Module RankerFacts.
Import JsArray JsMap JsArrayFacts JsMapFacts FindLeaders.
Import JsNum.

Lemma signOfDiff_ge (b a : double) :
  b <> NaN -> a <> NaN -> signOfDiff b a <= 0 <-> ge a b = true.
Proof.
  intros Hb Ha. destruct a as [x| | |], b as [y| | |]; simpl;
    try done; try (split; (lia || done)).
  rewrite Qle_bool_iff, Qle_alt.
  destruct (y ?= x)%Q eqn:E; split; intros H; try lia; try done.
Qed.

Lemma ge_numbers_total (a b : double) :
  a <> NaN -> b <> NaN -> ge a b = true \/ ge b a = true.
Proof.
  intros Ha Hb. destruct a as [x| | |], b as [y| | |]; simpl; auto; try done.
  rewrite !Qle_bool_iff. destruct (Qlt_le_dec x y) as [H|H]; [right|left]; [|done].
  by apply Qlt_le_weak.
Qed.

Lemma ge_numbers_trans (a b c : double) :
  ge a b = true -> ge b c = true -> ge a c = true.
Proof.
  destruct a as [x| | |], b as [y| | |], c as [z| | |]; simpl; try done.
  rewrite !Qle_bool_iff. intros H1 H2. by apply (Qle_trans _ y).
Qed.

Lemma orLeast_number (v : double) : orLeast v <> NaN.
Proof. by destruct v. Qed.

Lemma orLeast_id (v : double) : v <> NaN -> orLeast v = v.
Proof. by destruct v. Qed.

(** On total volumes that are numbers the two comparators agree. *)
Lemma rankCompare_numeric (a b : TraderStats) :
  totalVolume a <> NaN -> totalVolume b <> NaN ->
  rankCompare a b = rankCompareNumeric a b.
Proof.
  intros Ha Hb. unfold rankCompare, rankCompareNumeric.
  by rewrite !orLeast_id.
Qed.

Lemma rankCompareNumeric_le (a b : TraderStats) :
  rankCompareNumeric a b <= 0 <->
  timesFirst b < timesFirst a \/
  (timesFirst b = timesFirst a /\
   (timesInTopN b < timesInTopN a \/
    (timesInTopN b = timesInTopN a /\
     ge (orLeast (totalVolume a)) (orLeast (totalVolume b)) = true))).
Proof.
  unfold rankCompareNumeric.
  destruct (Z.eqb_spec (timesFirst b) (timesFirst a)) as [E1|N1]; simpl; [|lia].
  destruct (Z.eqb_spec (timesInTopN b) (timesInTopN a)) as [E2|N2]; simpl; [|lia].
  rewrite signOfDiff_ge by apply orLeast_number.
  split; [by right; split; [|right]|].
  intros [?|[_ [?|[_ ?]]]]; [lia|lia|done].
Qed.

Lemma rankCompareNumeric_consistent : consistent rankCompareNumeric.
Proof.
  split.
  - intros a b Hab. apply rankCompareNumeric_le.
    assert (Hn : ~ rankCompareNumeric a b <= 0) by lia.
    rewrite rankCompareNumeric_le in Hn.
    destruct (Z.lt_trichotomy (timesFirst a) (timesFirst b)) as [?|[E1|?]];
      [by left| |exfalso; apply Hn; by left].
    destruct (Z.lt_trichotomy (timesInTopN a) (timesInTopN b)) as [?|[E2|?]];
      [right; split; [done|by left]|
      |exfalso; apply Hn; right; split; [done|by left]].
    right. split; [done|]. right. split; [done|].
    destruct (ge_numbers_total (orLeast (totalVolume a)) (orLeast (totalVolume b)))
      as [H|H]; [apply orLeast_number..| |done].
    exfalso. apply Hn. right. split; [done|]. right. by split.
  - intros a b c. rewrite !rankCompareNumeric_le.
    intros [?|[E1 [?|[E2 H1]]]] [?|[E1' [?|[E2' H2]]]]; try (left; lia);
      try (right; split; [lia|left; lia]).
    right. split; [lia|]. right. split; [lia|].
    by apply (ge_numbers_trans _ _ _ H1 H2).
Qed.

Lemma rankCompare_le (a b : TraderStats) :
  totalVolume a <> NaN -> totalVolume b <> NaN ->
  rankCompare a b <= 0 <-> ranksBefore a b.
Proof.
  intros Ha Hb. rewrite rankCompare_numeric, rankCompareNumeric_le by done.
  unfold ranksBefore. by rewrite !orLeast_id.
Qed.

Lemma tied_compare (t a b : TraderStats) :
  tied t a = true -> tied t b = true -> rankCompareNumeric a b <= 0.
Proof.
  unfold tied. intros Ha Hb.
  apply andb_prop in Ha as [[[Ha1 Ha2]%andb_prop Ha3]%andb_prop Ha4].
  apply andb_prop in Hb as [[[Hb1 Hb2]%andb_prop Hb3]%andb_prop Hb4].
  apply Z.eqb_eq in Ha1, Ha2, Hb1, Hb2.
  apply rankCompareNumeric_le. right. split; [congruence|]. right.
  split; [congruence|].
  assert (Hna : totalVolume a <> NaN) by (intros E; by rewrite E in Ha3).
  assert (Hnb : totalVolume b <> NaN) by (intros E; by rewrite E in Hb3).
  rewrite !orLeast_id by done. by apply (ge_numbers_trans _ _ _ Ha3 Hb4).
Qed.

Lemma filter_all_true {A : Type} (f : A -> bool) (l : list A) :
  Forall (fun x => f x = true) l -> List.filter f l = l.
Proof.
  induction 1 as [|x l Hx Hl IH]; simpl; [done|]. by rewrite Hx, IH.
Qed.

(** With total volumes that are numbers [rankTraders] sorts by the
    comparator on numbers. *)
Lemma rankTraders_numeric MIN_FIRST_COUNT (traderStats : JsMap.t TraderStats) :
  Forall (fun t => totalVolume t <> NaN)
    (List.filter (qualifies MIN_FIRST_COUNT) (values traderStats)) ->
  rankTraders MIN_FIRST_COUNT traderStats
  = sort rankCompareNumeric
      (List.filter (qualifies MIN_FIRST_COUNT) (values traderStats)).
Proof.
  intros Hnum. unfold rankTraders. apply sort_ext_on. intros x y Hx Hy.
  rewrite Forall_forall in Hnum. apply rankCompare_numeric; by apply Hnum.
Qed.

End RankerFacts.

(** * The ranker against its specification *)

Module RankerSpec.
Import JsArray JsMap JsArrayFacts JsMapFacts FindLeaders RankerFacts.

(** C6, as the code has it.  [rankTraders] keeps a trader if and only if
    [timesFirst >= MIN_FIRST_COUNT] or [timesInTopN >= 2 * MIN_FIRST_COUNT],
    once for each time the trader occurs among the values.  When the total
    volume of every kept trader is a number, the kept traders are in
    descending order of [timesFirst], then of [timesInTopN], then of
    [totalVolume]; traders equal on the three keys keep their relative
    order; and ranking the ranked traders again changes nothing. *)
Theorem C6_rankTraders (MIN_FIRST_COUNT : Z) (traderStats : JsMap.t TraderStats) :
  let kept := List.filter (qualifies MIN_FIRST_COUNT) (values traderStats) in
  let ranked := rankTraders MIN_FIRST_COUNT traderStats in
  (forall t, t ∈ ranked <->
     t ∈ values traderStats /\
     (MIN_FIRST_COUNT <= timesFirst t \/ 2 * MIN_FIRST_COUNT <= timesInTopN t)) /\
  ranked ≡ₚ kept /\
  (Forall (fun t => totalVolume t <> JsNum.NaN) kept ->
   (forall i j a b,
      (i < j)%nat -> ranked !! i = Some a -> ranked !! j = Some b ->
      timesFirst b < timesFirst a \/
      (timesFirst b = timesFirst a /\
       (timesInTopN b < timesInTopN a \/
        (timesInTopN b = timesInTopN a /\
         JsNum.ge (totalVolume a) (totalVolume b) = true)))) /\
   (forall t, List.filter (tied t) ranked = List.filter (tied t) kept) /\
   sort rankCompare (List.filter (qualifies MIN_FIRST_COUNT) ranked) = ranked).
Proof.
  cbv zeta. split_and!.
  - intros t. unfold rankTraders.
    rewrite elem_of_sort, list_elem_of_In, filter_In, <- list_elem_of_In.
    unfold qualifies. rewrite orb_true_iff, !Z.leb_le.
    split; (intros [? [?|?]]; (split; [done|]); [left; lia|right; lia]).
  - apply sort_perm.
  - intros Hnum. rewrite (rankTraders_numeric _ _ Hnum).
    set (kept := List.filter (qualifies MIN_FIRST_COUNT) (values traderStats)) in *.
    assert (Hin : forall t, t ∈ sort rankCompareNumeric kept ->
                            totalVolume t <> JsNum.NaN).
    { intros t Ht. rewrite Forall_forall in Hnum. apply Hnum.
      by apply elem_of_sort in Ht. }
    pose proof (sort_sorts rankCompareNumeric rankCompareNumeric_consistent kept)
      as Hs.
    split_and!.
    + intros i j a b Hij Hi Hj.
      pose proof (StronglySorted_lookup _ _ _ _ _ _ Hs Hij Hi Hj) as Hab.
      simpl in Hab.
      assert (Ha : totalVolume a <> JsNum.NaN)
        by (apply Hin, list_elem_of_lookup; by exists i).
      assert (Hb : totalVolume b <> JsNum.NaN)
        by (apply Hin, list_elem_of_lookup; by exists j).
      rewrite <- rankCompare_numeric in Hab by done.
      by apply rankCompare_le in Hab.
    + intros t. apply sort_stable. intros x y. apply tied_compare.
    + rewrite filter_all_true.
      * rewrite (sort_ext_on rankCompare rankCompareNumeric).
        -- apply sort_idempotent, rankCompareNumeric_consistent.
        -- intros x y Hx Hy. apply rankCompare_numeric; by apply Hin.
      * apply Forall_forall. intros t Ht. apply elem_of_sort in Ht.
        apply list_elem_of_In, filter_In in Ht. apply Ht.
Qed.

(** Three traders whose total volumes are numbers are ranked by them. *)
Lemma C6_rankTraders_witness :
  Forall (fun t => totalVolume t <> JsNum.NaN)
    (List.filter (qualifies 1) (values (analyzeMarkets 5 numericFetched))) /\
  (totalVolume <$> rankTraders 1 (analyzeMarkets 5 numericFetched))
  = [JsNum.Fin 3; JsNum.Fin 2; JsNum.Fin 1] /\
  forall i j a b,
    (i < j)%nat ->
    rankTraders 1 (analyzeMarkets 5 numericFetched) !! i = Some a ->
    rankTraders 1 (analyzeMarkets 5 numericFetched) !! j = Some b ->
    timesFirst b < timesFirst a \/
    (timesFirst b = timesFirst a /\
     (timesInTopN b < timesInTopN a \/
      (timesInTopN b = timesInTopN a /\
       JsNum.ge (totalVolume a) (totalVolume b) = true))).
Proof.
  assert (H : Forall (fun t => totalVolume t <> JsNum.NaN)
                (List.filter (qualifies 1)
                   (values (analyzeMarkets 5 numericFetched))))
    by (vm_compute; repeat constructor; discriminate).
  split_and!; [exact H|by vm_compute|].
  exact (proj1 (proj2 (proj2 (C6_rankTraders 1 (analyzeMarkets 5 numericFetched))) H)).
Defined.

(** C6 as stated fails: the usd value of a trade whose size or price is
    missing or not numeric is [NaN], it makes the trader's total volume
    [NaN], and the comparator then ties that trader with everyone on the
    third key.  Of three traders equal on the first two keys, the one with
    total volume 1 is ranked before the one with total volume 2. *)
Lemma C6_volume_counterexample :
  ((fun t => (address t, timesFirst t, timesInTopN t, totalVolume t))
     <$> rankTraders 1 (analyzeMarkets 5 nanFetched))
  = [ ("0xaaa", 1, 1, JsNum.Fin 1); ("0xbbb", 1, 1, JsNum.NaN);
      ("0xccc", 1, 1, JsNum.Fin 2) ] /\
  ~ (forall i j a b,
       (i < j)%nat ->
       rankTraders 1 (analyzeMarkets 5 nanFetched) !! i = Some a ->
       rankTraders 1 (analyzeMarkets 5 nanFetched) !! j = Some b ->
       timesFirst b < timesFirst a \/
       (timesFirst b = timesFirst a /\
        (timesInTopN b < timesInTopN a \/
         (timesInTopN b = timesInTopN a /\
          JsNum.ge (totalVolume a) (totalVolume b) = true)))).
Proof.
  split; [by vm_compute|]. intros H.
  destruct (rankTraders 1 (analyzeMarkets 5 nanFetched)) as [|a [|n [|b l]]] eqn:E;
    try (vm_compute in E; discriminate).
  specialize (H 0%nat 2%nat a b (Nat.lt_0_succ _) eq_refl eq_refl).
  vm_compute in E. injection E as <- _ <- _. simpl in H.
  destruct H as [H|[_ [H|[_ H]]]]; [lia|lia|discriminate].
Qed.

End RankerSpec.

(** * Empty results *)

Module EmptyResultSpec.
Import JsArray JsMap JsArrayFacts JsMapFacts.

(** C8.  The matcher raises no exception and returns an array, which is
    empty when no condition has a pair of participants within the window;
    the ranker returns an array, which is empty when no trader passes the
    threshold. *)
Theorem C8_empty_results :
  (forall TIME_WINDOW_HOURS (traderData : list CompareTraders.TraderTrades),
     exists matched,
       CompareTraders.findMatchingTrades TIME_WINDOW_HOURS traderData = Some matched /\
       ((forall cid (traderMap : JsMap.t (list CompareTraders.Trade)) firsts i j t1 t2,
           (cid, traderMap) ∈ CompareTraders.groupTrades traderData ->
           2 <= JsMap.size traderMap ->
           mapM CompareTraders.firstTradeEntry traderMap = Some firsts ->
           (i < j)%nat -> firsts !! i = Some t1 -> firsts !! j = Some t2 ->
           TIME_WINDOW_HOURS * 3600
           < Z.abs (CompareTraders.tf_timestamp t2 - CompareTraders.tf_timestamp t1)) ->
        matched = [])) /\
  (forall MIN_FIRST_COUNT (traderStats : JsMap.t FindLeaders.TraderStats),
     (forall t, t ∈ values traderStats ->
        FindLeaders.timesFirst t < MIN_FIRST_COUNT /\
        FindLeaders.timesInTopN t < 2 * MIN_FIRST_COUNT) ->
     FindLeaders.rankTraders MIN_FIRST_COUNT traderStats = []) /\
  CompareTraders.findMatchingTrades 1 CompareTraders.scenarioFar = Some [] /\
  FindLeaders.rankTraders 3 FindLeaders.fewFirsts = [].
Proof.
  split_and!; [| |by vm_compute..].
  - intros W traderData.
    destruct (CompareTradersFacts.findMatchingTrades_is_Some W traderData)
      as [matched Hf].
    exists matched. split; [done|]. intros Hfar.
    destruct matched as [|m rest]; [done|]. exfalso.
    assert (Hm : m ∈ m :: rest) by (by left).
    destruct (CompareTradersFacts.findMatchingTrades_origin _ _ _ _ Hf Hm)
      as (tm & He & Hsz & Hfirsts & Hdiffs).
    destruct (CompareTradersFacts.findMatchingTrades_of_condition
                _ _ _ _ _ _ _ Hf He Hfirsts Hm eq_refl) as (_ & _ & _ & Hne).
    rewrite Hdiffs in Hne.
    apply CompareTradersFacts.pairDiffs_nonempty in Hne
      as (i & j & t1 & t2 & Hij & Hi & Hj & Hw).
    specialize (Hfar _ _ _ i j t1 t2 He Hsz Hfirsts Hij Hi Hj). lia.
  - intros MIN traderStats Hnone. unfold FindLeaders.rankTraders.
    rewrite CompareTradersFacts.filter_nil_of_forall; [done|].
    intros t Ht. destruct (Hnone t Ht) as [H1 H2]. unfold FindLeaders.qualifies.
    apply orb_false_iff. split; apply Z.leb_gt; lia.
Qed.

End EmptyResultSpec.

(** * The matcher over the store of arrays *)

Module HeapFacts.
Import JsArray JsMap JsArrayFacts JsMapFacts CompareTraders CompareTradersHeap.

Lemma step_refl n0 h : step n0 h h.
Proof. split_and!; [done|done|]. intros l a Hl Ha. by exists a. Qed.

Lemma step_trans n0 h1 h2 h3 : step n0 h1 h2 -> step n0 h2 h3 -> step n0 h1 h3.
Proof.
  intros (L1 & F1 & N1) (L2 & F2 & N2). split_and!.
  - lia.
  - intros l Hl. by rewrite F2, F1.
  - intros l a Hl Ha. destruct (N1 l a Hl Ha) as (a' & Hl' & Ha'). by apply (N2 l a').
Qed.

Lemma step_insert n0 (h : heap) l a a' :
  (n0 <= l)%nat -> h !! l = Some a -> a' <> [] -> step n0 h (<[l := a']> h).
Proof.
  intros Hl Ha Ha'. split_and!.
  - by rewrite length_insert.
  - intros l' Hl'. apply list_lookup_insert_ne. lia.
  - intros l' b Hb Hne. destruct (decide (l = l')) as [<-|Hd].
    + exists a'. split; [|done]. apply list_lookup_insert_eq.
      by apply lookup_lt_Some in Ha.
    + exists b. by rewrite list_lookup_insert_ne.
Qed.

Lemma locsOk_step n0 h h' m : locsOk n0 h m -> step n0 h h' -> locsOk n0 h' m.
Proof.
  intros Hm (_ & _ & Hne). eapply Forall_impl; [exact Hm|].
  intros [k l] [Hl (a & Ha & Hnil)]. split; [done|]. by apply (Hne l a).
Qed.

Lemma ok_ret {A : Type} n0 (a : A) (Q : A -> heap -> Prop) h : Q a h -> ok n0 (ret a) Q h.
Proof. intros HQ. exists a, h. split_and!; [done|apply step_refl|done]. Qed.

Lemma ok_bind {A B : Type} n0 (c : M A) (k : A -> M B)
    (Q : A -> heap -> Prop) (R : B -> heap -> Prop) h :
  ok n0 c Q h ->
  (forall a h1, step n0 h h1 -> Q a h1 -> ok n0 (k a) R h1) ->
  ok n0 (bind c k) R h.
Proof.
  intros (a & h1 & Hc & Hs & HQ) Hk.
  destruct (Hk a h1 Hs HQ) as (b & h2 & Hkb & Hs2 & HR).
  exists b, h2. unfold bind. rewrite Hc. split_and!; [done| |done].
  by apply step_trans with h1.
Qed.

Lemma ok_lift {A : Type} n0 (o : option A) (a : A) h :
  o = Some a -> ok n0 (lift o) (fun a' h' => a' = a /\ h' = h) h.
Proof. intros ->. exists a, h. split_and!; [done|apply step_refl|done..]. Qed.

Lemma ok_readArray n0 (l : loc) (a : list Trade) (h : heap) :
  h !! l = Some a -> ok n0 (readArray l) (fun a' h' => a' = a /\ h' = h) h.
Proof.
  intros Hl. exists a, h. unfold readArray. rewrite Hl.
  split_and!; [done|apply step_refl|done..].
Qed.

Lemma ok_weaken {A : Type} n0 (c : M A) (Q Q' : A -> heap -> Prop) h :
  ok n0 c Q h -> (forall a h', step n0 h h' -> Q a h' -> Q' a h') -> ok n0 c Q' h.
Proof.
  intros (a & h' & Hc & Hs & HQ) HQQ. exists a, h'. split_and!; [done..|].
  by apply HQQ.
Qed.

Lemma ok_foldM {A B : Type} n0 (f : A -> B -> M A) (l : list B)
    (G : heap -> Prop) (I : A -> heap -> Prop) :
  (forall h h', G h -> step n0 h h' -> G h') ->
  (forall a x h, x ∈ l -> G h -> I a h -> ok n0 (f a x) I h) ->
  forall a h, G h -> I a h -> ok n0 (foldM f a l) I h.
Proof.
  intros HG Hf. induction l as [|x r IH]; intros a h Gh Ia; simpl.
  - by apply ok_ret.
  - eapply ok_bind.
    + apply Hf; [by left|done..].
    + intros a' h1 Hs Ia'. apply IH; [|by apply (HG h)|done].
      intros a0 x0 h0 Hx0. apply Hf. by right.
Qed.

Lemma ok_forM {A B : Type} n0 (f : A -> M B) (l : list A) (G : heap -> Prop) :
  (forall h h', G h -> step n0 h h' -> G h') ->
  (forall x h, x ∈ l -> G h -> ok n0 (f x) (fun _ _ => True) h) ->
  forall h, G h -> ok n0 (forM f l) (fun _ _ => True) h.
Proof.
  intros HG Hf. induction l as [|x r IH]; intros h Gh; simpl.
  - by apply ok_ret.
  - eapply ok_bind.
    + apply Hf; [by left|done].
    + intros y h1 Hs _. eapply ok_bind.
      * apply IH; [|by apply (HG h)].
        intros x0 h0 Hx0. apply Hf. by right.
      * intros ys h2 _ _. by apply ok_ret.
Qed.

Lemma Forall_ensure {V : Type} (P : string * V -> Prop) k d (m : JsMap.t V) :
  Forall P m -> P (k, d) -> Forall P (ensure k d m).
Proof.
  intros Hm Hd. unfold ensure. destruct (has k m) eqn:E; [done|].
  apply has_false in E. rewrite set_absent by done.
  apply Forall_app. split; [done|]. by constructor.
Qed.

Lemma Forall_set {V : Type} (P : string * V -> Prop) k v (m : JsMap.t V) :
  Forall P m -> P (k, v) -> Forall P (set k v m).
Proof.
  intros Hm Hv. induction m as [|[k' v'] r IH]; simpl; [by constructor|].
  apply Forall_cons in Hm as [Hh Ht].
  destruct (String.eqb_spec k k') as [->|]; constructor; try done. by apply IH.
Qed.

(** ** Arrays seen through the maps *)

Lemma arrayAt_insert_ne (h : heap) l l' y :
  l <> l' -> arrayAt (<[l := y]> h) l' = arrayAt h l'.
Proof. intros Hne. unfold arrayAt. by rewrite list_lookup_insert_ne. Qed.

Lemma arrayAt_insert_eq (h : heap) l y :
  (l < length h)%nat -> arrayAt (<[l := y]> h) l = y.
Proof. intros Hl. unfold arrayAt. by rewrite list_lookup_insert_eq. Qed.

Lemma arrayAt_Some (h : heap) l a : h !! l = Some a -> arrayAt h l = a.
Proof. unfold arrayAt. by intros ->. Qed.

Lemma view_agree (h h' : heap) (m : JsMap.t loc) :
  (forall x, x ∈ m.*2 -> h' !! x = h !! x) -> view h' m = view h m.
Proof.
  intros H. apply mapValues_ext. intros e He. unfold arrayAt.
  rewrite H; [done|]. apply list_elem_of_fmap. by exists e.
Qed.

Lemma locsOf_elem (g : JsMap.t (JsMap.t loc)) e x :
  e ∈ g -> x ∈ e.2.*2 -> x ∈ locsOf g.
Proof. intros He Hx. unfold locsOf. apply list_elem_of_bind. by exists e. Qed.

Lemma views_agree (h h' : heap) (g : JsMap.t (JsMap.t loc)) :
  (forall x, x ∈ locsOf g -> h' !! x = h !! x) -> views h' g = views h g.
Proof.
  intros H. apply mapValues_ext. intros e He. apply view_agree.
  intros x Hx. apply H. by apply locsOf_elem with e.
Qed.

(** Writing the array of [k] shows as setting [k] in the view. *)
Lemma view_insert (h : heap) l y k (m : JsMap.t loc) :
  NoDup m.*2 -> get k m = Some l -> (l < length h)%nat ->
  view (<[l := y]> h) m = set k y (view h m).
Proof.
  intros Hnd Hk Hl. induction m as [|[k' x] r IH]; [done|].
  rewrite fmap_cons in Hnd. apply NoDup_cons in Hnd as [Hx Hnd]. simpl in *.
  destruct (String.eqb_spec k k') as [->|Hne].
  - injection Hk as ->. unfold view, mapValues. simpl.
    rewrite arrayAt_insert_eq by done. f_equal.
    apply mapValues_ext. intros e He. apply arrayAt_insert_ne.
    intros ->. apply Hx. apply list_elem_of_fmap.
    exists e. split; [reflexivity|exact He].
  - unfold view, mapValues in *. simpl.
    rewrite arrayAt_insert_ne.
    + f_equal. by apply IH.
    + intros ->. apply Hx. apply get_Some_elem in Hk.
      apply list_elem_of_fmap. by exists (k, x).
Qed.

Lemma locsOf_ensure cid (g : JsMap.t (JsMap.t loc)) :
  locsOf (ensure cid [] g) = locsOf g.
Proof.
  unfold ensure. destruct (has _ _) eqn:E; [done|].
  apply has_false in E. rewrite set_absent by done.
  unfold locsOf. rewrite bind_app. simpl. by rewrite app_nil_r.
Qed.

Lemma locsOf_set_new cid addr l (cm : JsMap.t loc) (g : JsMap.t (JsMap.t loc)) :
  get cid g = Some cm ->
  locsOf (set cid (cm ++ [(addr, l)]) g) ≡ₚ l :: locsOf g.
Proof.
  induction g as [|[k' v'] r IH]; simpl; [done|].
  destruct (String.eqb_spec cid k') as [->|Hne].
  - intros [= ->]. unfold locsOf. rewrite !bind_cons. simpl.
    rewrite fmap_app. simpl. rewrite <- app_assoc. simpl.
    symmetry. apply Permutation_middle.
  - intros H. unfold locsOf in *. rewrite !bind_cons. simpl.
    rewrite IH by done. symmetry. apply Permutation_middle.
Qed.

(** The maps of two conditions hold different arrays. *)
Lemma separate_disjoint (g : JsMap.t (JsMap.t loc)) e e' x :
  separate g -> e ∈ g -> e' ∈ g -> e.1 <> e'.1 ->
  x ∈ e.2.*2 -> x ∉ e'.2.*2.
Proof.
  intros [_ Hnd]. unfold locsOf in Hnd.
  induction g as [|e0 r IH]; [by intros ?%not_elem_of_nil|].
  rewrite bind_cons in Hnd. apply NoDup_app in Hnd as (_ & Hdis & Hnd).
  intros [->|He]%elem_of_cons [->|He']%elem_of_cons Hne Hx Hx'.
  - done.
  - apply (Hdis x Hx). apply list_elem_of_bind. by exists e'.
  - apply (Hdis x Hx'). apply list_elem_of_bind. by exists e.
  - by apply (IH Hnd He He' Hne Hx).
Qed.

Lemma storeOk_lt n0 (g : JsMap.t (JsMap.t loc)) (h : heap) x :
  storeOk n0 g h -> x ∈ locsOf g -> (x < length h)%nat.
Proof.
  intros [_ Hg] Hx. unfold locsOf in Hx.
  apply list_elem_of_bind in Hx as (e & Hx & He).
  rewrite Forall_forall in Hg. specialize (Hg e He). unfold locsOk in Hg.
  rewrite Forall_forall in Hg. apply list_elem_of_fmap in Hx as (b & -> & Hb).
  destruct (Hg b Hb) as [_ (a & Ha & _)]. by apply lookup_lt_Some in Ha.
Qed.

(** ** The grouping pass *)

Lemma storeOk_step n0 g h h' : storeOk n0 g h -> step n0 h h' -> storeOk n0 g h'.
Proof.
  intros [Hn Hg] Hs. split; [destruct Hs; lia|].
  eapply Forall_impl; [exact Hg|]. intros e He. by apply locsOk_step with h.
Qed.

(** One trade: the maps stay well formed and separate, and seen as maps
    of arrays they change as in [CompareTraders.groupTrade]. *)
Lemma groupTrade_store n0 addr g trade h :
  storeOk n0 g h -> separate g ->
  ok n0 (CompareTradersHeap.groupTrade addr g trade)
    (fun g' h' => storeOk n0 g' h' /\ separate g' /\
                  views h' g' = CompareTraders.groupTrade addr (views h g) trade)
    h.
Proof.
  intros [Hn Hg] [Hkeys Hlocs]. unfold CompareTradersHeap.groupTrade.
  set (cid := conditionId trade).
  set (g1 := ensure cid [] g).
  assert (Hg1 : Forall (fun e => locsOk n0 h e.2) g1).
  { apply Forall_ensure; [done|]. constructor. }
  assert (Hsep1 : separate g1).
  { split; [by apply NoDup_keys_ensure|]. unfold g1. by rewrite locsOf_ensure. }
  assert (Hok1 : storeOk n0 g1 h) by done.
  destruct (get cid g1) as [cm|] eqn:Ecm;
    [|unfold g1 in Ecm; by rewrite get_ensure in Ecm].
  pose proof (get_Some_elem _ _ _ Ecm) as Hcmin.
  assert (Hcm : locsOk n0 h cm).
  { rewrite Forall_forall in Hg1. by apply (Hg1 _ Hcmin). }
  assert (Hpure : CompareTraders.groupTrade addr (views h g) trade
                  = set cid (mutate addr (fun arr => arr ++ [trade])
                               (ensure addr [] (view h cm)))
                      (views h g1)).
  { unfold CompareTraders.groupTrade. fold cid.
    assert (Hens : ensure cid [] (views h g) = views h g1).
    { unfold views, g1. by rewrite <- ensure_mapValues. }
    rewrite Hens.
    apply (mutate_set cid
             (fun conditionMap =>
                mutate addr (fun arr => arr ++ [trade]) (ensure addr [] conditionMap))
             (view h cm)).
    unfold views. by rewrite get_mapValues, Ecm. }
  rewrite Hpure. clear Hpure.
  assert (Hcmnd : NoDup cm.*2).
  { destruct Hsep1 as [_ Hl1]. unfold locsOf in Hl1.
    apply list_elem_of_lookup in Hcmin as [i Hi].
    apply (take_drop_middle g1 i) in Hi. rewrite <- Hi in Hl1.
    rewrite bind_app, bind_cons in Hl1.
    apply NoDup_app in Hl1 as (_ & _ & Hl1). by apply NoDup_app in Hl1 as (? & _). }
  unfold bind at 1. unfold lift at 1.
  destruct (has addr cm) eqn:Ehas.
  - apply has_true in Ehas as [l El].
    unfold bind, ret, lift, push. rewrite El.
    pose proof (get_Some_elem _ _ _ El) as Hin.
    pose proof Hcm as Hcm'. unfold locsOk in Hcm'. rewrite Forall_forall in Hcm'.
    destruct (Hcm' _ Hin) as [Hl (a & Ha & Hne)]. simpl in *.
    set (h' := <[l := a ++ [trade]]> h).
    assert (Hs : step n0 h h').
    { apply step_insert with a; [done..|]. by destruct a. }
    exists (set cid cm g1), h'.
    split_and!; [by rewrite Ha|done| | |].
    + apply storeOk_step with h; [|done]. split; [done|].
      apply Forall_set; [done|]. by apply Forall_forall.
    + by rewrite set_get_id.
    + unfold views at 1. rewrite <- set_mapValues. fold (views h' g1).
      assert (Hl' : (l < length h)%nat) by (by apply lookup_lt_Some in Ha).
      unfold h' at 1. rewrite (view_insert h l _ addr cm Hcmnd El Hl').
      assert (Hens : ensure addr [] (view h cm) = view h cm).
      { unfold ensure. unfold view at 1. rewrite has_mapValues.
        assert (has addr cm = true) as -> by (apply has_true; by eexists). done. }
      rewrite Hens.
      assert (Hget : get addr (view h cm) = Some a).
      { unfold view. rewrite get_mapValues, El. simpl.
        by rewrite (arrayAt_Some _ _ _ Ha). }
      rewrite (mutate_set addr (fun arr => arr ++ [trade]) a _ Hget).
      unfold views. apply set_mapValues_agree; [apply Hsep1|].
      intros e He Hne'. apply view_agree. intros x Hx. unfold h'.
      apply list_lookup_insert_ne. intros <-.
      apply (separate_disjoint g1 (cid, cm) e l Hsep1 Hcmin He);
        [simpl; congruence| |done].
      simpl. apply list_elem_of_fmap. by exists (addr, l).
  - apply has_false in Ehas.
    unfold bind, ret, lift, push, newArray.
    set (l := length h).
    set (h' := <[l := [] ++ [trade]]> (h ++ [[]])).
    assert (Hs : step n0 h h').
    { unfold h'. split_and!.
      - rewrite length_insert, length_app. simpl. lia.
      - intros x Hx. rewrite list_lookup_insert_ne by (unfold l; lia).
        apply lookup_app_l. lia.
      - intros x a Hx Ha. exists a. split; [|done].
        pose proof (lookup_lt_Some _ _ _ Hx).
        rewrite list_lookup_insert_ne by (unfold l; lia). by rewrite lookup_app_l. }
    assert (Hold : forall x, (x < length h)%nat -> h' !! x = h !! x).
    { intros x Hx. unfold h'. rewrite list_lookup_insert_ne by (unfold l; lia).
      by apply lookup_app_l. }
    assert (Hset : set addr l cm = cm ++ [(addr, l)]) by (by apply set_absent).
    exists (set cid (set addr l cm) g1), h'.
    split_and!; [|done| | |].
    + cbv beta. rewrite get_set. unfold l.
      by rewrite lookup_app_r, Nat.sub_diag by done.
    + split; [destruct Hs; lia|].
      apply Forall_set.
      * eapply Forall_impl; [exact Hg1|]. intros e He. by apply locsOk_step with h.
      * simpl. apply Forall_set; [by apply locsOk_step with h|]. simpl.
        split; [unfold l; lia|]. exists [trade]. split; [|done].
        unfold h'. apply list_lookup_insert_eq. rewrite length_app. simpl.
        unfold l. lia.
    + split; [apply NoDup_keys_set, Hsep1|].
      rewrite Hset, (locsOf_set_new cid addr l cm g1 Ecm).
      apply NoDup_cons. split; [|apply Hsep1].
      intros Hin. apply (storeOk_lt n0 g1 h l Hok1) in Hin. unfold l in Hin. lia.
    + unfold views at 1. rewrite <- set_mapValues. fold (views h' g1).
      assert (Hv : view h' (set addr l cm)
                   = mutate addr (fun arr => arr ++ [trade])
                       (ensure addr [] (view h cm))).
      { rewrite mutate_ensure. unfold view at 2. rewrite has_mapValues.
        assert (has addr cm = false) as -> by (by apply has_false).
        rewrite Hset. unfold view, mapValues. rewrite fmap_app. simpl.
        f_equal.
        - apply (view_agree h h' cm). intros x Hx. apply Hold.
          apply (storeOk_lt n0 g1 h x Hok1). by apply locsOf_elem with (cid, cm).
        - unfold h'. by rewrite arrayAt_insert_eq
            by (rewrite length_app; simpl; unfold l; lia). }
      rewrite Hv. f_equal. apply views_agree.
      intros x Hx. apply Hold. by apply (storeOk_lt n0 g1 h x Hok1).
Qed.

Lemma groupTrade_fold n0 addr (l : list Trade) :
  forall g h,
    storeOk n0 g h -> separate g ->
    ok n0 (foldM (CompareTradersHeap.groupTrade addr) g l)
      (fun g' h' => storeOk n0 g' h' /\ separate g' /\
                    views h' g' = foldl (CompareTraders.groupTrade addr) (views h g) l)
      h.
Proof.
  induction l as [|t l IH]; intros g h Hok Hsep; simpl.
  - by apply ok_ret.
  - eapply ok_bind; [by apply groupTrade_store|].
    intros g1 h1 _ (Hok1 & Hsep1 & <-). by apply IH.
Qed.

Lemma groupTrader_store n0 (h0 : heap) g tr h :
  (n0 <= length h0)%nat -> step n0 h0 h -> (r_trades tr < n0)%nat ->
  storeOk n0 g h -> separate g ->
  ok n0 (CompareTradersHeap.groupTrader g tr)
    (fun g' h' => storeOk n0 g' h' /\ separate g' /\
                  views h' g' = CompareTraders.groupTrader (views h g) (deref h0 tr))
    h.
Proof.
  intros Hn (_ & Hframe & _) Hl Hok Hsep. unfold CompareTradersHeap.groupTrader.
  destruct (lookup_lt_is_Some_2 h0 (r_trades tr)) as [arr Harr]; [lia|].
  eapply ok_bind.
  { apply ok_readArray. rewrite Hframe by done. exact Harr. }
  intros a h1 _ [-> ->]. unfold CompareTraders.groupTrader, deref. simpl.
  rewrite (arrayAt_Some _ _ _ Harr). by apply groupTrade_fold.
Qed.

Lemma groupTrader_fold n0 (h0 : heap) (traderData : list TraderTradesRef) :
  (n0 <= length h0)%nat ->
  Forall (fun tr => (r_trades tr < n0)%nat) traderData ->
  forall g h,
    step n0 h0 h -> storeOk n0 g h -> separate g ->
    ok n0 (foldM CompareTradersHeap.groupTrader g traderData)
      (fun g' h' => storeOk n0 g' h' /\ separate g' /\
                    views h' g'
                    = foldl CompareTraders.groupTrader (views h g)
                        (deref h0 <$> traderData))
      h.
Proof.
  intros Hn Hin. induction Hin as [|tr l Htr Hl IH]; intros g h Hs Hok Hsep; simpl.
  - by apply ok_ret.
  - eapply ok_bind; [by apply (groupTrader_store n0 h0)|].
    intros g1 h1 Hs1 (Hok1 & Hsep1 & <-). apply IH; [|done..].
    by apply step_trans with h.
Qed.

Lemma groupTrades_store (traderData : list TraderTradesRef) (h : heap) :
  Forall (fun tr => (r_trades tr < length h)%nat) traderData ->
  ok (length h) (CompareTradersHeap.groupTrades traderData)
    (fun g' h' => storeOk (length h) g' h' /\ separate g' /\
                  views h' g' = CompareTraders.groupTrades (deref h <$> traderData))
    h.
Proof.
  intros Hin. unfold CompareTradersHeap.groupTrades, CompareTraders.groupTrades.
  apply (groupTrader_fold (length h) h traderData); [done|done|apply step_refl| |].
  - split; [done|constructor].
  - split; constructor.
Qed.

(** ** The matching pass *)

Lemma mapM_cons_Some {A B : Type} (f : A -> option B) x l y ys :
  f x = Some y -> mapM f l = Some ys -> mapM f (x :: l) = Some (y :: ys).
Proof. intros Hx Hl. simpl. rewrite Hx. simpl. by rewrite Hl. Qed.

Lemma firstTradeEntry_store n0 (e : string * loc) (h : heap) :
  (n0 <= e.2)%nat -> (exists a, h !! e.2 = Some a /\ a <> []) ->
  ok n0 (CompareTradersHeap.firstTradeEntry e)
    (fun t h' =>
       CompareTraders.firstTradeEntry (e.1, arrayAt h e.2) = Some t /\
       h' = <[e.2 := sort byTimestamp (arrayAt h e.2)]> h)
    h.
Proof.
  intros Hl (a & Ha & Hne).
  unfold CompareTradersHeap.firstTradeEntry, CompareTraders.firstTradeEntry.
  unfold bind, sortInPlace, lift, ret. rewrite (arrayAt_Some _ _ _ Ha). simpl.
  destruct (sort_head_is_Some byTimestamp a Hne) as [x Hx].
  eexists _, (<[e.2 := sort byTimestamp a]> h).
  split_and!; [by rewrite Ha, Hx| |by rewrite Hx|done].
  apply step_insert with a; [done..|]. intros E. by apply sort_nil_inv in E.
Qed.

(** The first trades of one condition: each array is sorted where it is,
    and the entries are those of [CompareTraders.firstTradeEntry] on the
    arrays as they were. *)
Lemma firstEntries_store n0 (traderMap : JsMap.t loc) :
  forall h : heap,
    NoDup traderMap.*2 -> locsOk n0 h traderMap ->
    ok n0 (forM CompareTradersHeap.firstTradeEntry traderMap)
      (fun firsts h' =>
         mapM CompareTraders.firstTradeEntry (view h traderMap) = Some firsts /\
         forall x, x ∉ traderMap.*2 -> h' !! x = h !! x)
      h.
Proof.
  induction traderMap as [|[k l] r IH]; intros h Hnd Hok.
  - by apply ok_ret.
  - cbn [forM]. rewrite fmap_cons in Hnd. apply NoDup_cons in Hnd as [Hl Hnd].
    apply Forall_cons in Hok as [[Hn Ha] Hok]. simpl in *.
    eapply ok_bind; [by apply (firstTradeEntry_store n0 (k, l))|].
    intros t h1 Hs [Ht ->]. simpl in *. eapply ok_bind.
    + apply IH; [done|]. by apply locsOk_step with h.
    + intros firsts h2 _ [Hfirsts Hframe].
      assert (Hall : mapM CompareTraders.firstTradeEntry
                       ((k, arrayAt h l) :: view h r) = Some (t :: firsts)).
      { apply mapM_cons_Some; [done|].
        rewrite <- (view_agree h (<[l := sort byTimestamp (arrayAt h l)]> h) r);
          [done|].
        intros x Hx. apply list_lookup_insert_ne. by intros ->. }
      apply ok_ret. split; [exact Hall|].
      intros x [Hxl Hxr]%not_elem_of_cons. rewrite Hframe by done.
        by apply list_lookup_insert_ne.
Qed.

Lemma matchCondition_eq TIME_WINDOW_HOURS cid (traderMap : JsMap.t (list Trade))
    a0 arr0 x firsts :
  2 <= JsMap.size traderMap ->
  head (keys traderMap) = Some a0 -> get a0 traderMap = Some arr0 ->
  head arr0 = Some x ->
  mapM CompareTraders.firstTradeEntry traderMap = Some firsts ->
  CompareTraders.matchCondition TIME_WINDOW_HOURS (cid, traderMap)
  = Some (if 0 <? Z.of_nat (length (pairDiffs TIME_WINDOW_HOURS firsts))
          then [ {| m_conditionId := cid;
                    m_market := market x;
                    m_outcome := outcome x;
                    traderTrades := firsts;
                    timeDiffs := pairDiffs TIME_WINDOW_HOURS firsts |} ]
          else []).
Proof.
  intros Hsz Hk Hg Hx Hf. unfold CompareTraders.matchCondition.
  destruct (Z.ltb_spec (JsMap.size traderMap) 2); [lia|].
  rewrite Hk. simpl. rewrite Hg. simpl. rewrite Hx. simpl. by rewrite Hf.
Qed.

Lemma matchCondition_store n0 TIME_WINDOW_HOURS cid (traderMap : JsMap.t loc)
    (h : heap) :
  NoDup traderMap.*2 -> locsOk n0 h traderMap ->
  ok n0 (CompareTradersHeap.matchCondition TIME_WINDOW_HOURS (cid, traderMap))
    (fun out h' =>
       CompareTraders.matchCondition TIME_WINDOW_HOURS (cid, view h traderMap)
       = Some out /\
       forall x, x ∉ traderMap.*2 -> h' !! x = h !! x)
    h.
Proof.
  intros Hnd Hok. unfold CompareTradersHeap.matchCondition.
  destruct (Z.ltb_spec (JsMap.size traderMap) 2) as [Hlt|Hge].
  { apply ok_ret. split; [|done]. unfold CompareTraders.matchCondition, view.
    rewrite size_mapValues. by destruct (Z.ltb_spec (JsMap.size traderMap) 2); [|lia]. }
  assert (exists a0 l0 arr0 x, head (keys traderMap) = Some a0 /\
            get a0 traderMap = Some l0 /\ h !! l0 = Some arr0 /\ head arr0 = Some x)
    as (a0 & l0 & arr0 & x & Hk & Hg & Harr & Hx).
  { destruct traderMap as [|[a0 l0] r]; [unfold JsMap.size in Hge; simpl in Hge; lia|].
    pose proof Hok as Hok'.
    apply Forall_cons in Hok' as [[_ (arr0 & Harr & Hne)] _]. simpl in *.
    destruct arr0 as [|x arr0]; [done|].
    exists a0, l0, (x :: arr0), x. by rewrite String.eqb_refl. }
  eapply ok_bind; [by apply ok_lift|]. intros ? ? _ [-> ->].
  eapply ok_bind; [by apply ok_lift|]. intros ? ? _ [-> ->].
  eapply ok_bind; [by apply ok_readArray|]. intros ? ? _ [-> ->].
  eapply ok_bind; [by apply ok_lift|]. intros ? ? _ [-> ->].
  eapply ok_bind; [by apply firstEntries_store|].
  intros firsts h1 _ [Hfirsts Hframe]. apply ok_ret. split; [|done].
  apply matchCondition_eq with a0 arr0; [| | |done..].
  - unfold view. by rewrite size_mapValues.
  - unfold view. by rewrite keys_mapValues.
  - unfold view. rewrite get_mapValues, Hg. simpl. by rewrite (arrayAt_Some _ _ _ Harr).
Qed.

Lemma conditions_store n0 TIME_WINDOW_HOURS (g : JsMap.t (JsMap.t loc)) :
  forall h : heap,
    NoDup (locsOf g) -> Forall (fun e => locsOk n0 h e.2) g ->
    ok n0 (forM (CompareTradersHeap.matchCondition TIME_WINDOW_HOURS) g)
      (fun outs h' =>
         mapM (CompareTraders.matchCondition TIME_WINDOW_HOURS) (views h g)
         = Some outs)
      h.
Proof.
  induction g as [|[cid tm] r IH]; intros h Hnd Hok.
  - by apply ok_ret.
  - cbn [forM]. unfold locsOf in Hnd. rewrite bind_cons in Hnd. simpl in Hnd.
    apply NoDup_app in Hnd as (Hndtm & Hdis & Hndr).
    apply Forall_cons in Hok as [Hoktm Hokr]. simpl in *.
    eapply ok_bind; [by apply matchCondition_store|].
    intros out h1 Hs [Hout Hframe]. eapply ok_bind.
    + apply IH; [done|]. eapply Forall_impl; [exact Hokr|].
      intros e He. by apply locsOk_step with h.
    + intros outs h2 _ Houts. simpl in Houts.
      assert (Hall : mapM (CompareTraders.matchCondition TIME_WINDOW_HOURS)
                       ((cid, view h tm) :: views h r) = Some (out :: outs)).
      { apply mapM_cons_Some; [done|].
        rewrite <- (views_agree h h1 r); [done|].
        intros x Hx. apply Hframe. intros Hx'. by apply (Hdis x Hx'). }
      apply ok_ret. exact Hall.
Qed.

(** The run returns what [CompareTraders.findMatchingTrades] returns on
    the arrays as they were. *)
Lemma findMatchingTrades_store TIME_WINDOW_HOURS (traderData : list TraderTradesRef)
    (h : heap) :
  Forall (fun tr => (r_trades tr < length h)%nat) traderData ->
  ok (length h) (CompareTradersHeap.findMatchingTrades TIME_WINDOW_HOURS traderData)
     (fun matched _ =>
        CompareTraders.findMatchingTrades TIME_WINDOW_HOURS (deref h <$> traderData)
        = Some matched)
     h.
Proof.
  intros Hin.
  unfold CompareTradersHeap.findMatchingTrades, CompareTraders.findMatchingTrades.
  eapply ok_bind; [by apply groupTrades_store|].
  intros g h1 _ ([_ Hg] & [_ Hlocs] & <-). eapply ok_bind.
  - by apply conditions_store.
  - intros outs h2 _ Houts. apply ok_ret. by rewrite Houts.
Qed.

End HeapFacts.

(** * The matcher and its input arrays *)

Module FrameSpec.
Import JsArray JsMap CompareTraders CompareTradersHeap HeapFacts.

(** C10.  A call of [findMatchingTrades] returns and leaves every array
    that existed before the call, and so the [trades] array of every trader,
    with the same trades in the same order: the arrays it fills and sorts in
    place are new ones.  What it returns is what the matcher over arrays as
    values returns on the input.  In the scenario the two arrays are as
    before. *)
Theorem C10_input_unchanged (TIME_WINDOW_HOURS : Z)
    (traderData : list TraderTradesRef) (h : heap) :
  Forall (fun tr => (r_trades tr < length h)%nat) traderData ->
  (exists matched h',
     CompareTradersHeap.findMatchingTrades TIME_WINDOW_HOURS traderData h
     = Some (matched, h') /\
     (forall l, (l < length h)%nat -> h' !! l = h !! l) /\
     Forall (fun tr => h' !! r_trades tr = h !! r_trades tr) traderData /\
     CompareTraders.findMatchingTrades TIME_WINDOW_HOURS (deref h <$> traderData)
     = Some matched) /\
  (exists matched h',
     CompareTradersHeap.findMatchingTrades 1 scenarioRefs scenarioHeap
     = Some (matched, h') /\
     h' !! 0%nat = Some [tradeAt "M1" 100] /\
     h' !! 1%nat = Some [tradeAt "M1" 160]).
Proof.
  intros Hin. split.
  - destruct (findMatchingTrades_store TIME_WINDOW_HOURS traderData h Hin)
      as (matched & h' & Hrun & (_ & Hframe & _) & Hsame).
    exists matched, h'. split_and!; [done|done| |done].
    eapply Forall_impl; [exact Hin|]. intros tr Htr. by apply Hframe.
  - eexists _, _. split_and!; by vm_compute.
Qed.

Lemma C10_input_unchanged_witness :
  Forall (fun tr => (r_trades tr < length scenarioHeap)%nat) scenarioRefs /\
  exists matched h',
    CompareTradersHeap.findMatchingTrades 1 scenarioRefs scenarioHeap
    = Some (matched, h') /\
    (forall l, (l < length scenarioHeap)%nat -> h' !! l = scenarioHeap !! l) /\
    Forall (fun tr => h' !! r_trades tr = scenarioHeap !! r_trades tr) scenarioRefs /\
    CompareTraders.findMatchingTrades 1 (deref scenarioHeap <$> scenarioRefs)
    = Some matched.
Proof.
  assert (H : Forall (fun tr => (r_trades tr < length scenarioHeap)%nat) scenarioRefs)
    by (repeat constructor; simpl; lia).
  split; [exact H|].
  exact (proj1 (C10_input_unchanged 1 scenarioRefs scenarioHeap H)).
Defined.

End FrameSpec.

(** * The record normalizer *)

Module NormalizerFacts.
Import JsArray JsMap JsArrayFacts JsMapFacts Js GrouperFacts.

Lemma lowerAscii_not_upper (c : Ascii.ascii) : ~ isUpper (lowerAscii c).
Proof.
  unfold isUpper, lowerAscii.
  destruct (Nat.leb_spec 65 (Ascii.nat_of_ascii c)) as [H1|H1]; simpl; [|lia].
  destruct (Nat.leb_spec (Ascii.nat_of_ascii c) 90) as [H2|H2]; simpl; [|lia].
  rewrite Ascii.nat_ascii_embedding by lia. lia.
Qed.

Lemma toLowerCase_no_upper (s : string) :
  Forall (fun c => ~ isUpper c) (String.list_ascii_of_string (toLowerCase s)).
Proof.
  induction s as [|c s IH]; simpl; constructor; [apply lowerAscii_not_upper|done].
Qed.

Lemma toLowerCase_length (s : string) :
  String.length (toLowerCase s) = String.length s.
Proof. induction s as [|c s IH]; simpl; [done|]. by rewrite IH. Qed.

Lemma toLowerCaseOpt_lacks (v : value) :
  v = JUndefined \/ v = JNull -> toLowerCaseOpt v = Some JUndefined.
Proof. by intros [->| ->]. Qed.

(** A value that is neither a string nor absent has no [toLowerCase]. *)
Lemma toLowerCaseOpt_raises (v : value) :
  ~ stringOrAbsent v -> toLowerCaseOpt v = None.
Proof. destruct v; simpl; (done || by intros []). Qed.

Lemma mapM_raises {A B : Type} (f : A -> option B) (l : list A) (x : A) :
  x ∈ l -> f x = None -> mapM f l = None.
Proof.
  induction l as [|y l IH]; [by intros ?%not_elem_of_nil|].
  intros [->|Hx]%elem_of_cons Hf; cbn [mapM].
  - by rewrite Hf.
  - rewrite (IH Hx Hf). by destruct (f y).
Qed.

Section Normalizer.
Variable StringToNumber : string -> JsNum.double.

Lemma normalizeTrade_Some cid t o :
  FindLeaders.normalizeTrade StringToNumber cid t = Some o ->
  FindLeaders.normalizedFrom StringToNumber cid t o.
Proof.
  unfold FindLeaders.normalizeTrade.
  destruct (toLowerCaseOpt (r_maker t)) as [mk|]; [|done].
  destruct (toLowerCaseOpt (r_taker t)) as [tk|]; [|done].
  destruct (toLowerCaseOpt (r_proxyWallet t)) as [ow|] eqn:E; [|done].
  simpl. intros [= <-]. unfold FindLeaders.normalizedFrom, lacksTrader. simpl.
  split_and!; try done.
  - intros s Hs. rewrite Hs in E. simpl in E. congruence.
  - intros Hl. rewrite (toLowerCaseOpt_lacks _ Hl) in E. congruence.
Qed.

Lemma fetchMarketTrades_shape cid (data : list RawTrade) :
  FindLeaders.fetchMarketTrades StringToNumber cid (Some data) = [] \/
  Forall2 (FindLeaders.normalizedFrom StringToNumber cid) data
    (FindLeaders.fetchMarketTrades StringToNumber cid (Some data)).
Proof.
  unfold FindLeaders.fetchMarketTrades.
  destruct (mapM _ data) as [objs|] eqn:E; simpl; [|by left].
  right. apply mapM_Some in E. eapply Forall2_impl; [exact E|].
  intros t o. apply normalizeTrade_Some.
Qed.

Lemma fetchMarketTrades_all cid (data : list RawTrade) :
  Forall (fun t => is_Some (toLowerCaseOpt (r_maker t)) /\
                   is_Some (toLowerCaseOpt (r_taker t)) /\
                   is_Some (toLowerCaseOpt (r_proxyWallet t))) data ->
  Forall2 (FindLeaders.normalizedFrom StringToNumber cid) data
    (FindLeaders.fetchMarketTrades StringToNumber cid (Some data)).
Proof.
  intros Hok. unfold FindLeaders.fetchMarketTrades.
  destruct (mapM _ data) as [objs|] eqn:E; simpl.
  - apply mapM_Some in E. eapply Forall2_impl; [exact E|].
    intros t o. apply normalizeTrade_Some.
  - assert (H : is_Some (mapM (FindLeaders.normalizeTrade StringToNumber cid) data)).
    { apply mapM_is_Some. eapply Forall_impl; [exact Hok|].
      intros t ([mk Hmk] & [tk Htk] & [ow How]). simpl.
      unfold FindLeaders.normalizeTrade. rewrite Hmk, Htk, How. by eexists. }
    rewrite E in H. by destruct H.
Qed.

(** One record whose address field has no [toLowerCase] makes the
    callback raise, and the function returns the empty array. *)
Lemma fetchMarketTrades_raises cid (data : list RawTrade) t v :
  t ∈ data -> v = r_maker t \/ v = r_taker t \/ v = r_proxyWallet t ->
  ~ stringOrAbsent v ->
  FindLeaders.fetchMarketTrades StringToNumber cid (Some data) = [].
Proof.
  intros Ht Hv Hbad%toLowerCaseOpt_raises. unfold FindLeaders.fetchMarketTrades.
  rewrite (mapM_raises _ _ t Ht); [done|]. unfold FindLeaders.normalizeTrade.
  destruct Hv as [->|[->| ->]].
  - by rewrite Hbad.
  - rewrite Hbad. by destruct (toLowerCaseOpt (r_maker t)).
  - rewrite Hbad.
    by destruct (toLowerCaseOpt (r_maker t)), (toLowerCaseOpt (r_taker t)).
Qed.

Lemma fetchMarketTrades'_raises (data : list RawTrade) t :
  t ∈ data -> ~ stringOrAbsent (r_proxyWallet t) ->
  FindFirst.fetchMarketTrades StringToNumber (Some data) = [].
Proof.
  intros Ht Hbad%toLowerCaseOpt_raises. unfold FindFirst.fetchMarketTrades.
  rewrite (mapM_raises _ _ t Ht); [done|]. unfold FindFirst.normalizeTrade.
  by rewrite Hbad.
Qed.

Lemma normalizeTrade'_Some t o :
  FindFirst.normalizeTrade StringToNumber t = Some o ->
  FindFirst.normalizedFrom StringToNumber t o.
Proof.
  unfold FindFirst.normalizeTrade.
  destruct (toLowerCaseOpt (r_proxyWallet t)) as [ow|] eqn:E; [|done].
  simpl. intros [= <-]. unfold FindFirst.normalizedFrom, lacksTrader. simpl.
  split_and!; try done.
  - intros s Hs. rewrite Hs in E. simpl in E. congruence.
  - intros Hl. rewrite (toLowerCaseOpt_lacks _ Hl) in E. congruence.
Qed.

Lemma fetchMarketTrades'_shape (data : list RawTrade) :
  FindFirst.fetchMarketTrades StringToNumber (Some data) = [] \/
  Forall2 (FindFirst.normalizedFrom StringToNumber) data
    (FindFirst.fetchMarketTrades StringToNumber (Some data)).
Proof.
  unfold FindFirst.fetchMarketTrades.
  destruct (mapM _ data) as [objs|] eqn:E; simpl; [|by left].
  right. apply mapM_Some in E. eapply Forall2_impl; [exact E|].
  intros t o. apply normalizeTrade'_Some.
Qed.

End Normalizer.

(** A trade read from an object without a truthy owner is skipped by the
    groupers. *)
Lemma asTrade_owner o t :
  FindLeaders.asTrade o = Some t ->
  asOptString (FindLeaders.o_owner o) = Some (FindLeaders.owner t).
Proof. unfold FindLeaders.asTrade. intros H. by simplify_option_eq. Qed.

Lemma asTrade_no_owner o t :
  FindLeaders.asTrade o = Some t -> truthy (FindLeaders.o_owner o) = false ->
  FindLeaders.traderOf t = None.
Proof.
  intros H%asTrade_owner Ht. unfold FindLeaders.traderOf.
  destruct (FindLeaders.o_owner o) as [| | | |w]; simpl in *; simplify_eq;
    rewrite <- H; [done|].
  apply negb_false_iff in Ht. by rewrite Ht.
Qed.

Lemma asTrade'_owner o t :
  FindFirst.asTrade o = Some t ->
  asOptString (FindFirst.o_proxyWallet o) = Some (FindFirst.proxyWallet t).
Proof. unfold FindFirst.asTrade. intros H. by simplify_option_eq. Qed.

Lemma asTrade'_no_owner o t :
  FindFirst.asTrade o = Some t -> truthy (FindFirst.o_proxyWallet o) = false ->
  FindFirst.traderOf t = None.
Proof.
  intros H%asTrade'_owner Ht. unfold FindFirst.traderOf.
  destruct (FindFirst.o_proxyWallet o) as [| | | |w]; simpl in *; simplify_eq;
    rewrite <- H; [done|].
  apply negb_false_iff in Ht. by rewrite Ht.
Qed.

(** The groupers see only the trades that have a trader. *)
Lemma firstTrades_skip (l : list FindLeaders.Trade) m :
  foldl FindLeaders.firstTradeStep m l
  = foldl FindLeaders.firstTradeStep m
      (List.filter (fun t => bool_decide (is_Some (FindLeaders.traderOf t))) l).
Proof.
  revert m. induction l as [|t l IH]; intros m; simpl; [done|].
  case_bool_decide as Ht; simpl; [apply IH|].
  rewrite firstTradeStep_skip; [apply IH|].
  destruct (FindLeaders.traderOf t); [|done]. destruct Ht. by eexists.
Qed.

Lemma traderOrder_skip (l : list FindFirst.Trade) m :
  foldl FindFirst.orderStep m l
  = foldl FindFirst.orderStep m
      (List.filter (fun t => bool_decide (is_Some (FindFirst.traderOf t))) l).
Proof.
  revert m. induction l as [|t l IH]; intros m; simpl; [done|].
  case_bool_decide as Ht; simpl; [apply IH|].
  rewrite orderStep_skip; [apply IH|].
  destruct (FindFirst.traderOf t); [|done]. destruct Ht. by eexists.
Qed.

End NormalizerFacts.

(** * The normalizer against its specification *)

Module NormalizerSpec.
Import JsArray JsMap JsArrayFacts JsMapFacts Js GrouperFacts NormalizerFacts.

Lemma stringOrAbsent_lower (v : value) :
  stringOrAbsent v -> is_Some (toLowerCaseOpt v).
Proof. destruct v; simpl; (done || by eexists). Qed.

(** C9 as stated fails.  A price that is not numeric is returned as it
    was, not as [0], and the usd value is then not a number; the same holds
    when the price is missing.  And a record without a trader identifier
    that is the earliest of its market sets the time from which the delay of
    every trader of the market is measured: with it the average delay of
    [0xa] is 60, without it 0. *)
Lemma C9_coercion_counterexample :
  (exists o,
     FindLeaders.fetchMarketTrades FindLeaders.notNumeral "M1"
       (Some [FindLeaders.rawTextPrice]) = [o] /\
     FindLeaders.o_price o = JString "abc" /\
     FindLeaders.o_usdcSize o = JsNum.NaN /\
     FindLeaders.o_owner o = JString "0xabc") /\
  (exists o,
     FindLeaders.fetchMarketTrades FindLeaders.notNumeral "M1"
       (Some [FindLeaders.rawNoPrice]) = [o] /\
     FindLeaders.o_price o = JUndefined /\
     FindLeaders.o_usdcSize o = JsNum.NaN) /\
  (exists s s',
     get "0xa" (FindLeaders.analyzeMarkets 5
                  [(FindLeaders.marketM1,
                    [FindLeaders.tradeOf None 40;
                     FindLeaders.tradeOf (Some "0xa") 100])]) = Some s /\
     get "0xa" (FindLeaders.analyzeMarkets 5
                  [(FindLeaders.marketM1,
                    [FindLeaders.tradeOf (Some "0xa") 100])]) = Some s' /\
     numEq (FindLeaders.avgTimeToMarket s) (Num 60) /\
     numEq (FindLeaders.avgTimeToMarket s') (Num 0)).
Proof.
  split_and!.
  - eexists. by vm_compute.
  - eexists. by vm_compute.
  - eexists _, _. split_and!; by vm_compute.
Qed.

(** C9, as the code has it.  When the address fields of the records are
    strings or absent, the normalizers return one trade per record, with
    the timestamp, the price and the size exactly as received, the usd value
    [size * price], the trader address in lower case, and an undefined
    trader when the record has none.  When an address field of some record
    is neither a string nor absent, and when the request fails, they return
    the empty array and raise nothing.  The groupers skip every
    trade whose trader is not truthy: it gets no record and adds to no
    volume or count. *)
Theorem C9_normalizer (StringToNumber : string -> JsNum.double) (cid : string)
    (data : list RawTrade) :
  Forall (fun t => stringOrAbsent (r_maker t) /\ stringOrAbsent (r_taker t) /\
                   stringOrAbsent (r_proxyWallet t)) data ->
  Forall2 (FindLeaders.normalizedFrom StringToNumber cid) data
    (FindLeaders.fetchMarketTrades StringToNumber cid (Some data)) /\
  Forall2 (FindFirst.normalizedFrom StringToNumber) data
    (FindFirst.fetchMarketTrades StringToNumber (Some data)) /\
  (forall s, Forall (fun c => ~ isUpper c)
               (String.list_ascii_of_string (toLowerCase s))) /\
  (forall data',
     FindLeaders.fetchMarketTrades StringToNumber cid (Some data') = [] \/
     Forall2 (FindLeaders.normalizedFrom StringToNumber cid) data'
       (FindLeaders.fetchMarketTrades StringToNumber cid (Some data'))) /\
  (forall data',
     FindFirst.fetchMarketTrades StringToNumber (Some data') = [] \/
     Forall2 (FindFirst.normalizedFrom StringToNumber) data'
       (FindFirst.fetchMarketTrades StringToNumber (Some data'))) /\
  (forall data' t v,
     t ∈ data' -> v = r_maker t \/ v = r_taker t \/ v = r_proxyWallet t ->
     ~ stringOrAbsent v ->
     FindLeaders.fetchMarketTrades StringToNumber cid (Some data') = []) /\
  (forall data' t,
     t ∈ data' -> ~ stringOrAbsent (r_proxyWallet t) ->
     FindFirst.fetchMarketTrades StringToNumber (Some data') = []) /\
  FindLeaders.fetchMarketTrades StringToNumber cid None = [] /\
  FindFirst.fetchMarketTrades StringToNumber None = [] /\
  (forall o t traderFirstTrade,
     FindLeaders.asTrade o = Some t -> truthy (FindLeaders.o_owner o) = false ->
     FindLeaders.firstTradeStep traderFirstTrade t = traderFirstTrade) /\
  (forall sortedTrades,
     FindLeaders.firstTrades sortedTrades
     = FindLeaders.firstTrades
         (List.filter (fun t => bool_decide (is_Some (FindLeaders.traderOf t)))
            sortedTrades)) /\
  (forall o t traderOrder,
     FindFirst.asTrade o = Some t -> truthy (FindFirst.o_proxyWallet o) = false ->
     FindFirst.orderStep traderOrder t = traderOrder) /\
  (forall sortedTrades,
     FindFirst.traderOrderOf sortedTrades
     = FindFirst.traderOrderOf
         (List.filter (fun t => bool_decide (is_Some (FindFirst.traderOf t)))
            sortedTrades)).
Proof.
  intros Hok. split_and!; try done.
  - apply fetchMarketTrades_all. eapply Forall_impl; [exact Hok|].
    intros t (? & ? & ?). split_and!; by apply stringOrAbsent_lower.
  - destruct (fetchMarketTrades'_shape StringToNumber data) as [E|H]; [|done].
    unfold FindFirst.fetchMarketTrades in *.
    assert (His : is_Some (mapM (FindFirst.normalizeTrade StringToNumber) data)).
    { apply mapM_is_Some. eapply Forall_impl; [exact Hok|].
      intros t (_ & _ & [ow How]%stringOrAbsent_lower). simpl.
      unfold FindFirst.normalizeTrade. rewrite How. by eexists. }
    destruct His as [objs Hobjs]. rewrite Hobjs. simpl.
    apply mapM_Some in Hobjs. eapply Forall2_impl; [exact Hobjs|].
    intros t o. apply normalizeTrade'_Some.
  - apply toLowerCase_no_upper.
  - intros data'. apply fetchMarketTrades_shape.
  - intros data'. apply fetchMarketTrades'_shape.
  - intros data' t v. apply fetchMarketTrades_raises.
  - intros data' t. apply fetchMarketTrades'_raises.
  - intros o t m Ho Ht. apply firstTradeStep_skip. by apply (asTrade_no_owner o).
  - intros l. apply firstTrades_skip.
  - intros o t m Ho Ht. apply orderStep_skip. by apply (asTrade'_no_owner o).
  - intros l. apply traderOrder_skip.
Qed.

Lemma C9_normalizer_witness :
  let data := [FindLeaders.rawTextPrice; FindLeaders.rawNoTrader] in
  Forall (fun t => stringOrAbsent (r_maker t) /\ stringOrAbsent (r_taker t) /\
                   stringOrAbsent (r_proxyWallet t)) data /\
  Forall2 (FindLeaders.normalizedFrom FindLeaders.notNumeral "M1") data
    (FindLeaders.fetchMarketTrades FindLeaders.notNumeral "M1" (Some data)).
Proof.
  intros data.
  assert (H : Forall (fun t => stringOrAbsent (r_maker t) /\
                               stringOrAbsent (r_taker t) /\
                               stringOrAbsent (r_proxyWallet t)) data)
    by (repeat constructor).
  split; [exact H|].
  exact (proj1 (C9_normalizer FindLeaders.notNumeral "M1" data H)).
Defined.

End NormalizerSpec.

(** * Slices *)

Module JsSliceFacts.
Import JsSlice.

Lemma slice_prefix {A : Type} (n : Z) (l : list A) :
  0 <= n -> slice 0 (Some n) l = take (Z.to_nat n) l.
Proof.
  intros Hn. unfold slice, relativeIndex.
  destruct (Z.ltb_spec 0 0) as [|_]; [lia|].
  destruct (Z.ltb_spec n 0) as [|_]; [lia|].
  rewrite (Z.min_l 0) by lia. rewrite Z.sub_0_r. simpl. rewrite drop_0.
  destruct (Z.le_ge_cases n (Z.of_nat (length l))).
  - by rewrite Z.min_l.
  - rewrite Z.min_r by done. rewrite Nat2Z.id.
    rewrite !take_ge; [done|lia|lia].
Qed.

Lemma slice_suffix {A : Type} (n : Z) (l : list A) :
  0 < n <= Z.of_nat (length l) ->
  slice (- n) None l = drop (length l - Z.to_nat n) l.
Proof.
  intros Hn. unfold slice, relativeIndex.
  destruct (Z.ltb_spec (- n) 0) as [_|]; [|lia].
  rewrite Z.max_l by lia.
  replace (Z.to_nat (Z.of_nat (length l) + - n)) with (length l - Z.to_nat n)%nat by lia.
  apply take_ge. rewrite length_drop. lia.
Qed.

Lemma slice_middle {A : Type} (i n : Z) (l : list A) :
  0 <= i -> 0 < n -> i + n <= Z.of_nat (length l) ->
  slice i (Some (- n)) l
  = take (length l - Z.to_nat n - Z.to_nat i) (drop (Z.to_nat i) l).
Proof.
  intros Hi Hn Hlen. unfold slice, relativeIndex.
  destruct (Z.ltb_spec i 0) as [|_]; [lia|].
  destruct (Z.ltb_spec (- n) 0) as [_|]; [|lia].
  rewrite Z.min_l, Z.max_l by lia. f_equal. lia.
Qed.

Lemma slice_whole_suffix {A : Type} (n : Z) (l : list A) :
  Z.of_nat (length l) <= n -> slice (- n) None l = l.
Proof.
  intros Hn. unfold slice, relativeIndex.
  destruct (Z.ltb_spec (- n) 0) as [_|H0].
  - rewrite Z.max_r by lia. simpl. rewrite drop_0, Z.sub_0_r, Nat2Z.id.
    by apply take_ge.
  - assert (l = []) as -> by (destruct l; [done|cbn [length] in *; lia]).
    by rewrite drop_nil, take_nil.
Qed.

Lemma string_of_list_ascii_length (l : list Ascii.ascii) :
  String.length (String.string_of_list_ascii l) = length l.
Proof. induction l as [|c l IH]; simpl; [done|]. by rewrite IH. Qed.

Lemma list_ascii_of_string_length (s : string) :
  length (String.list_ascii_of_string s) = String.length s.
Proof. induction s as [|c s IH]; simpl; [done|]. by rewrite IH. Qed.

Lemma string_of_list_ascii_app (l l' : list Ascii.ascii) :
  String.string_of_list_ascii (l ++ l')
  = String.string_of_list_ascii l +:+ String.string_of_list_ascii l'.
Proof. induction l as [|c l IH]; simpl; [done|]. by rewrite IH. Qed.

Lemma string_app_length (s s' : string) :
  String.length (s +:+ s') = (String.length s + String.length s')%nat.
Proof. induction s as [|c s IH]; simpl; [done|]. by rewrite IH. Qed.

End JsSliceFacts.

(** * Shortened addresses *)

Module AddressSpec.
Import JsSlice JsSliceFacts.

(** An address of ten characters or more is made of its first six
    characters, a middle and its last four; [formatAddress] shows the first
    six and the last four around three dots, 13 characters in all, and
    [address.slice(6, -4)], which the finders' rows print beside it, is the
    middle: the row shows every character of the address once. *)
Theorem formatAddress_parts (address : string) :
  (10 <= String.length address)%nat ->
  (exists first middle last,
     address = first +:+ middle +:+ last /\
     String.length first = 6%nat /\ String.length last = 4%nat /\
     formatAddress address = first +:+ "..." +:+ last /\
     middleOf address = middle) /\
  String.length (formatAddress address) = 13%nat /\
  sliceString 0 (Some 6) address +:+ middleOf address +:+ sliceString (-4) None address
  = address /\
  String.length (sliceString 0 (Some 6) address) = 6%nat /\
  String.length (sliceString (-4) None address) = 4%nat.
Proof.
  intros Hlen. unfold formatAddress, middleOf, sliceString.
  rewrite <- list_ascii_of_string_length in Hlen.
  set (l := String.list_ascii_of_string address) in *.
  rewrite slice_prefix, (slice_suffix 4), (slice_middle 6 4) by lia.
  change (Z.to_nat 6) with 6%nat. change (Z.to_nat 4) with 4%nat.
  assert (H6 : length (take 6 l) = 6%nat) by (rewrite length_take; lia).
  assert (H4 : length (drop (length l - 4) l) = 4%nat) by (rewrite length_drop; lia).
  assert (Hparts : String.string_of_list_ascii (take 6 l)
                   +:+ String.string_of_list_ascii
                         (take (length l - 4 - 6) (drop 6 l))
                   +:+ String.string_of_list_ascii (drop (length l - 4) l)
                   = address).
  { rewrite <- !string_of_list_ascii_app.
    replace (drop (length l - 4) l)
      with (drop (length l - 4 - 6) (drop 6 l))
      by (rewrite drop_drop; f_equal; lia).
    rewrite take_drop, take_drop. apply String.string_of_list_ascii_of_string. }
  split_and!.
  - eexists _, _, _. split_and!; [symmetry; exact Hparts| | |reflexivity..];
      by rewrite string_of_list_ascii_length.
  - rewrite !string_app_length, !string_of_list_ascii_length, H6, H4. done.
  - rewrite <- !string_of_list_ascii_app.
    replace (drop (length l - 4) l)
      with (drop (length l - 4 - 6) (drop 6 l))
      by (rewrite drop_drop; f_equal; lia).
    rewrite take_drop, take_drop. apply String.string_of_list_ascii_of_string.
  - by rewrite string_of_list_ascii_length.
  - by rewrite string_of_list_ascii_length.
Qed.

Lemma formatAddress_parts_witness :
  let address := "0x1234567890abcdef1234567890abcdef12345678" in
  (10 <= String.length address)%nat /\
  formatAddress address = "0x1234...5678" /\
  String.length (formatAddress address) = 13%nat /\
  sliceString 0 (Some 6) address +:+ middleOf address +:+ sliceString (-4) None address
  = address.
Proof.
  intros address.
  assert (H : (10 <= String.length address)%nat) by (vm_compute; lia).
  destruct (formatAddress_parts address H) as (_ & H1 & H2 & _).
  split_and!; [exact H|reflexivity|exact H1|exact H2].
Defined.

End AddressSpec.

(** * Fetching the trade history *)

Module FetchFacts.
Import JsArray JsArrayFacts JsSlice JsSliceFacts CompareTraders CompareTradersFetch.

Lemma filter_sublist {A : Type} (f : A -> bool) (l : list A) :
  sublist (List.filter f l) l.
Proof.
  induction l as [|x l IH]; simpl; [constructor|].
  destruct (f x); by constructor.
Qed.

Lemma addBatches_spec (results : list (list Trade)) all added hm :
  exists (j : nat) hm',
    (j <= length results)%nat /\
    addBatches results (all, added, hm)
    = (all ++ concat (take j results),
       added + Z.of_nat (length (concat (take j results))), hm') /\
    Forall (fun b => batchSize <= Z.of_nat (length b)) (take (j - 1) results) /\
    ((j = length results /\ hm' = hm /\
      Forall (fun b => batchSize <= Z.of_nat (length b)) results) \/
     ((1 <= j)%nat /\ hm' = false /\
      exists b, results !! (j - 1)%nat = Some b /\ Z.of_nat (length b) < batchSize)).
Proof.
  revert all added. induction results as [|batch rest IH]; intros all added.
  - exists 0%nat, hm. simpl. rewrite app_nil_r, Z.add_0_r.
    split_and!; [done|done|constructor|]. left. by split_and!.
  - simpl. destruct (Z.ltb_spec (Z.of_nat (length batch)) batchSize) as [Hshort|Hfull].
    + exists 1%nat, false. simpl. rewrite ?take_0. simpl. rewrite ?app_nil_r.
      split_and!; [lia| |constructor|].
      * destruct (Z.ltb_spec 0 (Z.of_nat (length batch))) as [|Hz]; [done|].
        assert (batch = []) as -> by (destruct batch; [done|simpl in Hz; lia]).
        simpl. by rewrite app_nil_r, Z.add_0_r.
      * right. split_and!; [done..|]. by exists batch.
    + assert (0 < Z.of_nat (length batch)) as Hpos by (unfold batchSize in Hfull; lia).
      apply Z.ltb_lt in Hpos. rewrite Hpos.
      destruct (IH (all ++ batch) (added + Z.of_nat (length batch)))
        as (j & hm' & Hj & Heq & Hpre & Hcase).
      exists (S j), hm'. rewrite Heq. simpl.
      rewrite <- app_assoc, length_app, Nat2Z.inj_add, Z.add_assoc.
      split_and!; [lia|done| |].
      * rewrite Nat.sub_0_r. destruct j as [|j]; [by rewrite take_0|].
        simpl in *. rewrite Nat.sub_0_r in Hpre. by constructor.
      * destruct Hcase as [(-> & -> & Hall)|(Hj1 & -> & b & Hb & Hlen)].
        -- left. split_and!; [done..|]. by constructor.
        -- right. split_and!; [lia|done|]. exists b. split; [|done].
           rewrite Nat.sub_0_r. destruct j as [|j]; [lia|].
           simpl in *. by rewrite Nat.sub_0_r in Hb.
Qed.

Section Paging.
Variable HISTORY_DAYS : Z.
Variable MAX_TRADES_LIMIT : Z.
Variable fetchBatchOf : Z -> Z -> Z -> list Trade.
Variable now : Z.

Local Abbreviation since := (sinceTimestampAt HISTORY_DAYS now).
Local Abbreviation pg := (page HISTORY_DAYS fetchBatchOf now).
Local Abbreviation fp := (firstPages HISTORY_DAYS fetchBatchOf now).
Local Abbreviation step := (pagingStep MAX_TRADES_LIMIT fetchBatchOf since).
Local Abbreviation loop fuel := (paging MAX_TRADES_LIMIT fetchBatchOf fuel since).
Local Abbreviation len l := (Z.of_nat (length l)).

Lemma promises_pages (k : Z) :
  promises fetchBatchOf since (k * batchSize) = [pg k; pg (k + 1); pg (k + 2)].
Proof.
  unfold promises, page, maxParallel.
  change (seqZ 0 3) with [0; 1; 2]. cbn [fmap list_fmap].
  repeat f_equal; unfold batchSize; lia.
Qed.

Lemma firstPages_app (k j : Z) :
  0 <= k -> 0 <= j -> fp (k + j) = fp k ++ (seqZ k j ≫= pg).
Proof.
  intros Hk Hj. unfold firstPages. by rewrite seqZ_app, bind_app by done.
Qed.

Lemma firstPages_one : fp 1 = pg 0.
Proof.
  unfold firstPages. change (seqZ 0 1) with [0]. cbn. by rewrite app_nil_r.
Qed.

Lemma take_pages (k : Z) (j : nat) :
  (j <= 3)%nat ->
  concat (take j [pg k; pg (k + 1); pg (k + 2)]) = seqZ k (Z.of_nat j) ≫= pg.
Proof.
  intros Hj. destruct j as [|[|[|[|j]]]]; [| | | |lia].
  - done.
  - change (Z.of_nat 1) with 1. rewrite seqZ_cons, seqZ_nil by lia.
    cbn. by rewrite !app_nil_r.
  - change (Z.of_nat 2) with 2. rewrite !seqZ_cons, seqZ_nil by lia.
    cbn. rewrite !app_nil_r. by replace (Z.succ k) with (k + 1) by lia.
  - change (Z.of_nat 3) with 3. rewrite !seqZ_cons, seqZ_nil by lia.
    cbn. rewrite !app_nil_r.
    replace (Z.succ k) with (k + 1) by lia.
    by replace (Z.succ (k + 1)) with (k + 2) by lia.
Qed.

Lemma paging_done fuel st :
  hasMore st && (len (allTrades st) <? MAX_TRADES_LIMIT) = false ->
  loop fuel st = Some st.
Proof. intros H. destruct fuel; simpl; by rewrite H. Qed.

Lemma paging_more fuel st :
  hasMore st && (len (allTrades st) <? MAX_TRADES_LIMIT) = true ->
  loop (S fuel) st = loop fuel (step st).
Proof. intros H. simpl. by rewrite H. Qed.

(** A pass after which the loop goes on has added a trade. *)
Lemma pagingStep_grows st :
  hasMore (step st) = true -> len (allTrades st) < len (allTrades (step st)).
Proof.
  unfold pagingStep.
  destruct (addBatches_spec (promises fetchBatchOf since (offset st))
              (allTrades st) 0 (hasMore st)) as (j & hm' & _ & -> & _ & _).
  destruct (Z.eqb_spec (0 + Z.of_nat (length (concat (take j
              (promises fetchBatchOf since (offset st)))))) 0) as [E|N].
  - destruct (_ <=? _); simpl; done.
  - destruct (_ <=? _); simpl; [done|]. intros _.
    rewrite length_app. lia.
Qed.

Lemma paging_is_Some fuel : forall st,
  MAX_TRADES_LIMIT - len (allTrades st) <= Z.of_nat fuel -> is_Some (loop fuel st).
Proof.
  induction fuel as [|fuel IH]; intros st Hfuel.
  - rewrite paging_done; [by eexists|].
    apply andb_false_iff. right. apply Z.ltb_ge. lia.
  - destruct (hasMore st && (len (allTrades st) <? MAX_TRADES_LIMIT)) eqn:Hc.
    + rewrite paging_more by done.
      destruct (hasMore (step st) && (len (allTrades (step st)) <? MAX_TRADES_LIMIT))
        eqn:Hc'.
      * apply IH. apply andb_prop in Hc' as [Hm _].
        pose proof (pagingStep_grows st Hm). lia.
      * rewrite paging_done by done. by eexists.
    + rewrite paging_done by done. by eexists.
Qed.

Lemma paging_fuel fuel : forall st r extra,
  loop fuel st = Some r -> loop (fuel + extra)%nat st = Some r.
Proof.
  induction fuel as [|fuel IH]; intros st r extra H.
  - simpl in H. destruct (hasMore st && _) eqn:Hc; [done|].
    injection H as <-. by apply paging_done.
  - destruct (hasMore st && (len (allTrades st) <? MAX_TRADES_LIMIT)) eqn:Hc.
    + rewrite paging_more in H by done.
      change (S fuel + extra)%nat with (S (fuel + extra)).
      rewrite paging_more by done. by apply IH.
    + rewrite paging_done in H by done. injection H as <-. by apply paging_done.
Qed.

Local Abbreviation going := (goingOn HISTORY_DAYS MAX_TRADES_LIMIT fetchBatchOf now).
Local Abbreviation full := (fullPage HISTORY_DAYS fetchBatchOf now).
Local Abbreviation gatheredOk := (gatheredPages HISTORY_DAYS MAX_TRADES_LIMIT fetchBatchOf now).

Lemma full_prefix (k : Z) (j : nat) :
  (j <= 3)%nat ->
  Forall (fun b => batchSize <= Z.of_nat (length b))
    (take j [pg k; pg (k + 1); pg (k + 2)]) ->
  forall i, k <= i < k + Z.of_nat j -> full i.
Proof.
  intros Hj Hall i Hi. unfold fullPage.
  destruct j as [|[|[|[|j]]]]; [lia| | | |lia]; cbn in Hall;
    rewrite ?Forall_cons in Hall.
  - destruct Hall as [H0 _]. by replace i with k by lia.
  - destruct Hall as (H0 & H1 & _).
    destruct (decide (i = k)) as [->|]; [done|]. by replace i with (k + 1) by lia.
  - destruct Hall as (H0 & H1 & H2 & _).
    destruct (decide (i = k)) as [->|]; [done|].
    destruct (decide (i = k + 1)) as [->|]; [done|].
    by replace i with (k + 2) by lia.
Qed.

Lemma lookup_pages (k : Z) (i : nat) b :
  [pg k; pg (k + 1); pg (k + 2)] !! i = Some b -> b = pg (k + Z.of_nat i).
Proof.
  destruct i as [|[|[|i]]]; cbn; intros H; simplify_eq;
    f_equal; lia.
Qed.

Lemma firstPages_length_ge (k : Z) :
  1 <= k -> len (pg 0) <= len (fp k).
Proof.
  intros Hk. replace k with (1 + (k - 1)) by lia.
  rewrite firstPages_app, firstPages_one, length_app by lia. lia.
Qed.

Lemma pagingStep_cases (k : Z) (st : Paging) :
  going k st -> len (allTrades st) < MAX_TRADES_LIMIT ->
  (going (k + 3) (step st) /\ len (allTrades (step st)) < MAX_TRADES_LIMIT) \/
  (hasMore (step st) = false /\ gatheredOk (allTrades (step st))).
Proof.
  intros (Hk & Hoff & Hall & H0 & Hfull & Hm & _) Hlt.
  assert (H100 : 100 <= len (fp k)).
  { pose proof (firstPages_length_ge k Hk). lia. }
  rewrite Hall in Hlt.
  unfold pagingStep. rewrite Hoff, promises_pages, Hall, Hm.
  destruct (addBatches_spec [pg k; pg (k + 1); pg (k + 2)] (fp k) 0 true)
    as (j & hm' & Hj & -> & Hpre & Hcase).
  simpl in Hj. rewrite take_pages by lia. rewrite <- firstPages_app by lia.
  assert (Hfull' : forall i, 0 <= i < k + Z.of_nat j - 1 -> full i).
  { intros i Hi. destruct (Z.lt_ge_cases i k) as [|Hge]; [apply Hfull; lia|].
    apply (full_prefix k (j - 1)); [lia|done|lia]. }
  assert (Hcut : (1 <= j)%nat ->
                 MAX_TRADES_LIMIT <= len (fp (k + Z.of_nat j)) ->
                 gatheredOk (JsSlice.slice 0 (Some MAX_TRADES_LIMIT)
                               (fp (k + Z.of_nat j)))).
  { intros Hj1 Hle. exists (k + Z.of_nat j). split_and!; [lia|done|].
    right. right. split_and!; [lia|done|lia|done|]. apply slice_prefix. lia. }
  destruct Hcase as [(-> & -> & Hall3)|(Hj1 & -> & b & Hb & Hshort)].
  - (* three full pages *)
    assert (Hadded : 0 + len (seqZ k (Z.of_nat 3) ≫= pg) <> 0).
    { rewrite <- take_pages by lia. cbn.
      rewrite !Forall_cons in Hall3. destruct Hall3 as (Hp & _).
      rewrite length_app. unfold batchSize in Hp. lia. }
    apply Z.eqb_neq in Hadded. cbn [length] in *. rewrite Hadded.
    destruct (Z.leb_spec MAX_TRADES_LIMIT (len (fp (k + Z.of_nat 3)))) as [Hle|Hgt].
    + right. cbn [allTrades hasMore]. split; [done|]. apply Hcut; [lia|done].
    + left. cbn [allTrades hasMore offset]. change (Z.of_nat 3) with 3 in *.
      split; [|done]. unfold goingOn. cbn [allTrades hasMore offset].
      split_and!; [lia|unfold maxParallel, batchSize; lia|done|done| |done|by right].
      intros i Hi. destruct (Z.lt_ge_cases i k) as [|Hge]; [apply Hfull; lia|].
      apply (full_prefix k 3); [lia|done|lia].
  - (* a short page *)
    right.
    assert (hasMore
              (let hasMore0 :=
                 if 0 + len (seqZ k (Z.of_nat j) ≫= pg) =? 0 then false else false in
               let '(allTrades0, hasMore1) :=
                 if MAX_TRADES_LIMIT <=? len (fp (k + Z.of_nat j))
                 then (JsSlice.slice 0 (Some MAX_TRADES_LIMIT) (fp (k + Z.of_nat j)),
                       false)
                 else (fp (k + Z.of_nat j), hasMore0) in
               {| allTrades := allTrades0;
                  offset := k * batchSize + maxParallel * batchSize;
                  hasMore := hasMore1 |}) = false) as Hfalse.
    { cbv zeta. by destruct (_ =? _), (_ <=? _). }
    split; [exact Hfalse|]. cbv zeta.
    destruct (Z.leb_spec MAX_TRADES_LIMIT (len (fp (k + Z.of_nat j)))) as [Hle|Hgt].
    + cbn [allTrades]. by apply Hcut.
    + cbn [allTrades]. exists (k + Z.of_nat j). split_and!; [lia|done|].
      right. left. split_and!; [lia|done|done| |done].
      apply lookup_pages in Hb. subst b.
      by replace (k + Z.of_nat j - 1) with (k + Z.of_nat (j - 1)) by lia.
Qed.

Lemma going_stop (k : Z) (st : Paging) :
  going k st ->
  hasMore st && (len (allTrades st) <? MAX_TRADES_LIMIT) = false ->
  gatheredOk (allTrades st).
Proof.
  intros (Hk & Hoff & Hall & H0 & Hfull & Hm & Hcase) Hc.
  rewrite Hm in Hc. simpl in Hc. apply Z.ltb_ge in Hc.
  destruct Hcase as [->|]; [|lia].
  exists 1. split_and!; [lia|intros; lia|]. left.
  rewrite Hall, firstPages_one in *. split_and!; [done..|]. right. lia.
Qed.

Lemma paging_gathered fuel : forall k st r,
  going k st -> loop fuel st = Some r -> gatheredOk (allTrades r).
Proof.
  induction fuel as [|fuel IH]; intros k st r Hgo Hr.
  - simpl in Hr. destruct (hasMore st && _) eqn:Hc; [done|]. injection Hr as <-.
    by apply (going_stop k).
  - destruct (hasMore st && (len (allTrades st) <? MAX_TRADES_LIMIT)) eqn:Hc.
    + rewrite paging_more in Hr by done.
      apply andb_prop in Hc as [_ Hlt%Z.ltb_lt].
      destruct (pagingStep_cases k st Hgo Hlt) as [[Hgo' _]|[Hm Hok]].
      * by apply (IH (k + 3) (step st)).
      * rewrite paging_done in Hr by (by rewrite Hm). by injection Hr as <-.
    + rewrite paging_done in Hr by done. injection Hr as <-.
      by apply (going_stop k).
Qed.

(** [gathered], and so [fetchTraderActivity], returns once the bound
    allows [MAX_TRADES_LIMIT - 100] passes, and a larger bound changes
    nothing. *)
Lemma gathered_is_Some (extra : nat) :
  is_Some (gathered HISTORY_DAYS MAX_TRADES_LIMIT fetchBatchOf
             (Z.to_nat (MAX_TRADES_LIMIT - 100) + extra) now).
Proof.
  unfold gathered. destruct (Z.eqb_spec (len (fetchBatchOf 0 100 since)) 100) as [E|N];
    [|by eexists].
  apply fmap_is_Some, paging_is_Some. cbn [allTrades]. lia.
Qed.

Lemma gathered_fuel (fuel extra : nat) all :
  gathered HISTORY_DAYS MAX_TRADES_LIMIT fetchBatchOf fuel now = Some all ->
  gathered HISTORY_DAYS MAX_TRADES_LIMIT fetchBatchOf (fuel + extra) now = Some all.
Proof.
  unfold gathered. destruct (_ =? _); [|done].
  destruct (paging _ _ fuel _ _) as [r|] eqn:E; [|done].
  intros [= <-]. by rewrite (paging_fuel _ _ _ _ E).
Qed.

Lemma gathered_unique (fuel fuel' : nat) all all' :
  gathered HISTORY_DAYS MAX_TRADES_LIMIT fetchBatchOf fuel now = Some all ->
  gathered HISTORY_DAYS MAX_TRADES_LIMIT fetchBatchOf fuel' now = Some all' ->
  all = all'.
Proof.
  intros H H'. apply (gathered_fuel _ fuel') in H. apply (gathered_fuel _ fuel) in H'.
  rewrite (Nat.add_comm fuel' fuel) in H'. congruence.
Qed.

Lemma gathered_pages (fuel : nat) all :
  gathered HISTORY_DAYS MAX_TRADES_LIMIT fetchBatchOf fuel now = Some all ->
  gatheredOk all.
Proof.
  unfold gathered.
  destruct (Z.eqb_spec (len (fetchBatchOf 0 100 since)) 100) as [E|N].
  - destruct (paging _ _ fuel _ _) as [r|] eqn:Hr; [|done]. intros [= <-].
    eapply (paging_gathered fuel 1); [|exact Hr].
    unfold goingOn. cbn [allTrades hasMore offset].
    assert (E0 : len (pg 0) = 100) by (unfold page, batchSize; by change (0 * 100) with 0).
    split_and!; [lia|done|by rewrite firstPages_one|done| |done|by left].
    intros i Hi. replace i with 0 by lia. unfold fullPage, batchSize. lia.
  - intros [= <-]. exists 1. split_and!; [lia|intros; lia|].
    left. split_and!; [done|by unfold page, batchSize; change (0 * 100) with 0|].
    left. by unfold page, batchSize; change (0 * 100) with 0.
Qed.

(** The pages hold nothing but what the source served. *)
Lemma firstPages_elem (k : Z) t :
  t ∈ fp k -> exists i, 0 <= i < k /\ t ∈ pg i.
Proof.
  unfold firstPages. rewrite list_elem_of_bind. intros (i & Ht & Hi).
  exists i. split; [|done]. apply elem_of_seqZ in Hi. lia.
Qed.

Lemma gatheredPages_elem all t :
  gatheredOk all -> t ∈ all -> exists i, 0 <= i /\ t ∈ pg i.
Proof.
  intros (k & Hk & _ & [(-> & -> & _)|[(_ & _ & -> & _)|(_ & _ & _ & ->)]]) Ht.
  - by exists 0.
  - destruct (firstPages_elem k t Ht) as (i & Hi & Hin). exists i. split; [lia|done].
  - apply elem_of_take in Ht as (n & Ht & _).
    destruct (firstPages_elem k t) as (i & Hi & Hin);
      [by apply list_elem_of_lookup_2 with n|].
    exists i. split; [lia|done].
Qed.

Lemma gatheredPages_length all :
  gatheredOk all -> len all <= Z.max MAX_TRADES_LIMIT (len (pg 0)).
Proof.
  intros (k & Hk & _ & [(-> & -> & _)|[(_ & _ & -> & _ & Hlt)|(_ & _ & Hle & ->)]]).
  - lia.
  - lia.
  - rewrite length_take. lia.
Qed.

End Paging.

Lemma fetchTraderActivity_sorted_aux (HISTORY_DAYS MAX_TRADES_LIMIT : Z)
    (fetchBatchOf : Z -> Z -> Z -> list Trade) (fuel : nat) (now : Z)
    (result : list Trade) :
  fetchTraderActivity HISTORY_DAYS MAX_TRADES_LIMIT fetchBatchOf fuel now
  = Some result ->
  exists all,
    result = sort byTimestamp all /\
    gatheredPages HISTORY_DAYS MAX_TRADES_LIMIT fetchBatchOf now all /\
    (Z.of_nat (length (fetchBatchOf 0 100 (sinceTimestampAt HISTORY_DAYS now))) <> 100 ->
     all = fetchBatchOf 0 100 (sinceTimestampAt HISTORY_DAYS now)).
Proof.
  unfold fetchTraderActivity. intros Hr.
  destruct (gathered _ _ _ fuel now) as [all|] eqn:E; [|done].
  injection Hr as <-. exists all. split_and!; [done|by eapply gathered_pages|].
  intros Hne. unfold gathered in E. apply Z.eqb_neq in Hne. rewrite Hne in E.
  by injection E as <-.
Qed.

End FetchFacts.

(** * Fetching the trade history, against the code *)

Module FetchSpec.
Import JsArray JsArrayFacts JsSlice JsSliceFacts CompareTraders CompareTradersFetch.
Import CompareTradersFacts FetchFacts.

Lemma truthy_orElse_string (v : Js.value) (s : string) :
  s <> "" -> Js.truthy (Js.orElse v (Js.JString s)) = true.
Proof.
  intros Hs. unfold Js.orElse. destruct (Js.truthy v) eqn:E; [done|].
  simpl. apply negb_true_iff. by apply String.eqb_neq.
Qed.

Lemma asString_truthy (v : Js.value) (s : string) :
  Js.asString v = Some s -> Js.truthy v = true -> s <> "".
Proof.
  destruct v; simpl; try done. intros [= ->] H%negb_true_iff.
  by apply String.eqb_neq.
Qed.

Lemma asTrade_fields o t :
  asTrade o = Some t ->
  Js.asInteger (o_timestamp o) = Some (timestamp t) /\
  Js.asString (o_market o) = Some (market t) /\
  Js.asString (o_outcome o) = Some (outcome t).
Proof. unfold asTrade. intros H. by simplify_option_eq. Qed.

Lemma asInteger_Some (v : Js.value) (z : Z) :
  Js.asInteger v = Some z -> v = Js.JNumber (inject_Z z).
Proof.
  destruct v as [| | |q|]; try done. unfold Js.asInteger.
  destruct (Pos.eqb_spec (Qden q) 1) as [Hden|]; [|done].
  intros [= <-]. destruct q as [n d]. simpl in Hden. by subst d.
Qed.

Lemma samplePages_recent offset limit since t :
  t ∈ samplePages offset limit since -> since <= timestamp t.
Proof.
  unfold samplePages. intros [_ H]%list_elem_of_In%filter_In. by apply Z.leb_le.
Qed.

(** [fetchBatch] returns nothing when the request fails.  Otherwise it
    returns, in the order of the response, the items whose timestamp reads
    as a number that is at least [sinceTimestamp]: an item without a
    timestamp is left out.  A returned trade carries the fields of its item
    as they are; its market is the first of the item's slug, title and
    market that is not empty or missing, and ['Unknown'] when there is
    none; its outcome is the item's, and ['Unknown'] when that is empty or
    missing.  So the market and the outcome are never empty or missing; and
    a returned object that is well typed is a trade not older than
    [sinceTimestamp]. *)
Theorem fetchBatch_recent (StringToDouble : string -> JsNum.double)
    (response : option (list RawActivity)) (sinceTimestamp : Z) :
  fetchBatch StringToDouble None sinceTimestamp = [] /\
  (forall data,
     sublist (fetchBatch StringToDouble (Some data) sinceTimestamp)
       (normalizeItem <$> data) /\
     forall item, item ∈ data ->
       normalizeItem item ∈ fetchBatch StringToDouble (Some data) sinceTimestamp <->
       JsNum.ge (Js.ToDouble StringToDouble (a_timestamp item))
         (JsNum.Fin (inject_Z sinceTimestamp)) = true) /\
  (forall o, o ∈ fetchBatch StringToDouble response sinceTimestamp ->
     (exists data item,
        response = Some data /\ item ∈ data /\
        o_id o = a_id item /\ o_timestamp o = a_timestamp item /\
        o_conditionId o = a_conditionId item /\ o_asset o = a_asset item /\
        o_side o = a_side item /\ o_price o = a_price item /\
        o_usdcSize o = a_usdcSize item /\ o_size o = a_size item /\
        o_transactionHash o = a_transactionHash item /\
        o_market o
        = (if Js.truthy (a_slug item) then a_slug item
           else if Js.truthy (a_title item) then a_title item
           else if Js.truthy (a_market item) then a_market item
           else Js.JString "Unknown") /\
        o_outcome o
        = (if Js.truthy (a_outcome item) then a_outcome item
           else Js.JString "Unknown")) /\
     o_timestamp o <> Js.JUndefined /\
     Js.ToDouble StringToDouble (o_timestamp o) <> JsNum.NaN /\
     Js.truthy (o_market o) = true /\
     Js.truthy (o_outcome o) = true /\
     forall t, asTrade o = Some t ->
       sinceTimestamp <= timestamp t /\ market t <> "" /\ outcome t <> "").
Proof.
  split_and!; [done| |].
  - intros data. split; [apply filter_sublist|]. intros item Hin. simpl.
    rewrite list_elem_of_In, filter_In, <- list_elem_of_In. unfold recent. simpl.
    split; [by intros [_ ?]|]. intros H. split; [|done].
    apply list_elem_of_fmap. by exists item.
  - intros o Ho. destruct response as [data|]; simpl in Ho; [|by apply elem_of_nil in Ho].
    apply list_elem_of_In, filter_In in Ho as [Ho Hrecent].
    apply list_elem_of_In, list_elem_of_fmap in Ho as (item & -> & Hitem).
    unfold recent in Hrecent.
    assert (Hm : Js.truthy (o_market (normalizeItem item)) = true)
      by (by apply truthy_orElse_string).
    assert (Ho : Js.truthy (o_outcome (normalizeItem item)) = true)
      by (by apply truthy_orElse_string).
    split_and!; [| | |done|done|].
    + exists data, item. split_and!; try done.
      * simpl. unfold Js.orElse.
        destruct (Js.truthy (a_slug item)) eqn:E1; simpl; rewrite ?E1; [done|].
        destruct (Js.truthy (a_title item)) eqn:E2; simpl; rewrite ?E2; [done|].
        by destruct (Js.truthy (a_market item)) eqn:E3.
    + intros E. by rewrite E in Hrecent.
    + intros E. by rewrite E in Hrecent.
    + intros t Ht. destruct (asTrade_fields _ _ Ht) as (Hts & Hmk & Hoc).
      split_and!.
      * apply asInteger_Some in Hts. rewrite Hts in Hrecent.
        apply Qle_bool_iff in Hrecent. by rewrite Zle_Qle.
      * by eapply asString_truthy.
      * by eapply asString_truthy.
Qed.

(** The paging loop of [fetchTraderActivity] ends for every data source,
    after [MAX_TRADES_LIMIT - 100] passes at most, and what the function
    returns does not depend on the bound given to the loop. *)
Theorem fetchTraderActivity_returns (HISTORY_DAYS MAX_TRADES_LIMIT : Z)
    (fetchBatchOf : Z -> Z -> Z -> list Trade) (now : Z) :
  exists result,
    (forall extra : nat,
       fetchTraderActivity HISTORY_DAYS MAX_TRADES_LIMIT fetchBatchOf
         (Z.to_nat (MAX_TRADES_LIMIT - 100) + extra) now = Some result) /\
    (forall fuel r,
       fetchTraderActivity HISTORY_DAYS MAX_TRADES_LIMIT fetchBatchOf fuel now = Some r ->
       r = result).
Proof.
  destruct (gathered_is_Some HISTORY_DAYS MAX_TRADES_LIMIT fetchBatchOf now 0)
    as [all Hall].
  exists (sort byTimestamp all). unfold fetchTraderActivity. split.
  - intros extra. rewrite Nat.add_0_r in Hall.
    by rewrite (gathered_fuel _ _ _ _ _ extra _ Hall).
  - intros fuel r Hr. destruct (gathered _ _ _ fuel now) as [all'|] eqn:E; [|done].
    injection Hr as <-. f_equal. by eapply gathered_unique.
Qed.

(** What [fetchTraderActivity] returns is the sorted array of the pages
    it gathered: the first page alone when it does not hold exactly 100
    trades (or the limit is at most 100), and otherwise the pages at
    offsets 0, 100, 200, ... up to the first page shorter than 100, none
    left out, cut to [MAX_TRADES_LIMIT] trades once they reach it. *)
Theorem fetchTraderActivity_pages (HISTORY_DAYS MAX_TRADES_LIMIT : Z)
    (fetchBatchOf : Z -> Z -> Z -> list Trade) (fuel : nat) (now : Z)
    (result : list Trade) :
  fetchTraderActivity HISTORY_DAYS MAX_TRADES_LIMIT fetchBatchOf fuel now
  = Some result ->
  exists all,
    result = sort byTimestamp all /\
    gatheredPages HISTORY_DAYS MAX_TRADES_LIMIT fetchBatchOf now all.
Proof.
  unfold fetchTraderActivity. intros Hr.
  destruct (gathered _ _ _ fuel now) as [all|] eqn:E; [|done].
  injection Hr as <-. exists all. split; [done|]. by eapply gathered_pages.
Qed.

Lemma fetchTraderActivity_pages_witness :
  fetchTraderActivity 30 1000 samplePages 10 sampleNow = Some sampleHistory /\
  exists all,
    sampleHistory = sort byTimestamp all /\
    gatheredPages 30 1000 samplePages sampleNow all.
Proof.
  assert (H : fetchTraderActivity 30 1000 samplePages 10 sampleNow
              = Some sampleHistory) by (vm_compute; reflexivity).
  split; [exact H|].
  exact (fetchTraderActivity_pages 30 1000 samplePages 10 sampleNow sampleHistory H).
Defined.

(** The array that [fetchTraderActivity] returns is in ascending order of
    timestamp and holds only trades that the data source served.  It holds
    at most [MAX_TRADES_LIMIT] trades, unless the first page alone holds
    more: a first page that has not exactly 100 trades is returned whole,
    whatever the limit. *)
Theorem fetchTraderActivity_sorted_bounded (HISTORY_DAYS MAX_TRADES_LIMIT : Z)
    (fetchBatchOf : Z -> Z -> Z -> list Trade) (fuel : nat) (now : Z)
    (result : list Trade) :
  fetchTraderActivity HISTORY_DAYS MAX_TRADES_LIMIT fetchBatchOf fuel now
  = Some result ->
  let firstBatch := fetchBatchOf 0 100 (sinceTimestampAt HISTORY_DAYS now) in
  StronglySorted (fun a b => timestamp a <= timestamp b) result /\
  Z.of_nat (length result)
  <= Z.max MAX_TRADES_LIMIT (Z.of_nat (length firstBatch)) /\
  (Z.of_nat (length firstBatch) <> 100 -> result = sort byTimestamp firstBatch) /\
  (forall t, t ∈ result ->
     exists i, 0 <= i /\
       t ∈ fetchBatchOf (i * 100) 100 (sinceTimestampAt HISTORY_DAYS now)).
Proof.
  intros Hr firstBatch.
  destruct (fetchTraderActivity_sorted_aux HISTORY_DAYS MAX_TRADES_LIMIT
              fetchBatchOf fuel now result Hr) as (all & -> & Hall & Hfirst).
  split_and!.
  - eapply StronglySorted_impl; [|apply sort_sorts, byTimestamp_consistent].
    unfold byTimestamp. intros a b. simpl. lia.
  - rewrite sort_length.
    pose proof (gatheredPages_length _ _ _ _ _ Hall) as Hlen.
    unfold page, batchSize in Hlen. by change (0 * 100) with 0 in Hlen.
  - intros Hne. by rewrite (Hfirst Hne).
  - intros t Ht. apply elem_of_sort in Ht.
    by apply (gatheredPages_elem _ _ _ _ _ _ Hall).
Qed.

Lemma fetchTraderActivity_sorted_bounded_witness :
  fetchTraderActivity 30 1000 samplePages 10 sampleNow = Some sampleHistory /\
  StronglySorted (fun a b => timestamp a <= timestamp b) sampleHistory /\
  Z.of_nat (length sampleHistory)
  <= Z.max 1000 (Z.of_nat (length (samplePages 0 100 (sinceTimestampAt 30 sampleNow)))).
Proof.
  assert (H : fetchTraderActivity 30 1000 samplePages 10 sampleNow
              = Some sampleHistory) by (vm_compute; reflexivity).
  destruct (fetchTraderActivity_sorted_bounded 30 1000 samplePages 10 sampleNow
              sampleHistory H) as (Hs & Hb & _).
  split_and!; [exact H|exact Hs|exact Hb].
Defined.

(** When [fetchBatch] serves only trades that are not older than the
    [sinceTimestamp] it is given, which is what its filter ensures, every
    trade that [fetchTraderActivity] returns lies within the last
    [HISTORY_DAYS] days before the run, to the second. *)
Theorem fetchTraderActivity_history (HISTORY_DAYS MAX_TRADES_LIMIT : Z)
    (fetchBatchOf : Z -> Z -> Z -> list Trade) (fuel : nat) (now : Z)
    (result : list Trade) :
  (forall offset limit since t,
     t ∈ fetchBatchOf offset limit since -> since <= timestamp t) ->
  fetchTraderActivity HISTORY_DAYS MAX_TRADES_LIMIT fetchBatchOf fuel now
  = Some result ->
  forall t, t ∈ result ->
    sinceTimestampAt HISTORY_DAYS now <= timestamp t /\
    now - HISTORY_DAYS * 24 * 60 * 60 * 1000 < (timestamp t + 1) * 1000.
Proof.
  intros Hrecent Hr t Ht.
  destruct (fetchTraderActivity_sorted_aux HISTORY_DAYS MAX_TRADES_LIMIT
              fetchBatchOf fuel now result Hr) as (all & -> & Hall & _).
  apply elem_of_sort in Ht.
  destruct (gatheredPages_elem _ _ _ _ _ _ Hall Ht) as (i & _ & Hin).
  apply Hrecent in Hin. split; [done|].
  unfold sinceTimestampAt in Hin.
  pose proof (Z.mul_succ_div_gt (now - HISTORY_DAYS * 24 * 60 * 60 * 1000) 1000
                ltac:(lia)).
  nia.
Qed.

Lemma fetchTraderActivity_history_witness :
  (forall offset limit since t,
     t ∈ samplePages offset limit since -> since <= timestamp t) /\
  fetchTraderActivity 30 1000 samplePages 10 sampleNow = Some sampleHistory /\
  forall t, t ∈ sampleHistory ->
    sinceTimestampAt 30 sampleNow <= timestamp t /\
    sampleNow - 30 * 24 * 60 * 60 * 1000 < (timestamp t + 1) * 1000.
Proof.
  assert (H : fetchTraderActivity 30 1000 samplePages 10 sampleNow
              = Some sampleHistory) by (vm_compute; reflexivity).
  split_and!; [exact samplePages_recent|exact H|].
  exact (fetchTraderActivity_history 30 1000 samplePages 10 sampleNow sampleHistory
           samplePages_recent H).
Defined.

End FetchSpec.

(** * What [printResults] computes *)

Module ReportFacts.
Import JsArray JsMap JsArrayFacts JsMapFacts CompareTraders CompareTradersFacts.
Import CompareTradersReport.

Lemma byFirstTimestamp_consistent : consistent byFirstTimestamp.
Proof. split; unfold byFirstTimestamp; intros; lia. Qed.

Lemma byDiff_consistent : consistent byDiff.
Proof. split; unfold byDiff; intros; lia. Qed.

Lemma mapM_imap_from {A B : Type} (f : nat -> A -> option B) (g : nat -> A -> B)
    (l : list A) : forall h : nat -> nat,
  (forall j x, l !! j = Some x -> f (h j) x = Some (g (h j) x)) ->
  mapM (fun jx => f jx.1 jx.2) (imap (fun j x => (h j, x)) l)
  = Some (imap (fun j => g (h j)) l).
Proof.
  induction l as [|x l IH]; intros h H; [done|].
  rewrite !imap_cons. cbn [mapM]. simpl.
  rewrite (H 0%nat x eq_refl). simpl.
  pose proof (IH (fun j => h (S j)) (fun j y Hy => H (S j) y Hy)) as IH'.
  unfold compose. by rewrite IH'.
Qed.

Lemma mapM_imap_Some {A B : Type} (f : nat -> A -> option B) (g : nat -> A -> B)
    (l : list A) :
  (forall j x, l !! j = Some x -> f j x = Some (g j x)) ->
  mapM (fun jx => f jx.1 jx.2) (imap pair l) = Some (imap g l).
Proof. intros H. by apply (mapM_imap_from f g l (fun j => j)). Qed.

Lemma imap_pair_lookup {A : Type} (l : list A) (j : nat) (e : nat * A) :
  imap pair l !! j = Some e -> e.1 = j /\ l !! j = Some e.2.
Proof.
  rewrite list_lookup_imap. destruct (l !! j) as [x|]; simpl; [|done].
  by intros [= <-].
Qed.

(** The line of a participant is printed exactly when the participant is
    printable. *)
Lemma rowAt_Some (first : TraderFirst) (rest : list TraderFirst) j x r :
  rowAt (first :: rest) j x = Some r <-> printable x /\ r = rowOf first j x.
Proof.
  unfold rowAt, rowOf, printable.
  assert (Hts : (if bool_decide (0 < j)%nat
                 then first0 ← (first :: rest) !! 0%nat;
                      Some (Some (tf_timestamp x - tf_timestamp first0))
                 else Some None)
                = Some (if bool_decide (0 < j)%nat
                        then Some (tf_timestamp x - tf_timestamp first)
                        else None))
    by (by destruct (bool_decide (0 < j)%nat)).
  rewrite Hts. clear Hts. simpl.
  destruct (tf_usdcSize x) as [| | |u|]; simpl;
    try (split; [done|by intros [[[? ?] _] _]]).
  destruct (tf_price x) as [| | |p|]; simpl;
    try (split; [done|by intros [(_ & [? ?] & _) _]]).
  unfold formatTimestamp, maxTimeValue.
  destruct (Z.leb_spec (Z.abs (tf_timestamp x * 1000)) 8640000000000000); simpl.
  - split; [intros [= <-]; split; [|done]|by intros [_ ->]].
    by split_and!; [eexists|eexists|].
  - split; [done|]. intros [(_ & _ & ?) _]. lia.
Qed.

Lemma rowsOf_Some (m : MatchedTrade) (rows : list Row) :
  rowsOf m = Some rows <->
  Forall printable (traderTrades m) /\
  rows = match sort byFirstTimestamp (traderTrades m) with
         | [] => []
         | first :: rest => imap (rowOf first) (first :: rest)
         end.
Proof.
  unfold rowsOf.
  assert (Hp : Forall printable (traderTrades m) <->
               Forall printable (sort byFirstTimestamp (traderTrades m)))
    by (by rewrite sort_perm).
  rewrite Hp. clear Hp.
  destruct (sort byFirstTimestamp (traderTrades m)) as [|first rest] eqn:E.
  { simpl. split; [intros [= <-]; by split|by intros [_ ->]]. }
  set (sorted := first :: rest). rewrite mapM_Some. split.
  - intros H2. split.
    + apply Forall_lookup. intros j x Hx.
      assert (Hj : imap pair sorted !! j = Some (j, x))
        by (by rewrite list_lookup_imap, Hx).
      destruct (Forall2_lookup_l _ _ _ _ _ H2 Hj) as (r & _ & Hr).
      by apply rowAt_Some in Hr as [? _].
    + apply list_eq. intros j. rewrite list_lookup_imap.
      destruct (sorted !! j) as [x|] eqn:Hx; simpl.
      * assert (Hj : imap pair sorted !! j = Some (j, x))
          by (by rewrite list_lookup_imap, Hx).
        destruct (Forall2_lookup_l _ _ _ _ _ H2 Hj) as (r & -> & Hr).
        by apply rowAt_Some in Hr as [_ ->].
      * apply lookup_ge_None. apply lookup_ge_None in Hx.
        rewrite <- (Forall2_length _ _ _ H2), length_imap. done.
  - intros [Hall ->]. apply Forall2_same_length_lookup. split.
    + by rewrite !length_imap.
    + intros j e r He Hr. apply imap_pair_lookup in He as [<- Hx].
      rewrite list_lookup_imap, Hx in Hr. injection Hr as <-.
      apply rowAt_Some. split; [|done].
      rewrite Forall_lookup in Hall. by apply (Hall e.1).
Qed.

Lemma filter_cons_split {A : Type} (P : A -> bool) (l : list A) p rest :
  List.filter P l = p :: rest ->
  exists l1 l2, l = l1 ++ p :: l2 /\ Forall (fun x => P x = false) l1.
Proof.
  induction l as [|x l IH]; simpl; [done|].
  destruct (P x) eqn:E.
  - intros [= -> _]. exists [], l. by split.
  - intros H. destruct (IH H) as (l1 & l2 & -> & Hall).
    exists (x :: l1), l2. split; [done|]. by constructor.
Qed.

(** The first element of a sorted array is the first of the least elements
    of the array: what stood before it compares strictly above it. *)
Lemma sort_head_first {A : Type} (compareFn : A -> A -> Z) (l : list A) (p : A) :
  consistent compareFn ->
  head (sort compareFn l) = Some p ->
  exists l1 l2,
    l = l1 ++ p :: l2 /\
    Forall (fun x => 0 < compareFn x p) l1 /\
    Forall (fun x => compareFn p x <= 0) l.
Proof.
  intros Hc Hp. destruct (sort_head_least compareFn Hc l p Hp) as [_ Hle].
  pose proof (sort_stable compareFn (ties compareFn p) l (ties_class compareFn Hc p))
    as Hst.
  destruct (sort compareFn l) as [|p' s] eqn:E; [done|]. injection Hp as ->.
  simpl in Hst. rewrite (ties_refl compareFn Hc) in Hst. symmetry in Hst.
  destruct (filter_cons_split _ _ _ _ Hst) as (l1 & l2 & -> & Hall).
  exists l1, l2. split_and!; [done| |done].
  apply Forall_app in Hle as [Hle _].
  rewrite Forall_forall in Hall, Hle. apply Forall_forall. intros x Hx.
  specialize (Hall x Hx). specialize (Hle x Hx). simpl in Hle.
  unfold ties in Hall. apply andb_false_iff in Hall as [H|H]; apply Z.leb_gt in H; lia.
Qed.

Lemma NoDup_fmap_app_lookup {A B : Type} (f : A -> B) (l1 l2 : list A) p i x :
  NoDup (f <$> (l1 ++ p :: l2)) ->
  (l1 ++ p :: l2) !! i = Some x -> f x = f p -> i = length l1 /\ x = p.
Proof.
  intros Hnd Hi Hf.
  assert (Hp : (l1 ++ p :: l2) !! length l1 = Some p)
    by (by rewrite lookup_app_r, Nat.sub_diag by lia).
  assert (i = length l1) as ->.
  { eapply NoDup_lookup; [exact Hnd| |]; rewrite list_lookup_fmap.
    - by rewrite Hi.
    - rewrite Hp. simpl. by rewrite Hf. }
  split; [done|]. congruence.
Qed.

(** The gap records of the matcher follow [leaderRule]. *)
Lemma gap_leaderRule (TIME_WINDOW_HOURS : Z) traderData matched m d :
  findMatchingTrades TIME_WINDOW_HOURS traderData = Some matched ->
  m ∈ matched -> d ∈ timeDiffs m -> leaderRule m d.
Proof.
  intros Hf Hm Hd.
  destruct (findMatchingTrades_origin _ _ _ _ Hf Hm) as (tm & _ & _ & _ & Hdiffs).
  destruct (findMatchingTrades_addresses _ _ _ _ Hf Hm) as [Hnd _].
  rewrite Hdiffs in Hd.
  apply elem_of_pairDiffs in Hd as (i & j & t1 & t2 & Hij & Hi & Hj & Hd).
  apply elem_of_timeDiff in Hd as [_ ->]. unfold leaderRule. simpl.
  exists i, j, t1, t2. split_and!; try done.
  - intros Heq. assert (i = j); [|lia].
    eapply NoDup_lookup; [exact Hnd| |];
      rewrite list_lookup_fmap; [rewrite Hi|rewrite Hj]; simpl; by f_equal.
  - intros. by destruct (Z.leb_spec (tf_timestamp t2 - tf_timestamp t1) 0); [lia|].
  - intros. by destruct (Z.leb_spec (tf_timestamp t2 - tf_timestamp t1) 0); [|lia].
  - intros. by destruct (Z.leb_spec (tf_timestamp t2 - tf_timestamp t1) 0); [|lia].
Qed.

(** The participant on the line marked [FIRST] leads a gap record that
    names it exactly when the gap is not zero. *)
Lemma first_row_leads (m : MatchedTrade) (p : TraderFirst) (d : TimeDiff) :
  NoDup (tf_address <$> traderTrades m) ->
  head (sort byFirstTimestamp (traderTrades m)) = Some p ->
  leaderRule m d ->
  trader1 d = tf_address p \/ trader2 d = tf_address p ->
  (leader d = tf_address p <-> diffSeconds d <> 0).
Proof.
  intros Hnd Hp (i & j & t1 & t2 & Hij & Hi & Hj & H1 & H2 & Hne & Hdiff & Hlt & Hgt & Heq)
    Hnames.
  destruct (sort_head_first _ _ _ byFirstTimestamp_consistent Hp)
    as (l1 & l2 & El & Hbefore & Hleast).
  rewrite El in Hnd, Hi, Hj.
  unfold byFirstTimestamp in Hbefore, Hleast.
  destruct Hnames as [Hn|Hn].
  - (* [p] is [trader1]: the other participant stands after it *)
    rewrite H1 in Hn.
    destruct (NoDup_fmap_app_lookup _ _ _ _ _ _ Hnd Hi Hn) as [-> ->].
    assert (Hle : tf_timestamp p <= tf_timestamp t2).
    { rewrite Forall_forall in Hleast. rewrite El in Hleast.
      assert (t2 ∈ l1 ++ p :: l2) by (by apply list_elem_of_lookup_2 with j).
      specialize (Hleast t2 H). lia. }
    rewrite Hdiff. split.
    + intros Hl Hz. assert (E : tf_timestamp p = tf_timestamp t2) by lia.
      rewrite (Heq E) in Hl. congruence.
    + intros Hnz. apply Hlt. lia.
  - (* [p] is [trader2]: the other participant stands before it *)
    rewrite H2 in Hn.
    destruct (NoDup_fmap_app_lookup _ _ _ _ _ _ Hnd Hj Hn) as [-> ->].
    assert (Hin : t1 ∈ l1).
    { rewrite lookup_app_l in Hi by done. by apply list_elem_of_lookup_2 with i. }
    rewrite Forall_forall in Hbefore. specialize (Hbefore t1 Hin).
    rewrite Hdiff. split; [lia|]. intros _. apply Hgt. lia.
Qed.

Lemma imap_lookup_Some {A B : Type} (f : nat -> A -> B) (l : list A) j r :
  imap f l !! j = Some r -> exists x, l !! j = Some x /\ r = f j x.
Proof.
  rewrite list_lookup_imap. destruct (l !! j) as [x|]; simpl; [|done].
  intros [= <-]. by exists x.
Qed.

(** *** The analysis of the gaps *)

Lemma allDiffs_diffs (matched : list MatchedTrade) :
  diff <$> allDiffs matched = gapSeconds (allGaps matched).
Proof.
  unfold allDiffs, allGaps, gapSeconds.
  induction matched as [|m matched IH]; [done|].
  rewrite bind_cons, fmap_app, IH. simpl. rewrite fmap_app. f_equal.
  rewrite <- list_fmap_compose. done.
Qed.

Lemma allDiffs_length (matched : list MatchedTrade) :
  length (allDiffs matched) = length (allGaps matched).
Proof.
  rewrite <- (length_fmap diff), allDiffs_diffs. unfold gapSeconds.
  by rewrite length_fmap.
Qed.

Lemma foldl_sum_diff (l : list GapEntry) (z : Z) :
  foldl (fun sum d => sum + diff d) z l = z + sumZ (diff <$> l).
Proof.
  revert z. induction l as [|x l IH]; intros z; [simpl; unfold sumZ; simpl; lia|].
  cbn [foldl]. rewrite IH, fmap_cons. unfold sumZ. cbn [foldr]. lia.
Qed.

Lemma sumZ_bounds (l : list Z) (lo hi : Z) :
  Forall (fun x => lo <= x <= hi) l ->
  lo * Z.of_nat (length l) <= sumZ l <= hi * Z.of_nat (length l).
Proof.
  induction 1 as [|x l Hx _ IH]; unfold sumZ in *; simpl; [lia|].
  rewrite Nat2Z.inj_succ. nia.
Qed.

Lemma filter_length_mono {A : Type} (f g : A -> bool) (l : list A) :
  (forall x, f x = true -> g x = true) ->
  (length (List.filter f l) <= length (List.filter g l))%nat.
Proof.
  intros H. induction l as [|x l IH]; simpl; [done|].
  destruct (f x) eqn:Ef.
  - rewrite (H x Ef). simpl. lia.
  - destruct (g x); simpl; lia.
Qed.

Lemma filter_length_le {A : Type} (f : A -> bool) (l : list A) :
  (length (List.filter f l) <= length l)%nat.
Proof.
  induction l as [|x l IH]; simpl; [done|]. destruct (f x); simpl; lia.
Qed.

Lemma under_mono (b b' : Z) (l : list GapEntry) :
  b <= b' -> 0 <= under b l <= under b' l /\ under b' l <= Z.of_nat (length l).
Proof.
  intros Hb. unfold under. split_and!; [lia| |].
  - apply inj_le, filter_length_mono. intros x Hx.
    apply Z.ltb_lt in Hx. apply Z.ltb_lt. lia.
  - apply inj_le, filter_length_le.
Qed.

Lemma mean_bounds (sum n lo hi : Z) :
  0 < n -> lo * n <= sum <= hi * n ->
  exists q, numDiv (ofZ sum) (ofZ n) = Num q /\
    (inject_Z lo <= q)%Q /\ (q <= inject_Z hi)%Q.
Proof.
  intros Hn [Hlo Hhi]. unfold numDiv, ofZ.
  assert (Hq : (0 < inject_Z n)%Q).
  { change 0%Q with (inject_Z 0). by rewrite <- Zlt_Qlt. }
  destruct (Qeq_bool (inject_Z n) 0) eqn:E.
  { apply Qeq_bool_iff in E. rewrite E in Hq. by apply Qlt_irrefl in Hq. }
  eexists. split; [done|]. split.
  - apply Qle_shift_div_l; [done|]. rewrite <- inject_Z_mult. by rewrite <- Zle_Qle.
  - apply Qle_shift_div_r; [done|]. rewrite <- inject_Z_mult. by rewrite <- Zle_Qle.
Qed.



Lemma sorted_diff_le (sorted : list GapEntry) i j a b :
  StronglySorted (fun a b => byDiff a b <= 0) sorted -> (i <= j)%nat ->
  sorted !! i = Some a -> sorted !! j = Some b -> diff a <= diff b.
Proof.
  intros Hs Hij Ha Hb. destruct (decide (i = j)) as [->|Hne].
  - rewrite Ha in Hb. injection Hb as ->. lia.
  - pose proof (StronglySorted_lookup _ _ i j a b Hs ltac:(lia) Ha Hb) as H.
    unfold byDiff in H. simpl in H. lia.
Qed.

Lemma elem_of_gapSeconds (matched : list MatchedTrade) (z : Z) :
  z ∈ diff <$> sort byDiff (allDiffs matched) <->
  exists d, d ∈ allGaps matched /\ z = Z.abs (diffSeconds d).
Proof.
  rewrite list_elem_of_fmap.
  setoid_rewrite elem_of_sort.
  rewrite <- list_elem_of_fmap, allDiffs_diffs. unfold gapSeconds.
  rewrite list_elem_of_fmap. split; intros (d & ? & ?); by exists d.
Qed.

(** What [gapAnalysis] returns when there are [n] gaps. *)
Lemma gapAnalysis_Some (matched : list MatchedTrade) :
  let sorted := sort byDiff (allDiffs matched) in
  let n := Z.of_nat (length sorted) in
  0 < n ->
  exists medianEntry minEntry maxEntry,
    sorted !! Z.to_nat (n / 2) = Some medianEntry /\
    sorted !! 0%nat = Some minEntry /\
    sorted !! Z.to_nat (n - 1) = Some maxEntry /\
    gapAnalysis matched
    = Some (Some {| total := n;
                    median := diff medianEntry;
                    avg := numDiv (ofZ (foldl (fun sum d => sum + diff d) 0 sorted))
                             (ofZ n);
                    min := diff minEntry;
                    max := diff maxEntry;
                    under1min := under 60 sorted;
                    under5min := under 300 sorted;
                    under1hour := under 3600 sorted |}).
Proof.
  intros sorted n Hn. unfold gapAnalysis. fold sorted. fold n.
  assert (Hlen : Z.of_nat (length (allDiffs matched)) = n)
    by (unfold n, sorted; by rewrite sort_length).
  rewrite Hlen. destruct (Z.ltb_spec 0 n) as [_|]; [|lia].
  assert (n / 2 < n) by (apply Z.div_lt; lia).
  assert (0 <= n / 2) by (apply Z.div_pos; lia).
  destruct (lookup_lt_is_Some_2 sorted (Z.to_nat (n / 2))) as [e1 H1]; [lia|].
  destruct (lookup_lt_is_Some_2 sorted 0%nat) as [e2 H2]; [lia|].
  destruct (lookup_lt_is_Some_2 sorted (Z.to_nat (n - 1))) as [e3 H3]; [lia|].
  exists e1, e2, e3. split_and!; [done..|].
  rewrite H1. simpl. rewrite H2. simpl. by rewrite H3.
Qed.

Lemma gap_within_window (TIME_WINDOW_HOURS : Z) traderData matched d :
  findMatchingTrades TIME_WINDOW_HOURS traderData = Some matched ->
  d ∈ allGaps matched -> Z.abs (diffSeconds d) <= TIME_WINDOW_HOURS * 3600.
Proof.
  intros Hf Hd. unfold allGaps in Hd.
  apply list_elem_of_In, in_flat_map in Hd as (m & Hm & Hd).
  apply list_elem_of_In in Hm, Hd.
  destruct (findMatchingTrades_origin _ _ _ _ Hf Hm) as (tm & _ & _ & _ & Hdiffs).
  rewrite Hdiffs in Hd.
  apply elem_of_pairDiffs in Hd as (i & j & t1 & t2 & _ & _ & _ & Hd).
  apply elem_of_timeDiff in Hd as [Hw ->]. done.
Qed.

Lemma gapAnalysis_Some_within (TIME_WINDOW_HOURS : Z) traderData matched :
  findMatchingTrades TIME_WINDOW_HOURS traderData = Some matched ->
  matched = [] \/ exists d, d ∈ allGaps matched.
Proof.
  intros Hf. destruct matched as [|m rest]; [by left|]. right.
  assert (Hm : m ∈ m :: rest) by (by left).
  destruct (findMatchingTrades_origin _ _ _ _ Hf Hm) as (tm & He & _ & Hfirsts & _).
  destruct (findMatchingTrades_of_condition _ _ _ _ _ _ _ Hf He Hfirsts Hm eq_refl)
    as (_ & _ & _ & Hne).
  destruct (timeDiffs m) as [|d ds] eqn:E; [done|].
  exists d. unfold allGaps. simpl. rewrite E. by left.
Qed.

(** What the analysis of the gaps computes. *)
Lemma gapAnalysis_spec (matched : list MatchedTrade) :
  exists r,
    gapAnalysis matched = Some r /\
    (r = None <-> allGaps matched = []) /\
    forall g, r = Some g ->
      total g = Z.of_nat (length (allGaps matched)) /\
      (forall d, d ∈ allGaps matched ->
         min g <= Z.abs (diffSeconds d) <= max g) /\
      (forall z, z ∈ [min g; median g; max g] ->
         exists d, d ∈ allGaps matched /\ z = Z.abs (diffSeconds d)) /\
      0 <= min g <= median g /\ median g <= max g /\
      (exists q, avg g = Num q /\ (inject_Z (min g) <= q)%Q /\
                 (q <= inject_Z (max g))%Q) /\
      0 <= under1min g <= under5min g /\
      under5min g <= under1hour g <= total g.
Proof.
  pose proof (gapAnalysis_Some matched) as Hsome. cbv zeta in Hsome.
  pose proof (allDiffs_length matched) as Hlen.
  pose proof (sort_length byDiff (allDiffs matched)) as Hlen'.
  pose proof (sort_sorts byDiff byDiff_consistent (allDiffs matched)) as Hsorted.
  set (sorted := sort byDiff (allDiffs matched)) in *.
  set (n := Z.of_nat (length sorted)) in *.
  destruct (Z.lt_ge_cases 0 n) as [Hn|Hn].
  - destruct (Hsome Hn) as (e1 & e2 & e3 & H1 & H2 & H3 & ->).
    eexists. split; [done|]. split.
    { split; [done|]. intros E. rewrite E in Hlen. simpl in Hlen. lia. }
    intros g [= <-]. cbn [total median avg min max under1min under5min under1hour].
    assert (Hall : forall x, x ∈ sorted -> diff e2 <= diff x <= diff e3).
    { intros x [i Hi]%list_elem_of_lookup.
      pose proof (lookup_lt_Some _ _ _ Hi). split.
      - by apply (sorted_diff_le sorted 0 i); [|lia|..].
      - by apply (sorted_diff_le sorted i (Z.to_nat (n - 1))); [|lia|..]. }
    assert (Hgap : forall e, e ∈ sorted ->
              exists d, d ∈ allGaps matched /\ diff e = Z.abs (diffSeconds d)).
    { intros e He. apply elem_of_gapSeconds, list_elem_of_fmap. by exists e. }
    assert (H0 : 0 <= diff e2).
    { destruct (Hgap e2) as (d & _ & ->); [by apply list_elem_of_lookup_2 with 0%nat|].
      lia. }
    split_and!.
    + lia.
    + intros d Hd.
      assert (Hz : Z.abs (diffSeconds d) ∈ diff <$> sorted)
        by (apply elem_of_gapSeconds; by exists d).
      apply list_elem_of_fmap in Hz as (x & -> & Hx). by apply Hall.
    + intros z Hz. rewrite !elem_of_cons in Hz.
      destruct Hz as [->|[->|[->|Hz]]]; [| | |by apply elem_of_nil in Hz];
        apply Hgap; by eapply list_elem_of_lookup_2.
    + done.
    + apply Hall. by eapply list_elem_of_lookup_2.
    + apply Hall. by eapply list_elem_of_lookup_2.
    + rewrite foldl_sum_diff, Z.add_0_l. apply mean_bounds; [done|].
      unfold n. rewrite <- (length_fmap diff). apply sumZ_bounds.
      apply Forall_forall. intros z (x & -> & Hx)%list_elem_of_fmap. by apply Hall.
    + apply (under_mono 60 300). lia.
    + apply (under_mono 60 300). lia.
    + apply (under_mono 300 3600). lia.
    + apply (under_mono 300 3600). lia.
  - exists None. unfold gapAnalysis. fold sorted.
    assert (E : length (allDiffs matched) = 0%nat) by lia.
    rewrite E. simpl. split; [done|]. split; [|done]. split; [intros _|done].
    destruct (allGaps matched); [done|simpl in *; lia].
Qed.

End ReportFacts.

(** * What [printResults] computes, against the code *)

Module ReportSpec.
Import JsArray JsMap JsArrayFacts JsMapFacts CompareTraders CompareTradersFacts.
Import CompareTradersReport ReportFacts.

(** Printing the lines of a matched market raises unless every
    participant has a number as usd value and as price and a timestamp
    within the range of [Date]; it raises for a participant whose activity
    came without a price.  The lines that [printResults] prints are
    then the participants in ascending order of first trade, the array of
    the market being sorted in a copy.  The first line, and no other, is
    marked [FIRST]; it shows no delay and its participant has the earliest
    first trade.  Every other line shows its delay after the first line,
    which is never negative. *)
Theorem rowsOf_lines (m : MatchedTrade) :
  (is_Some (rowsOf m) <-> Forall printable (traderTrades m)) /\
  rowsOf scenarioNoPrice = None /\
  forall rows,
    rowsOf m = Some rows ->
    row_trade <$> rows = sort byFirstTimestamp (traderTrades m) /\
    row_trade <$> rows ≡ₚ traderTrades m /\
    (forall i j a b,
       (i < j)%nat -> rows !! i = Some a -> rows !! j = Some b ->
       tf_timestamp (row_trade a) <= tf_timestamp (row_trade b)) /\
    (forall j r, rows !! j = Some r ->
       isFirst r = bool_decide (j = 0%nat) /\
       (j = 0%nat ->
        timeSinceFirst r = None /\
        forall x, x ∈ traderTrades m ->
          tf_timestamp (row_trade r) <= tf_timestamp x) /\
       ((0 < j)%nat ->
        exists first,
          rows !! 0%nat = Some first /\
          timeSinceFirst r
          = Some (tf_timestamp (row_trade r) - tf_timestamp (row_trade first)) /\
          0 <= tf_timestamp (row_trade r) - tf_timestamp (row_trade first))).
Proof.
  split.
  { split.
    - intros [rows Hrows]. by apply rowsOf_Some in Hrows as [? _].
    - intros Hall. eexists. apply rowsOf_Some. by split. }
  split; [by vm_compute|].
  intros rows [_ ->]%rowsOf_Some.
  pose proof (sort_sorts byFirstTimestamp byFirstTimestamp_consistent (traderTrades m))
    as Hsorted.
  pose proof (sort_head_least byFirstTimestamp byFirstTimestamp_consistent
                (traderTrades m)) as Hleast.
  pose proof (sort_perm byFirstTimestamp (traderTrades m)) as Hperm.
  destruct (sort byFirstTimestamp (traderTrades m)) as [|first rest] eqn:E.
  { split_and!; try done. }
  assert (Htrades : row_trade <$> imap (rowOf first) (first :: rest) = first :: rest).
  { rewrite fmap_imap. apply list_eq. intros i. rewrite list_lookup_imap.
    by destruct ((first :: rest) !! i). }
  split_and!; [done|by rewrite Htrades| |].
  - intros i j a b Hij Ha Hb.
    apply ReportFacts.imap_lookup_Some in Ha as (x & Hx & ->), Hb as (y & Hy & ->). simpl.
    pose proof (StronglySorted_lookup _ _ _ _ _ _ Hsorted Hij Hx Hy) as Hxy.
    unfold byFirstTimestamp in Hxy. simpl in Hxy. lia.
  - intros j r Hr. apply ReportFacts.imap_lookup_Some in Hr as (x & Hx & ->). simpl.
    split_and!; [done| |].
    + intros ->. simpl in Hx. injection Hx as <-. split; [done|].
      destruct (Hleast first eq_refl) as [_ Hall]. rewrite Forall_forall in Hall.
      intros y Hy. specialize (Hall y Hy). unfold byFirstTimestamp in Hall.
      simpl in Hall. lia.
    + intros Hj. exists (rowOf first 0 first). split; [done|].
      rewrite bool_decide_eq_true_2 by done. split; [done|]. simpl.
      assert (Hfirst : (first :: rest) !! 0%nat = Some first) by done.
      pose proof (StronglySorted_lookup _ _ _ _ _ _ Hsorted Hj Hfirst Hx) as Hxy.
      unfold byFirstTimestamp in Hxy. simpl in Hxy. lia.
Qed.

(** For a market that [findMatchingTrades] returns, the participant on
    the line marked [FIRST] is the leader of a gap record that names it
    exactly when the gap is not zero: it leads every participant who
    traded later, and on equal first trades the gap record gives the lead
    to the other participant. *)
Theorem first_line_leads (TIME_WINDOW_HOURS : Z) (traderData : list TraderTrades)
    (matched : list MatchedTrade) (m : MatchedTrade) (rows : list Row) (r : Row)
    (d : TimeDiff) :
  findMatchingTrades TIME_WINDOW_HOURS traderData = Some matched ->
  m ∈ matched -> rowsOf m = Some rows -> r ∈ rows -> isFirst r = true ->
  d ∈ timeDiffs m ->
  trader1 d = tf_address (row_trade r) \/ trader2 d = tf_address (row_trade r) ->
  (leader d = tf_address (row_trade r) <-> diffSeconds d <> 0).
Proof.
  intros Hf Hm Hrows Hr Hfirst Hd Hnames.
  destruct (findMatchingTrades_addresses _ _ _ _ Hf Hm) as [Hnd _].
  apply first_row_leads with m; [done| |by eapply gap_leaderRule|done].
  apply rowsOf_Some in Hrows as [_ ->].
  destruct (sort byFirstTimestamp (traderTrades m)) as [|first rest];
    [by apply elem_of_nil in Hr|].
  apply list_elem_of_lookup in Hr as [j Hj].
  change (rowOf first 0 first :: imap (rowOf first ∘ S) rest)
    with (imap (rowOf first) (first :: rest)) in Hj.
  apply ReportFacts.imap_lookup_Some in Hj as (x & Hx & ->). simpl in *.
  apply bool_decide_eq_true in Hfirst. subst j. by injection Hx as <-.
Qed.

Lemma first_line_leads_witness :
  findMatchingTrades 1 scenarioThree = Some [scenarioThreeMatch] /\
  rowsOf scenarioThreeMatch = Some scenarioThreeRows /\
  rowOf scenarioThreeFirst 0 scenarioThreeFirst ∈ scenarioThreeRows /\
  scenarioThreeTie ∈ timeDiffs scenarioThreeMatch /\
  (leader scenarioThreeTie = "0xaaa" <-> diffSeconds scenarioThreeTie <> 0).
Proof.
  assert (H1 : findMatchingTrades 1 scenarioThree = Some [scenarioThreeMatch])
    by (vm_compute; reflexivity).
  assert (H2 : scenarioThreeMatch ∈ [scenarioThreeMatch])
    by (apply list_elem_of_here).
  assert (H3 : rowsOf scenarioThreeMatch = Some scenarioThreeRows)
    by (vm_compute; reflexivity).
  assert (H4 : rowOf scenarioThreeFirst 0 scenarioThreeFirst ∈ scenarioThreeRows)
    by (vm_compute; apply list_elem_of_here).
  assert (H5 : scenarioThreeTie ∈ timeDiffs scenarioThreeMatch)
    by (apply list_elem_of_here).
  split_and!; [exact H1|exact H3|exact H4|exact H5|].
  exact (first_line_leads 1 scenarioThree [scenarioThreeMatch] scenarioThreeMatch
           scenarioThreeRows (rowOf scenarioThreeFirst 0 scenarioThreeFirst)
           scenarioThreeTie H1 H2 H3 H4 eq_refl H5 (or_introl eq_refl)).
Defined.

(** The time difference analysis of [printResults] is skipped exactly
    when there is no gap record, and reading the sorted gaps never raises.
    Otherwise the minimum and the maximum it prints bound the absolute value
    of every gap and are gaps themselves, as the median is; the minimum is
    at most the median and the average, and these are at most the maximum;
    the average is a number; and the counts of the gaps under a minute,
    under five minutes and under an hour grow in this order up to the
    total. *)
Theorem gapAnalysis_ordered (matched : list MatchedTrade) :
  exists r,
    gapAnalysis matched = Some r /\
    (r = None <-> allGaps matched = []) /\
    forall g, r = Some g ->
      total g = Z.of_nat (length (allGaps matched)) /\
      (forall d, d ∈ allGaps matched ->
         min g <= Z.abs (diffSeconds d) <= max g) /\
      (forall z, z ∈ [min g; median g; max g] ->
         exists d, d ∈ allGaps matched /\ z = Z.abs (diffSeconds d)) /\
      0 <= min g <= median g /\ median g <= max g /\
      (exists q, avg g = Num q /\ (inject_Z (min g) <= q)%Q /\
                 (q <= inject_Z (max g))%Q) /\
      0 <= under1min g <= under5min g /\
      under5min g <= under1hour g <= total g.
Proof. apply gapAnalysis_spec. Qed.

(** For the markets that [findMatchingTrades] returns, the maximum gap
    that [printResults] prints is within the time window, and the analysis
    is printed whenever a market is returned. *)
Theorem gapAnalysis_within_window (TIME_WINDOW_HOURS : Z)
    (traderData : list TraderTrades) (matched : list MatchedTrade) :
  findMatchingTrades TIME_WINDOW_HOURS traderData = Some matched ->
  (matched = [] /\ gapAnalysis matched = Some None) \/
  (exists g, gapAnalysis matched = Some (Some g) /\
     1 <= total g /\ max g <= TIME_WINDOW_HOURS * 3600).
Proof.
  intros Hf. destruct (gapAnalysis_Some_within TIME_WINDOW_HOURS traderData matched Hf)
    as [Hnil|(d & Hd)].
  - left. split; [done|]. by rewrite Hnil.
  - right. destruct (gapAnalysis_spec matched) as (r & Hr & Hnone & Hg).
    destruct r as [g|].
    + exists g. split; [done|]. destruct (Hg g eq_refl) as (Ht & _ & Hex & _).
      split.
      * rewrite Ht. destruct (allGaps matched); [by apply elem_of_nil in Hd|].
        simpl. lia.
      * destruct (Hex (max g)) as (d' & Hd' & ->);
          [rewrite !elem_of_cons; tauto|].
        by apply (gap_within_window TIME_WINDOW_HOURS traderData matched).
    + rewrite (proj1 Hnone eq_refl) in Hd. by apply elem_of_nil in Hd.
Qed.

Lemma gapAnalysis_within_window_witness :
  findMatchingTrades 1 scenarioThree = Some [scenarioThreeMatch] /\
  exists g, gapAnalysis [scenarioThreeMatch] = Some (Some g) /\
    1 <= total g /\ max g <= 1 * 3600.
Proof.
  assert (H1 : findMatchingTrades 1 scenarioThree = Some [scenarioThreeMatch])
    by (vm_compute; reflexivity).
  split; [exact H1|].
  destruct (gapAnalysis_within_window 1 scenarioThree [scenarioThreeMatch] H1)
    as [[H _]|H]; [discriminate H|exact H].
Defined.

End ReportSpec.

(** * The summaries *)

Module SummaryFacts.
Import JsArray JsMap JsArrayFacts JsMapFacts CompareTraders CompareTradersFacts.
Import CompareTradersReport.

Lemma byTimesFirst_consistent : consistent byTimesFirst.
Proof. split; unfold byTimesFirst; intros; lia. Qed.



Lemma sumZ_app (l l' : list Z) : sumZ (l ++ l') = sumZ l + sumZ l'.
Proof. unfold sumZ. induction l as [|x l IH]; simpl; [done|]. rewrite IH. lia. Qed.

Lemma sumZ_perm (l l' : list Z) : l ≡ₚ l' -> sumZ l = sumZ l'.
Proof.
  unfold sumZ. induction 1 as [|x l l' _ IH|x y l|l1 l2 l3 _ IH1 _ IH2]; simpl; lia.
Qed.

Lemma sumZ_fmap_add {A : Type} (f g : A -> Z) (l : list A) :
  sumZ ((fun a => f a + g a) <$> l) = sumZ (f <$> l) + sumZ (g <$> l).
Proof.
  unfold sumZ. induction l as [|x l IH]; [done|].
  rewrite !fmap_cons. cbn [foldr]. rewrite IH. lia.
Qed.

(** Among distinct keys exactly one is the given key. *)
Lemma count_key (k : string) (keys : list string) :
  NoDup keys -> k ∈ keys ->
  sumZ ((fun a => if String.eqb k a then 1 else 0) <$> keys) = 1.
Proof.
  unfold sumZ. induction 1 as [|a keys Ha Hnd IH]; intros Hk;
    [by apply elem_of_nil in Hk|].
  rewrite fmap_cons. cbn [foldr].
  assert (Hzero : forall l, k ∉ l ->
            foldr Z.add 0 ((fun a => if String.eqb k a then 1 else 0) <$> l) = 0).
  { induction l as [|b l IHl]; intros Hn; [done|].
    rewrite fmap_cons. cbn [foldr]. rewrite not_elem_of_cons in Hn.
    destruct Hn as [Hb Hl]. apply String.eqb_neq in Hb. rewrite Hb, IHl; done. }
  destruct (String.eqb_spec k a) as [->|Hne].
  - by rewrite Hzero.
  - apply elem_of_cons in Hk as [->|Hk]; [done|]. by rewrite IH.
Qed.

(** Records that each carry one of distinct keys are counted once when
    they are counted key by key. *)
Lemma count_by_key {A : Type} (key : A -> string) (keys : list string) (l : list A) :
  NoDup keys -> Forall (fun x => key x ∈ keys) l ->
  sumZ ((fun a => Z.of_nat (length (List.filter (fun x => String.eqb (key x) a) l)))
          <$> keys)
  = Z.of_nat (length l).
Proof.
  intros Hnd. induction 1 as [|x l Hx _ IH].
  - simpl. unfold sumZ. induction keys as [|a keys IHk]; [done|].
    apply NoDup_cons in Hnd as [_ Hnd]. rewrite fmap_cons. cbn [foldr].
    by rewrite IHk.
  - transitivity
      (sumZ ((fun a => (if String.eqb (key x) a then 1 else 0)
                       + Z.of_nat (length (List.filter
                                             (fun y => String.eqb (key y) a) l)))
               <$> keys)).
    + f_equal. apply list_fmap_ext. intros _ a _. simpl.
      destruct (String.eqb (key x) a); simpl; lia.
    + rewrite sumZ_fmap_add, (count_key (key x) keys Hnd Hx), IH.
      cbn [length]. lia.
Qed.

(** *** The traders of the maps are traders of the input *)

Lemma keys_ensure_elem {V : Type} k (d : V) (m : JsMap.t V) a :
  a ∈ keys (ensure k d m) -> a ∈ keys m \/ a = k.
Proof.
  unfold ensure. destruct (has k m) eqn:E; [by left|].
  apply has_false in E. rewrite (set_absent _ _ _ E). unfold keys.
  rewrite fmap_app, elem_of_app. simpl. rewrite list_elem_of_singleton. tauto.
Qed.

Lemma groupTrade_within S addr g trade :
  addr ∈ S -> tradersWithin S g -> tradersWithin S (groupTrade addr g trade).
Proof.
  intros Haddr Hg. unfold groupTrade, tradersWithin.
  assert (Hstep : forall v : JsMap.t (list Trade),
            (forall a, a ∈ keys v -> a ∈ S) ->
            forall a, a ∈ keys (mutate addr (fun arr => arr ++ [trade])
                                  (ensure addr [] v)) -> a ∈ S).
  { intros v Hv a. rewrite keys_mutate. intros [Ha| ->]%keys_ensure_elem; [|done].
    by apply Hv. }
  apply Forall_mutate_ensure; [done| |].
  - intros v Hv a Ha. apply (Hstep v); [|exact Ha]. unfold tradersWithin in Hg.
    rewrite Forall_forall in Hg. apply (Hg _ Hv).
  - intros a Ha. apply (Hstep []); [|exact Ha].
    intros b Hb. by apply elem_of_nil in Hb.
Qed.

Lemma groupTrader_within S g tr :
  address tr ∈ S -> tradersWithin S g -> tradersWithin S (groupTrader g tr).
Proof.
  intros Haddr. unfold groupTrader. revert g.
  induction (trades tr) as [|t l IH]; intros g Hg; simpl; [done|].
  apply IH. by apply groupTrade_within.
Qed.

Lemma groupTrades_within (traderData : list TraderTrades) :
  tradersWithin (address <$> traderData) (groupTrades traderData).
Proof.
  unfold groupTrades.
  assert (H : forall l g,
            Forall (fun tr => address tr ∈ address <$> traderData) l ->
            tradersWithin (address <$> traderData) g ->
            tradersWithin (address <$> traderData) (foldl groupTrader g l)).
  { induction l as [|tr l IH]; intros g Hl Hg; simpl; [done|].
    apply Forall_cons in Hl as [Htr Hl]. apply IH; [done|].
    by apply groupTrader_within. }
  apply H; [|constructor].
  apply Forall_forall. intros tr Htr. apply list_elem_of_fmap. by exists tr.
Qed.

Lemma participants_within TIME_WINDOW_HOURS traderData matched m a :
  findMatchingTrades TIME_WINDOW_HOURS traderData = Some matched ->
  m ∈ matched -> a ∈ tf_address <$> traderTrades m -> a ∈ address <$> traderData.
Proof.
  intros Hf Hm Ha.
  destruct (findMatchingTrades_origin _ _ _ _ Hf Hm) as (tm & He & _ & Hfirsts & _).
  rewrite (allTraderTrades_addresses _ _ Hfirsts) in Ha.
  pose proof (groupTrades_within traderData) as Hw. unfold tradersWithin in Hw.
  rewrite Forall_forall in Hw. by apply (Hw _ He).
Qed.

Lemma leaders_within TIME_WINDOW_HOURS traderData matched :
  findMatchingTrades TIME_WINDOW_HOURS traderData = Some matched ->
  Forall (fun d => leader d ∈ address <$> traderData) (allGaps matched).
Proof.
  intros Hf. apply Forall_forall. intros d Hd. unfold allGaps in Hd.
  apply list_elem_of_In, in_flat_map in Hd as (m & Hm & Hd).
  apply list_elem_of_In in Hm, Hd.
  pose proof (findMatchingTrades_gaps_ok _ _ _ Hf) as Hok.
  rewrite Forall_forall in Hok. destruct (Hok m Hm d Hd) as (H1 & H2 & [-> | ->]);
    by eapply participants_within.
Qed.

(** *** The counters of a summary *)

Lemma find_address_Some addr (l : list TraderFirst) :
  is_Some (List.find (fun t => String.eqb (tf_address t) addr) l) <->
  addr ∈ tf_address <$> l.
Proof.
  split.
  - intros [t Ht]. apply find_some in Ht as [Hin Ht]. apply String.eqb_eq in Ht.
    apply list_elem_of_fmap. exists t. split; [done|by apply list_elem_of_In].
  - intros Hin. destruct (List.find _ l) eqn:E; [by eexists|].
    by apply find_address_None in E.
Qed.

Lemma tallyMatch_count addr c m :
  c_matchedTradeCount (tallyMatch addr c m)
  = c_matchedTradeCount c + (if takesPart addr m then 1 else 0).
Proof.
  unfold tallyMatch, takesPart.
  destruct (List.find _ (traderTrades m)) as [t|] eqn:E.
  - rewrite tallyDiffs. simpl.
    rewrite bool_decide_eq_true_2; [done|]. apply find_address_Some. by eexists.
  - rewrite bool_decide_eq_false_2; [lia|]. by apply find_address_None.
Qed.

Lemma tallyMatches_count addr (matched : list MatchedTrade) c :
  c_matchedTradeCount (foldl (tallyMatch addr) c matched)
  = c_matchedTradeCount c
    + Z.of_nat (length (List.filter (takesPart addr) matched)).
Proof.
  revert c. induction matched as [|m matched IH]; intros c; simpl; [lia|].
  rewrite IH, tallyMatch_count. destruct (takesPart addr m); simpl; lia.
Qed.

End SummaryFacts.

(** * The summaries, against the code *)

Module SummarySpec.
Import JsArray JsMap JsArrayFacts JsMapFacts CompareTraders CompareTradersFacts.
Import CompareTradersReport SummaryFacts.

(** [calculateSummaries] returns one summary for each element of
    [traderData], in descending order of [timesFirst], summaries with equal
    [timesFirst] staying in the order of [traderData].  The summary of a
    trader carries the trader's address, the number of the trader's trades,
    and, as [matchedTrades], the number of matched markets that list the
    trader as a participant. *)
Theorem calculateSummaries_shape (matched : list MatchedTrade)
    (traderData : list TraderTrades) :
  let summaries := calculateSummaries matched traderData in
  summaries ≡ₚ summarize matched <$> traderData /\
  trader <$> summaries ≡ₚ address <$> traderData /\
  (forall i j a b,
     (i < j)%nat -> summaries !! i = Some a -> summaries !! j = Some b ->
     timesFirst b <= timesFirst a) /\
  (forall n,
     List.filter (fun s => timesFirst s =? n) summaries
     = List.filter (fun s => timesFirst s =? n) (summarize matched <$> traderData)) /\
  (forall tr, tr ∈ traderData ->
     let s := summarize matched tr in
     s ∈ summaries /\
     trader s = address tr /\
     totalTrades s = Z.of_nat (length (trades tr)) /\
     matchedTrades s
     = Z.of_nat (length (List.filter (takesPart (address tr)) matched))).
Proof.
  cbv zeta. unfold calculateSummaries. split_and!.
  - apply sort_perm.
  - rewrite sort_perm, <- list_fmap_compose.
    assert (E : (trader ∘ summarize matched) <$> traderData = address <$> traderData)
      by (by apply list_fmap_ext).
    by rewrite E.
  - intros i j a b Hij Ha Hb.
    pose proof (sort_sorts byTimesFirst byTimesFirst_consistent
                  (summarize matched <$> traderData)) as Hs.
    pose proof (StronglySorted_lookup _ _ _ _ _ _ Hs Hij Ha Hb) as Hab.
    unfold byTimesFirst in Hab. simpl in Hab. lia.
  - intros n. apply sort_stable. intros x y Hx%Z.eqb_eq Hy%Z.eqb_eq.
    unfold byTimesFirst. lia.
  - intros tr Htr. split_and!; [|done|done|].
    + apply elem_of_sort, list_elem_of_fmap. by exists tr.
    + unfold summarize. simpl. by rewrite tallyMatches_count.
Qed.

(** When the traders have distinct addresses, every gap record that
    [findMatchingTrades] returns is counted as a lead of exactly one trader:
    the [timesFirst] of the summaries add up to the number of gap
    records. *)
Theorem timesFirst_total (TIME_WINDOW_HOURS : Z) (traderData : list TraderTrades)
    (matched : list MatchedTrade) :
  NoDup (address <$> traderData) ->
  findMatchingTrades TIME_WINDOW_HOURS traderData = Some matched ->
  sumZ (timesFirst <$> calculateSummaries matched traderData)
  = Z.of_nat (length (allGaps matched)).
Proof.
  intros Hnd Hf. unfold calculateSummaries.
  rewrite (sumZ_perm _ (timesFirst <$> (summarize matched <$> traderData)))
    by (by rewrite sort_perm).
  pose proof (findMatchingTrades_gaps_ok _ _ _ Hf) as Hok.
  rewrite <- (count_by_key leader (address <$> traderData) (allGaps matched) Hnd
                (leaders_within _ _ _ Hf)).
  rewrite <- !list_fmap_compose. f_equal. apply list_fmap_ext. intros _ tr _.
  destruct (summarize_spec matched tr Hok) as (_ & _ & H & _). exact H.
Qed.

Lemma timesFirst_total_witness :
  NoDup (address <$> scenarioThree) /\
  findMatchingTrades 1 scenarioThree = Some [scenarioThreeMatch] /\
  sumZ (timesFirst <$> calculateSummaries [scenarioThreeMatch] scenarioThree)
  = Z.of_nat (length (allGaps [scenarioThreeMatch])).
Proof.
  assert (H0 : NoDup (address <$> scenarioThree))
    by (apply (bool_decide_unpack _); vm_compute; exact I).
  assert (H1 : findMatchingTrades 1 scenarioThree = Some [scenarioThreeMatch])
    by (vm_compute; reflexivity).
  split_and!; [exact H0|exact H1|].
  exact (timesFirst_total 1 scenarioThree [scenarioThreeMatch] H0 H1).
Defined.

End SummarySpec.

(** * The statistics of the leader finder *)

Module LeaderStatsFacts.
Import JsArray JsMap JsArrayFacts JsMapFacts FindLeaders GrouperFacts StatsFacts.
Import FindLeadersStats.
Import SummaryFacts.

(** *** Positions *)

Lemma mutate_lookup {V : Type} k (f : V -> V) (m : JsMap.t V) i e' :
  mutate k f m !! i = Some e' ->
  exists e, m !! i = Some e /\ e'.1 = e.1 /\ (e'.2 = e.2 \/ e'.2 = f e.2).
Proof.
  revert i. induction m as [|[k0 v] m IH]; intros i; simpl; [done|].
  destruct (String.eqb k k0).
  - destruct i as [|i]; simpl.
    + intros [= <-]. exists (k0, v). simpl. by split_and!; [| |right].
    + intros H. exists e'. by split_and!; [| |left].
  - destruct i as [|i]; simpl.
    + intros [= <-]. exists (k0, v). by split_and!; [| |left].
    + apply IH.
Qed.

Lemma firstTradeStep_positioned m t :
  positioned m -> positioned (firstTradeStep m t).
Proof.
  intros Hm. unfold firstTradeStep. destruct (traderOf t) as [k|]; [|done].
  destruct (has k m) eqn:E; simpl.
  - intros i e' He'. apply mutate_lookup in He' as (e & He & _ & [->| ->]);
      by apply Hm.
  - apply has_false in E. rewrite (set_absent _ _ _ E). intros i e He.
    destruct (decide (i < length m)%nat) as [Hi|Hi].
    + rewrite lookup_app_l in He by done. by apply Hm.
    + rewrite lookup_app_r in He by lia.
      destruct (i - length m)%nat as [|n] eqn:En; simpl in He; [|done].
      injection He as <-. simpl. unfold JsMap.size. lia.
Qed.

Lemma firstTrades_positioned l : positioned (firstTrades l).
Proof.
  unfold firstTrades.
  assert (H : forall m, positioned m -> positioned (foldl firstTradeStep m l)).
  { induction l as [|t l IH]; intros m Hm; simpl; [done|].
    by apply IH, firstTradeStep_positioned. }
  apply H. intros i e He. done.
Qed.

(** *** The order of the records *)

Lemma firstTimes_mutate k (f : FirstTrade -> FirstTrade) m :
  (forall v, ft_timestamp (f v) = ft_timestamp v) ->
  firstTimes (mutate k f m) = firstTimes m.
Proof.
  intros Hf. unfold firstTimes. induction m as [|[k0 v] m IH]; simpl; [done|].
  destruct (String.eqb k k0); simpl; [by rewrite Hf|]. by f_equal.
Qed.

Lemma firstTradeStep_times m t :
  firstTimes (firstTradeStep m t) = firstTimes m \/
  firstTimes (firstTradeStep m t) = firstTimes m ++ [timestamp t].
Proof.
  unfold firstTradeStep. destruct (traderOf t) as [k|]; [|by left].
  destruct (has k m) eqn:E; simpl.
  - left. by apply firstTimes_mutate.
  - right. apply has_false in E. rewrite (set_absent _ _ _ E).
    unfold firstTimes. by rewrite fmap_app.
Qed.

Lemma StronglySorted_snoc (l : list Z) (x : Z) :
  StronglySorted Z.le l -> Forall (fun y => y <= x) l ->
  StronglySorted Z.le (l ++ [x]).
Proof.
  induction 1 as [|y l Hl IH Hy]; intros Hall; simpl.
  - by repeat constructor.
  - apply Forall_cons in Hall as [Hyx Hall]. constructor; [by apply IH|].
    apply Forall_app. split; [done|]. by repeat constructor.
Qed.

Lemma firstTrades_times_sorted l : forall m,
  StronglySorted (fun a b => timestamp a <= timestamp b) l ->
  StronglySorted Z.le (firstTimes m) ->
  Forall (fun z => Forall (fun t => z <= timestamp t) l) (firstTimes m) ->
  StronglySorted Z.le (firstTimes (foldl firstTradeStep m l)).
Proof.
  induction l as [|t l IH]; intros m Hl Hm Hbefore; simpl; [done|].
  apply StronglySorted_inv in Hl as [Hl Ht].
  assert (Hhead : Forall (fun z => z <= timestamp t) (firstTimes m)).
  { eapply Forall_impl; [exact Hbefore|]. intros z Hz. simpl in Hz.
    by apply Forall_cons in Hz as [? _]. }
  assert (Htail : Forall (fun z => Forall (fun t => z <= timestamp t) l)
                    (firstTimes m)).
  { eapply Forall_impl; [exact Hbefore|]. intros z Hz. simpl in Hz.
    by apply Forall_cons in Hz as [_ ?]. }
  apply IH; [done| |]; destruct (firstTradeStep_times m t) as [-> | ->]; try done.
  - by apply StronglySorted_snoc.
  - apply Forall_app. split; [done|]. by repeat constructor.
Qed.

Lemma firstTrades_sorted l :
  StronglySorted (fun a b => timestamp a <= timestamp b) l ->
  StronglySorted Z.le (firstTimes (firstTrades l)).
Proof.
  intros Hl. apply firstTrades_times_sorted; [done|constructor|constructor].
Qed.

(** *** Sums over the statistics *)



Section Sums.
Variable TOP_N_THRESHOLD : Z.



End Sums.



(** *** Markets that have a trader *)




Section Totals.
Variable TOP_N_THRESHOLD : Z.



End Totals.

(** *** The statistics of one trader *)

Lemma setAdd_NoDup x (s : list string) : NoDup s -> NoDup (setAdd x s).
Proof.
  intros Hs. unfold setAdd. destruct (existsb (String.eqb x) s) eqn:E; [done|].
  apply NoDup_app. split_and!; [done| |apply NoDup_singleton].
  intros y Hy ->%list_elem_of_singleton.
  assert (existsb (String.eqb x) s = true); [|congruence].
  apply existsb_exists. exists x. split; [by apply list_elem_of_In|].
  apply String.eqb_refl.
Qed.

Lemma setAdd_elem x (s : list string) y :
  y ∈ setAdd x s <-> y = x \/ y ∈ s.
Proof.
  unfold setAdd. destruct (existsb (String.eqb x) s) eqn:E.
  - apply existsb_exists in E as (z & Hz & ->%String.eqb_eq).
    apply list_elem_of_In in Hz. split; [by right|]. by intros [->|].
  - rewrite elem_of_app, list_elem_of_singleton. tauto.
Qed.

Lemma setAdd_length x (s : list string) :
  (length s <= length (setAdd x s) <= S (length s))%nat /\
  (1 <= length (setAdd x s))%nat /\
  (x ∉ s -> length (setAdd x s) = S (length s)).
Proof.
  unfold setAdd. destruct (existsb (String.eqb x) s) eqn:E.
  - apply existsb_exists in E as (z & Hz & ->%String.eqb_eq).
    apply list_elem_of_In in Hz. split_and!; [lia|lia| |done].
    destruct s; [by apply elem_of_nil in Hz|simpl; lia].
  - rewrite length_app. simpl. split_and!; lia.
Qed.

Section Fields.
Variable TOP_N_THRESHOLD : Z.

Lemma applyContributions_fields (cs : list Contribution) : forall s0,
  let s := foldl (applyContribution TOP_N_THRESHOLD) s0 cs in
  address s = address s0 /\
  timesFirst s
  = timesFirst s0
    + Z.of_nat (length (List.filter
                          (fun c => ft_position (c_data c) =? 1) cs)) /\
  timesInTopN s
  = timesInTopN s0
    + Z.of_nat (length (List.filter
                          (fun c => ft_position (c_data c) <=? TOP_N_THRESHOLD) cs)) /\
  tradeCount s = tradeCount s0 + Z.of_nat (length cs) /\
  marketsTraded s
  = foldl (fun acc c => setAdd (c_conditionId c) acc) (marketsTraded s0) cs.
Proof.
  induction cs as [|c cs IH]; intros s0; cbn [foldl].
  - simpl. split_and!; (done || lia).
  - destruct (IH (applyContribution TOP_N_THRESHOLD s0 c))
      as (H1 & H2 & H3 & H4 & H5).
    cbv zeta. rewrite H1, H2, H3, H4, H5.
    unfold applyContribution, updateStats. cbn [address timesFirst timesInTopN
      tradeCount marketsTraded List.filter length].
    split_and!; [done| | |lia|done].
    + destruct (ft_position (c_data c) =? 1); cbn [length]; lia.
    + destruct (ft_position (c_data c) <=? TOP_N_THRESHOLD); cbn [length]; lia.
Qed.

End Fields.

Lemma markets_fold (cs : list Contribution) : forall s : list string,
  let markets := foldl (fun acc c => setAdd (c_conditionId c) acc) s cs in
  (NoDup s -> NoDup markets) /\
  (length s <= length markets <= length s + length cs)%nat /\
  (cs <> [] -> 1 <= length markets)%nat /\
  (forall y, y ∈ markets <-> y ∈ s \/ y ∈ c_conditionId <$> cs) /\
  (NoDup (s ++ (c_conditionId <$> cs)) ->
   length markets = (length s + length cs)%nat).
Proof.
  induction cs as [|c cs IH]; intros s; cbn [foldl].
  - simpl. split; [done|]. split; [lia|]. split; [done|]. split; [|intros; lia].
    intros y. split; [by left|]. intros [?|H]; [done|by apply elem_of_nil in H].
  - destruct (IH (setAdd (c_conditionId c) s)) as (H1 & H2 & H3 & H4 & H5).
    destruct (setAdd_length (c_conditionId c) s) as (L1 & L2 & L3).
    cbv zeta. split; [|split; [|split; [|split]]].
    + intros Hs. by apply H1, setAdd_NoDup.
    + cbn [length]. lia.
    + intros _. lia.
    + intros y. rewrite H4, setAdd_elem, fmap_cons, elem_of_cons. tauto.
    + intros Hnd. rewrite fmap_cons in Hnd.
      assert (Hc : c_conditionId c ∉ s).
      { apply NoDup_app in Hnd as (_ & Hdis & _). intros Hin.
        apply (Hdis _ Hin). by left. }
      rewrite H5.
      * rewrite (L3 Hc). cbn [length]. lia.
      * assert (E : setAdd (c_conditionId c) s = s ++ [c_conditionId c]).
        { unfold setAdd. destruct (existsb _ s) eqn:E; [|done].
          apply existsb_exists in E as (z & Hz & Heq%String.eqb_eq).
          rewrite <- Heq in Hz. apply list_elem_of_In in Hz. by destruct Hc. }
        rewrite E, <- app_assoc. done.
Qed.

(** What a market contributes to a trader who traded in it. *)
Lemma contributionOf_Some trader (fetched : Market * list Trade) c :
  contributionOf trader fetched = Some c ->
  c_conditionId c = conditionId fetched.1 /\
  (exists t, t ∈ fetched.2 /\ traderOf t = Some trader) /\
  1 <= ft_position (c_data c) /\
  c_firstTradeTime c <= ft_timestamp (c_data c).
Proof.
  unfold contributionOf. destruct (Z.of_nat (length fetched.2) =? 0); [done|].
  set (sorted := sort byTimestamp fetched.2).
  destruct (get trader (firstTrades sorted)) as [r|] eqn:Hr; [|done].
  simpl. intros [= <-]. simpl.
  pose proof (sorted_byTimestamp fetched.2) as Hsorted. fold sorted in Hsorted.
  pose proof (firstTrades_get sorted trader) as Hg.
  destruct (tradesOf trader sorted) as [|t later] eqn:Et; [congruence|].
  destruct Hg as [p Hp]. rewrite Hp in Hr. injection Hr as <-. simpl.
  destruct (tradesOf_head_min _ _ _ _ Hsorted Et) as (Hin & Ht & _).
  split_and!.
  - done.
  - exists t. split; [|done]. unfold sorted in Hin. by apply elem_of_sort in Hin.
  - apply get_Some_elem in Hp. apply list_elem_of_lookup in Hp as [i Hi].
    pose proof (firstTrades_positioned sorted i _ Hi) as Hpos. simpl in Hpos. lia.
  - destruct sorted as [|h rest]; [by apply elem_of_nil in Hin|]. simpl.
    apply StronglySorted_inv in Hsorted as [_ Hh].
    apply elem_of_cons in Hin as [->|Hin]; [lia|].
    rewrite Forall_forall in Hh. by apply Hh.
Qed.

Lemma contributions_elem trader (fetched : list (Market * list Trade)) c :
  c ∈ contributions trader fetched ->
  exists f, f ∈ fetched /\ contributionOf trader f = Some c.
Proof. unfold contributions. rewrite list_elem_of_omap. naive_solver. Qed.

Lemma contributions_conditionIds trader (fetched : list (Market * list Trade)) :
  sublist (c_conditionId <$> contributions trader fetched)
    ((fun f => conditionId f.1) <$> fetched).
Proof.
  unfold contributions. induction fetched as [|f fetched IH]; [done|].
  cbn [omap list_omap]. rewrite fmap_cons.
  destruct (contributionOf trader f) as [c|] eqn:E.
  - rewrite fmap_cons. apply contributionOf_Some in E as (-> & _).
    by apply sublist_skip.
  - by apply sublist_cons.
Qed.

Lemma meanQ_ge (l : list Q) (c : Q) :
  l <> [] -> Forall (fun x => (c <= x)%Q) l -> (c <= meanQ l)%Q.
Proof.
  intros Hne Hall. destruct l as [|x l]; [done|]. unfold meanQ.
  set (l' := x :: l) in *.
  assert (Hn : (0 < inject_Z (Z.of_nat (length l')))%Q).
  { change 0%Q with (inject_Z 0). rewrite <- Zlt_Qlt. unfold l'. simpl. lia. }
  apply Qle_shift_div_l; [done|].
  clear Hne Hn. induction Hall as [|y k Hy _ IH].
  - simpl. unfold sumQ. simpl. rewrite Qmult_0_r. apply Qle_refl.
  - unfold sumQ in *. cbn [foldr length].
    rewrite Nat2Z.inj_succ, <- Z.add_1_r, inject_Z_plus.
    rewrite Qmult_plus_distr_r, Qmult_1_r, Qplus_comm.
    by apply Qplus_le_compat.
Qed.

(** *** The keys of the statistics *)

Section Keys.
Variable TOP_N_THRESHOLD : Z.

Lemma analyzeMarkets_NoDup (fetched : list (Market * list Trade)) :
  NoDup (keys (analyzeMarkets TOP_N_THRESHOLD fetched)).
Proof.
  unfold analyzeMarkets.
  assert (H : forall m : JsMap.t TraderStats,
            NoDup (keys m) ->
            NoDup (keys (foldl (analyzeMarket TOP_N_THRESHOLD) m fetched))).
  { induction fetched as [|[mkt trades] fetched IH]; intros m Hm; simpl; [done|].
    apply IH. destruct (_ =? 0); [done|].
    generalize (firstTrades (sort byTimestamp trades)). intros entries.
    revert m Hm. induction entries as [|e entries IHe]; intros m Hm; simpl; [done|].
    apply IHe. unfold statsStep. by apply NoDup_keys_mutate_ensure. }
  apply H. constructor.
Qed.

Lemma analyzeMarkets_address (fetched : list (Market * list Trade)) k s :
  (k, s) ∈ analyzeMarkets TOP_N_THRESHOLD fetched -> address s = k.
Proof.
  intros Hin. apply elem_get in Hin; [|apply analyzeMarkets_NoDup].
  rewrite analyzeMarkets_get in Hin.
  destruct (contributions k fetched) as [|c cs]; [done|].
  injection Hin as <-.
  destruct (applyContributions_fields TOP_N_THRESHOLD (c :: cs) (newStats k))
    as (H & _).
  exact H.
Qed.

Lemma analyzeMarkets_addresses (fetched : list (Market * list Trade)) :
  address <$> values (analyzeMarkets TOP_N_THRESHOLD fetched)
  = keys (analyzeMarkets TOP_N_THRESHOLD fetched).
Proof.
  pose proof (analyzeMarkets_address fetched) as H.
  unfold values, keys.
  induction (analyzeMarkets TOP_N_THRESHOLD fetched) as [|[k s] m IH]; [done|].
  rewrite !fmap_cons. simpl. f_equal.
  - apply H. by left.
  - apply IH. intros k' s' Hin. apply H. by right.
Qed.

End Keys.

Lemma sublist_fmap' {A B : Type} (f : A -> B) (l k : list A) :
  sublist l k -> sublist (f <$> l) (f <$> k).
Proof. induction 1; simpl; by constructor. Qed.

End LeaderStatsFacts.

(** * The statistics of the leader finder, against the code *)

Module LeaderStatsSpec.
Import JsArray JsMap JsArrayFacts JsMapFacts FindLeaders GrouperFacts StatsFacts.
Import FindLeadersStats LeaderStatsFacts.

(** In every market that [analyzeMarkets] scans, the positions of the
    traders are 1, 2, 3, ... in the order of the map, no trader has two
    positions, and a trader with a smaller position did not trade later for
    the first time: the position is the trader's rank by first trade. *)
Theorem positions_rank (trades : list Trade) :
  let traderFirstTrade := firstTrades (sort byTimestamp trades) in
  NoDup (keys traderFirstTrade) /\
  (forall i e, traderFirstTrade !! i = Some e ->
     ft_position e.2 = Z.of_nat i + 1) /\
  (forall a b, a ∈ traderFirstTrade -> b ∈ traderFirstTrade ->
     ft_position a.2 < ft_position b.2 -> ft_timestamp a.2 <= ft_timestamp b.2) /\
  (forall a b, a ∈ traderFirstTrade -> b ∈ traderFirstTrade ->
     ft_position a.2 = ft_position b.2 -> a = b).
Proof.
  cbv zeta. set (m := firstTrades (sort byTimestamp trades)).
  pose proof (firstTrades_positioned (sort byTimestamp trades)) as Hpos.
  pose proof (firstTrades_sorted _ (sorted_byTimestamp trades)) as Hsorted.
  fold m in Hpos, Hsorted. split_and!.
  - apply firstTrades_NoDup.
  - exact Hpos.
  - intros a b [i Hi]%list_elem_of_lookup [j Hj]%list_elem_of_lookup.
    rewrite (Hpos i a Hi), (Hpos j b Hj). intros Hij.
    assert (Hi' : firstTimes m !! i = Some (ft_timestamp a.2))
      by (unfold firstTimes; by rewrite list_lookup_fmap, Hi).
    assert (Hj' : firstTimes m !! j = Some (ft_timestamp b.2))
      by (unfold firstTimes; by rewrite list_lookup_fmap, Hj).
    apply (StronglySorted_lookup Z.le (firstTimes m) i j); [done|lia|done..].
  - intros a b [i Hi]%list_elem_of_lookup [j Hj]%list_elem_of_lookup.
    rewrite (Hpos i a Hi), (Hpos j b Hj). intros Hij.
    assert (i = j) as -> by lia. congruence.
Qed.


(** A trader appears once at most in the ranking, under the address that
    is the trader's key in the statistics. *)
Theorem ranking_distinct (TOP_N_THRESHOLD MIN_FIRST_COUNT : Z)
    (fetched : list (Market * list Trade)) :
  let traderStats := analyzeMarkets TOP_N_THRESHOLD fetched in
  let ranked := rankTraders MIN_FIRST_COUNT traderStats in
  NoDup (address <$> ranked) /\
  (forall t, t ∈ ranked -> get (address t) traderStats = Some t) /\
  Z.of_nat (length ranked) <= JsMap.size traderStats.
Proof.
  cbv zeta. unfold rankTraders.
  set (m := analyzeMarkets TOP_N_THRESHOLD fetched).
  pose proof (analyzeMarkets_NoDup TOP_N_THRESHOLD fetched) as Hnd. fold m in Hnd.
  pose proof (FetchFacts.filter_sublist (qualifies MIN_FIRST_COUNT) (values m)) as Hsub.
  split_and!.
  - rewrite sort_perm.
    apply (sublist_NoDup _ (address <$> values m));
      [|by apply sublist_fmap'].
    unfold m. by rewrite analyzeMarkets_addresses.
  - intros t Ht. apply elem_of_sort, list_elem_of_In, filter_In in Ht as [Ht _].
    apply list_elem_of_In in Ht. unfold values in Ht.
    apply list_elem_of_fmap in Ht as ([k s] & -> & Hin). simpl.
    rewrite (analyzeMarkets_address TOP_N_THRESHOLD fetched k s Hin).
    by apply elem_get.
  - rewrite sort_length. apply sublist_length in Hsub.
    unfold values in *. rewrite (length_fmap snd m) in Hsub. unfold JsMap.size. lia.
Qed.

(** The statistics that [analyzeMarkets] keeps for a trader: the entry is
    stored under the trader's address; the trader traded in a market at
    least; [timesFirst] and [timesInTopN] count some of these markets, the
    first being at most the second when the threshold is 1 or more;
    [marketsTraded] holds condition ids of scanned markets in which the
    trader traded, without repetition, so that the first rate
    [timesFirst / marketsTraded.size] never divides by zero, and is at most
    1 when the scanned markets have distinct condition ids; the average
    delay is not negative and the average position is at least 1. *)
Theorem analyzeMarkets_stats (TOP_N_THRESHOLD : Z)
    (fetched : list (Market * list Trade)) (trader : string) (stats : TraderStats) :
  get trader (analyzeMarkets TOP_N_THRESHOLD fetched) = Some stats ->
  address stats = trader /\
  1 <= tradeCount stats /\
  (0 <= timesFirst stats /\ timesFirst stats <= tradeCount stats) /\
  (0 <= timesInTopN stats /\ timesInTopN stats <= tradeCount stats) /\
  (1 <= TOP_N_THRESHOLD -> timesFirst stats <= timesInTopN stats) /\
  NoDup (marketsTraded stats) /\
  (1 <= Z.of_nat (length (marketsTraded stats)) /\
   Z.of_nat (length (marketsTraded stats)) <= tradeCount stats) /\
  (forall cid, cid ∈ marketsTraded stats ->
     exists f, f ∈ fetched /\ conditionId f.1 = cid /\
       exists t, t ∈ f.2 /\ traderOf t = Some trader) /\
  (exists r, firstRate stats = Num r /\ (0 <= r)%Q /\
     (NoDup ((fun f => conditionId f.1) <$> fetched) -> (r <= 1)%Q)) /\
  (exists q, avgTimeToMarket stats = Num q /\ (0 <= q)%Q) /\
  (exists q, avgPositionInMarket stats = Num q /\ (1 <= q)%Q).
Proof.
  intros Hs. rewrite analyzeMarkets_get in Hs.
  pose proof (contributions_elem trader fetched) as Helem.
  pose proof (contributions_conditionIds trader fetched) as Hsub.
  destruct (contributions trader fetched) as [|c0 cs0] eqn:Ecs; [done|].
  assert (Hstats : stats
                   = foldl (applyContribution TOP_N_THRESHOLD) (newStats trader)
                       (c0 :: cs0)) by (injection Hs as <-; reflexivity).
  clear Hs.
  assert (Hne : c0 :: cs0 <> []) by done.
  assert (Hlen : 1 <= Z.of_nat (length (c0 :: cs0))) by (cbn [length]; lia).
  remember (c0 :: cs0) as cs eqn:Hcs. clear Hcs Ecs c0 cs0.
  destruct (applyContributions_fields TOP_N_THRESHOLD cs (newStats trader))
    as (Haddr & Hfirst & Htop & Hcount & Hmarkets).
  destruct (applyContributions_averages TOP_N_THRESHOLD trader cs)
    as (_ & Htime & Hposition).
  destruct (markets_fold cs []) as (Hnd & Hml & Hm1 & Hmelem & Hmall).
  cbv zeta in *. rewrite <- Hstats in *. clear Hstats.
  change (address (newStats trader)) with trader in Haddr.
  change (timesFirst (newStats trader)) with 0 in Hfirst.
  change (timesInTopN (newStats trader)) with 0 in Htop.
  change (tradeCount (newStats trader)) with 0 in Hcount.
  change (marketsTraded (newStats trader)) with (@nil string) in Hmarkets.
  cbn [length] in Hml. rewrite <- Hmarkets in *.
  pose proof (ReportFacts.filter_length_le
                (fun c => ft_position (c_data c) =? 1) cs) as Hf1.
  pose proof (ReportFacts.filter_length_le
                (fun c => ft_position (c_data c) <=? TOP_N_THRESHOLD) cs) as Hf2.
  assert (Hsize : 1 <= Z.of_nat (length (marketsTraded stats)))
    by (specialize (Hm1 Hne); lia).
  assert (Hcontrib : forall c, c ∈ cs ->
            1 <= ft_position (c_data c) /\
            c_firstTradeTime c <= ft_timestamp (c_data c)).
  { intros c Hc. destruct (Helem c Hc) as (f & _ & Hf).
    by apply contributionOf_Some in Hf as (_ & _ & ? & ?). }
  split_and!.
  - done.
  - lia.
  - lia.
  - lia.
  - lia.
  - lia.
  - intros Htop1. rewrite Hfirst, Htop.
    assert (Himp : forall c : Contribution,
              (ft_position (c_data c) =? 1) = true ->
              (ft_position (c_data c) <=? TOP_N_THRESHOLD) = true)
      by (intros c Hc%Z.eqb_eq; apply Z.leb_le; lia).
    pose proof (ReportFacts.filter_length_mono
                  (fun c => ft_position (c_data c) =? 1)
                  (fun c => ft_position (c_data c) <=? TOP_N_THRESHOLD) cs Himp).
    lia.
  - apply Hnd. constructor.
  - done.
  - lia.
  - intros cid Hcid. apply Hmelem in Hcid as [Hcid|Hcid];
      [by apply elem_of_nil in Hcid|].
    apply list_elem_of_fmap in Hcid as (c & -> & Hc).
    destruct (Helem c Hc) as (f & Hf & Hcf).
    apply contributionOf_Some in Hcf as (-> & Ht & _). by exists f.
  - unfold firstRate.
    destruct (ReportFacts.mean_bounds (timesFirst stats)
                (Z.of_nat (length (marketsTraded stats))) 0 (timesFirst stats))
      as (r & Hr & Hr0 & _); [lia|nia|].
    exists r. split_and!; [done|done|]. intros Hdistinct.
    assert (Hall : length (marketsTraded stats) = length cs).
    { rewrite Hmall; [done|]. simpl. by apply (sublist_NoDup _ _ Hdistinct). }
    destruct (ReportFacts.mean_bounds (timesFirst stats)
                (Z.of_nat (length (marketsTraded stats))) 0 1)
      as (r' & Hr' & _ & Hr1); [lia|lia|].
    rewrite Hr in Hr'. by injection Hr' as <-.
  - apply numEq_Num_inv in Htime as (q & Hq & Heq). exists q. split; [done|].
    rewrite Heq. apply meanQ_ge; [by destruct cs|].
    apply Forall_fmap, Forall_forall. intros c Hc. simpl. unfold timeToMarket.
    change 0%Q with (inject_Z 0). rewrite <- Zle_Qle.
    destruct (Hcontrib c Hc). lia.
  - apply numEq_Num_inv in Hposition as (q & Hq & Heq). exists q. split; [done|].
    rewrite Heq. apply meanQ_ge; [by destruct cs|].
    apply Forall_fmap, Forall_forall. intros c Hc. simpl. unfold positionInMarket.
    change 1%Q with (inject_Z 1). rewrite <- Zle_Qle.
    by destruct (Hcontrib c Hc).
Qed.

Lemma analyzeMarkets_stats_witness :
  get "0xa" (analyzeMarkets 5 sampleFetched) = Some sampleStats /\
  address sampleStats = "0xa" /\
  1 <= tradeCount sampleStats /\
  (0 <= timesFirst sampleStats /\ timesFirst sampleStats <= tradeCount sampleStats).
Proof.
  assert (H : get "0xa" (analyzeMarkets 5 sampleFetched) = Some sampleStats)
    by (vm_compute; reflexivity).
  destruct (analyzeMarkets_stats 5 sampleFetched "0xa" sampleStats H)
    as (H1 & H2 & H3 & _).
  split_and!; [exact H|exact H1|exact H2|exact (proj1 H3)|exact (proj2 H3)].
Defined.

End LeaderStatsSpec.

(** * The first-trader finder's report *)

Module FirstMainFacts.
Import JsArray JsMap JsArrayFacts JsMapFacts FindFirst GrouperFacts.
Import FindFirstMain SummaryFacts LeaderStatsFacts.

Local Abbreviation byTime := (fun a b : Trade => timestamp a <= timestamp b).

Lemma firstTimes_orderStep_mutate k (f : TraderEntry -> TraderEntry) m :
  (forall v, firstTrade (f v) = firstTrade v) ->
  firstTimes (mutate k f m) = firstTimes m.
Proof.
  intros Hf. unfold firstTimes. induction m as [|[k0 v] m IH]; simpl; [done|].
  destruct (String.eqb k k0); simpl; [by rewrite Hf|]. by f_equal.
Qed.

Lemma orderStep_times m t :
  firstTimes (orderStep m t) = firstTimes m \/
  firstTimes (orderStep m t) = firstTimes m ++ [timestamp t].
Proof.
  unfold orderStep. destruct (traderOf t) as [k|]; [|by left].
  destruct (has k m) eqn:E; simpl.
  - left. by apply firstTimes_orderStep_mutate.
  - right. apply has_false in E. rewrite (set_absent _ _ _ E).
    unfold firstTimes. by rewrite fmap_app.
Qed.

Lemma traderOrder_times_sorted l : forall m,
  StronglySorted byTime l ->
  StronglySorted Z.le (firstTimes m) ->
  Forall (fun z => Forall (fun t => z <= timestamp t) l) (firstTimes m) ->
  StronglySorted Z.le (firstTimes (foldl orderStep m l)).
Proof.
  induction l as [|t l IH]; intros m Hl Hm Hbefore; simpl; [done|].
  apply StronglySorted_inv in Hl as [Hl Ht].
  assert (Hhead : Forall (fun z => z <= timestamp t) (firstTimes m)).
  { eapply Forall_impl; [exact Hbefore|]. intros z Hz. simpl in Hz.
    by apply Forall_cons in Hz as [? _]. }
  assert (Htail : Forall (fun z => Forall (fun t => z <= timestamp t) l)
                    (firstTimes m)).
  { eapply Forall_impl; [exact Hbefore|]. intros z Hz. simpl in Hz.
    by apply Forall_cons in Hz as [_ ?]. }
  apply IH; [done| |]; destruct (orderStep_times m t) as [-> | ->]; try done.
  - by apply StronglySorted_snoc.
  - apply Forall_app. split; [done|]. by repeat constructor.
Qed.

Lemma traderOrderOf_sorted l :
  StronglySorted byTime l -> StronglySorted Z.le (firstTimes (traderOrderOf l)).
Proof.
  intros Hl. apply traderOrder_times_sorted; [done|constructor|constructor].
Qed.

Lemma orderStep_NoDup m t : NoDup (keys m) -> NoDup (keys (orderStep m t)).
Proof.
  intros Hm. unfold orderStep. destruct (traderOf t) as [k|]; [|done].
  destruct (has k m); simpl; [by rewrite keys_mutate|by apply NoDup_keys_set].
Qed.

Lemma traderOrderOf_NoDup l : NoDup (keys (traderOrderOf l)).
Proof.
  unfold traderOrderOf.
  assert (H : forall m, NoDup (keys m) -> NoDup (keys (foldl orderStep m l))).
  { induction l as [|t l IH]; intros m Hm; simpl; [done|].
    by apply IH, orderStep_NoDup. }
  apply H. constructor.
Qed.



Lemma orderStep_length m t :
  (length (orderStep m t) <= length m + (if named t then 1 else 0))%nat.
Proof.
  unfold orderStep, named. destruct (traderOf t) as [k|]; simpl; [|lia].
  destruct (has k m) eqn:E; simpl.
  - assert (H : length (keys (mutate k (fun data =>
        {| firstTrade := firstTrade data;
           totalVolume := (totalVolume data + usdcSize t)%Q;
           tradeCount := tradeCount data + 1 |}) m)) = length (keys m))
      by (by rewrite keys_mutate).
    unfold keys in H. rewrite !length_fmap in H. lia.
  - apply has_false in E. rewrite (set_absent _ _ _ E), length_app. simpl. lia.
Qed.

Lemma traderOrderOf_length l :
  (length (traderOrderOf l) <= length (List.filter named l))%nat.
Proof.
  unfold traderOrderOf.
  assert (H : forall m,
    (length (foldl orderStep m l) <= length m + length (List.filter named l))%nat).
  { induction l as [|t l IH]; intros m; simpl; [lia|].
    specialize (IH (orderStep m t)). pose proof (orderStep_length m t).
    destruct (named t); simpl in *; lia. }
  apply (H []).
Qed.

Lemma linesFrom_imap entries : forall from firstTradeTime,
  linesFrom from firstTradeTime entries
  = imap (lineOf from firstTradeTime) (take (Z.to_nat (20 - from)) entries).
Proof.
  induction entries as [|[address data] entries IH]; intros from ft.
  - by rewrite take_nil.
  - cbn [linesFrom]. destruct (20 <? from + 1) eqn:E.
    + apply Z.ltb_lt in E. by replace (Z.to_nat (20 - from)) with 0%nat by lia.
    + apply Z.ltb_ge in E.
      replace (Z.to_nat (20 - from)) with (S (Z.to_nat (20 - (from + 1)))) by lia.
      rewrite firstn_cons, imap_cons, IH. f_equal.
      * unfold lineOf. simpl. f_equal. lia.
      * apply imap_ext. intros i e _. unfold lineOf. simpl. f_equal. lia.
Qed.

Lemma firstTradeTime_least (trades : list Trade) t :
  t ∈ trades -> firstTradeTimeOf (sort byTimestamp trades) <= timestamp t.
Proof.
  intros Ht. destruct (sort byTimestamp trades) as [|x r] eqn:E.
  - apply sort_nil_inv in E. subst. by apply not_elem_of_nil in Ht.
  - destruct (sort_head_least byTimestamp first_byTimestamp_consistent trades x)
      as [_ Hle]; [by rewrite E|].
    rewrite Forall_forall in Hle. specialize (Hle t Ht). simpl in Hle.
    unfold byTimestamp in Hle. simpl. lia.
Qed.


(** What [main] shows, when it shows a report. *)
Section Shown.
Variable marketBySlug marketByConditionId : string -> option (list MarketInfo).
Variable marketTrades : string -> list Trade.

Local Abbreviation main' := (main marketBySlug marketByConditionId marketTrades).

Lemma main_Shown argv2 env r :
  main' argv2 env = Shown r ->
  exists input,
    orString argv2 env = Some input /\ input <> "" /\
    market r = (if String.prefix "0x" input
                then findMarket (marketByConditionId input)
                else findMarket (marketBySlug input)) /\
    conditionId r
    = default input (orString (mi_conditionId <$> market r) (Some input)) /\
    marketTrades (conditionId r) <> [] /\
    totalTrades r = Z.of_nat (length (marketTrades (conditionId r))) /\
    uniqueTraders r
    = JsMap.size (traderOrderOf (sort byTimestamp (marketTrades (conditionId r)))) /\
    lines r
    = linesFrom 0
        (firstTradeTimeOf (sort byTimestamp (marketTrades (conditionId r))))
        (traderOrderOf (sort byTimestamp (marketTrades (conditionId r)))) /\
    winner r
    = head (traderOrderOf (sort byTimestamp (marketTrades (conditionId r)))).
Proof.
  unfold main. destruct (orString argv2 env) as [input|]; [|done].
  destruct (String.eqb input "") eqn:E; [done|]. apply String.eqb_neq in E.
  match goal with
  | |- context [marketTrades ?c] => set (cid := c)
  end.
  destruct (Z.of_nat (length (marketTrades cid)) =? 0) eqn:El; [done|].
  apply Z.eqb_neq in El. intros [= <-]. simpl. exists input.
  split_and!; try done.
  - intros Hn. by rewrite Hn in El.
  - by rewrite sort_length.
Qed.

End Shown.

End FirstMainFacts.

Module FirstMainSpec.
Import JsArray JsMap JsArrayFacts JsMapFacts FindFirst GrouperFacts.
Import FindFirstMain SummaryFacts LeaderStatsFacts FirstMainFacts.

Section Report.
Variable marketBySlug marketByConditionId : string -> option (list MarketInfo).
Variable marketTrades : string -> list Trade.

(** The table of the first-trader finder.  [main] shows at most 20 lines,
    one per trader and numbered from 1, in ascending order of the traders'
    first trades: the delays are never negative and never fall from one
    line to the next.  There are no more traders than trades, and the
    trader announced as the first one is the trader of the first line. *)
Theorem main_table argv2 env r :
  main marketBySlug marketByConditionId marketTrades argv2 env = Shown r ->
  1 <= totalTrades r /\
  0 <= uniqueTraders r <= totalTrades r /\
  Z.of_nat (length (lines r)) = Z.min 20 (uniqueTraders r) /\
  NoDup (l_address <$> lines r) /\
  (forall i line,
     lines r !! i = Some line ->
     position line = Z.of_nat i + 1 /\
     0 <= delay line /\
     forall j line',
       (i <= j)%nat -> lines r !! j = Some line' -> delay line <= delay line') /\
  winner r = (fun line => (l_address line, data line)) <$> head (lines r).
Proof.
  intros Hr.
  destruct (main_Shown _ _ _ _ _ _ Hr)
    as (input & _ & _ & _ & _ & Hne & Htot & Huniq & Hlines & Hwin).
  set (trades := marketTrades (conditionId r)) in *.
  set (sorted := sort byTimestamp trades) in *.
  assert (Hsorted : StronglySorted (fun a b => timestamp a <= timestamp b) sorted)
    by apply first_sorted_byTimestamp.
  pose proof (traderOrderOf_sorted sorted Hsorted) as Htimes.
  pose proof (traderOrderOf_NoDup sorted) as Hnd.
  pose proof (traderOrderOf_length sorted) as Hlen.
  rewrite linesFrom_imap in Hlines. change (Z.to_nat (20 - 0)) with 20%nat in Hlines.
  set (order := traderOrderOf sorted) in *.
  assert (Hfl : (length (List.filter named sorted) <= length sorted)%nat).
  { clear. induction sorted as [|x l IH]; simpl; [lia|].
    destruct (named x); simpl; lia. }
  assert (Hsl : length sorted = length trades) by apply sort_length.
  split_and!.
  - destruct trades; [done|]. rewrite Htot. simpl. lia.
  - rewrite Huniq. unfold JsMap.size. lia.
  - rewrite Huniq, Htot. unfold JsMap.size. lia.
  - rewrite Hlines, length_imap, length_take, Huniq. unfold JsMap.size. lia.
  - rewrite Hlines.
    assert (Heq : l_address <$> imap (lineOf 0 (firstTradeTimeOf sorted)) (take 20 order)
                  = take 20 (keys order)).
    { unfold keys. rewrite <- fmap_take. generalize (take 20 order). intros l.
      generalize 0. induction l as [|e l IH]; intros from; [done|].
      rewrite imap_cons, !fmap_cons. f_equal.
      rewrite <- (IH (from + 1)). f_equal. apply imap_ext. intros i x _.
      unfold lineOf. simpl. f_equal. lia. }
    rewrite Heq. eapply sublist_NoDup; [exact Hnd|]. apply sublist_take.
  - intros i line Hi. rewrite Hlines in Hi.
    apply ReportFacts.imap_lookup_Some in Hi as (e & He & ->).
    apply lookup_take_Some in He as [He Hi20].
    split_and!.
    + unfold lineOf. simpl. lia.
    + unfold lineOf. simpl.
      assert (Hin : e ∈ order) by (apply list_elem_of_lookup; by exists i).
      destruct e as [k d]. apply (elem_get _ _ _ Hnd) in Hin.
      unfold order in Hin. rewrite traderOrderOf_get in Hin.
      destruct (entriesOf k sorted) as [|t later] eqn:E; [done|].
      injection Hin as <-. simpl.
      destruct (entriesOf_head_min _ _ _ _ Hsorted E) as (Hts & _ & _).
      assert (Htt : t ∈ trades).
      { unfold sorted in Hts. by rewrite sort_perm in Hts. }
      pose proof (firstTradeTime_least trades t Htt). fold sorted in H. lia.
    + intros j line' Hij Hj. rewrite Hlines in Hj.
      apply ReportFacts.imap_lookup_Some in Hj as (e' & He' & ->).
      apply lookup_take_Some in He' as [He' _].
      unfold lineOf. simpl.
      destruct (decide (i = j)) as [->|Hne'].
      * rewrite He in He'. injection He' as <-. lia.
      * assert (Hlt : (i < j)%nat) by lia.
        assert (H1 : firstTimes order !! i = Some (timestamp (firstTrade e.2)))
          by (unfold firstTimes; by rewrite list_lookup_fmap, He).
        assert (H2 : firstTimes order !! j = Some (timestamp (firstTrade e'.2)))
          by (unfold firstTimes; by rewrite list_lookup_fmap, He').
        pose proof (StronglySorted_lookup _ _ _ _ _ _ Htimes Hlt H1 H2). lia.
  - rewrite Hwin, Hlines. by destruct order as [|[k d] rest].
Qed.

End Report.

Lemma main_table_witness :
  main sampleBySlug (fun _ => None) sampleTrades (Some "some-market") None
  = Shown sampleReport /\
  Z.of_nat (length (lines sampleReport)) = Z.min 20 (uniqueTraders sampleReport).
Proof.
  assert (H : main sampleBySlug (fun _ => None) sampleTrades (Some "some-market") None
              = Shown sampleReport) by (vm_compute; reflexivity).
  split; [exact H|].
  exact (proj1 (proj2 (proj2 (main_table _ _ _ _ _ _ H)))).
Defined.

Section Winner.
Variable marketBySlug marketByConditionId : string -> option (list MarketInfo).
Variable marketTrades : string -> list Trade.



End Winner.



End FirstMainSpec.

(** * The leader finder's markets *)

Module MarketsFacts.
Import JsArray JsArrayFacts JsNum JsSlice FindLeadersMarkets.

Lemma signOfDiff_le (a b : extended) :
  signOfDiff (toDouble b) (toDouble a) <= 0 <-> ge (toDouble a) (toDouble b) = true.
Proof.
  destruct a as [x| |], b as [y| |]; simpl; try (split; (lia || done)).
  rewrite Qle_bool_iff, Qle_alt.
  destruct (y ?= x)%Q eqn:E; split; intros H; try lia; try done.
Qed.

Lemma ge_total (a b : extended) :
  ge (toDouble a) (toDouble b) = true \/ ge (toDouble b) (toDouble a) = true.
Proof.
  destruct a as [x| |], b as [y| |]; simpl; auto.
  rewrite !Qle_bool_iff. destruct (Qlt_le_dec x y) as [H|H]; [right|left]; [|done].
  by apply Qlt_le_weak.
Qed.

Lemma ge_trans (a b c : extended) :
  ge (toDouble a) (toDouble b) = true -> ge (toDouble b) (toDouble c) = true ->
  ge (toDouble a) (toDouble c) = true.
Proof.
  destruct a as [x| |], b as [y| |], c as [z| |]; simpl; try done.
  rewrite !Qle_bool_iff. intros H1 H2. by apply (Qle_trans _ y).
Qed.

Lemma byVolume_consistent : consistent byVolume.
Proof.
  unfold byVolume. split.
  - intros a b Hab. apply signOfDiff_le.
    destruct (ge_total (o_volume a) (o_volume b)) as [H|H]; [|done].
    apply signOfDiff_le in H. lia.
  - intros a b c. rewrite !signOfDiff_le. intros H1 H2. by apply (ge_trans _ _ _ H1 H2).
Qed.

Lemma slice_sublist {A : Type} start end_ (l : list A) : slice start end_ l `sublist_of` l.
Proof.
  unfold slice. etrans; [apply sublist_take|apply sublist_drop].
Qed.

Lemma StronglySorted_sublist {A : Type} (R : A -> A -> Prop) (l1 l2 : list A) :
  l1 `sublist_of` l2 -> StronglySorted R l2 -> StronglySorted R l1.
Proof.
  induction 1 as [|x l1 l2 Hsub IH|x l1 l2 Hsub IH]; intros Hs; [done| |].
  - apply StronglySorted_inv in Hs as [Hs Hx]. constructor; [by apply IH|].
    rewrite Forall_forall in Hx |- *. intros y Hy. apply Hx.
    by apply (elem_of_sublist _ _ _ Hy Hsub).
  - apply StronglySorted_inv in Hs as [Hs _]. by apply IH.
Qed.

Lemma elem_of_mapM_concat {A B : Type} (f : A -> option (list B)) l k y :
  mapM f l = Some k -> y ∈ concat k ->
  exists x ys, x ∈ l /\ f x = Some ys /\ y ∈ ys.
Proof.
  rewrite mapM_Some. induction 1 as [|x ys l k Hx _ IH]; simpl.
  - by intros ?%not_elem_of_nil.
  - intros [Hy|Hy]%elem_of_app.
    + exists x, ys. split_and!; [by left|done|done].
    + destruct (IH Hy) as (x' & ys' & ? & ? & ?). exists x', ys'.
      split_and!; [by right|done|done].
Qed.

Lemma elem_of_mapM {A B : Type} (f : A -> option B) l k y :
  mapM f l = Some k -> y ∈ k -> exists x, x ∈ l /\ f x = Some y.
Proof.
  rewrite mapM_Some. induction 1 as [|x y' l k Hx _ IH].
  - by intros ?%not_elem_of_nil.
  - intros [->|Hy]%elem_of_cons.
    + exists x. split; [by left|done].
    + destruct (IH Hy) as (x' & ? & ?). exists x'. split; [by right|done].
Qed.

Lemma orElse_truthy a b : Js.truthy b = true -> Js.truthy (Js.orElse a b) = true.
Proof. intros Hb. unfold Js.orElse. by destruct (Js.truthy a) eqn:E. Qed.

End MarketsFacts.

Module MarketsSpec.
Import JsArray JsArrayFacts JsNum JsSlice FindLeadersMarkets MarketsFacts.

Section Config.
Variable MIN_MARKET_VOLUME : double.
Variable MAX_MARKETS : Z.
Variable StringToDouble parseFloatString : string -> double.

Local Abbreviation fetch :=
  (fetchActiveMarkets MIN_MARKET_VOLUME MAX_MARKETS StringToDouble parseFloatString).

Lemma slugOf_raises event m :
  Js.truthy (m_slug m) = false -> Js.truthy (e_slug event) = false ->
  (exists b, m_question m = Js.JBool b) \/ (exists q, m_question m = Js.JNumber q) ->
  slugOf event m = None.
Proof.
  intros H1 H2 Hq. unfold slugOf, Js.orElse. rewrite H1, H2.
  by destruct Hq as [[b ->]|[q ->]].
Qed.

Lemma slugOf_is_Some event m :
  Js.stringOrAbsent (m_question m) -> is_Some (slugOf event m).
Proof.
  intros Hq. unfold slugOf.
  destruct (Js.truthy _); [by eexists|].
  destruct (m_question m); simpl in *; (done || by eexists).
Qed.

Lemma fetch_raises data event markets m :
  event ∈ data -> e_markets event = Some markets -> m ∈ markets ->
  ge (Js.ToDouble StringToDouble (m_volume m)) MIN_MARKET_VOLUME = true ->
  Js.truthy (m_active m) = true -> Js.truthy (m_closed m) = false ->
  Js.truthy (m_slug m) = false -> Js.truthy (e_slug event) = false ->
  (exists b, m_question m = Js.JBool b) \/ (exists q, m_question m = Js.JNumber q) ->
  fetch (Some data) = [].
Proof.
  intros Hev Hms Hm Hvol Hact Hclosed H1 H2 Hq. unfold fetchActiveMarkets.
  rewrite (NormalizerFacts.mapM_raises _ _ event Hev); [done|].
  unfold eventMarkets. rewrite Hms.
  apply (NormalizerFacts.mapM_raises _ _ m).
  - apply list_elem_of_In, filter_In. split; [by apply list_elem_of_In|].
    unfold wanted. by rewrite Hvol, Hact, Hclosed.
  - unfold marketOf. by rewrite slugOf_raises.
Qed.

Lemma fetch_all data :
  (forall event markets m,
     event ∈ data -> e_markets event = Some markets -> m ∈ markets ->
     Js.stringOrAbsent (m_question m)) ->
  0 <= MAX_MARKETS ->
  Z.of_nat (length (fetch (Some data)))
  = Z.min MAX_MARKETS
      (Z.of_nat (length (data ≫= fun event =>
         List.filter (wanted MIN_MARKET_VOLUME StringToDouble)
           (default [] (e_markets event))))).
Proof.
  intros Hq Hmax. unfold fetchActiveMarkets.
  assert (Hev : forall event, event ∈ data ->
            exists os,
              eventMarkets MIN_MARKET_VOLUME StringToDouble parseFloatString event
              = Some os /\
              length os
              = length (List.filter (wanted MIN_MARKET_VOLUME StringToDouble)
                          (default [] (e_markets event)))).
  { intros event Hin. unfold eventMarkets.
    destruct (e_markets event) as [markets|] eqn:Em; [|by exists []].
    simpl.
    assert (His : is_Some (mapM (marketOf parseFloatString event)
                             (List.filter (wanted MIN_MARKET_VOLUME StringToDouble)
                                markets))).
    { apply mapM_is_Some, Forall_forall. intros m Hm.
      apply list_elem_of_In, filter_In in Hm as [Hm _]. apply list_elem_of_In in Hm.
      unfold marketOf, compose.
      destruct (slugOf_is_Some event m (Hq _ _ _ Hin Em Hm)) as [s ->].
      by eexists. }
    destruct His as [os Hos]. exists os. split; [done|].
    apply mapM_Some, Forall2_length in Hos. done. }
  assert (Hall : exists pushed,
            mapM (eventMarkets MIN_MARKET_VOLUME StringToDouble parseFloatString) data
            = Some pushed /\
            length (concat pushed)
            = length (data ≫= fun event =>
                List.filter (wanted MIN_MARKET_VOLUME StringToDouble)
                  (default [] (e_markets event)))).
  { clear Hq. induction data as [|event data IH]; [by exists []|].
    destruct (Hev event) as (os & Hos & Hlen); [by left|].
    destruct IH as (pushed & Hp & Hlenp); [intros e He; apply Hev; by right|].
    exists (os :: pushed). cbn [mapM]. rewrite Hos, Hp. split; [done|].
    cbn [concat]. rewrite bind_cons. by rewrite !length_app, Hlen, Hlenp. }
  destruct Hall as (pushed & -> & <-).
  rewrite JsSliceFacts.slice_prefix, length_take, sort_length by done. lia.
Qed.

(** The markets that [fetchActiveMarkets] returns are in descending order
    of volume, and when [MAX_MARKETS] is not negative there are at most
    [MAX_MARKETS] of them.  It returns no market when the request fails,
    and none when building one raises: when a market that passes the filter
    has no slug of its own or of its event and a question that is neither a
    string nor absent.  When nothing raises and [MAX_MARKETS] is not
    negative, it returns as many markets as pass the filter, up to
    [MAX_MARKETS]. *)
Theorem fetchActiveMarkets_ranked response :
  (forall i j a b,
     (i < j)%nat -> fetch response !! i = Some a -> fetch response !! j = Some b ->
     ge (toDouble (o_volume a)) (toDouble (o_volume b)) = true) /\
  (0 <= MAX_MARKETS -> Z.of_nat (length (fetch response)) <= MAX_MARKETS) /\
  fetch None = [] /\
  (forall data event markets m,
     event ∈ data -> e_markets event = Some markets -> m ∈ markets ->
     ge (Js.ToDouble StringToDouble (m_volume m)) MIN_MARKET_VOLUME = true ->
     Js.truthy (m_active m) = true -> Js.truthy (m_closed m) = false ->
     Js.truthy (m_slug m) = false -> Js.truthy (e_slug event) = false ->
     (exists b, m_question m = Js.JBool b) \/
     (exists q, m_question m = Js.JNumber q) ->
     fetch (Some data) = []) /\
  (forall data,
     (forall event markets m,
        event ∈ data -> e_markets event = Some markets -> m ∈ markets ->
        Js.stringOrAbsent (m_question m)) ->
     0 <= MAX_MARKETS ->
     Z.of_nat (length (fetch (Some data)))
     = Z.min MAX_MARKETS
         (Z.of_nat (length (data ≫= fun event =>
            List.filter (wanted MIN_MARKET_VOLUME StringToDouble)
              (default [] (e_markets event)))))).
Proof.
  split_and!; [| |done|apply fetch_raises|apply fetch_all].
  - unfold fetchActiveMarkets.
    destruct response as [data|]; [|by intros i j a b _ ?].
    destruct (mapM _ data) as [markets|]; [|by intros i j a b _ ?].
    intros i j a b Hij Ha Hb. apply signOfDiff_le.
    change (byVolume a b <= 0).
    eapply (StronglySorted_lookup (fun a b => byVolume a b <= 0));
      [|exact Hij|done|done].
    eapply StronglySorted_sublist; [apply slice_sublist|].
    apply sort_sorts, byVolume_consistent.
  - intros Hmax. unfold fetchActiveMarkets.
    destruct response as [data|]; [|simpl; lia].
    destruct (mapM _ data) as [markets|]; [|simpl; lia].
    rewrite JsSliceFacts.slice_prefix by done. rewrite length_take. lia.
Qed.

(** Every market that [fetchActiveMarkets] returns comes from a market of
    an event of the response whose volume reads as a number at or above
    [MIN_MARKET_VOLUME], that is active and that is not closed; it has the
    market's condition id.  Its slug is the market's, else the event's, else
    the first 50 characters of the question, and ['Unknown'] when none of
    them is there; its question is the market's, else the event's title,
    else ['Unknown']: so they are never empty or missing.  Its volume and
    liquidity are what [parseFloat] reads, with [0] for what does not read
    as a number. *)
Theorem fetchActiveMarkets_wanted response o :
  o ∈ fetch response ->
  Js.truthy (o_slug o) = true /\
  Js.truthy (o_question o) = true /\
  Js.truthy (o_active o) = true /\
  exists data event markets m,
    response = Some data /\ event ∈ data /\
    e_markets event = Some markets /\ m ∈ markets /\
    ge (Js.ToDouble StringToDouble (m_volume m)) MIN_MARKET_VOLUME = true /\
    Js.truthy (m_closed m) = false /\
    o_conditionId o = m_conditionId m /\
    o_active o = m_active m /\
    o_volume o = orZero (parseFloat parseFloatString (m_volume m)) /\
    o_liquidity o = orZero (parseFloat parseFloatString (m_liquidity m)) /\
    o_slug o
    = (if Js.truthy (m_slug m) then m_slug m
       else if Js.truthy (e_slug event) then e_slug event
       else match m_question m with
            | Js.JString s =>
                if String.eqb (sliceString 0 (Some 50) s) ""
                then Js.JString "Unknown"
                else Js.JString (sliceString 0 (Some 50) s)
            | _ => Js.JString "Unknown"
            end) /\
    o_question o
    = (if Js.truthy (m_question m) then m_question m
       else if Js.truthy (e_title event) then e_title event
       else Js.JString "Unknown").
Proof.
  unfold fetchActiveMarkets. destruct response as [data|]; [|by intros ?%not_elem_of_nil].
  destruct (mapM _ data) as [pushed|] eqn:E; [|by intros ?%not_elem_of_nil].
  intros Ho.
  assert (Ho' : o ∈ sort byVolume (concat pushed))
    by (eapply elem_of_sublist; [exact Ho|apply slice_sublist]).
  clear Ho. rewrite sort_perm in Ho'.
  destruct (elem_of_mapM_concat _ _ _ _ E Ho') as (event & os & Hev & Hos & Hin).
  unfold eventMarkets in Hos. destruct (e_markets event) as [markets|] eqn:Em.
  2: { injection Hos as <-. by apply not_elem_of_nil in Hin. }
  destruct (elem_of_mapM _ _ _ _ Hos Hin) as (m & Hm & Hmo).
  apply list_elem_of_In, filter_In in Hm as [Hm Hw]. apply list_elem_of_In in Hm.
  unfold wanted in Hw. apply andb_true_iff in Hw as [Hw Hclosed].
  apply andb_true_iff in Hw as [Hvol Hactive]. apply negb_true_iff in Hclosed.
  unfold marketOf in Hmo. destruct (slugOf event m) as [slug|] eqn:Es; [|done].
  simpl in Hmo. injection Hmo as <-. simpl.
  split_and!.
  - unfold slugOf in Es.
    destruct (Js.truthy (Js.orElse (m_slug m) (e_slug event))) eqn:Et.
    + by injection Es as <-.
    + destruct (sliceOpt (m_question m)) as [q|]; [|done]. simpl in Es.
      injection Es as <-. by apply orElse_truthy.
  - by apply orElse_truthy.
  - done.
  - exists data, event, markets, m. split_and!; try done.
    + unfold slugOf, Js.orElse in Es.
      destruct (Js.truthy (m_slug m)) eqn:E1; rewrite ?E1 in Es.
      { by injection Es as <-. }
      destruct (Js.truthy (e_slug event)) eqn:E2; rewrite ?E2 in Es.
      { by injection Es as <-. }
      destruct (m_question m) as [| | | |s]; simpl in Es; try done;
        try (by injection Es as <-).
      injection Es as <-. simpl.
      by destruct (String.eqb (sliceString 0 (Some 50) s) "").
    + unfold Js.orElse.
      destruct (Js.truthy (m_question m)) eqn:E1; [by rewrite E1|].
      by destruct (Js.truthy (e_title event)) eqn:E2.
Qed.

End Config.

(** A threshold that is not a number ([LEADER_MIN_VOLUME] does not read as
    one) lets no market through: [fetchActiveMarkets] returns no market,
    whatever the response. *)
Theorem fetchActiveMarkets_no_threshold
    MAX_MARKETS StringToDouble parseFloatString response :
  fetchActiveMarkets NaN MAX_MARKETS StringToDouble parseFloatString response = [].
Proof.
  unfold fetchActiveMarkets. destruct response as [data|]; [|done].
  assert (H : forall data,
            mapM (eventMarkets NaN StringToDouble parseFloatString) data
            = Some (const [] <$> data)).
  { clear. intros data. induction data as [|event data IH]; [done|].
    cbn [mapM]. rewrite IH. unfold eventMarkets at 1.
    destruct (e_markets event) as [markets|]; [|done].
    assert (Hf : List.filter (wanted NaN StringToDouble) markets = []).
    { clear. induction markets as [|m markets IH]; [done|]. simpl.
      unfold wanted at 1.
      by destruct (Js.ToDouble StringToDouble (m_volume m)). }
    by rewrite Hf. }
  rewrite H.
  assert (Hc : concat (const (@nil MarketObj) <$> data) = []).
  { clear. induction data as [|e data IH]; [done|]. by rewrite fmap_cons. }
  rewrite Hc. unfold slice. cbn [sort]. by rewrite drop_nil, take_nil.
Qed.

Lemma fetchActiveMarkets_wanted_witness :
  sampleTop ∈ fetchActiveMarkets (Fin 1000) 100 sampleRead sampleRead (Some sampleEvents) /\
  Js.truthy (o_slug sampleTop) = true.
Proof.
  assert (H : sampleTop
    ∈ fetchActiveMarkets (Fin 1000) 100 sampleRead sampleRead (Some sampleEvents)).
  { change (fetchActiveMarkets (Fin 1000) 100 sampleRead sampleRead (Some sampleEvents))
      with sampleMarkets. unfold sampleMarkets, sampleTop. by left. }
  split; [exact H|].
  exact (proj1 (fetchActiveMarkets_wanted _ _ _ _ _ _ H)).
Defined.

End MarketsSpec.
